(* ===== verification/_CoqProject ===== *)
-Q . S2P
Prelude.v
RustStd.v
Effects.v
Kube.v
Workload.v
Version.v
Toml.v
Tuning.v
RebalancerClient.v
Rebalance.v
LeaderElection.v
Utf8.v
CaBundle.v
ClusterCa.v
BrokerKeystore.v
UserTls.v
Listeners.v
ListenerCheck.v
Topic.v
Quantity.v
NodePool.v
ListenerObjects.v
Quorum.v
Advertised.v
NetworkPolicy.v
KafkaSpec.v
ListenerSecrets.v
Logging.v
Metrics.v
BrokerToml.v
ConfigFile.v
StorageChange.v
Rollout.v
PodRender.v
PodFacts.v
ConfigHash.v
KafkaPass.v
KafkaSafety.v
DelegationToken.v
UserAcl.v
User.v
Drain.v
PoolPass.v
PoolSafety.v
Connector.v
ConnectorFacts.v
SchemaRegistry.v
RegistryFacts.v
Gateway.v
GatewayPass.v
GatewayFacts.v
Leadership.v
Process.v
Clients.v
Controllers.v
