(* ===== verification/Prelude.v ===== *)
(** * Verification of krabka-operator

    krabka-operator is a Kubernetes operator in Rust that runs Kafka clusters.
    Each custom resource (Kafka, KafkaNodePool, KafkaTopic, KafkaUser,
    KafkaRebalance, ...) has a controller whose [reconcile] function reads the
    resource, calls the API server, the brokers' admin API or the rebalancer, and
    writes a status; the runtime repeats passes until the world is as declared.
    One replica of the operator is active at a time, by a lease.  Sources are
    under src/crates/krabka-operator/src/; paths below are relative to it.

    ** How the code is modelled

    Pure functions are functions.  A pass is a [prog] (Effects.v): a tree of the
    calls it makes to code outside the repository, which continues with the
    answer.  Nothing is assumed of the answers: a theorem over [all_runs] holds
    whatever the services answer, [justified] speaks of what came before a call
    in the log, and [throughout] of the outside state wherever a pass is cut.
    The [?] operator is [←?] and [let?]; error values are [result]; a panic is
    [Err None].  Machine integers are [Z] with the width written out (checked,
    saturating or wrapping as the source does; a release build wraps), strings
    are byte strings, BTreeMaps are [gmap]s read in key order.  Third-party code
    (X.509, base64, SHA-256, principals, UUIDs, time extents) is a parameter or a
    class with the laws that a theorem uses; [TimeLaws] has an instance.

    ** Files

    - Prelude.v, RustStd.v, Effects.v, Kube.v, Workload.v: results, options, lists
      and sorting; machine integers and the string functions of the Rust standard
      library; programs over calls; the fields of API objects, conditions, actions
      and errors (controller/common.rs); Services, pods, StatefulSets and
      Deployments, with the well-formedness of a pod ([pod_wf]).
    - Version.v: version.rs and the metadata-version step of controller/kafka.rs:
      [evaluate] accepts exactly the pairs that resolve, are not newer than the
      binary, are supported, and go below the finalized version only as far as an
      online downgrade may.
    - RebalancerClient.v, Rebalance.v: rebalancer_client.rs,
      controller/rebalance.rs: execution only on approval, and the life
      cycle of a rebalance, step by step from the answers of the rebalancer.
    - LeaderElection.v, Leadership.v: leader_election.rs, with replicas that run in any
      interleaving against a versioned store: a replacement overwrites only what was
      read; the guard with its [wait] and [release]; and replicas in real time: the last
      deadline check that a replica passes after its lease was taken over comes no
      later than its renewal call took, plus the clock skew; it leads on until the
      check after it, one round of renewal later.
    - Utf8.v, CaBundle.v, ClusterCa.v, BrokerKeystore.v: controller/cluster_ca.rs.
      Bundles read back as written; a CA rotation keeps its invariant at every cut,
      never drops trust early and replays; every broker gets a certificate that
      fits, and renewal changes nothing but what is about to expire.
    - UserTls.v, UserAcl.v, User.v, DelegationToken.v: controller/user_tls.rs,
      controller/user.rs, controller/user_delegation_token.rs: credentials, ACLs,
      quotas and tokens are changed only as declared, and the status is truthful.
    - Topic.v: controller/topic.rs, with the same two kinds of theorem.
    - Listeners.v, ListenerCheck.v, ListenerObjects.v, Advertised.v,
      ListenerSecrets.v: controller/listeners.rs: what [validate_listeners]
      accepts, the Services, Ingresses and Routes, the addresses that brokers
      advertise and the names in their certificates, the Secrets listeners use.
    - Toml.v, BrokerToml.v, ConfigFile.v: the broker.toml of each node as text, a
      reader for it, and the theorems that a file of clean texts reads back as meant and names
      exactly the super users that are declared.
    - Tuning.v, KafkaSpec.v, NetworkPolicy.v, Logging.v, Metrics.v: crd/kafka.rs and
      the smaller renderers: tuning in bounds, a network policy that is exact.
    - Quorum.v: the identity of the cluster and of its quorum in
      controller/common.rs: one operation refines a write-once store, and concurrent
      passes, interleaved call by call, keep what is stored, up to a race that is named.
    - Rollout.v, ConfigHash.v: the rollout of pools and the text that is hashed: one
      pool at a time, completion.
    - KafkaPass.v, KafkaSafety.v: the pass of controller/kafka.rs, which composes
      the parts above, and its ordering: pools are stamped for a configuration only
      after it was applied, conditions say what the pass did.
    - Quantity.v, NodePool.v, StorageChange.v, PodRender.v, PodFacts.v, Drain.v,
      PoolPass.v, PoolSafety.v: controller/kafka_node_pool.rs: the checks, the
      StatefulSet with its pods, the drain of leaving nodes, and the pass that
      applies the one only after the others.
    - Connector.v, ConnectorFacts.v: controller/connector.rs: one worker from what
      was read, with the rights it needs.
    - SchemaRegistry.v, RegistryFacts.v: controller/schema_registry.rs: the order of
      a pass, its pods and the names in its certificate.
    - Gateway.v, GatewayPass.v, GatewayFacts.v: controller/grpc_gateway.rs: the order
      of a pass, webhooks that are authenticated as declared, the list of targets the
      gateway may call, its pods and arguments.
    - Process.v: run.rs, health.rs, config.rs: the configuration and its checks, and
      the life of the process around its lease.
    - Clients.v: context.rs and the requests of rebalancer_client.rs: a cached client
      serves only the cluster, address and identity it was connected for.
    - Controllers.v: the [run] of each controller: its watches, which passes end
      without asking for another turn, and what wakes the controller then.

    ** Fuel

    Loops of the source that are bounded by their input are structural here.  The
    others carry fuel: the PEM scanner and the readers of Toml.v get the length of
    their input plus one (each step consumes a character); the searches of
    [operator_listener] get one step more than there are taken values
    ([operator_listener_fresh] proves they end); the acquire and renew loops, which
    the source runs forever, take the number of rounds as an argument and their
    theorems hold for every number.

    ** Not modelled

    The scheduler of the controller runtime (its queue and back-off; the watches that it
    serves are in Controllers.v, where it is the class [ControllerRuntime]), tracing, the
    registration of metrics, the HTTP server, the command line and the export of CRDs:
    I/O and glue.
    CRD schemas and serialization are derived by macros; the records here have the
    fields of the structs, and defaults of serde are applied where the code reads
    them. *)

From stdpp Require Export prelude strings gmap list sorting pretty.
From Stdlib Require Export Ascii.

#[global] Set Default Goal Selector "!".

Declare Scope krabka_scope.
Delimit Scope krabka_scope with krabka.
Global Open Scope krabka_scope.

(** ** Results

    Rust's [Result<A, E>], with the value first, and the [?] operator. *)
Inductive result (A E : Type) : Type :=
  | Ok (a : A)
  | Err (e : E).
Arguments Ok {A E} _.
Arguments Err {A E} _.

#[global] Instance result_eq_dec `{EqDecision A, EqDecision E} :
  EqDecision (result A E).
Proof. solve_decision. Defined.

(** [let? x := r in k] is the source's [let x = r?; k]. *)
Notation "'let?' x ':=' r 'in' k" :=
  (match r with Ok x => k | Err e => Err e end)
  (at level 10, x pattern, r at level 200, k at level 200,
   format "'[v' 'let?'  x  ':='  r  'in' '/' k ']'") : krabka_scope.

(** [if? r in k] is the source's [r?; k] for a result without a value. *)
Notation "'if?' r 'in' k" :=
  (match r with Ok _ => k | Err e => Err e end)
  (at level 10, r at level 200, k at level 200) : krabka_scope.

Definition is_ok {A E} (r : result A E) : bool :=
  match r with Ok _ => true | Err _ => false end.

(** [Result::ok], [Result::map_err], [Option::ok_or]. *)
Definition result_ok {A E} (r : result A E) : option A :=
  match r with Ok a => Some a | Err _ => None end.

Definition map_err {A E F} (f : E → F) (r : result A E) : result A F :=
  match r with Ok a => Ok a | Err e => Err (f e) end.

Definition ok_or {A E} (o : option A) (e : E) : result A E :=
  match o with Some a => Ok a | None => Err e end.

(** [if let Some(a) = o { f(a)?; }] *)
Definition on_some {A E} (o : option A) (f : A → result unit E) : result unit E :=
  from_option f (Ok tt) o.

(** A check of every element, in order, up to the first failure. *)
Fixpoint check_all {A E} (f : A → result unit E) (l : list A) : result unit E :=
  match l with
  | [] => Ok tt
  | a :: l => if? f a in check_all f l
  end.

Lemma check_all_Ok {A E} (f : A → result unit E) l : check_all f l = Ok tt ↔ ∀ a, a ∈ l → f a = Ok tt.
Proof.
  induction l as [|a l IH]; cbn [check_all]; [split; [by intros _ a H; inversion H|done]|].
  destruct (f a) as [[]|e] eqn:Ha.
  - rewrite IH. split; [intros Hl x [->|Hx]%elem_of_cons; auto|intros Hl x Hx; apply Hl; by right].
  - split; [done|]. intros Hl. rewrite (Hl a) in Ha by by left. done.
Qed.

(** ** Options, as the source's combinators read *)
Definition or_else {A} (o1 o2 : option A) : option A :=
  match o1 with Some a => Some a | None => o2 end.

Definition and_then {A B} (o : option A) (f : A → option B) : option B :=
  match o with Some a => f a | None => None end.

Definition opt_map {A B} (f : A → B) (o : option A) : option B :=
  match o with Some a => Some (f a) | None => None end.

Definition is_some_and {A} (f : A → bool) (o : option A) : bool :=
  match o with Some a => f a | None => false end.

Definition is_none_or {A} (f : A → bool) (o : option A) : bool :=
  match o with Some a => f a | None => true end.

Definition option_filter {A} (f : A → bool) (o : option A) : option A :=
  match o with Some a => if f a then Some a else None | None => None end.

Definition opt_is_some {A} (o : option A) : bool :=
  match o with Some _ => true | None => false end.

(** ** Lists *)

(** [iter().find(p)] *)
Fixpoint find_first {A} (p : A → bool) (l : list A) : option A :=
  match l with
  | [] => None
  | x :: l => if p x then Some x else find_first p l
  end.

(** [iter().filter_map(f).collect()] *)
Fixpoint filter_map {A B} (f : A → option B) (l : list A) : list B :=
  match l with
  | [] => []
  | x :: l => match f x with Some y => y :: filter_map f l | None => filter_map f l end
  end.

Lemma filter_map_app {A B} (f : A → option B) l1 l2 :
  filter_map f (l1 ++ l2) = filter_map f l1 ++ filter_map f l2.
Proof. induction l1 as [|x l1 IH]; cbn; [done|]. destruct (f x); cbn; by rewrite IH. Qed.

(** [iter().max_by_key(f)]: the last of the maximal elements. *)
Fixpoint max_by_key {A} (f : A → Z) (l : list A) : option A :=
  match l with
  | [] => None
  | x :: l =>
      match max_by_key f l with
      | Some y => if (f x <=? f y)%Z then Some y else Some x
      | None => Some x
      end
  end.

(** [iter().rev().find(p)] *)
Definition find_last {A} (p : A → bool) (l : list A) : option A :=
  find_first p (reverse l).

(** [if let Some(x) = v.iter_mut().find(p) { *x = f(x) }]: only the first
    match is rewritten. *)
Fixpoint update_first {A} (p : A → bool) (f : A → A) (l : list A) : list A :=
  match l with
  | [] => []
  | x :: l => if p x then f x :: l else x :: update_first p f l
  end.

(** Stable insertion sort for [sort_by]: [le] is the order of the source's
    comparator, and equal keys keep their order. *)
Section sorting.
Context {A : Type} (le : A → A → bool).

Fixpoint insert_sorted (x : A) (l : list A) : list A :=
  match l with
  | [] => [x]
  | y :: l' => if le x y then x :: l else y :: insert_sorted x l'
  end.

Fixpoint sort_by (l : list A) : list A :=
  match l with
  | [] => []
  | x :: l => insert_sorted x (sort_by l)
  end.
End sorting.

(** [Vec::dedup]: runs of equal elements become one. *)
Fixpoint dedup {A} `{EqDecision A} (l : list A) : list A :=
  match l with
  | [] => []
  | x :: l' => match l' with
               | y :: _ => if bool_decide (x = y) then dedup l' else x :: dedup l'
               | [] => [x]
               end
  end.

(** [windows(2)] *)
Fixpoint windows2 {A} (l : list A) : list (A * A) :=
  match l with
  | x :: ((y :: _) as l') => (x, y) :: windows2 l'
  | _ => []
  end.

(** ** Lemmas on these *)

Lemma and_then_Some {A B} (o : option A) (f : A → option B) b :
  and_then o f = Some b ↔ ∃ a, o = Some a ∧ f a = Some b.
Proof. destruct o; cbn; naive_solver. Qed.

Lemma opt_map_Some {A B} (f : A → B) o b :
  opt_map f o = Some b ↔ ∃ a, o = Some a ∧ b = f a.
Proof. destruct o; cbn; naive_solver. Qed.

Lemma opt_is_some_true {A} (o : option A) : opt_is_some o = true ↔ is_Some o.
Proof. destruct o; cbn; split; done. Qed.

Lemma dedup_cons2 {A} `{EqDecision A} (a b : A) l :
  dedup (a :: b :: l) = if bool_decide (a = b) then dedup (b :: l) else a :: dedup (b :: l).
Proof. done. Qed.

Lemma elem_of_dedup {A} `{EqDecision A} (l : list A) x : x ∈ dedup l ↔ x ∈ l.
Proof.
  induction l as [|a [|b l] IH]; [done|done|]. rewrite dedup_cons2.
  case_bool_decide as Hab; [subst b|]; rewrite ?(elem_of_cons _ x a), IH; set_solver.
Qed.

Lemma NoDup_snoc {A} (xs : list A) x : NoDup (xs ++ [x]) ↔ NoDup xs ∧ x ∉ xs.
Proof. rewrite NoDup_app, NoDup_cons. set_solver by eauto using NoDup_nil_2. Qed.

(** Keys without duplicates identify the element. *)
Lemma NoDup_fmap_eq {A B} (f : A → B) l x y :
  NoDup (f <$> l) → x ∈ l → y ∈ l → f x = f y → x = y.
Proof.
  induction l as [|a l IH]; [set_solver|]. rewrite fmap_cons, NoDup_cons, !elem_of_cons.
  intros [Ha Hnd] [->|Hx] [->|Hy] Heq; [done| | |by apply IH];
    (destruct Ha; apply list_elem_of_fmap; eauto).
Qed.

Lemma find_first_Some {A} (p : A → bool) l x :
  find_first p l = Some x → x ∈ l ∧ p x = true.
Proof.
  induction l as [|y l IH]; simpl; [done|].
  destruct (p y) eqn:Hp; intros; simplify_eq; [set_solver|].
  destruct IH; [done|set_solver].
Qed.

Lemma find_first_None {A} (p : A → bool) l :
  find_first p l = None ↔ ∀ x, x ∈ l → p x = false.
Proof.
  induction l as [|y l IH]; simpl; [set_solver|].
  destruct (p y) eqn:Hp; split.
  - done.
  - intros H. rewrite (H y) in Hp; [done|set_solver].
  - intros Hn x Hx. apply elem_of_cons in Hx as [->|Hx]; [done|].
    by apply IH.
  - intros H. apply IH. set_solver.
Qed.

Lemma find_first_exists {A} (p : A → bool) l x :
  x ∈ l → p x = true → ∃ y, find_first p l = Some y.
Proof.
  intros Hx Hp. destruct (find_first p l) eqn:E; [eauto|].
  rewrite find_first_None in E. rewrite E in Hp; done.
Qed.

Lemma find_last_Some {A} (p : A → bool) l x :
  find_last p l = Some x → x ∈ l ∧ p x = true.
Proof.
  unfold find_last. intros H. apply find_first_Some in H as [H ?].
  split; [|done]. by rewrite elem_of_reverse in H.
Qed.

Lemma elem_of_List_filter {A} (f : A → bool) l x : x ∈ List.filter f l ↔ x ∈ l ∧ f x = true.
Proof. rewrite !list_elem_of_In. apply filter_In. Qed.

Lemma filter_map_nil {A B} (f : A → option B) l : filter_map f l = [] ↔ ∀ x, x ∈ l → f x = None.
Proof.
  induction l as [|a l IH]; cbn; [set_solver|].
  destruct (f a) eqn:Ha; split.
  - done.
  - intros Hf. rewrite Hf in Ha; [done|set_solver].
  - intros Hl x [->|Hx]%elem_of_cons; [done|]. by apply IH.
  - intros Hf. apply IH. set_solver.
Qed.

Lemma elem_of_filter_map {A B} (f : A → option B) l y :
  y ∈ filter_map f l ↔ ∃ x, x ∈ l ∧ f x = Some y.
Proof.
  induction l as [|a l IH]; cbn; [set_solver|].
  destruct (f a) eqn:Ha; rewrite ?elem_of_cons, IH; split.
  - intros [->|(x & Hx & Hf)]; [exists a|exists x]; set_solver.
  - intros (x & [->|Hx]%elem_of_cons & Hf); [left; congruence|eauto].
  - intros (x & Hx & Hf). exists x. set_solver.
  - intros (x & [->|Hx]%elem_of_cons & Hf); [congruence|eauto].
Qed.

Section sorting_lemmas.
Context {A : Type} (le : A → A → bool).

Lemma insert_sorted_perm x l : insert_sorted le x l ≡ₚ x :: l.
Proof.
  induction l as [|y l IH]; simpl; [done|].
  destruct (le x y); [done|]. rewrite IH. apply Permutation_swap.
Qed.

Lemma sort_by_perm l : sort_by le l ≡ₚ l.
Proof.
  induction l as [|x l IH]; simpl; [done|].
  by rewrite insert_sorted_perm, IH.
Qed.

Lemma elem_of_sort_by x l : x ∈ sort_by le l ↔ x ∈ l.
Proof. by rewrite sort_by_perm. Qed.

Hypothesis le_total : ∀ x y, le x y = false → le y x = true.
Hypothesis le_trans : ∀ x y z, le x y = true → le y z = true → le x z = true.

Lemma insert_sorted_sorted x l :
  StronglySorted (λ a b, le a b = true) l →
  StronglySorted (λ a b, le a b = true) (insert_sorted le x l).
Proof.
  induction l as [|y l IH]; simpl.
  - intros _. repeat constructor.
  - intros Hs. apply StronglySorted_cons in Hs as [Hy Hl].
    destruct (le x y) eqn:Hxy.
    + apply StronglySorted_cons. split.
      * constructor; [done|]. eapply Forall_impl; [exact Hy|]. simpl. eauto.
      * by apply StronglySorted_cons.
    + apply StronglySorted_cons. split; [|by apply IH].
      rewrite insert_sorted_perm. constructor; auto.
Qed.

Lemma sort_by_sorted l : StronglySorted (λ a b, le a b = true) (sort_by le l).
Proof.
  induction l as [|x l IH]; simpl; [constructor|].
  by apply insert_sorted_sorted.
Qed.
End sorting_lemmas.

(** ** Pairs of different positions *)
Section pairwise.
Context {A : Type} (R : A → A → Prop).

Lemma StronglySorted_symmetric_perm l l' :
  (∀ x y, R x y → R y x) → l ≡ₚ l' → StronglySorted R l → StronglySorted R l'.
Proof.
  intros Hsym. induction 1 as [|x l l' Hl IH|x y l|l1 l2 l3 _ IH1 _ IH2]; [done| | |by auto].
  - rewrite !StronglySorted_cons. intros [Hx Hs]. split; [by rewrite <- Hl|by apply IH].
  - rewrite !StronglySorted_cons, !Forall_cons. naive_solver.
Qed.

Lemma StronglySorted_symmetric_lookup l i j x y :
  (∀ x y, R x y → R y x) → StronglySorted R l →
  l !! i = Some x → l !! j = Some y → i ≠ j → R x y.
Proof.
  intros Hsym Hs. revert i j. induction Hs as [|z l Hs IH Hz]; intros i j Hi Hj Hne; [done|].
  rewrite Forall_forall in Hz.
  destruct i as [|i], j as [|j]; cbn in *; [by destruct Hne|simplify_eq..|eauto].
  - apply Hz, list_elem_of_lookup. eauto.
  - apply Hsym, Hz, list_elem_of_lookup. eauto.
Qed.

Lemma StronglySorted_impl (R' : A → A → Prop) l :
  (∀ x y, R x y → R' x y) → StronglySorted R l → StronglySorted R' l.
Proof.
  intros HR. induction 1; constructor; [done|]. eapply Forall_impl; [done|]. auto.
Qed.

Lemma StronglySorted_Forall2 {B} (P : B → A → Prop) (S : B → B → Prop) k l :
  (∀ x y a b, P x a → P y b → R a b → S x y) → Forall2 P k l →
  StronglySorted R l → StronglySorted S k.
Proof.
  intros HS. induction 1 as [|x a k l Hx Hk IH]; intros Hs; [constructor|].
  apply StronglySorted_cons in Hs as [Ha Hs]. constructor; [by apply IH|].
  clear IH Hs. induction Hk as [|y b k l Hy Hk IH]; [constructor|].
  apply Forall_cons in Ha as [Hab Ha]. constructor; [eauto|auto].
Qed.

(** Consecutive pairs in order, with [step] carrying the relation across. *)
Lemma windows2_StronglySorted (P : A → Prop) l :
  (∀ x y z, P y → R x y → R y z → R x z) → Forall P l →
  (∀ x y, (x, y) ∈ windows2 l → R x y) → StronglySorted R l.
Proof.
  intros Htrans. induction l as [|x l IH]; intros HP Hw; [constructor|].
  apply Forall_cons in HP as [_ HP]. destruct l as [|y l]; [repeat constructor|].
  assert (StronglySorted R (y :: l)) as Hs.
  { apply IH; [done|]. intros a b Hab. apply Hw. cbn. by right. }
  apply StronglySorted_cons. split; [|done].
  assert (R x y) as Hxy by (apply Hw; cbn; by left).
  apply Forall_cons in HP as [Hy _]. constructor; [done|].
  apply StronglySorted_cons in Hs as [Hyl _]. eapply Forall_impl; [exact Hyl|]. cbn. eauto.
Qed.
End pairwise.

Lemma elem_of_concat_map {A B} (f : A → list B) l z :
  z ∈ concat (map f l) ↔ ∃ x, x ∈ l ∧ z ∈ f x.
Proof.
  induction l as [|x l IH]; cbn; [set_solver|]. rewrite elem_of_app, IH. set_solver.
Qed.

Lemma NoDup_concat_map {A B} (f : A → list B) l :
  (∀ x, x ∈ l → NoDup (f x)) →
  StronglySorted (λ x y, ∀ z, z ∈ f x → z ∉ f y) l → NoDup (concat (map f l)).
Proof.
  intros Hf. induction 1 as [|x l Hs IH Hx]; cbn; [constructor|].
  apply NoDup_app. split; [apply Hf; set_solver|]. split; [|apply IH; set_solver].
  intros z Hz Hin. apply elem_of_concat_map in Hin as (y & Hy & Hzy).
  rewrite Forall_forall in Hx. by eapply Hx.
Qed.

Lemma max_by_key_Some {A} (f : A → Z) l x :
  max_by_key f l = Some x → x ∈ l ∧ ∀ y, y ∈ l → (f y ≤ f x)%Z.
Proof.
  revert x. induction l as [|z l IH]; intros x; cbn; [done|].
  destruct (max_by_key f l) as [w|] eqn:Hw.
  - destruct (IH w eq_refl) as [Hin Hmax].
    destruct (f z <=? f w)%Z eqn:Hzw; intros [= <-]; setoid_rewrite elem_of_cons.
    + apply Z.leb_le in Hzw. split; [by right|]. intros y [->|Hy]; auto.
    + apply Z.leb_gt in Hzw. split; [by left|]. intros y [->|Hy]; [lia|].
      specialize (Hmax y Hy). lia.
  - intros [= <-]. assert (l = []) as ->.
    { destruct l as [|z' l]; [done|]. cbn in Hw. by repeat case_match. }
    setoid_rewrite elem_of_cons. split; [by left|]. intros y [->|Hy]; [lia|by apply not_elem_of_nil in Hy].
Qed.

Lemma max_by_key_None {A} (f : A → Z) l : max_by_key f l = None → l = [].
Proof. destruct l; [done|]. cbn. by repeat case_match. Qed.
