(* ===== verification/RustStd.v ===== *)
(** * The Rust language and standard library, as far as the operator uses them

    Strings are byte strings (a Rust [str] is UTF-8, an [ascii] is one byte),
    machine integers are [Z] with their bounds written out, a [BTreeMap] is a
    [gmap] that is iterated in key order. *)

From S2P Require Import Prelude.
Local Open Scope Z_scope.

(** ** Machine integers *)
Definition i32_min : Z := -2147483648.
Definition i32_max : Z := 2147483647.
Definition u32_max : Z := 4294967295.
Definition i64_min : Z := -9223372036854775808.
Definition i64_max : Z := 9223372036854775807.
Definition u64_max : Z := 18446744073709551615.
Definition i128_max : Z := 170141183460469231731687303715884105727.
Definition i128_min : Z := -170141183460469231731687303715884105728.

Definition in_range (lo hi z : Z) : bool := (lo <=? z) && (z <=? hi).
Definition in_i32 : Z → bool := in_range i32_min i32_max.

Definition checked (lo hi z : Z) : option Z :=
  if in_range lo hi z then Some z else None.
Definition checked_add_i32 (a b : Z) : option Z := checked i32_min i32_max (a + b).
Definition checked_sub_i32 (a b : Z) : option Z := checked i32_min i32_max (a - b).
Definition saturate (lo hi z : Z) : Z := Z.max lo (Z.min hi z).
(** Arithmetic of a release build: two's complement. *)
Definition wrap_i32 (z : Z) : Z := (z + 2 ^ 31) mod 2 ^ 32 - 2 ^ 31.
Definition wrap_i64 (z : Z) : Z := (z + 2 ^ 63) mod 2 ^ 64 - 2 ^ 63.
Definition saturating_add_i32 (a b : Z) : Z := saturate i32_min i32_max (a + b).

(** ** Characters *)
Definition code (c : ascii) : Z := Z.of_nat (nat_of_ascii c).
Definition is_ascii_digit (c : ascii) : bool := (48 <=? code c) && (code c <=? 57).
Definition is_ascii_upper (c : ascii) : bool := (65 <=? code c) && (code c <=? 90).
Definition is_ascii_lower (c : ascii) : bool := (97 <=? code c) && (code c <=? 122).
Definition is_ascii_alphanumeric (c : ascii) : bool :=
  is_ascii_digit c || is_ascii_upper c || is_ascii_lower c.
Definition ascii_lower (c : ascii) : ascii :=
  if is_ascii_upper c then ascii_of_nat (nat_of_ascii c + 32) else c.

(** ** Strings *)
Fixpoint str_all (p : ascii → bool) (s : string) : bool :=
  match s with EmptyString => true | String c s => p c && str_all p s end.
Definition str_exists (p : ascii → bool) (s : string) : bool :=
  negb (str_all (λ c, negb (p c)) s).
Fixpoint str_map (f : ascii → ascii) (s : string) : string :=
  match s with EmptyString => EmptyString | String c s => String (f c) (str_map f s) end.

Definition str_eqb (a b : string) : bool := bool_decide (a = b).
Definition is_empty (s : string) : bool := str_eqb s "".
Definition to_ascii_lowercase : string → string := str_map ascii_lower.
Definition eq_ignore_ascii_case (a b : string) : bool :=
  str_eqb (to_ascii_lowercase a) (to_ascii_lowercase b).

Fixpoint strip_prefix (p s : string) : option string :=
  match p, s with
  | EmptyString, _ => Some s
  | String a p, String b s => if Ascii.eqb a b then strip_prefix p s else None
  | _, EmptyString => None
  end.
Definition starts_with (p s : string) : bool := opt_is_some (strip_prefix p s).

Fixpoint strip_suffix (suf s : string) : option string :=
  if str_eqb s suf then Some ""
  else match s with
       | EmptyString => None
       | String c s => String c <$> strip_suffix suf s
       end.
Definition ends_with (suf s : string) : bool := opt_is_some (strip_suffix suf s).

(** [s.split(p)] over a character predicate. *)
Fixpoint split_on (p : ascii → bool) (s : string) : list string :=
  match s with
  | EmptyString => [""]
  | String c s =>
      if p c then "" :: split_on p s
      else match split_on p s with
           | [] => [String c ""]
           | w :: ws => String c w :: ws
           end
  end.
Definition split_char (c : ascii) : string → list string := split_on (Ascii.eqb c).

(** [s.split_once(c)], [s.rsplit_once(c)], [s.split_once("..")]. *)
Fixpoint split_once (c : ascii) (s : string) : option (string * string) :=
  match s with
  | EmptyString => None
  | String a s =>
      if Ascii.eqb c a then Some ("", s)
      else (λ '(l, r), (String a l, r)) <$> split_once c s
  end.

Fixpoint rsplit_once (c : ascii) (s : string) : option (string * string) :=
  match s with
  | EmptyString => None
  | String a s =>
      match rsplit_once c s with
      | Some (l, r) => Some (String a l, r)
      | None => if Ascii.eqb c a then Some ("", s) else None
      end
  end.

Fixpoint split_once_str (sep s : string) : option (string * string) :=
  match strip_prefix sep s with
  | Some rest => Some ("", rest)
  | None =>
      match s with
      | EmptyString => None
      | String a s => (λ '(l, r), (String a l, r)) <$> split_once_str sep s
      end
  end.

(** [s.trim()]: the UTF-8 encodings of the Unicode [White_Space] characters.
    UTF-8 is self-synchronising, so matching bytes matches characters. *)
Definition bytes (l : list nat) : string :=
  foldr (λ n, String (ascii_of_nat n)) "" l.
Definition white_space : list string :=
  map (λ n, bytes [n]) [9; 10; 11; 12; 13; 32]%nat ++
  [bytes [194; 133]; bytes [194; 160]; bytes [225; 154; 128]]%nat ++
  map (λ n, bytes [226; 128; n]%nat)
    [128; 129; 130; 131; 132; 133; 134; 135; 136; 137; 138; 168; 169; 175]%nat ++
  [bytes [226; 129; 159]; bytes [227; 128; 128]]%nat.

Fixpoint first_some {A B} (f : A → option B) (l : list A) : option B :=
  match l with
  | [] => None
  | x :: l => match f x with Some y => Some y | None => first_some f l end
  end.

Fixpoint strip_while (strip : string → option string) (fuel : nat) (s : string) : string :=
  match fuel with
  | O => s
  | S fuel => match strip s with Some s' => strip_while strip fuel s' | None => s end
  end.
Definition trim_start (s : string) : string :=
  strip_while (λ s, first_some (λ w, strip_prefix w s) white_space) (String.length s) s.
Definition trim_end (s : string) : string :=
  strip_while (λ s, first_some (λ w, strip_suffix w s) white_space) (String.length s) s.
Definition trim (s : string) : string := trim_end (trim_start s).

(** ** Integers as text *)
Fixpoint parse_digits (acc : Z) (s : string) : option Z :=
  match s with
  | EmptyString => Some acc
  | String c s =>
      if is_ascii_digit c then parse_digits (acc * 10 + (code c - 48)) s else None
  end.
Definition parse_nonempty_digits (s : string) : option Z :=
  if is_empty s then None else parse_digits 0 s.

(** [str::parse::<uN>]: an optional [+], then digits, in range. *)
Definition parse_unsigned (hi : Z) (s : string) : option Z :=
  match parse_nonempty_digits (default s (strip_prefix "+" s)) with
  | Some z => checked 0 hi z
  | None => None
  end.

(** [str::parse::<iN>]: an optional [+] or [-], then digits, in range. *)
Definition parse_signed (lo hi : Z) (s : string) : option Z :=
  match strip_prefix "-" s with
  | Some r =>
      match parse_nonempty_digits r with
      | Some z => checked lo hi (- z)
      | None => None
      end
  | None =>
      match parse_nonempty_digits (default s (strip_prefix "+" s)) with
      | Some z => checked lo hi z
      | None => None
      end
  end.

Definition parse_u32 : string → option Z := parse_unsigned u32_max.
Definition parse_u64 : string → option Z := parse_unsigned u64_max.
Definition parse_i32 : string → option Z := parse_signed i32_min i32_max.
Definition parse_i64 : string → option Z := parse_signed i64_min i64_max.
Definition parse_i128 : string → option Z := parse_signed i128_min i128_max.

(** [{}] on an integer. *)
Definition display_Z (z : Z) : string := pretty z.

(** [{:?}] on a [str]: quoted, with quotes, backslashes and control bytes
    escaped; a byte of a printable non-ASCII character is kept. *)
Definition hex_digit (n : nat) : ascii :=
  ascii_of_nat (if (n <? 10)%nat then 48 + n else 87 + n)%nat.
Definition escape_byte (c : ascii) : string :=
  let n := nat_of_ascii c in
  if (n =? 34)%nat then bytes [92; 34]%nat
  else if (n =? 92)%nat then bytes [92; 92]%nat
  else if (n =? 0)%nat then bytes [92; 48]%nat
  else if (n =? 9)%nat then bytes [92; 116]%nat
  else if (n =? 10)%nat then bytes [92; 110]%nat
  else if (n =? 13)%nat then bytes [92; 114]%nat
  else if (n <? 32)%nat || (n =? 127)%nat then
    bytes [92; 117; 123]%nat +:+
    (if (n <? 16)%nat then "" else String (hex_digit (n / 16)) "") +:+
    String (hex_digit (n mod 16)) "" +:+ bytes [125]%nat
  else String c "".
Fixpoint escape (s : string) : string :=
  match s with EmptyString => "" | String c s => escape_byte c +:+ escape s end.
Definition quote : string := bytes [34]%nat.
Definition debug_str (s : string) : string := quote +:+ escape s +:+ quote.

(** [v.join(sep)], [v.concat()]. *)
Fixpoint join (sep : string) (l : list string) : string :=
  match l with
  | [] => ""
  | [s] => s
  | s :: l => s +:+ sep +:+ join sep l
  end.
Definition concat_str (l : list string) : string := foldr String.append "" l.
Definition display_bool (b : bool) : string := if b then "true" else "false".

(** [{:?}] on a slice of integers. *)
Definition debug_Zs (l : list Z) : string := "[" +:+ join ", " (map display_Z l) +:+ "]".
Definition debug_strs (l : list string) : string := "[" +:+ join ", " (map debug_str l) +:+ "]".

(** ** UTF-8 validation, as [str::from_utf8] does it *)
Inductive utf8_step : Type :=
  | Utf8Char (width : nat)
  | Utf8Invalid (len : nat)
  | Utf8Incomplete.

Definition continuation (lo hi : Z) (c : ascii) : bool := (lo <=? code c) && (code c <=? hi).

Definition utf8_tail (s : string) (ranges : list (Z * Z)) : utf8_step :=
  (fix go (i : nat) (s : string) (ranges : list (Z * Z)) : utf8_step :=
     match ranges, s with
     | [], _ => Utf8Char i
     | _, EmptyString => Utf8Incomplete
     | (lo, hi) :: ranges, String c s =>
         if continuation lo hi c then go (S i) s ranges else Utf8Invalid i
     end) 1%nat s ranges.

Definition utf8_first (c : ascii) (s : string) : utf8_step :=
  let b := code c in
  if b <=? 127 then Utf8Char 1
  else if in_range 194 223 b then utf8_tail s [(128, 191)]
  else if b =? 224 then utf8_tail s [(160, 191); (128, 191)]
  else if in_range 225 236 b || in_range 238 239 b then utf8_tail s [(128, 191); (128, 191)]
  else if b =? 237 then utf8_tail s [(128, 159); (128, 191)]
  else if b =? 240 then utf8_tail s [(144, 191); (128, 191); (128, 191)]
  else if in_range 241 243 b then utf8_tail s [(128, 191); (128, 191); (128, 191)]
  else if b =? 244 then utf8_tail s [(128, 143); (128, 191); (128, 191)]
  else Utf8Invalid 1.

(** The scan with the bytes of the current character still to skip and the
    index reached; the error is [Utf8Error] as it prints. *)
Fixpoint utf8_scan (skip : nat) (idx : Z) (s : string) : option string :=
  match s with
  | EmptyString => None
  | String c s =>
      match skip with
      | S skip => utf8_scan skip (idx + 1) s
      | O =>
          match utf8_first c s with
          | Utf8Char w => utf8_scan (pred w) (idx + 1) s
          | Utf8Invalid len =>
              Some ("invalid utf-8 sequence of " +:+ display_Z (Z.of_nat len)
                    +:+ " bytes from index " +:+ display_Z idx)
          | Utf8Incomplete =>
              Some ("incomplete utf-8 byte sequence from index " +:+ display_Z idx)
          end
      end
  end.
Definition from_utf8 (b : string) : result string string :=
  match utf8_scan 0 0 b with None => Ok b | Some e => Err e end.

(** [String::from_utf8_lossy]: an invalid sequence becomes U+FFFD. *)
Definition replacement_character : string := bytes [239; 191; 189]%nat.
Fixpoint lossy_scan (keep drop : nat) (s : string) : string :=
  match s with
  | EmptyString => ""
  | String c s =>
      match keep, drop with
      | S keep, _ => String c (lossy_scan keep drop s)
      | O, S drop => lossy_scan O drop s
      | O, O =>
          match utf8_first c s with
          | Utf8Char w => String c (lossy_scan (pred w) O s)
          | Utf8Invalid len => replacement_character +:+ lossy_scan O (pred len) s
          | Utf8Incomplete => replacement_character
          end
      end
  end.
Definition from_utf8_lossy (b : string) : string := lossy_scan O O b.

(** ** BTreeMap iteration *)
Definition str_leb (a b : string) : bool := bool_decide (String.le a b).
Definition btree_list {A} (m : gmap string A) : list (string * A) :=
  sort_by (λ a b, str_leb a.1 b.1) (map_to_list m).
Definition btree_keys {A} (m : gmap string A) : list string := map fst (btree_list m).
Definition btree_list_Z {A} (m : gmap Z A) : list (Z * A) :=
  sort_by (λ a b, a.1 <=? b.1) (map_to_list m).
Definition set_list_Z (s : gset Z) : list Z := sort_by Z.leb (elements s).

(** ** Lemmas *)

Lemma from_utf8_Ok b s : from_utf8 b = Ok s → s = b.
Proof. unfold from_utf8. destruct (utf8_scan 0 0 b); congruence. Qed.

Lemma str_eqb_eq a b : str_eqb a b = true ↔ a = b.
Proof. unfold str_eqb. apply bool_decide_eq_true. Qed.
Lemma str_eqb_refl a : str_eqb a a = true.
Proof. by apply str_eqb_eq. Qed.
Lemma str_eqb_neq a b : str_eqb a b = false ↔ a ≠ b.
Proof. unfold str_eqb. apply bool_decide_eq_false. Qed.

Lemma is_empty_false s : is_empty s = false ↔ s ≠ "".
Proof. apply str_eqb_neq. Qed.

Lemma str_app_cons c s t : String c s +:+ t = String c (s +:+ t).
Proof. reflexivity. Qed.
Lemma str_app_nil_l s : "" +:+ s = s.
Proof. reflexivity. Qed.
Lemma str_app_nil_r s : s +:+ "" = s.
Proof. induction s as [|c s IH]; [done|]. by rewrite str_app_cons, IH. Qed.
Lemma str_app_assoc a b c : a +:+ (b +:+ c) = (a +:+ b) +:+ c.
Proof. induction a as [|x a IH]; [done|]. by rewrite !str_app_cons, IH. Qed.
Lemma str_app_inj_l a b c : a +:+ b = a +:+ c → b = c.
Proof.
  induction a as [|x a IH]; [done|]. rewrite !str_app_cons.
  intros H. injection H. auto.
Qed.
Lemma str_length_app a b :
  String.length (a +:+ b) = (String.length a + String.length b)%nat.
Proof. induction a as [|x a IH]; [done|]. rewrite str_app_cons. cbn. by rewrite IH. Qed.

Lemma str_all_app p a b : str_all p (a +:+ b) = str_all p a && str_all p b.
Proof.
  induction a as [|x a IH]; [done|].
  rewrite str_app_cons. cbn. by rewrite IH, andb_assoc.
Qed.
Lemma str_all_impl (p q : ascii → bool) s :
  (∀ c, p c = true → q c = true) → str_all p s = true → str_all q s = true.
Proof.
  intros H. induction s as [|c s IH]; cbn; [done|].
  rewrite !andb_true_iff. naive_solver.
Qed.

Lemma strip_prefix_Some p s r : strip_prefix p s = Some r ↔ s = p +:+ r.
Proof.
  revert s. induction p as [|a p IH]; intros s; cbn.
  { rewrite str_app_nil_l. split; congruence. }
  destruct s as [|b s]; [done|]. rewrite str_app_cons.
  destruct (Ascii.eqb_spec a b); [rewrite IH|]; split; intros; simplify_eq; done.
Qed.

Lemma strip_prefix_app p s : strip_prefix p (p +:+ s) = Some s.
Proof. by apply strip_prefix_Some. Qed.

Lemma strip_suffix_Some suf s r : strip_suffix suf s = Some r → s = r +:+ suf.
Proof.
  revert r. induction s as [|c s IH]; intros r; simpl.
  - destruct (str_eqb "" suf) eqn:E; intros; simplify_eq.
    apply str_eqb_eq in E. by rewrite <- E.
  - destruct (str_eqb (String c s) suf) eqn:E.
    + intros. simplify_eq. apply str_eqb_eq in E. by rewrite <- E.
    + intros H. apply fmap_Some in H as (r' & H & ->).
      apply IH in H as ->. done.
Qed.

Lemma str_app_neq_suffix c (r suf : string) : String c r +:+ suf ≠ suf.
Proof.
  intros H. apply (f_equal String.length) in H.
  rewrite str_length_app in H. cbn in H. lia.
Qed.

Lemma strip_suffix_app r suf : strip_suffix suf (r +:+ suf) = Some r.
Proof.
  induction r as [|c r IH].
  - change ("" +:+ suf) with suf.
    destruct suf; cbn; by rewrite str_eqb_refl.
  - rewrite str_app_cons. cbn [strip_suffix].
    destruct (str_eqb (String c (r +:+ suf)) suf) eqn:E.
    + apply str_eqb_eq in E. by apply (str_app_neq_suffix c r) in E.
    + by rewrite IH.
Qed.

Lemma ends_with_iff suf s : ends_with suf s = true ↔ ∃ r, s = r +:+ suf.
Proof.
  unfold ends_with. split.
  - destruct (strip_suffix suf s) as [r|] eqn:E; [|done].
    intros _. exists r. by apply strip_suffix_Some.
  - intros [r ->]. by rewrite strip_suffix_app.
Qed.

(** [split] never gives an empty list, and it gives one piece exactly when no
    character matches. *)
Lemma split_on_none p s : str_all (λ c, negb (p c)) s = true → split_on p s = [s].
Proof.
  induction s as [|c s IH]; cbn; [done|].
  intros [Hc Hs]%andb_true_iff. apply negb_true_iff in Hc.
  by rewrite Hc, IH.
Qed.

Lemma split_on_sep p a c b :
  str_all (λ c, negb (p c)) a = true → p c = true →
  split_on p (a +:+ String c b) = a :: split_on p b.
Proof.
  intros Ha Hc. induction a as [|x a IH]; cbn in Ha.
  { rewrite str_app_nil_l. cbn. by rewrite Hc. }
  apply andb_true_iff in Ha as [Hx Ha]. apply negb_true_iff in Hx.
  rewrite str_app_cons. cbn. by rewrite Hx, IH.
Qed.

Lemma split_once_Some c s l r :
  split_once c s = Some (l, r) →
  s = l +:+ String c r ∧ str_all (λ x, negb (Ascii.eqb c x)) l = true.
Proof.
  revert l. induction s as [|a s IH]; intros l; cbn; [done|].
  destruct (Ascii.eqb_spec c a) as [->|Hne].
  - intros; simplify_eq. done.
  - intros H. apply fmap_Some in H as ([l' r'] & H & ?). simplify_eq.
    apply IH in H as [-> Hl]. split; [done|].
    cbn. rewrite Hl. destruct (Ascii.eqb_spec c a); done.
Qed.

Lemma split_once_none c s : str_all (λ a, negb (Ascii.eqb c a)) s = true → split_once c s = None.
Proof.
  induction s as [|a s IH]; [done|]. cbn. intros [Ha Hs]%andb_true_iff.
  apply negb_true_iff in Ha. rewrite Ha, IH by done. done.
Qed.

Lemma split_once_app c a b : str_all (λ x, negb (Ascii.eqb c x)) a = true →
  split_once c (a +:+ String c b) = Some (a, b).
Proof.
  induction a as [|x a IH]; cbn.
  - intros _. rewrite str_app_nil_l. cbn. by rewrite Ascii.eqb_refl.
  - intros [Hx Ha]%andb_true_iff. apply negb_true_iff in Hx. rewrite str_app_cons. cbn.
    by rewrite Hx, IH.
Qed.

Lemma rsplit_once_None c s :
  rsplit_once c s = None → str_all (λ x, negb (Ascii.eqb c x)) s = true.
Proof.
  induction s as [|a s IH]; cbn; [done|].
  destruct (rsplit_once c s) as [[]|]; [done|].
  destruct (Ascii.eqb_spec c a); [done|]. intros _. rewrite IH by done. done.
Qed.

Lemma rsplit_once_free c s :
  str_all (λ x, negb (Ascii.eqb c x)) s = true → rsplit_once c s = None.
Proof.
  induction s as [|a s IH]; [done|]. cbn. intros [Ha Hs]%andb_true_iff.
  rewrite IH by done. by apply negb_true_iff in Ha as ->.
Qed.

Lemma rsplit_once_app c a b : str_all (λ x, negb (Ascii.eqb c x)) b = true →
  rsplit_once c (a +:+ String c b) = Some (a, b).
Proof.
  intros Hb. induction a as [|x a IH].
  - rewrite str_app_nil_l. cbn. by rewrite rsplit_once_free, Ascii.eqb_refl.
  - rewrite str_app_cons. cbn. by rewrite IH.
Qed.

Lemma rsplit_once_Some c s l r :
  rsplit_once c s = Some (l, r) →
  s = l +:+ String c r ∧ str_all (λ x, negb (Ascii.eqb c x)) r = true.
Proof.
  revert l. induction s as [|a s IH]; intros l; cbn; [done|].
  destruct (rsplit_once c s) as [[l' r']|] eqn:E.
  - intros [= <- <-]. destruct (IH l' eq_refl) as [-> ?]. done.
  - destruct (Ascii.eqb_spec c a) as [->|]; [|done].
    intros [= <- <-]. split; [done|]. by apply rsplit_once_None.
Qed.

Lemma split_once_str_Some sep s l r :
  split_once_str sep s = Some (l, r) → s = l +:+ sep +:+ r.
Proof.
  revert l. induction s as [|a s IH]; intros l; cbn.
  - destruct (strip_prefix sep "") eqn:E; [|done].
    intros [= <- <-]. by apply strip_prefix_Some in E.
  - destruct (strip_prefix sep (String a s)) eqn:E.
    + intros [= <- <-]. by apply strip_prefix_Some in E.
    + intros H. apply fmap_Some in H as ([l' r'] & H & [= -> ->]).
      by rewrite (IH l' H), str_app_cons.
Qed.

(** The first piece of a split, and what follows it. *)
Lemma split_on_head p s :
  ∃ w tail, head (split_on p s) = Some w ∧ s = w +:+ tail ∧
    str_all (λ c, negb (p c)) w = true ∧
    (tail = "" ∨ ∃ c t, tail = String c t ∧ p c = true).
Proof.
  induction s as [|c s (w & tail & Hh & Hs & Hw & Ht)]; cbn.
  { exists "", "". naive_solver. }
  destruct (p c) eqn:Hc.
  - exists "", (String c s). split_and!; [done..|]. right. eauto.
  - destruct (split_on p s) as [|w' ws]; [done|]. cbn in Hh. injection Hh as ->.
    exists (String c w), tail. split_and!; [done| |cbn; by rewrite Hc, Hw|done].
    by rewrite Hs.
Qed.

(** Printing and parsing integers. *)
Lemma pretty_N_char_digit x : (x < 10)%N →
  is_ascii_digit (pretty_N_char x) = true ∧ code (pretty_N_char x) - 48 = Z.of_N x.
Proof.
  intros H.
  assert (Hx : x ∈ [0;1;2;3;4;5;6;7;8;9]%N).
  { destruct x as [|p]; [set_solver|].
    do 4 (destruct p as [p|p|]; try lia; try set_solver). }
  clear H. revert x Hx. apply Forall_forall. by repeat constructor.
Qed.

Lemma parse_digits_pretty_go x s a :
  ∃ k, 0 ≤ k ∧ parse_digits a (pretty_N_go x s) = parse_digits (a * 10 ^ k + Z.of_N x) s.
Proof.
  revert s a. induction (N.lt_wf_0 x) as [x _ IH]; intros s a.
  destruct (decide (x = 0)%N) as [->|Hx].
  { exists 0. split; [lia|]. rewrite pretty_N_go_0. f_equal. lia. }
  rewrite pretty_N_go_step by lia.
  destruct (IH (x / 10)%N) with (s := String (pretty_N_char (x mod 10)) s) (a := a)
    as (k & Hk & ->).
  { apply N.div_lt; lia. }
  exists (k + 1). split; [lia|]. cbn [parse_digits].
  destruct (pretty_N_char_digit (x mod 10)) as [-> ->].
  { apply N.mod_lt; lia. }
  f_equal. rewrite Z.pow_add_r, N2Z.inj_div, N2Z.inj_mod by lia.
  pose proof (Z.div_mod (Z.of_N x) 10). lia.
Qed.

Lemma str_all_digit_pretty_go x s :
  str_all is_ascii_digit (pretty_N_go x s) = str_all is_ascii_digit s.
Proof.
  revert s. induction (N.lt_wf_0 x) as [x _ IH]; intros s.
  destruct (decide (x = 0)%N) as [->|Hx]; [by rewrite pretty_N_go_0|].
  rewrite pretty_N_go_step by lia. rewrite IH by (apply N.div_lt; lia).
  cbn. destruct (pretty_N_char_digit (x mod 10)) as [-> _]; [|done].
  apply N.mod_lt; lia.
Qed.

Lemma pretty_N_digits (x : N) :
  str_all is_ascii_digit (pretty x) = true.
Proof.
  unfold pretty, pretty_N. case_decide; [done|].
  by rewrite str_all_digit_pretty_go.
Qed.

Lemma parse_digits_pretty_N (x : N) : parse_digits 0 (pretty x) = Some (Z.of_N x).
Proof.
  unfold pretty, pretty_N. case_decide; [by subst|].
  destruct (parse_digits_pretty_go x "" 0) as (k & _ & ->). done.
Qed.

Lemma display_Z_nonneg z : 0 ≤ z → display_Z z = pretty (Z.to_N z).
Proof. intros H. unfold display_Z, pretty, pretty_Z. by destruct z. Qed.

Lemma display_Z_digits z : 0 ≤ z → str_all is_ascii_digit (display_Z z) = true.
Proof. intros H. rewrite display_Z_nonneg by done. apply pretty_N_digits. Qed.

Lemma display_Z_nonempty z : 0 ≤ z → ∃ c s, display_Z z = String c s ∧ is_ascii_digit c = true.
Proof.
  intros H. pose proof (display_Z_digits z H) as Hd.
  destruct (display_Z z) as [|c s] eqn:E.
  - rewrite display_Z_nonneg in E by done. exfalso.
    pose proof (parse_digits_pretty_N (Z.to_N z)) as Hp. rewrite E in Hp. cbn in Hp.
    assert (z = 0) as -> by (injection Hp; lia). done.
  - exists c, s. split; [done|]. cbn in Hd. by apply andb_true_iff in Hd as [? _].
Qed.

Lemma parse_nonempty_display z :
  0 ≤ z → parse_nonempty_digits (display_Z z) = Some z.
Proof.
  intros H. unfold parse_nonempty_digits.
  destruct (display_Z_nonempty z H) as (c & s & E & _).
  destruct (is_empty (display_Z z)) eqn:Em.
  { apply str_eqb_eq in Em. congruence. }
  rewrite display_Z_nonneg, parse_digits_pretty_N by done. f_equal. lia.
Qed.

Lemma strip_prefix_display (p : ascii) z :
  0 ≤ z → is_ascii_digit p = false → strip_prefix (String p "") (display_Z z) = None.
Proof.
  intros H Hp. destruct (display_Z_nonempty z H) as (c & s & -> & Hc).
  cbn. destruct (Ascii.eqb_spec p c) as [->|]; congruence.
Qed.

(** [str::parse] reads back what [Display] printed. *)
Lemma parse_unsigned_display hi z :
  0 ≤ z ≤ hi → parse_unsigned hi (display_Z z) = Some z.
Proof.
  intros H. unfold parse_unsigned.
  rewrite strip_prefix_display by (done || lia). cbn [default].
  rewrite parse_nonempty_display by lia.
  unfold checked, in_range. by rewrite !(proj2 (Z.leb_le _ _)) by lia.
Qed.

Lemma parse_signed_display lo hi z :
  lo ≤ 0 → 0 ≤ z ≤ hi → parse_signed lo hi (display_Z z) = Some z.
Proof.
  intros Hlo H. unfold parse_signed.
  rewrite !strip_prefix_display by (done || lia). cbn [default].
  rewrite parse_nonempty_display by lia.
  unfold checked, in_range. by rewrite !(proj2 (Z.leb_le _ _)) by lia.
Qed.

Lemma checked_Some lo hi z r : checked lo hi z = Some r ↔ r = z ∧ lo ≤ z ≤ hi.
Proof.
  unfold checked, in_range. destruct (Z.leb_spec lo z), (Z.leb_spec z hi); cbn;
    split; intros; destruct_and?; simplify_eq; (done || lia || (split; [done|lia])).
Qed.

Lemma parse_u64_range s z : parse_u64 s = Some z → 0 ≤ z ≤ u64_max.
Proof.
  unfold parse_u64, parse_unsigned. intros Hp. apply and_then_Some in Hp as (z' & _ & Hp).
  apply checked_Some in Hp as [-> ?]. done.
Qed.

Lemma parse_i32_range s z : parse_i32 s = Some z → i32_min ≤ z ≤ i32_max.
Proof.
  unfold parse_i32, parse_signed. intros Hp. repeat case_match; try done;
    apply checked_Some in Hp as [-> ?]; done.
Qed.

Lemma str_leb_total a b : str_leb a b = false → str_leb b a = true.
Proof.
  unfold str_leb. rewrite bool_decide_eq_false, bool_decide_eq_true.
  destruct (total String.le a b); naive_solver.
Qed.
Lemma str_leb_trans a b c : str_leb a b = true → str_leb b c = true → str_leb a c = true.
Proof. unfold str_leb. rewrite !bool_decide_eq_true. by intros -> ->. Qed.

Lemma elem_of_btree_list {A} (m : gmap string A) k v :
  (k, v) ∈ btree_list m ↔ m !! k = Some v.
Proof. unfold btree_list. by rewrite elem_of_sort_by, elem_of_map_to_list. Qed.

Lemma elem_of_btree_list_Z {A} (m : gmap Z A) k v :
  (k, v) ∈ btree_list_Z m ↔ m !! k = Some v.
Proof. unfold btree_list_Z. by rewrite elem_of_sort_by, elem_of_map_to_list. Qed.

Lemma NoDup_btree_list_Z {A} (m : gmap Z A) : NoDup (fst <$> btree_list_Z m).
Proof. unfold btree_list_Z. rewrite sort_by_perm. apply NoDup_fst_map_to_list. Qed.

Lemma NoDup_btree_keys {A} (m : gmap string A) : NoDup (btree_keys m).
Proof.
  unfold btree_keys, btree_list. rewrite sort_by_perm. apply NoDup_fst_map_to_list.
Qed.

Lemma elem_of_btree_keys {A} (m : gmap string A) k : k ∈ btree_keys m ↔ is_Some (m !! k).
Proof.
  unfold btree_keys. rewrite list_elem_of_fmap. split.
  - intros ([k' v] & -> & H%elem_of_btree_list). by eexists.
  - intros [v H]. exists (k, v). by rewrite elem_of_btree_list.
Qed.

(** ** Last characters *)
Fixpoint last_char (s : string) : option ascii :=
  match s with
  | EmptyString => None
  | String c EmptyString => Some c
  | String _ s => last_char s
  end.

Lemma last_char_app a c b : last_char (a +:+ String c b) = last_char (String c b).
Proof.
  induction a as [|x a IH]; [by rewrite str_app_nil_l|]. rewrite str_app_cons.
  rewrite <- IH. cbn [last_char]. destruct (a +:+ String c b) eqn:E; [|done].
  by destruct a.
Qed.

Lemma strip_suffix_last c w s :
  last_char (String c w) ≠ last_char s → strip_suffix (String c w) s = None.
Proof.
  intros Hne. destruct (strip_suffix (String c w) s) as [r|] eqn:E; [|done].
  apply strip_suffix_Some in E as ->. by rewrite last_char_app in Hne.
Qed.

Lemma strip_suffix_other w s x :
  String.length w = String.length x → w ≠ x → strip_suffix w (s +:+ x) = None.
Proof.
  intros Hl Hne. destruct (strip_suffix w (s +:+ x)) as [r|] eqn:E; [|done].
  apply strip_suffix_Some in E. exfalso. apply Hne. revert r E.
  induction s as [|a s IH]; intros r E.
  - apply (f_equal String.length) in E as Hlen. rewrite !str_length_app in Hlen.
    destruct r as [|b r]; [by rewrite !str_app_nil_l in E|cbn in Hlen; lia].
  - destruct r as [|b r].
    + apply (f_equal String.length) in E. rewrite !str_length_app in E. cbn in E. lia.
    + rewrite !str_app_cons in E. injection E as _ E. eauto.
Qed.

Lemma last_char_str_all p s c : str_all p s = true → last_char s = Some c → p c = true.
Proof.
  induction s as [|a s IH]; [done|]. cbn. intros [Ha Hs]%andb_true_iff.
  destruct s; [by intros [= <-]|by apply IH].
Qed.

(** ** [serde_json::Value] *)

(** A JSON value; a number carries its [as_i64] reading, absent for a number
    that is not a 64-bit integer. *)
Inductive json : Type :=
  | JNull
  | JBool (b : bool)
  | JNumber (as_i64 : option Z)
  | JString (s : string)
  | JArray (l : list json)
  | JObject (fields : list (string * json)).
