(* ===== verification/Effects.v ===== *)
(** * Reconcile passes as programs over external calls

    A reconcile function of the operator awaits calls to services that are not
    part of the repository: the Kubernetes API server, the Kafka admin client,
    the rebalancer.  A pass is a [prog]: a tree that names each call it makes
    and continues with the answer.  Nothing is assumed of the answers, so a
    statement over [all_runs] holds for every environment; [exec] runs a pass
    against a concrete one. *)

From S2P Require Import Prelude.

Section prog.
Context {call : Type} {resp : call → Type}.

Inductive prog (R : Type) : Type :=
  | Ret (r : R)
  | Do (c : call) (k : resp c → prog R).
Arguments Ret {R} _.
Arguments Do {R} _ _.

(** One answered call. *)
Definition event : Type := { c : call & resp c }.
Definition ev (c : call) (x : resp c) : event := existT c x.

(** The calls of a log, in order. *)
Definition calls (tr : list event) : list call := map projT1 tr.

#[export] Instance prog_ret : MRet prog := λ R r, Ret r.
#[export] Instance prog_bind : MBind prog :=
  fix go {A B} (f : A → prog B) (p : prog A) : prog B :=
    match p with
    | Ret a => f a
    | Do c k => Do c (λ x, @go A B f (k x))
    end.

Definition perform (c : call) : prog (resp c) := Do c Ret.

(** [for x in l { body }] where the body may leave the pass with an error or
    a value ([Some r]). *)
Fixpoint for_each {A R} (l : list A) (body : A → prog (option R)) : prog (option R) :=
  match l with
  | [] => Ret None
  | x :: l =>
      body x ≫= λ o, match o with Some r => Ret (Some r) | None => for_each l body end
  end.

(** [for x in l { body?; }] *)
Fixpoint try_for_each {A E} (l : list A) (body : A → prog (result unit E)) : prog (result unit E) :=
  match l with
  | [] => Ret (Ok tt)
  | x :: l =>
      body x ≫= λ r, match r with Ok _ => try_for_each l body | Err e => Ret (Err e) end
  end.

(** Running against an environment with a state of its own. *)
Fixpoint exec {S R} (step : S → ∀ c, S * resp c) (p : prog R) (s : S)
  : S * list event * R :=
  match p with
  | Ret r => (s, [], r)
  | Do c k =>
      let '(s1, x) := step s c in
      let '(s2, tr, r) := exec step (k x) s1 in
      (s2, ev c x :: tr, r)
  end.

(** [always p h Q]: whatever the calls answer, the log that extends [h] and
    the result satisfy [Q]. *)
Fixpoint always {R} (p : prog R) (h : list event) (Q : list event → R → Prop) : Prop :=
  match p with
  | Ret r => Q h r
  | Do c k => ∀ x, always (k x) (h ++ [ev c x]) Q
  end.

Definition all_runs {R} (p : prog R) (Q : list event → R → Prop) : Prop :=
  always p [] Q.

Lemma always_mono {R} (p : prog R) h (Q Q' : list event → R → Prop) :
  (∀ h r, Q h r → Q' h r) → always p h Q → always p h Q'.
Proof. intros H. revert h. induction p; simpl; eauto. Qed.

Lemma always_and {R} (p : prog R) h (Q Q' : list event → R → Prop) :
  always p h Q → always p h Q' → always p h (λ h r, Q h r ∧ Q' h r).
Proof. revert h. induction p; simpl; eauto. Qed.

Lemma always_bind {A B} (p : prog A) (f : A → prog B) h Q :
  always (p ≫= f) h Q ↔ always p h (λ h a, always (f a) h Q).
Proof. revert h. induction p as [|c k IH]; intros h; [done|]. simpl. by setoid_rewrite IH. Qed.

Lemma always_exec {S R} (step : S → ∀ c, S * resp c) (p : prog R) s h Q :
  always p h Q → Q (h ++ (exec step p s).1.2) (exec step p s).2.
Proof.
  revert s h. induction p as [r|c k IH]; intros s h H; simpl in *.
  - by rewrite app_nil_r.
  - destruct (step s c) as [s1 x]. specialize (IH x s1 _ (H x)).
    destruct (exec step (k x) s1) as [[s2 tr] r]. simpl in *.
    by rewrite <- app_assoc in IH.
Qed.

Lemma all_runs_trivial {R} (p : prog R) : all_runs p (λ _ _, True).
Proof. unfold all_runs. generalize (@nil event). induction p; cbn; auto. Qed.

(** What holds of every run holds of the run in any concrete environment. *)
Lemma all_runs_exec {S R} (step : S → ∀ c, S * resp c) (p : prog R) s Q :
  all_runs p Q → Q (exec step p s).1.2 (exec step p s).2.
Proof. apply (always_exec step p s []). Qed.

(** [runs p tr r]: [p] can return [r] with the log [tr]. *)
Inductive runs {R} : prog R → list event → R → Prop :=
  | runs_ret r : runs (Ret r) [] r
  | runs_do c k x tr r : runs (k x) tr r → runs (Do c k) (ev c x :: tr) r.

Lemma all_runs_runs {R} (p : prog R) : all_runs p (runs p).
Proof.
  unfold all_runs. assert (∀ h, always p h (λ tr r, ∃ tr', tr = h ++ tr' ∧ runs p tr' r)) as Hp.
  { induction p as [r|c k IH]; intros h; cbn.
    - exists []. split; [by rewrite app_nil_r|constructor].
    - intros x. eapply always_mono; [|apply IH]. intros tr r (tr' & -> & Hr). exists (ev c x :: tr').
      split; [by rewrite <- app_assoc|]. by constructor. }
  eapply always_mono; [|apply (Hp [])]. by intros tr r (tr' & -> & Hr).
Qed.

Lemma runs_elim {R} (p : prog R) tr r (Q : list event → R → Prop) :
  runs p tr r → all_runs p Q → Q tr r.
Proof.
  unfold all_runs. assert (∀ h, always p h Q → runs p tr r → Q (h ++ tr) r) as Hp.
  { intros h Ha Hr. revert h Ha. induction Hr as [r|c k x tr r Hr IH]; intros h Ha.
    - by rewrite app_nil_r.
    - rewrite (cons_middle _ h tr), app_assoc. apply IH. apply (Ha x). }
  intros Hr Ha. by apply (Hp []).
Qed.

(** A run only ever appends to its log. *)
Lemma always_prefix {R} (p : prog R) h : always p h (λ tr _, h `prefix_of` tr).
Proof.
  revert h. induction p as [r|c k IH]; intros h; simpl; [done|].
  intros x. eapply always_mono; [|apply IH]. intros tr r H.
  etrans; [|exact H]. by apply prefix_app_r.
Qed.
(** The log of a run does not depend on what came before it. *)
Lemma always_shift {R} (p : prog R) h h' (Q : list event → R → Prop) :
  always p h (λ tr r, Q tr r) ↔
  always p (h' ++ h) (λ tr r, ∃ tr', tr = h' ++ tr' ∧ Q tr' r).
Proof.
  revert h. induction p as [r|c k IH]; intros h; simpl.
  - split; [eauto|]. by intros (tr' & ->%(inj (app h')) & ?).
  - setoid_rewrite IH. by setoid_rewrite app_assoc.
Qed.

(** Sequencing: the log of the second program follows that of the first. *)
Lemma all_runs_bind {A B} (p : prog A) (f : A → prog B) (Q : list event → B → Prop) :
  all_runs p (λ tr a, all_runs (f a) (λ tr' b, Q (tr ++ tr') b)) → all_runs (p ≫= f) Q.
Proof.
  intros Hp. unfold all_runs in *. rewrite always_bind.
  eapply always_mono; [|exact Hp]. intros tr a Hf. cbn in Hf.
  rewrite (always_shift _ _ tr), app_nil_r in Hf.
  eapply always_mono; [|exact Hf]. by intros ? b (tr' & -> & ?).
Qed.

Lemma all_runs_mono {R} (p : prog R) (Q Q' : list event → R → Prop) :
  (∀ tr r, Q tr r → Q' tr r) → all_runs p Q → all_runs p Q'.
Proof. apply always_mono. Qed.

(** Sequencing two programs whose logs satisfy a predicate closed under
    concatenation. *)
Lemma all_runs_bind_app {A B} (P : list event → Prop) (p : prog A) (f : A → prog B) :
  (∀ tr1 tr2, P tr1 → P tr2 → P (tr1 ++ tr2)) →
  all_runs p (λ tr _, P tr) → (∀ a, all_runs (f a) (λ tr _, P tr)) →
  all_runs (p ≫= f) (λ tr _, P tr).
Proof.
  intros Happ Hp Hf. apply all_runs_bind. eapply all_runs_mono; [|exact Hp].
  intros tr a Htr. eapply all_runs_mono; [|apply Hf]. auto.
Qed.

(** A hypothesis that does not depend on the run may be used in its conclusion. *)
Lemma all_runs_assume {R} (P : Prop) (p : prog R) (Q : list event → R → Prop) :
  (P → all_runs p Q) → all_runs p (λ tr r, P → Q tr r).
Proof.
  unfold all_runs. generalize (@nil event). induction p as [r|c k IH]; cbn; [done|].
  intros h Hq x. apply IH. intros HP. by apply Hq.
Qed.

Lemma all_runs_for_each {A R} (P : list event → Prop) (l : list A) (body : A → prog (option R)) :
  (∀ tr1 tr2, P tr1 → P tr2 → P (tr1 ++ tr2)) → P [] →
  (∀ x, all_runs (body x) (λ tr _, P tr)) → all_runs (for_each l body) (λ tr _, P tr).
Proof.
  intros Happ Hnil Hbody. induction l as [|x l IH]; [done|]. cbn [for_each].
  apply all_runs_bind_app; [done|apply Hbody|]. by intros [r|].
Qed.

(** ** Planned effects

    [follows f plan]: of the calls a program makes, the part that [f] reads off the
    log is a beginning of [plan], and all of it if the program ends well. *)
Definition follows {X E} (f : list event → list X) (plan : list X)
    (p : prog (result unit E)) : Prop :=
  all_runs p (λ tr r, f tr `prefix_of` plan ∧ (r = Ok tt → f tr = plan)).

Section follows.
Context {X : Type} (f : list event → list X) (f_nil : f [] = [])
  (f_app : ∀ tr1 tr2, f (tr1 ++ tr2) = f tr1 ++ f tr2).

Lemma follows_ret {E} (r : result unit E) : follows f [] (Ret r).
Proof. unfold follows, all_runs. cbn. by rewrite f_nil. Qed.

Lemma follows_err {E} plan (e : E) : follows f plan (Ret (Err e)).
Proof. unfold follows, all_runs. cbn. rewrite f_nil. split; [apply prefix_nil|done]. Qed.

Lemma follows_seq {E} plan1 plan2 (p : prog (result unit E)) (q : prog (result unit E)) :
  follows f plan1 p → follows f plan2 q →
  follows f (plan1 ++ plan2) (p ≫= λ r, match r with Ok _ => q | Err e => Ret (Err e) end).
Proof.
  intros Hp Hq. apply all_runs_bind. eapply all_runs_mono; [|exact Hp].
  intros tr [[]|e] [Hpre Heq].
  - rewrite <- Heq by done. eapply all_runs_mono; [|exact Hq]. intros tr' r [Hpre' Heq'].
    rewrite f_app. split; [by apply prefix_app|]. intros Hr. by rewrite Heq'.
  - unfold all_runs. cbn. rewrite app_nil_r. split; [by apply prefix_app_r|done].
Qed.

Lemma follows_try_for_each {A E} (g : A → list X) (l : list A) (body : A → prog (result unit E)) :
  (∀ x, x ∈ l → follows f (g x) (body x)) →
  follows f (concat (map g l)) (try_for_each l body).
Proof.
  intros Hbody. induction l as [|x l IH]; cbn [try_for_each map concat]; [apply follows_ret|].
  apply follows_seq; [apply Hbody; left|]. apply IH. intros y Hy. apply Hbody. by right.
Qed.
End follows.

(** ** Order of calls

    [justified P tr]: each event of the log satisfies [P] given the events
    before it. *)
Definition justified (P : list event → event → Prop) (tr : list event) : Prop :=
  ∀ pre e post, tr = pre ++ e :: post → P pre e.

Lemma justified_nil P : justified P [].
Proof. intros pre e post Heq. by destruct pre. Qed.

Lemma justified_snoc P tr e : justified P (tr ++ [e]) ↔ justified P tr ∧ P tr e.
Proof.
  split.
  - intros Hj. split; [|by apply (Hj tr e [])].
    intros pre e' post ->. apply (Hj pre e' (post ++ [e])). by rewrite <- app_assoc.
  - intros [Hj He] pre e' post Heq.
    destruct (exists_last (l := e' :: post)) as (post' & e1 & Hl); [done|].
    rewrite Hl in Heq. rewrite app_assoc in Heq.
    apply app_inj_tail in Heq as [Htr ->].
    destruct post' as [|e2 post'].
    + cbn in Hl. injection Hl as -> ->. rewrite app_nil_r in Htr. by subst.
    + cbn in Hl. injection Hl as -> ->. by apply (Hj pre e2 post').
Qed.

Lemma justified_app P tr1 tr2 :
  justified P tr1 → justified (λ pre e, P (tr1 ++ pre) e) tr2 → justified P (tr1 ++ tr2).
Proof.
  induction tr2 as [|e tr2 IH] using rev_ind; [by rewrite app_nil_r|].
  rewrite app_assoc, !justified_snoc. intros H1 [H2 He]. split; [by apply IH|done].
Qed.

Lemma justified_mono (P P' : list event → event → Prop) tr :
  (∀ pre e, P pre e → P' pre e) → justified P tr → justified P' tr.
Proof. intros HP Hj pre e post Heq. eapply HP, Hj, Heq. Qed.

(** *** The calls that a program can make *)
Fixpoint only {R} (ok : call → Prop) (p : prog R) : Prop :=
  match p with
  | Ret _ => True
  | Do c k => ok c ∧ ∀ x, only ok (k x)
  end.

Lemma only_bind {A B} ok (p : prog A) (f : A → prog B) :
  only ok p → (∀ a, only ok (f a)) → only ok (p ≫= f).
Proof. intros Hp Hf. induction p as [a|c k IH]; [apply Hf|]. destruct Hp as [Hc Hk]. split; [done|]. eauto. Qed.

Lemma only_perform ok c : ok c → only ok (perform c).
Proof. done. Qed.

Lemma only_justified {R} ok (p : prog R) :
  only ok p → all_runs p (λ tr _, justified (λ _ e, ok (projT1 e)) tr).
Proof.
  intros Hp. unfold all_runs. pose proof (justified_nil (λ _ e, ok (projT1 e))) as Hj. revert Hj.
  generalize (@nil event). induction p as [r|c k IH]; intros h Hj; [done|]. destruct Hp as [Hc Hk].
  intros x. apply IH; [done|]. by apply justified_snoc.
Qed.

(** *** The results that a program can have *)
Fixpoint results {R} (Q : R → Prop) (p : prog R) : Prop :=
  match p with
  | Ret r => Q r
  | Do c k => ∀ x, results Q (k x)
  end.

Lemma results_bind {A B} (Q : B → Prop) (p : prog A) (f : A → prog B) :
  results (λ a, results Q (f a)) p → results Q (p ≫= f).
Proof. induction p as [a|c k IH]; cbn; [done|]. intros Hp x. by apply IH. Qed.

Lemma results_mono {R} (Q Q' : R → Prop) (p : prog R) : (∀ r, Q r → Q' r) → results Q p → results Q' p.
Proof. intros HQ. induction p; cbn; eauto. Qed.

Lemma results_any {R} (Q : R → Prop) (p : prog R) : (∀ r, Q r) → results Q p.
Proof. intros HQ. induction p; cbn; eauto. Qed.

(** After a part whose result does not matter. *)
Lemma results_then {A B} (Q : B → Prop) (p : prog A) (f : A → prog B) :
  (∀ a, results Q (f a)) → results Q (p ≫= f).
Proof. intros Hf. by apply results_bind, results_any. Qed.

Lemma results_all_runs {R} (Q : R → Prop) (p : prog R) : results Q p → all_runs p (λ _ r, Q r).
Proof. unfold all_runs. generalize (@nil event). induction p; cbn; eauto. Qed.

(** Use what is known of a part of a pass inside the pass. *)
Lemma always_use {R} (p : prog R) h (Q0 Q : list event → R → Prop) :
  all_runs p Q0 → (∀ tr r, Q0 tr r → Q (h ++ tr) r) → always p h Q.
Proof.
  intros Hp HQ. unfold all_runs in Hp. rewrite (always_shift _ _ h), app_nil_r in Hp.
  eapply always_mono; [|exact Hp]. intros tr r (tr' & -> & H0). by apply HQ.
Qed.

Lemma always_grows {R} (p : prog R) h (Q : list event → R → Prop) :
  always p h Q → always p h (λ h' r, h ⊆ h' ∧ Q h' r).
Proof.
  intros Hp. apply always_and; [|done]. eapply always_mono; [|apply always_prefix].
  intros tr r [tr' ->] e He. apply elem_of_app. by left.
Qed.

(** One part of a pass after another: the part's conclusion, with the log it
    started from still in the log. *)
Lemma always_seq {A B} (p : prog A) (f : A → prog B) h (Q1 : list event → A → Prop) Q :
  always p h Q1 → (∀ h' a, h ⊆ h' → Q1 h' a → always (f a) h' Q) → always (p ≫= f) h Q.
Proof.
  intros Hp Hf. rewrite always_bind. eapply always_mono; [|by apply always_grows].
  intros h' a [Hs Ha]. by apply Hf.
Qed.

(** After a part whose log and result do not matter. *)
Lemma always_then {A B} (p : prog A) (f : A → prog B) h Q :
  (∀ h' a, h ⊆ h' → always (f a) h' Q) → always (p ≫= f) h Q.
Proof.
  intros Hf. apply (always_seq p f h (λ _ _, True)); [|eauto].
  eapply always_use; [apply all_runs_trivial|done].
Qed.

(** After a call whose answer is rewritten. *)
Lemma always_call {A B} c (g : resp c → A) (f : A → prog B) h Q :
  (∀ x, always (f (g x)) (h ++ [ev c x]) Q) → always ((x ← perform c; Ret (g x)) ≫= f) h Q.
Proof. done. Qed.

(** A result that has no consequence for the log. *)
Lemma always_results {R} (p : prog R) h (Q : R → Prop) : results Q p → always p h (λ _ r, Q r).
Proof. revert h. induction p; cbn; eauto. Qed.

(** ** Crash safety

    [throughout step I p s Q]: [p] runs while the calls it makes move the
    outside state along [step]; [I] holds of that state before the first call
    and after each one, so also if the pass is cut there, and [Q] of the state
    and the result if it returns. *)
Fixpoint throughout {S R} (step : S → event → S → Prop) (I : S → Prop) (p : prog R) (s : S)
    (Q : S → R → Prop) : Prop :=
  I s ∧
  match p with
  | Ret r => Q s r
  | Do c k => ∀ x s', step s (ev c x) s' → throughout step I (k x) s' Q
  end.

Lemma throughout_start {S R} (step : S → event → S → Prop) I (p : prog R) s Q :
  throughout step I p s Q → I s.
Proof. by destruct p; intros []. Qed.

Lemma throughout_bind {S A B} (step : S → event → S → Prop) I (p : prog A) (f : A → prog B) s Q :
  throughout step I p s (λ s a, throughout step I (f a) s Q) → throughout step I (p ≫= f) s Q.
Proof.
  revert s. induction p as [a|c k IH]; intros s [HI Hp]; [done|].
  split; [done|]. intros x s' Hs. apply IH, Hp, Hs.
Qed.

Lemma throughout_call {S R} (step : S → event → S → Prop) (I : S → Prop) c (k : resp c → prog R) s Q :
  I s → (∀ x s', step s (ev c x) s' → throughout step I (k x) s' Q) →
  throughout step I (perform c ≫= k) s Q.
Proof. by split. Qed.

Lemma throughout_mono {S R} (step : S → event → S → Prop) I (p : prog R) s (Q Q' : S → R → Prop) :
  (∀ s r, I s → Q s r → Q' s r) → throughout step I p s Q → throughout step I p s Q'.
Proof.
  intros HQ. revert s. induction p as [a|c k IH]; intros s [HI Hp]; split; eauto.
Qed.

Lemma throughout_weaken {S R} (step : S → event → S → Prop) (I I' : S → Prop) (p : prog R) s Q :
  (∀ s, I s → I' s) → throughout step I p s Q → throughout step I' p s Q.
Proof.
  intros HI. revert s. induction p as [a|c k IH]; intros s [Hs Hp]; split; eauto.
Qed.

(** What [throughout] says of a run: every state along it satisfies [I]. *)
Inductive states_of {S} (step : S → event → S → Prop) : list event → S → S → Prop :=
  | states_nil s : states_of step [] s s
  | states_cons e tr s s1 s2 : step s e s1 → states_of step tr s1 s2 → states_of step (e :: tr) s s2.

Lemma throughout_cut {S R} (step : S → event → S → Prop) I (p : prog R) s Q T env (t : T) tr s' :
  throughout step I p s Q → tr `prefix_of` (exec env p t).1.2 → states_of step tr s s' → I s'.
Proof.
  revert s t tr. induction p as [r|c k IH]; intros s t tr Hp Htr Hs.
  - cbn in Htr. apply prefix_nil_inv in Htr as ->. inversion Hs; subst.
    by apply throughout_start in Hp.
  - destruct Hp as [HI Hp]. cbn in Htr. destruct (env t c) as [t1 x] eqn:Et.
    destruct (exec env (k x) t1) as [[t2 tr2] r2] eqn:Ex. cbn in Htr.
    inversion Hs as [|e tr1 s0 s1 s2 He Hr]; subst; [done|].
    apply prefix_cons_inv_1 in Htr as Hc. apply prefix_cons_inv_2 in Htr. subst e.
    eapply (IH x s1 t1); [by apply Hp| |exact Hr]. by rewrite Ex.
Qed.
End prog.

Arguments prog {call} resp R.
Arguments Ret {call resp R} _.
Arguments Do {call resp R} _ _.
Arguments event {call} resp.
#[export] Existing Instance prog_ret.
#[export] Existing Instance prog_bind.

(** ** A part with calls of its own

    The program of a component, run by a caller whose calls include the
    component's. *)
Section lift.
Context {call1 call2 : Type} {resp1 : call1 → Type} {resp2 : call2 → Type}.
Context (emb : call1 → call2) (answer : ∀ c, resp2 (emb c) → resp1 c).

Fixpoint lift {R} (p : prog resp1 R) : prog resp2 R :=
  match p with
  | Ret r => Ret r
  | Do c k => Do (emb c) (λ x, lift (k (answer c x)))
  end.

(** The caller's entry for a call of the component. *)
Definition lifted (e1 : event resp1) (e2 : event resp2) : Prop :=
  ∃ c x, e1 = ev c (answer c x) ∧ e2 = ev (emb c) x.

Lemma lifted_elem tr1 tr e1 : Forall2 lifted tr1 tr → e1 ∈ tr1 → ∃ e, e ∈ tr ∧ lifted e1 e.
Proof. induction 1; set_solver. Qed.

Lemma all_runs_lift {R} (p : prog resp1 R) (Q : list (event resp1) → R → Prop) :
  all_runs p Q → all_runs (lift p) (λ tr r, ∃ tr1, Forall2 lifted tr1 tr ∧ Q tr1 r).
Proof.
  unfold all_runs. assert (Forall2 lifted [] []) as Hnil by constructor. revert Hnil.
  generalize (@nil (event resp1)), (@nil (event resp2)).
  induction p as [r|c k IH]; intros h1 h2 Hh Hp; cbn in *; [by exists h1|].
  intros x. eapply IH; [|by apply Hp]. apply Forall2_app; [done|].
  constructor; [by exists c, x|constructor].
Qed.

Lemma results_lift {R} (Q : R → Prop) (p : prog resp1 R) : results Q p → results Q (lift p).
Proof. induction p; cbn; eauto. Qed.

(** What is known of the component's runs, inside a run of the caller. *)
Lemma always_lift {R} (p : prog resp1 R) h (Q : list (event resp1) → R → Prop)
    (Q2 : list (event resp2) → R → Prop) :
  all_runs p Q → (∀ tr1 tr r, Forall2 lifted tr1 tr → Q tr1 r → Q2 (h ++ tr) r) →
  always (lift p) h Q2.
Proof.
  intros Hp HQ. eapply always_use; [by apply all_runs_lift|]. intros tr r (tr1 & Htr & Hr). eauto.
Qed.

(** Calls of the component that are justified in its own log are so in the
    caller's. *)
Lemma justified_lift (P1 : list (event resp1) → event resp1 → Prop)
    (P2 : list (event resp2) → event resp2 → Prop) h tr1 tr :
  (∀ pre1 pre e1 e, Forall2 lifted pre1 pre → lifted e1 e → P1 pre1 e1 → P2 (h ++ pre) e) →
  Forall2 lifted tr1 tr → justified P1 tr1 → justified P2 h → justified P2 (h ++ tr).
Proof.
  intros HP Htr. revert tr Htr. induction tr1 as [|e1 tr1 IH] using rev_ind; intros tr Htr H1 H2.
  - apply Forall2_nil_inv_l in Htr as ->. by rewrite app_nil_r.
  - apply Forall2_app_inv_l in Htr as (tr' & l & Htr & Hl & ->).
    apply Forall2_cons_inv_l in Hl as (e & l' & He & Hnil & ->). apply Forall2_nil_inv_l in Hnil as ->.
    apply justified_snoc in H1 as [H1 He1]. rewrite app_assoc, justified_snoc. split; eauto.
Qed.
End lift.

(** [x ←? p ; k] is the source's [let x = p.await?; k]. *)
Notation "x ←? p ; k" :=
  (p ≫= λ r, match r with Ok x => k | Err e => Ret (Err e) end)
  (at level 20, p at level 100, k at level 200, right associativity) : krabka_scope.

(** ** Safety of a pass, part by part

    [safely P h p Q]: from a log [h] whose calls are justified by [P], every run of [p]
    keeps them so, and its log and result satisfy [Q]. *)
Section safely.
Context {call : Type} {resp : call → Type} (P : list (event resp) → event resp → Prop).
Implicit Types (h : list (event resp)).

Definition safely {R} h (p : prog resp R) (Q : list (event resp) → R → Prop) : Prop :=
  justified P h → always p h (λ h' r, justified P h' ∧ Q h' r).

(** What is promised only of a good result. *)
Definition on_ok {A E} (Q : list (event resp) → A → Prop) h (r : result A E) : Prop :=
  match r with Ok a => Q h a | Err _ => True end.

Lemma safely_ret {R} h (r : R) Q : Q h r → safely h (Ret r) Q.
Proof. by intros HQ Hj. Qed.

Lemma safely_mono {R} h (p : prog resp R) Q Q' :
  safely h p Q → (∀ h' r, Q h' r → Q' h' r) → safely h p Q'.
Proof. intros Hp HQ Hj. eapply always_mono; [|by apply Hp]. intros h' r [? ?]. eauto. Qed.

Lemma safely_grows {R} h (p : prog resp R) Q :
  safely h p Q → safely h p (λ h' r, h ⊆ h' ∧ Q h' r).
Proof.
  intros Hp Hj. eapply always_mono; [|by apply always_grows, Hp]. by intros h' r (? & ? & ?).
Qed.

Lemma safely_bind {A B} h (p : prog resp A) (f : A → prog resp B) Q1 Q :
  safely h p Q1 → (∀ h' a, h ⊆ h' → Q1 h' a → safely h' (f a) Q) → safely h (p ≫= f) Q.
Proof.
  intros Hp Hf Hj. eapply always_seq; [by apply Hp|]. intros h' a Hs [Hj' Ha]. by apply Hf.
Qed.

Lemma safely_try {A B E} h (p : prog resp (result A E)) (f : A → prog resp (result B E)) Q1 Q :
  safely h p (on_ok Q1) → (∀ h' a, h ⊆ h' → Q1 h' a → safely h' (f a) (on_ok Q)) →
  safely h (p ≫= λ r, match r with Ok x => f x | Err e => Ret (Err e) end) (on_ok Q).
Proof.
  intros Hp Hf. eapply safely_bind; [exact Hp|]. intros h' [a|e] Hs Ha; [by apply Hf|].
  by apply safely_ret.
Qed.

Lemma safely_call h c (Q : list (event resp) → resp c → Prop) :
  (∀ x, P h (ev c x)) → (∀ x, Q (h ++ [ev c x]) x) → safely h (perform c) Q.
Proof. intros HP HQ Hj x. cbn. rewrite justified_snoc. auto. Qed.

(** A call and what follows it, with the log as it is then. *)
Lemma safely_step {R} h c (f : resp c → prog resp R) Q :
  (∀ x, P h (ev c x)) → (∀ x, safely (h ++ [ev c x]) (f x) Q) → safely h (perform c ≫= f) Q.
Proof. intros HP Hf Hj x. apply Hf. rewrite justified_snoc. auto. Qed.
End safely.

(** A part with calls of its own: the caller knows that it ran. *)
Section parts.
Context {call1 call2 : Type} {resp1 : call1 → Type} {resp2 : call2 → Type}.
Context (emb : call1 → call2) (answer : ∀ c, resp2 (emb c) → resp1 c).

(** Somewhere in the log, the part ran and returned [r]. *)
Definition ran {R} (p : prog resp1 R) (h : list (event resp2)) (r : R) : Prop :=
  ∃ tr1 tr, tr ⊆ h ∧ Forall2 (lifted emb answer) tr1 tr ∧ runs p tr1 r.

Lemma ran_mono {R} (p : prog resp1 R) h h' r : h ⊆ h' → ran p h r → ran p h' r.
Proof. intros Hs (tr1 & tr & Hin & ? & ?). exists tr1, tr. split; [by etrans|done]. Qed.

(** A part whose calls are justified, given those it made before. *)
Lemma safely_part {R} P (p : prog resp1 R) (P1 : list (event resp1) → event resp1 → Prop) h :
  all_runs p (λ tr _, justified P1 tr) →
  (∀ pre1 pre e1 e, Forall2 (lifted emb answer) pre1 pre → lifted emb answer e1 e →
    P1 pre1 e1 → P (h ++ pre) e) →
  safely P h (lift emb answer p) (ran p).
Proof.
  intros Hp HP Hj.
  assert (all_runs p (λ tr r, justified P1 tr ∧ runs p tr r)) as Hboth.
  { apply always_and; [exact Hp|apply all_runs_runs]. }
  eapply always_lift; [exact Hboth|]. intros tr1 tr r Htr [Hj1 Hr]. split.
  - eapply justified_lift; [exact HP|done..].
  - exists tr1, tr. split; [|done]. apply list_subseteq_app_r. reflexivity.
Qed.

Lemma safely_quiet {R} P (p : prog resp1 R) h :
  (∀ pre c x, P pre (ev (emb c) x)) → safely P h (lift emb answer p) (ran p).
Proof.
  intros HP. eapply (safely_part P p (λ _ _, True)); [|by intros pre1 pre e1 e _ (c & x & _ & ->) _].
  eapply all_runs_mono; [|apply all_runs_trivial]. by intros tr r _ pre e post.
Qed.

Lemma safely_only {R} P ok (p : prog resp1 R) h :
  only ok p → (∀ pre c x, ok c → P pre (ev (emb c) x)) → safely P h (lift emb answer p) (ran p).
Proof.
  intros Hp HP. eapply safely_part; [by apply only_justified|].
  intros pre1 pre e1 e _ (c & x & -> & ->) Hc. by apply HP.
Qed.

(** What every run of the part satisfies, the one that ran does. *)
Lemma ran_spec {R} (p : prog resp1 R) Q h r :
  all_runs p Q → ran p h r →
  ∃ tr1 tr, tr ⊆ h ∧ Forall2 (lifted emb answer) tr1 tr ∧ Q tr1 r.
Proof.
  intros Hp (tr1 & tr & Hin & Htr & Hr). exists tr1, tr. split_and!; [done..|].
  by eapply runs_elim.
Qed.
End parts.

(** The calls of a program, branch by branch. *)
Ltac only_calls :=
  repeat first
    [ exact I
    | apply only_bind; [|intros ?]
    | apply only_perform
    | match goal with |- only _ (match ?x with _ => _ end) => destruct x end
    | progress intros ? ].

(** Case analysis on every answer of a pass: an [always] goal is split call by
    call, each answer and each test the pass makes on the way destructed, until
    only the facts about the final logs are left. *)
Ltac split_match x :=
  lazymatch x with
  | context [match ?y with _ => _ end] => split_match y
  | map_err _ ?y => split_match y
  | _ => destruct x eqn:?
  end.

Ltac step_run :=
  lazymatch goal with
  | |- always (Ret _) _ _ => cbn [always]
  | |- always (Do _ _) _ _ => cbn [always]; let x := fresh "x" in intros x; cbn in x
  | |- always (perform _) _ _ => unfold perform
  | |- always (_ ≫= _) _ _ => rewrite always_bind
  | |- always (match ?x with _ => _ end) _ _ => split_match x; cbn [map_err]
  end.

Ltac run_cases := repeat step_run.

(** The results of a pass: the parts whose result is not an action are passed over. *)
Ltac settle :=
  repeat lazymatch goal with
    | |- results _ (Ret _) => cbn [results]
    | |- results _ (perform _) => intros ?
    | |- results _ (Do _ _) => intros ?
    | |- results _ (_ ≫= _) => apply results_then; intros ?
    | |- results _ (match ?x with _ => _ end) => destruct x
    | |- results _ (let '_ := ?x in _) => destruct x
    end.

(** Membership in a concrete log. *)
Ltac in_log := repeat first [ apply list_elem_of_here | apply list_elem_of_further ].

(** Membership in a log that also holds the logs of parts of the pass. *)
Ltac logged :=
  first [ eassumption
        | apply list_elem_of_here
        | apply list_elem_of_further; logged
        | apply elem_of_app; left; logged
        | apply elem_of_app; right; logged ].

(** Use a hypothesis that a call or an event is in a concrete log: one goal per
    position, with the impossible ones closed. *)
Ltac log_mem H :=
  cbn in H;
  repeat (apply elem_of_cons in H as [H|H]; [try discriminate H|]);
  try (by apply elem_of_nil in H).
