(* ===== verification/Kube.v ===== *)
(** * Kubernetes objects and the operator's shared types

    The fields of the API objects that the modelled code reads or writes, the
    condition type of the CRDs, the requeue actions and the operator's error
    type, and the interface of the unit library's time extents. *)

From S2P Require Import Prelude RustStd.
Local Open Scope Z_scope.

(** ** API errors

    [kube::Error]: an API status with its HTTP code, or a failure below it. *)
Inductive kube_error : Type :=
  | KubeApi (code : Z)
  | KubeOther (what : string).

(** ** Metadata, Secrets *)
Record owner_reference : Type := { or_kind : string; or_name : string; or_uid : string }.

Record object_meta : Type := ObjectMeta {
  om_name : option string;
  om_namespace : option string;
  om_uid : option string;
  om_labels : option (gmap string string);
  om_annotations : option (gmap string string);
  om_finalizers : option (list string);
  om_generation : option Z;
  om_deleting : bool;  (* deletionTimestamp is set *)
  om_owners : list owner_reference;
}.

Definition empty_meta : object_meta :=
  ObjectMeta None None None None None None None false [].

(** [ResourceExt::name_any]: the name, else the generateName (not used by the
    operator's objects), else empty. *)
Definition name_any (m : object_meta) : string := default "" (om_name m).
Definition namespace_or_default (m : object_meta) : string :=
  default "default" (om_namespace m).
Definition label (m : object_meta) (k : string) : option string :=
  om_labels m ≫= λ l, l !! k.
Definition annotation (m : object_meta) (k : string) : option string :=
  om_annotations m ≫= λ a, a !! k.

(** A Secret: its metadata and its decoded byte values. *)
Record secret : Type := Secret {
  sec_meta : object_meta;
  sec_data : option (gmap string string);
}.

Definition read_pem_key (s : secret) (key : string) : option string :=
  and_then (sec_data s) (λ data, and_then (data !! key) (λ b, result_ok (from_utf8 b))).

(** ** Conditions *)
Record KafkaCondition : Type := Condition {
  type_ : string;
  status : string;
  reason : string;
  message : string;
  last_transition_time : string;
}.

#[global] Instance KafkaCondition_eq_dec : EqDecision KafkaCondition.
Proof. solve_decision. Defined.

(** [ts] is the clock reading of the pass, RFC 3339 in seconds. *)
Definition condition (ts type_ status reason message : string) : KafkaCondition :=
  {| type_ := type_; status := status; reason := reason; message := message;
     last_transition_time := ts |}.

(** ** Actions *)
Inductive action (Time : Type) : Type :=
  | Requeue (delay : Time)
  | RequeueNow
  | AwaitChange.
Arguments Requeue {Time} _.
Arguments RequeueNow {Time}.
Arguments AwaitChange {Time}.

(** ** Time extents

    [krabka_units::Time] with the operations the code uses.  The laws are the
    ones of a totally ordered extent in which taking a non-negative extent away
    does not make one longer. *)
Class TimeOps (Time : Type) : Type := {
  from_millis : Z → Time;
  from_secs : Z → Time;
  time_leb : Time → Time → bool;
  time_add : Time → Time → Time;
  time_sub : Time → Time → Time;
  secs_i64 : Time → Z;
  to_std_nanos : Time → Z;
  days : Z → Time;
  round_days : Time → Z;         (* get::<day>().round() *)
  from_span_nanos : Z → Time;    (* from_secs_f64 of a span's nanoseconds *)
}.

Definition time_ltb `{TimeOps Time} (a b : Time) : bool := negb (time_leb b a).
(** [uom]'s [max] and [min]. *)
Definition time_max `{TimeOps Time} (a b : Time) : Time := if time_leb b a then a else b.
Definition time_min `{TimeOps Time} (a b : Time) : Time := if time_leb a b then a else b.

Class TimeLaws (Time : Type) `{TimeOps Time} : Prop := {
  time_leb_total a b : time_leb a b = false → time_leb b a = true;
  time_leb_trans a b c :
    time_leb a b = true → time_leb b c = true → time_leb a c = true;
  time_sub_leb a b : time_leb (from_millis 0) b = true → time_leb (time_sub a b) a = true;
}.

(** Milliseconds satisfy the interface. *)
#[export] Instance TimeOps_Z : TimeOps Z := {|
  from_millis := id;
  from_secs s := s * 1000;
  time_leb := Z.leb;
  time_add := Z.add;
  time_sub := Z.sub;
  secs_i64 t := t / 1000;
  to_std_nanos t := t * 1000000;
  days n := n * 86400000;
  round_days t := (t + 43200000) / 86400000;
  from_span_nanos n := n / 1000000;
|}.

#[export] Instance TimeLaws_Z : TimeLaws Z.
Proof. split; simpl; unfold id; intros; rewrite ?Z.leb_le, ?Z.leb_gt in *; lia. Qed.

(** ** Errors of the Kafka admin client *)
Record KafkaError : Type := { ke_code : Z; ke_name : string; ke_message : option string }.

Inductive AdminError : Type :=
  | Transport (what : string)
  | Broker (api : string) (code : Z) (name : string) (message : option string)
  | Protocol (what : string)
  | InvalidArgument (what : string)
  | OtherAdminError (what : string).

Definition is_transport (e : AdminError) : bool :=
  match e with Transport _ => true | _ => false end.

(** ** Errors of a pass: the variants the modelled passes produce *)
Inductive ReconcileError : Type :=
  | Kube (e : kube_error)
  | MissingUid
  | MalformedSecret (msg : string)
  | Malformed (msg : string)
  | Ca (msg : string)
  | CertParse (msg : string)
  | ByoCaMissing (which : string)
  | CaSecretMissing (name : string)
  | Admin (e : AdminError)
  | MetricsMutuallyExclusive
  | PrometheusOperatorCrdsMissing
  | MissingOauthTrustSecret (secret : string)
  | MissingOauthTrustKey (secret key : string)
  | EmptyOauthTrustValue (secret key : string)
  | InvalidListenerOauthAccessTokenIsJwt (msg : string)
  | MissingOauthIntrospectionSecret (secret : string)
  | MissingOauthIntrospectionKey (secret key : string)
  | EmptyOauthIntrospectionValue (secret key : string)
  | MissingGssapiKeytabSecret (secret : string)
  | MissingGssapiKeytabKey (secret key : string)
  | MissingKrb5ConfSecret (secret : string)
  | MissingKrb5ConfKey (secret key : string)
  | TieredStorageInvalid (why : string)
  | TracingInvalid (why : string)
  | KafkaConfigInvalid (why : string)
  | Serde (msg : string)
  | ByoCaMalformed (which why : string)
  | SchemaRegistryConfigInvalid (why : string)
  | GatewayConfigInvalid (why : string)
  | Producer (msg : string).

(** [owner_ref]: the reference to the owner, which must be admitted. *)
Definition owner_ref (kind : string) (m : object_meta) : result owner_reference ReconcileError :=
  let? uid := ok_or (om_uid m) MissingUid in
  Ok {| or_kind := kind; or_name := default "" (om_name m); or_uid := uid |}.

(** ** Labels of owned objects *)
Definition APP_LABEL : string := "krabka-broker".

Definition common_labels (kafka_name kafka_version : string) (pool : option string)
  : gmap string string :=
  let m : gmap string string :=
    <["app.kubernetes.io/managed-by" := "krabka-operator"]>
    (<["app.kubernetes.io/version" := kafka_version]>
    (<["app.kubernetes.io/instance" := kafka_name]>
    (<["app.kubernetes.io/name" := APP_LABEL]> ∅))) in
  match pool with Some p => <["krabka.io/pool" := p]> m | None => m end.
