(* ===== verification/Workload.v ===== *)
(** * Pods and the objects that run them

    The Kubernetes workload objects that the operator renders and reads back: pod
    templates with their containers, environment, volumes and probes, StatefulSets with
    their claim templates, Deployments, pods and disruption budgets.  Of the objects only
    the fields that the operator reads or writes are kept. *)

From S2P Require Import Prelude RustStd Kube.
Local Open Scope Z_scope.

(** ** Containers *)
Inductive EnvSource : Type :=
  | FieldRef (path : string)
  | SecretRef (name key : string)
  | ConfigMapRef (name key : string) (optional : bool).

(** A variable has a value, or a source of one. *)
Record EnvVar : Type := {
  env_name : string;
  env_value : option string;
  env_from : option EnvSource;
}.

Definition env_val (name value : string) : EnvVar :=
  {| env_name := name; env_value := Some value; env_from := None |}.
Definition env_ref (name : string) (source : EnvSource) : EnvVar :=
  {| env_name := name; env_value := None; env_from := Some source |}.

(** An argument [flag=value] for a value that is set. *)
Definition opt_arg {A} (flag : string) (show : A → string) (v : option A) : list string :=
  from_option (λ v, [flag +:+ "=" +:+ show v]) [] v.

Record VolumeMount : Type := {
  vm_name : string;
  vm_path : string;
  vm_read_only : bool;
}.

Record ContainerPort : Type := {
  cp_port : Z;
  cp_name : option string;
  cp_protocol : option string;
}.

Inductive ProbeHandler : Type :=
  | HttpGet (path : string) (port : Z)
  | TcpSocket (port : Z).
Record Probe : Type := {
  pr_handler : ProbeHandler;
  pr_initial_delay : option Z;
  pr_period : option Z;
  pr_failure_threshold : option Z;
}.

(** Quantities by resource name, and the claims of dynamic resources. *)
Record ResourceRequirements : Type := {
  rr_requests : option (gmap string string);
  rr_limits : option (gmap string string);
  rr_claims : option (list (string * option string));
}.

Definition cpu_memory (cpu memory : string) : gmap string string :=
  <["cpu" := cpu]> {["memory" := memory]}.

Record SecurityContext : Type := {
  sc_allow_privilege_escalation : bool;
  sc_read_only_root : bool;
  sc_drop : list string;
}.

(** The security context of every container of the operator. *)
Definition locked_down : SecurityContext :=
  {| sc_allow_privilege_escalation := false; sc_read_only_root := true; sc_drop := ["ALL"] |}.

Record Container : Type := {
  c_name : string;
  c_image : option string;
  c_command : option (list string);
  c_args : option (list string);
  c_env : option (list EnvVar);
  c_ports : option (list ContainerPort);
  c_mounts : option (list VolumeMount);
  c_readiness : option Probe;
  c_liveness : option Probe;
  c_startup : option Probe;
  c_resources : option ResourceRequirements;
  c_security : option SecurityContext;
}.

(** ** Pods *)

(** [items]: key and path of a projected file. *)
Inductive VolumeSource : Type :=
  | EmptyDir
  | ConfigMapVolume (name : string)
  | SecretVolume (name : string) (items : option (list (string * string))) (mode : option Z).
Record Volume : Type := { vol_name : string; vol_source : VolumeSource }.

Inductive SeccompProfileType : Type := RuntimeDefault | Localhost.
Record SeccompProfile : Type := {
  profile_type : SeccompProfileType;
  localhost_profile : option string;
}.

Record PodSecurityContext : Type := {
  psc_run_as_non_root : option bool;
  psc_run_as_user : option Z;
  psc_fs_group : option Z;
  psc_seccomp : option SeccompProfile;
}.

Record TopologySpread : Type := {
  tsc_max_skew : Z;
  tsc_topology_key : string;
  tsc_when_unsatisfiable : string;
  tsc_node_taints_policy : option string;
  tsc_match_labels : gmap string string;
}.

(** [node_name] is set by the scheduler. *)
Record PodSpec : Type := {
  init_containers : option (list Container);
  containers : list Container;
  node_name : option string;
  volumes : option (list Volume);
  security_context : option PodSecurityContext;
  termination_grace_period : option Z;
  topology_spread : option (list TopologySpread);
  affinity : option json;
  tolerations : option (list json);
  node_selector : option (gmap string string);
}.
Record PodTemplateSpec : Type := {
  tpl_meta : option object_meta;
  tpl_spec : option PodSpec;
}.

(** [pod_ip] is [status.podIP]. *)
Record Pod : Type := {
  pod_meta : object_meta;
  pod_spec : option PodSpec;
  pod_ip : option string;
}.

(** Labels and annotations of a pod template. *)
Definition template_meta (labels : gmap string string) (annotations : option (gmap string string))
  : object_meta :=
  {| om_name := None; om_namespace := None; om_uid := None; om_labels := Some labels;
     om_annotations := annotations; om_finalizers := None; om_generation := None;
     om_deleting := false; om_owners := [] |}.

(** ** StatefulSets *)
Record ClaimSpec : Type := {
  claim_access_modes : list string;
  claim_storage : option string;   (* resources.requests.storage *)
  claim_class : option string;
}.
Record PersistentVolumeClaim : Type := {
  pvc_meta : object_meta;
  pvc_spec : option ClaimSpec;
}.
Definition pvc_name (c : PersistentVolumeClaim) : option string := om_name (pvc_meta c).

Record RetentionPolicy : Type := { when_deleted : string; when_scaled : string }.

Record StatefulSetSpec : Type := {
  ss_service_name : string;
  ss_replicas : option Z;
  ss_pod_management_policy : option string;
  ss_update_strategy : option string;
  ss_selector : gmap string string;
  ss_template : PodTemplateSpec;
  ss_claims : option (list PersistentVolumeClaim);
  ss_retention : option RetentionPolicy;
}.
Record StatefulSetStatus : Type := {
  sst_observed_generation : option Z;
  sst_replicas : Z;
  sst_available_replicas : option Z;
  sst_current_replicas : option Z;
  sst_ready_replicas : option Z;
  sst_updated_replicas : option Z;
  sst_current_revision : option string;
  sst_update_revision : option string;
}.
Record StatefulSet : Type := {
  ss_meta : object_meta;
  ss_spec : option StatefulSetSpec;
  ss_status : option StatefulSetStatus;
}.

(** ** Deployments *)
Record DeploymentSpec : Type := {
  dep_replicas : option Z;
  dep_strategy : option string;
  dep_selector : gmap string string;
  dep_template : PodTemplateSpec;
}.
Record Deployment : Type := {
  dep_meta : object_meta;
  dep_spec : option DeploymentSpec;
  dep_status_ready : option Z;   (* status.readyReplicas *)
}.

(** ** Disruption budgets *)
Record PodDisruptionBudget : Type := {
  pdb_meta : object_meta;
  pdb_max_unavailable : option Z;
  pdb_min_available : option Z;
  pdb_selector : gmap string string;
}.

(** A label selector of equalities. *)
Definition selects_labels (selector : gmap string string) (labels : gmap string string) : Prop :=
  selector ⊆ labels.

(** ** Well-formed pods

    A pod is admitted only when its volumes have names of their own and every mount of
    a container names a volume of the pod or, in a StatefulSet, one of its claims; and
    two mounts of a container never share a path. *)
Definition mounts_of (c : Container) : list VolumeMount := default [] (c_mounts c).
Definition volume_names (p : PodSpec) : list string := map vol_name (default [] (volumes p)).
Definition all_containers (p : PodSpec) : list Container := default [] (init_containers p) ++ containers p.

Record pod_wf (claims : list string) (p : PodSpec) : Prop := {
  wf_volumes : NoDup (volume_names p ++ claims);
  wf_mounts c m : c ∈ all_containers p → m ∈ mounts_of c → vm_name m ∈ volume_names p ++ claims;
  wf_paths c : c ∈ all_containers p → NoDup (map vm_path (mounts_of c));
  wf_env c : c ∈ all_containers p → NoDup (map env_name (default [] (c_env c)));
}.
