(* ===== verification/Version.v ===== *)
(** * Kafka versions and the metadata version (src/version.rs)

    Parsing of version strings, the evaluation of a declared version against
    the finalized metadata version, and the step of the [Kafka] reconciler that
    finalizes it through [UpdateFeatures] (src/controller/kafka.rs).

    [krabka_metadata] is another repository: its table of feature levels is the
    class [MetadataVersions]. *)

From S2P Require Import Prelude RustStd Effects Kube.
Local Open Scope Z_scope.

Record KafkaVersion : Type := {
  major : Z;
  minor : Z;
  patch : Z;
}.

#[global] Instance KafkaVersion_eq_dec : EqDecision KafkaVersion.
Proof. solve_decision. Defined.

Inductive VersionError : Type := InvalidVersionString (s : string).

Definition parse_component (c : option string) (original : string)
  : result Z VersionError :=
  ok_or (c ≫= parse_u32) (InvalidVersionString original).

(** [KafkaVersion::parse]: the pieces are taken one by one from the iterator. *)
Definition parse (s : string) : result KafkaVersion VersionError :=
  let trimmed := trim s in
  if is_empty trimmed then Err (InvalidVersionString s)
  else
    let core := default trimmed (head (split_char "-" trimmed)) in
    let parts := split_char "." core in
    let? major := parse_component (head parts) s in
    let? minor := match parts !! 1%nat with
                  | Some p => parse_component (Some p) s
                  | None => Ok 0
                  end in
    let? patch := match parts !! 2%nat with
                  | Some p => parse_component (Some p) s
                  | None => Ok 0
                  end in
    match parts !! 3%nat with
    | Some _ => Err (InvalidVersionString s)
    | None => Ok {| major := major; minor := minor; patch := patch |}
    end.

Definition metadata_key (v : KafkaVersion) : Z * Z := (major v, minor v).

Definition short (v : KafkaVersion) : string :=
  display_Z (major v) +:+ "." +:+ display_Z (minor v).

(** The derived order on pairs of integers. *)
Definition key_ltb (a b : Z * Z) : bool :=
  (a.1 <? b.1) || ((a.1 =? b.1) && (a.2 <? b.2)).

Inductive VersionReason : Type :=
  | InvalidVersion
  | MetadataVersionTooHigh
  | MetadataVersionTooLow.

#[global] Instance VersionReason_eq_dec : EqDecision VersionReason.
Proof. solve_decision. Defined.

Definition reason_as_str (r : VersionReason) : string :=
  match r with
  | InvalidVersion => "InvalidVersion"
  | MetadataVersionTooHigh => "MetadataVersionTooHigh"
  | MetadataVersionTooLow => "MetadataVersionTooLow"
  end.

Inductive VersionOutcome : Type :=
  | Valid (resolved_metadata : string)
  | Invalid (reason : VersionReason) (message : string).

(** The feature-level table of [krabka_metadata::metadata_version]. *)
Class MetadataVersions : Type := {
  MetadataVersion : Type;
  from_version_string : string → option MetadataVersion;
  feature_level : MetadataVersion → Z;
  METADATA_VERSION_MIN : Z;
  ONLINE_DOWNGRADE_MIN_LEVEL : Z;
}.

Section evaluate.
Context `{MetadataVersions}.

Definition evaluate (kafka_version : string)
    (spec_metadata_version finalized_metadata_version : option string)
  : VersionOutcome :=
  match parse kafka_version with
  | Err _ =>
      Invalid InvalidVersion
        ("spec.kafkaVersion " +:+ debug_str kafka_version +:+ " is not a valid version")
  | Ok binary =>
      match match spec_metadata_version with
            | Some raw => match parse raw with Ok v => Ok v | Err _ => Err raw end
            | None => Ok binary
            end with
      | Err raw =>
          Invalid InvalidVersion
            ("spec.metadataVersion " +:+ debug_str raw +:+ " is not a valid version")
      | Ok resolved =>
          if key_ltb (metadata_key binary) (metadata_key resolved) then
            Invalid MetadataVersionTooHigh
              ("metadata.version " +:+ short resolved +:+ " is newer than kafkaVersion "
               +:+ short binary +:+ "; upgrade the binary first")
          else
            match from_version_string (short resolved) with
            | None =>
                Invalid MetadataVersionTooLow
                  ("metadata.version " +:+ short resolved +:+ " is not a supported level")
            | Some mv =>
                if feature_level mv <? METADATA_VERSION_MIN then
                  Invalid MetadataVersionTooLow
                    ("metadata.version " +:+ short resolved
                     +:+ " is below the broker's supported floor (3.3-IV3)")
                else
                  let finalized :=
                    finalized_metadata_version ≫= λ v, result_ok (parse v) in
                  if is_some_and
                       (λ f, key_ltb (metadata_key resolved) (metadata_key f)) finalized
                     && is_some_and
                          (λ target, feature_level target <? ONLINE_DOWNGRADE_MIN_LEVEL)
                          (from_version_string (short resolved))
                  then
                    Invalid MetadataVersionTooLow
                      ("online metadata.version downgrade to " +:+ short resolved
                       +:+ " is below the supported floor (3.7-IV0)")
                  else Valid (short resolved)
            end
      end
  end.
End evaluate.

(** ** Finalizing the metadata version (controller/kafka.rs) *)

Inductive UpgradeType : Type := Upgrade | SafeDowngrade.

Inductive mv_call : Type :=
  | AdminClientFor (namespace cluster bootstrap : string)
  | UpdateMetadataVersion (level : Z) (upgrade_type : UpgradeType) (timeout_secs : Z).

(** Both calls answer with nothing or with a printed error. *)
Definition mv_resp (c : mv_call) : Type := result unit string.

Section metadata_update.
Context `{MetadataVersions} (ts : string).

Definition evaluate_kafka_version (kafka_version : string)
    (metadata_version finalized : option string) : KafkaCondition * option string :=
  match evaluate kafka_version metadata_version finalized with
  | Valid resolved =>
      (condition ts "KafkaVersionValid" "True" "Valid"
         ("kafkaVersion " +:+ kafka_version +:+ " metadata.version " +:+ resolved),
       Some resolved)
  | Invalid reason message =>
      (condition ts "KafkaVersionValid" "False" (reason_as_str reason) message, None)
  end.

Definition metadata_version_level (version : string) : option Z :=
  feature_level <$> from_version_string version.

Definition update_failed (what : string) : KafkaCondition :=
  condition ts "KafkaVersionValid" "False" "MetadataVersionUpdateFailed" what.

Definition reconcile_metadata_version (namespace name : string) (port : Z)
    (resolved finalized : option string) (pools_rolled : bool)
  : prog mv_resp (result (option string) KafkaCondition) :=
  match resolved with
  | None => Ret (Ok None)
  | Some resolved =>
  match finalized with
  | None => Ret (Ok (if pools_rolled then Some resolved else None))
  | Some finalized =>
  match metadata_version_level resolved with
  | None => Ret (Ok None)
  | Some target_level =>
  match metadata_version_level finalized with
  | None => Ret (Ok None)
  | Some finalized_level =>
  if target_level =? finalized_level then Ret (Ok (Some resolved))
  else if negb pools_rolled then Ret (Ok (Some finalized))
  else
    let bootstrap :=
      name +:+ "-broker-headless." +:+ namespace +:+ ".svc.cluster.local:" +:+ display_Z port in
    connected ← perform (resp := mv_resp) (AdminClientFor namespace name bootstrap);
    match connected with
    | Err error => Ret (Err (update_failed ("UpdateFeatures connection failed: " +:+ error)))
    | Ok _ =>
        let upgrade_type :=
          if target_level <? finalized_level then SafeDowngrade else Upgrade in
        updated ← perform (resp := mv_resp) (UpdateMetadataVersion target_level upgrade_type 30);
        match updated with
        | Err error =>
            Ret (Err (update_failed ("UpdateFeatures rejected metadata.version "
                                     +:+ resolved +:+ ": " +:+ error)))
        | Ok _ => Ret (Ok (Some resolved))
        end
    end
  end end end end.
End metadata_update.

(** ** Lemmas *)

Lemma key_ltb_spec a b : key_ltb a b = true ↔ (a.1 < b.1 ∨ (a.1 = b.1 ∧ a.2 < b.2)).
Proof.
  unfold key_ltb. rewrite orb_true_iff, andb_true_iff, !Z.ltb_lt, Z.eqb_eq. done.
Qed.

Lemma key_ltb_irrefl a : key_ltb a a = false.
Proof. apply not_true_iff_false. rewrite key_ltb_spec. lia. Qed.

(** A text of digits and dots is left alone by [trim]. *)
Definition version_char (c : ascii) : bool := is_ascii_digit c || Ascii.eqb "." c.

Lemma white_space_not_version w : w ∈ white_space → str_all version_char w = false.
Proof.
  assert (H : Forall (λ w, str_all version_char w = false) white_space).
  { by repeat constructor. }
  rewrite Forall_forall in H. auto.
Qed.

Lemma strip_while_none strip n s : strip s = None → strip_while strip n s = s.
Proof. intros H. destruct n; cbn; [done|]. by rewrite H. Qed.

Lemma first_some_None {A B} (f : A → option B) l :
  (∀ x, x ∈ l → f x = None) → first_some f l = None.
Proof.
  intros H. induction l as [|x l IH]; cbn; [done|].
  rewrite H by set_solver. apply IH. set_solver.
Qed.

Lemma trim_start_version s : str_all version_char s = true → trim_start s = s.
Proof.
  intros Hs. apply strip_while_none, first_some_None. intros w Hw%white_space_not_version.
  destruct (strip_prefix w s) as [r|] eqn:E; [|done].
  apply strip_prefix_Some in E as ->. rewrite str_all_app in Hs.
  apply andb_true_iff in Hs as [Hs _]. congruence.
Qed.

Lemma trim_end_version s : str_all version_char s = true → trim_end s = s.
Proof.
  intros Hs. apply strip_while_none, first_some_None. intros w Hw%white_space_not_version.
  destruct (strip_suffix w s) as [r|] eqn:E; [|done].
  apply strip_suffix_Some in E as ->. rewrite str_all_app in Hs.
  apply andb_true_iff in Hs as [_ Hs]. congruence.
Qed.

Lemma trim_version s : str_all version_char s = true → trim s = s.
Proof.
  intros Hs. unfold trim. rewrite trim_start_version by done. by apply trim_end_version.
Qed.

Lemma digits_no_char (c : ascii) s :
  is_ascii_digit c = false → str_all is_ascii_digit s = true →
  str_all (λ x, negb (Ascii.eqb c x)) s = true.
Proof.
  intros Hc. apply str_all_impl. intros x Hx.
  destruct (Ascii.eqb_spec c x) as [->|]; [congruence|done].
Qed.

Lemma version_char_digits s : str_all is_ascii_digit s = true → str_all version_char s = true.
Proof. apply str_all_impl. intros c Hc. unfold version_char. by rewrite Hc. Qed.

Definition valid_version (v : KafkaVersion) : Prop :=
  0 ≤ major v ≤ u32_max ∧ 0 ≤ minor v ≤ u32_max ∧ 0 ≤ patch v ≤ u32_max.

Lemma parse_component_bounds c s z :
  parse_component c s = Ok z → 0 ≤ z ≤ u32_max.
Proof.
  unfold parse_component, parse_u32, parse_unsigned. destruct c as [p|]; [|done]. cbn.
  destruct (parse_nonempty_digits _) as [x|]; [|done].
  destruct (checked 0 u32_max x) as [y|] eqn:E; [|done].
  apply checked_Some in E as [-> ?]. cbn. intros [= <-]. done.
Qed.

Ltac version_cases :=
  repeat match goal with
  | H : context [match ?x with _ => _ end] |- _ => destruct x eqn:?; try discriminate H
  end.

Lemma parse_valid s v : parse s = Ok v → valid_version v.
Proof.
  unfold parse. intros H. version_cases; simplify_eq;
    repeat split; cbn;
    repeat match goal with
           | H : parse_component _ _ = Ok _ |- _ => apply parse_component_bounds in H
           end; unfold u32_max in *; lia.
Qed.

Lemma short_version_chars v :
  valid_version v → str_all version_char (short v) = true.
Proof.
  intros (?&?&?). unfold short. rewrite !str_all_app.
  rewrite (version_char_digits (display_Z (major v))) by (apply display_Z_digits; lia).
  rewrite (version_char_digits (display_Z (minor v))) by (apply display_Z_digits; lia).
  done.
Qed.

Lemma short_nonempty v : valid_version v → is_empty (short v) = false.
Proof.
  intros (?&?&?). apply is_empty_false.
  destruct (display_Z_nonempty (major v)) as (c & s & E & _); [lia|].
  unfold short. by rewrite E, str_app_cons.
Qed.

Lemma split_dash_short v : valid_version v → split_char "-" (short v) = [short v].
Proof.
  intros Hv. unfold split_char. apply split_on_none.
  eapply str_all_impl; [|apply short_version_chars, Hv].
  intros c Hc. destruct (Ascii.eqb_spec "-" c) as [<-|]; done.
Qed.

Lemma split_dot_short v :
  valid_version v → split_char "." (short v) = [display_Z (major v); display_Z (minor v)].
Proof.
  intros (?&?&?). unfold split_char, short. rewrite (str_app_cons "." ""), str_app_nil_l.
  rewrite split_on_sep; [|by apply digits_no_char, display_Z_digits; [done|lia]|done].
  f_equal. apply split_on_none. apply digits_no_char; [done|]. apply display_Z_digits. lia.
Qed.

Lemma parse_short_eq v :
  valid_version v → parse (short v) = Ok {| major := major v; minor := minor v; patch := 0 |}.
Proof.
  intros Hv. pose proof Hv as (?&?&?). unfold parse.
  rewrite trim_version by by apply short_version_chars.
  rewrite short_nonempty, split_dash_short by done.
  change (default (short v) (head [short v])) with (short v).
  rewrite split_dot_short by done. cbn.
  unfold parse_component, parse_u32. cbn.
  by rewrite !parse_unsigned_display by lia.
Qed.

Section evaluate_lemmas.
Context `{MetadataVersions}.

(** What a valid outcome stands for. *)
Definition resolves (kv : string) (pin : option string) (b v : KafkaVersion) : Prop :=
  parse kv = Ok b ∧ match pin with Some raw => parse raw = Ok v | None => v = b end.

Definition level_at_least (floor : Z) (v : KafkaVersion) : Prop :=
  ∃ mv, from_version_string (short v) = Some mv ∧ floor ≤ feature_level mv.

Definition downgrades (v : KafkaVersion) (fin : option string) : Prop :=
  ∃ raw f, fin = Some raw ∧ parse raw = Ok f ∧ key_ltb (metadata_key v) (metadata_key f) = true.

Definition admissible (v b : KafkaVersion) (fin : option string) : Prop :=
  key_ltb (metadata_key b) (metadata_key v) = false ∧
  level_at_least METADATA_VERSION_MIN v ∧
  (downgrades v fin → level_at_least ONLINE_DOWNGRADE_MIN_LEVEL v).

Lemma resolves_valid kv pin b v : resolves kv pin b v → valid_version b ∧ valid_version v.
Proof.
  intros [Hb Hv]. apply parse_valid in Hb. split; [done|].
  destruct pin; [by eapply parse_valid|by subst].
Qed.

Lemma resolves_det kv pin b v b' v' :
  resolves kv pin b v → resolves kv pin b' v' → b = b' ∧ v = v'.
Proof. intros [Hb Hv] [Hb' Hv']. destruct pin; split; congruence. Qed.

(** The boolean tests of [evaluate], read as the propositions above. *)
Lemma downgrades_bool v fin :
  is_some_and (λ f, key_ltb (metadata_key v) (metadata_key f))
    (fin ≫= λ w, result_ok (parse w)) = true ↔ downgrades v fin.
Proof.
  unfold downgrades. destruct fin as [raw|]; cbn.
  2:{ split; [done|]. intros (? & ? & ? & _). done. }
  destruct (parse raw) as [f|] eqn:E; cbn.
  - split; [by exists raw, f|]. intros (? & f' & [= <-] & Hf & ?). congruence.
  - split; [done|]. intros (? & ? & [= <-] & ? & _). congruence.
Qed.

Lemma level_at_least_bool floor v mv :
  from_version_string (short v) = Some mv →
  level_at_least floor v ↔ (feature_level mv <? floor) = false.
Proof.
  unfold level_at_least. intros ->. rewrite Z.ltb_ge. naive_solver.
Qed.

Lemma evaluate_resolved kv pin fin b v :
  resolves kv pin b v →
  (∃ r m, evaluate kv pin fin = Invalid r m ∧ ¬ admissible v b fin ∧
          r = (if key_ltb (metadata_key b) (metadata_key v)
               then MetadataVersionTooHigh else MetadataVersionTooLow)) ∨
  (evaluate kv pin fin = Valid (short v) ∧ admissible v b fin).
Proof.
  intros [Hb Hv]. unfold evaluate, admissible. rewrite Hb.
  replace (match pin with
           | Some raw => match parse raw with Ok v => Ok v | Err _ => Err raw end
           | None => Ok b end) with (@Ok KafkaVersion string v)
    by (destruct pin; [by rewrite Hv|by subst]).
  destruct (key_ltb (metadata_key b) (metadata_key v)) eqn:Hk.
  { left. eexists _, _. split_and!; [done| |done]. by intros [? _]. }
  destruct (from_version_string (short v)) as [mv|] eqn:Hmv.
  2:{ left. eexists _, _. split; [done|]. split; [|done].
      intros (_ & (mv & Hmv' & _) & _). congruence. }
  pose proof (level_at_least_bool METADATA_VERSION_MIN v mv Hmv) as HL.
  pose proof (level_at_least_bool ONLINE_DOWNGRADE_MIN_LEVEL v mv Hmv) as HO.
  pose proof (downgrades_bool v fin) as HD. cbn [is_some_and].
  destruct (feature_level mv <? METADATA_VERSION_MIN).
  { left. eexists _, _. split_and!; [done| |done]. by intros (_ & ?%HL & _). }
  destruct (is_some_and _ (fin ≫= _)); cbn.
  2:{ right. split_and!; [done..|by apply HL|]. by intros ?%HD. }
  destruct (feature_level mv <? ONLINE_DOWNGRADE_MIN_LEVEL).
  - left. eexists _, _. split_and!; [done| |done].
    intros (_ & _ & Hd). assert (true = false) by (apply HO, Hd, HD; done). done.
  - right. split_and!; [done..|by apply HL|]. intros _. by apply HO.
Qed.

Lemma evaluate_unresolved kv pin fin :
  (¬ ∃ b v, resolves kv pin b v) → ∃ m, evaluate kv pin fin = Invalid InvalidVersion m.
Proof.
  unfold resolves, evaluate. intros Hn. destruct (parse kv) as [b|]; [|by eexists].
  destruct pin as [raw|]; [|destruct Hn; eauto].
  destruct (parse raw) as [v|]; [destruct Hn; eauto|by eexists].
Qed.

Lemma resolves_dec kv pin : (∃ b v, resolves kv pin b v) ∨ ¬ ∃ b v, resolves kv pin b v.
Proof.
  unfold resolves. destruct (parse kv) as [b|]; [|right; by intros (? & ? & ? & _)].
  destruct pin as [raw|]; [|left; eauto].
  destruct (parse raw) as [v|]; [left; eauto|right; by intros (? & ? & _ & ?)].
Qed.
End evaluate_lemmas.

(** ** Properties *)

Lemma evaluate_Valid `{MetadataVersions} kv pin fin r :
  evaluate kv pin fin = Valid r ↔
  ∃ b v, resolves kv pin b v ∧ admissible v b fin ∧ r = short v.
Proof.
  destruct (resolves_dec kv pin) as [(b & v & Hr)|Hn].
  - destruct (evaluate_resolved kv pin fin b v Hr) as [(re & m & -> & Ha & _)|[-> Ha]].
    + split; [done|]. intros (b' & v' & Hr' & Ha' & _).
      destruct (resolves_det _ _ _ _ _ _ Hr Hr') as [-> ->]. done.
    + split; [intros [= <-]; eauto|]. intros (b' & v' & Hr' & _ & ->).
      by destruct (resolves_det _ _ _ _ _ _ Hr Hr') as [-> ->].
  - destruct (evaluate_unresolved kv pin fin Hn) as [m ->].
    split; [done|]. intros (b & v & Hr & _). destruct Hn. eauto.
Qed.

(** C4. An evaluation is [Valid] exactly when both version strings parse (an
    absent pin means the binary's own version), the resolved metadata version
    is not newer than the binary, its level is known and at or above the
    broker's floor, and, when it is below the finalized version, at or above
    the online downgrade floor; the outcome then carries the resolved
    [major.minor]. *)
Theorem evaluate_valid_iff `{MetadataVersions} kv pin fin r :
  evaluate kv pin fin = Valid r ↔
  ∃ b v, resolves kv pin b v ∧ admissible v b fin ∧ r = short v.
Proof. apply evaluate_Valid. Qed.

(** Once the operator has finalized the resolved metadata version in the
    status, the next evaluation of the same spec is still valid and resolves
    to the same version: a finalized version is never taken for a downgrade
    of itself. *)
Theorem evaluate_finalized_stable `{MetadataVersions} kv pin fin r :
  evaluate kv pin fin = Valid r → evaluate kv pin (Some r) = Valid r.
Proof.
  rewrite !evaluate_Valid.
  intros (b & v & Hr & (Hk & Hmin & _) & ->). exists b, v. split_and!; [done| |done].
  split_and!; [done..|]. intros (raw & f & [= <-] & Hf & Hlt). exfalso.
  rewrite parse_short_eq in Hf by (by eapply resolves_valid).
  injection Hf as <-. unfold metadata_key in Hlt. cbn in Hlt.
  by rewrite key_ltb_irrefl in Hlt.
Qed.

(** In every run of the finalization step, [UpdateFeatures] is sent only
    once every pool runs the declared binary, with the level of the resolved
    version, that level differs from the finalized one, and the request is a
    safe downgrade exactly when the level goes down; and the version handed
    back for the status is the finalized one unless the resolved one has the
    same level, was accepted by [UpdateFeatures] in this run, or is the first
    one on a rolled cluster. *)
Theorem metadata_version_update_safe `{MetadataVersions} ts ns name port resolved finalized rolled :
  all_runs (reconcile_metadata_version ts ns name port resolved finalized rolled) (λ tr r,
    (∀ level ut secs, UpdateMetadataVersion level ut secs ∈ calls tr →
       rolled = true ∧
       ∃ rv fv fl, resolved = Some rv ∧ finalized = Some fv ∧
         metadata_version_level rv = Some level ∧ metadata_version_level fv = Some fl ∧
         level ≠ fl ∧ (ut = SafeDowngrade ↔ level < fl)) ∧
    (∀ v, r = Ok (Some v) →
       Some v = finalized ∨
       (Some v = resolved ∧
        ((finalized = None ∧ rolled = true) ∨
         (∃ fv, finalized = Some fv ∧
            metadata_version_level v = metadata_version_level fv) ∨
         (∃ level ut, ev (UpdateMetadataVersion level ut 30) (Ok tt) ∈ tr ∧
            metadata_version_level v = Some level))))).
Proof.
  unfold all_runs, reconcile_metadata_version, calls.
  destruct resolved as [rv|], finalized as [fv|]; cbn; try (split; set_solver).
  2:{ split; [set_solver|]. intros v. destruct rolled; naive_solver. }
  destruct (metadata_version_level rv) as [tl|] eqn:Ht; cbn; [|split; set_solver].
  destruct (metadata_version_level fv) as [fl|] eqn:Hf; cbn; [|split; set_solver].
  destruct (Z.eqb_spec tl fl) as [->|Hne]; cbn.
  { split; [set_solver|]. intros v [= <-]. right. naive_solver congruence. }
  destruct rolled; cbn; [|split; [set_solver|naive_solver]].
  assert (Hut : (if tl <? fl then SafeDowngrade else Upgrade) = SafeDowngrade ↔ tl < fl).
  { destruct (Z.ltb_spec tl fl); split; (done || lia). }
  intros [[]|e]; cbn; [|split; set_solver].
  intros [[]|e]; cbn; split; intros *;
    rewrite ?elem_of_cons, ?elem_of_nil; intros; destruct_or?; simplify_eq;
    try (split; [done|]; by exists rv, fv, fl).
  right. split; [done|]. right; right. eexists _, _. split; [in_log|done].
Qed.

(** A table with the levels around the floors, for the witnesses. *)
Definition sample_levels : MetadataVersions := {|
  MetadataVersion := Z;
  from_version_string s :=
    match parse s with
    | Ok v => if (major v =? 3) || (major v =? 4) then Some (major v * 100 + minor v) else None
    | Err _ => None
    end;
  feature_level := id;
  METADATA_VERSION_MIN := 303;
  ONLINE_DOWNGRADE_MIN_LEVEL := 307;
|}.

Lemma evaluate_finalized_stable_witness :
  @evaluate sample_levels "4.0.1" (Some "3.9-IV0") (Some "4.0") = Valid "3.9" ∧
  @evaluate sample_levels "4.0.1" (Some "3.9-IV0") (Some "3.9") = Valid "3.9".
Proof.
  split; [vm_compute; reflexivity|].
  apply (@evaluate_finalized_stable sample_levels _ _ (Some "4.0")).
  vm_compute. reflexivity.
Defined.
