(* ===== verification/Toml.v ===== *)
(** * The TOML text of a broker's configuration

    The lines that the operator writes with [writeln!] (src/controller/listeners.rs)
    as items of a document, their text, and a reader of that part of TOML: tables,
    arrays of tables, and keys with strings, integers, booleans, arrays of strings
    and inline tables.  A document whose strings are clean reads back as written. *)

From S2P Require Import Prelude RustStd.
Local Open Scope Z_scope.

Definition nl : ascii := ascii_of_nat 10.
Definition dquote : ascii := ascii_of_nat 34.
Definition backslash : ascii := ascii_of_nat 92.
Definition of_char (c : ascii) : string := String c "".

(** [s.replace(c, rep)] *)
Fixpoint replace_char (c : ascii) (rep s : string) : string :=
  match s with
  | "" => ""
  | String a s => (if Ascii.eqb a c then rep else of_char a) +:+ replace_char c rep s
  end.

Definition toml_escape (s : string) : string :=
  replace_char dquote (of_char backslash +:+ of_char dquote)
    (replace_char backslash (of_char backslash +:+ of_char backslash) s).

(** The text between two double quotes; nothing is escaped. *)
Definition quoted (s : string) : string := of_char dquote +:+ s +:+ of_char dquote.

Definition toml_string_array (items : list string) : string :=
  "[" +:+ join ", " (map quoted items) +:+ "]".

(** ** Items *)
Inductive inline : Type := IStr (s : string) | IStrs (l : list string).

Inductive value : Type :=
  | VRaw (s : string)         (* "{s}" *)
  | VEsc (s : string)         (* "{}", toml_escape(s) *)
  | VLit (s : string)         (* '''{s}''' *)
  | VInt (z : Z)
  | VBool (b : bool)
  | VStrs (l : list string)   (* toml_string_array(l) *)
  | VInline (l : list (string * inline)).

Inductive item : Type :=
  | Blank                                   (* out.push('\n') *)
  | Table (name : string)
  | ArrayTable (name : string)
  | Kv (key : string) (v : value)           (* key = v *)
  | QuotedKv (key v : string).              (* "key" = "v" *)

Definition print_inline (v : inline) : string :=
  match v with IStr s => quoted s | IStrs l => toml_string_array l end.

Definition print_value (v : value) : string :=
  match v with
  | VRaw s => quoted s
  | VEsc s => quoted (toml_escape s)
  | VLit s => "'''" +:+ s +:+ "'''"
  | VInt z => display_Z z
  | VBool b => display_bool b
  | VStrs l => toml_string_array l
  | VInline l => "{ " +:+ join ", " (map (λ '(k, v), k +:+ " = " +:+ print_inline v) l) +:+ " }"
  end.

Definition print_item (i : item) : string :=
  match i with
  | Blank => ""
  | Table n => "[" +:+ n +:+ "]"
  | ArrayTable n => "[[" +:+ n +:+ "]]"
  | Kv k v => k +:+ " = " +:+ print_value v
  | QuotedKv k v => quoted k +:+ " = " +:+ quoted v
  end.

Definition print_doc (d : list item) : string :=
  concat_str (map (λ i, print_item i +:+ of_char nl) d).

(** ** Reading

    The values of the grammar, and the tree that a document denotes line by line. *)
Inductive tvalue : Type :=
  | TStr (s : string)
  | TInt (z : Z)
  | TBool (b : bool)
  | TArr (l : list string)
  | TInline (l : list (string * inline)).

Inductive titem : Type :=
  | TBlank
  | TTable (name : string)
  | TArrayTable (name : string)
  | TKv (key : string) (v : tvalue).

(** Control characters other than tab may not stand in a string. *)
Definition is_control (c : ascii) : bool :=
  ((code c <? 32) && negb (code c =? 9)) || (code c =? 127).

Definition unescape (c : ascii) : option ascii :=
  if Ascii.eqb c dquote || Ascii.eqb c backslash then Some c
  else if Ascii.eqb c "b" then Some (ascii_of_nat 8)
  else if Ascii.eqb c "t" then Some (ascii_of_nat 9)
  else if Ascii.eqb c "n" then Some (ascii_of_nat 10)
  else if Ascii.eqb c "f" then Some (ascii_of_nat 12)
  else if Ascii.eqb c "r" then Some (ascii_of_nat 13)
  else None.

Definition push (c : ascii) (r : option (string * string)) : option (string * string) :=
  opt_map (λ '(s, rest), (String c s, rest)) r.

(** A basic string after its opening quote, and what follows it. *)
Fixpoint read_basic (s : string) : option (string * string) :=
  match s with
  | "" => None
  | String c s =>
      if Ascii.eqb c dquote then Some ("", s)
      else if Ascii.eqb c backslash then
        match s with
        | String e s => match unescape e with Some x => push x (read_basic s) | None => None end
        | "" => None
        end
      else if is_control c then None else push c (read_basic s)
  end.

Definition read_string (s : string) : option (string * string) :=
  and_then (strip_prefix (of_char dquote) s) read_basic.

(** The elements of an array after [\[]; each round reads one. *)
Fixpoint read_elements (fuel : nat) (s : string) : option (list string * string) :=
  match fuel with
  | O => None
  | S fuel =>
      match read_string s with
      | None => None
      | Some (x, s) =>
          match strip_prefix "]" s with
          | Some rest => Some ([x], rest)
          | None =>
              match and_then (strip_prefix ", " s) (read_elements fuel) with
              | Some (xs, rest) => Some (x :: xs, rest)
              | None => None
              end
          end
      end
  end.

Definition read_array (s : string) : option (list string * string) :=
  and_then (strip_prefix "[" s) (λ s,
    match strip_prefix "]" s with
    | Some rest => Some ([], rest)
    | None => read_elements (S (String.length s)) s
    end).

Definition read_inline (s : string) : option (inline * string) :=
  match read_string s with
  | Some (x, rest) => Some (IStr x, rest)
  | None => opt_map (λ '(l, rest), (IStrs l, rest)) (read_array s)
  end.

Fixpoint read_entries (fuel : nat) (s : string) : option (list (string * inline) * string) :=
  match fuel with
  | O => None
  | S fuel =>
      match split_once_str " = " s with
      | None => None
      | Some (k, s) =>
          match read_inline s with
          | None => None
          | Some (v, s) =>
              match strip_prefix " }" s with
              | Some rest => Some ([(k, v)], rest)
              | None =>
                  match and_then (strip_prefix ", " s) (read_entries fuel) with
                  | Some (kvs, rest) => Some ((k, v) :: kvs, rest)
                  | None => None
                  end
              end
          end
      end
  end.

(** [Some (v, "")] when the whole text is one value. *)
Definition whole {A} (f : A → tvalue) (r : option (A * string)) : option tvalue :=
  and_then r (λ '(a, rest), if is_empty rest then Some (f a) else None).

Definition read_value (s : string) : option tvalue :=
  if starts_with (of_char dquote) s then whole TStr (read_string s)
  else if starts_with "'''" s then
    whole TStr (and_then (strip_prefix "'''" s) (split_once_str "'''"))
  else if starts_with "[" s then whole TArr (read_array s)
  else if starts_with "{ " s then
    whole TInline (and_then (strip_prefix "{ " s) (λ s, read_entries (S (String.length s)) s))
  else if str_eqb s "true" then Some (TBool true)
  else if str_eqb s "false" then Some (TBool false)
  else opt_map TInt (parse_i64 s).

Definition read_item (s : string) : option titem :=
  if is_empty s then Some TBlank
  else if starts_with "[[" s then
    opt_map TArrayTable (and_then (strip_prefix "[[" s) (strip_suffix "]]"))
  else if starts_with "[" s then opt_map TTable (and_then (strip_prefix "[" s) (strip_suffix "]"))
  else if starts_with (of_char dquote) s then
    and_then (read_string s) (λ '(k, rest),
      and_then (strip_prefix " = " rest) (λ s, opt_map (TKv k) (read_value s)))
  else and_then (split_once_str " = " s) (λ '(k, s), opt_map (TKv k) (read_value s)).

Fixpoint read_items (lines : list string) : option (list titem) :=
  match lines with
  | [] => Some []
  | l :: lines =>
      and_then (read_item l) (λ i, opt_map (cons i) (read_items lines))
  end.

(** Every line ends with a line feed. *)
Definition read_doc (s : string) : option (list titem) :=
  and_then (strip_suffix (of_char nl) s) (λ s, read_items (split_char nl s)).

(** ** What a document means *)
Definition value_meaning (v : value) : tvalue :=
  match v with
  | VRaw s | VEsc s | VLit s => TStr s
  | VInt z => TInt z
  | VBool b => TBool b
  | VStrs l => TArr l
  | VInline l => TInline l
  end.

Definition item_meaning (i : item) : titem :=
  match i with
  | Blank => TBlank
  | Table n => TTable n
  | ArrayTable n => TArrayTable n
  | Kv k v => TKv k (value_meaning v)
  | QuotedKv k v => TKv k (TStr v)
  end.

(** ** Clean texts *)
Definition no_control (s : string) : bool := str_all (λ c, negb (is_control c)) s.
Definition plain (s : string) : bool :=
  str_all (λ c, negb (is_control c) && negb (Ascii.eqb c dquote) && negb (Ascii.eqb c backslash)) s.
Definition bare_char (c : ascii) : bool :=
  is_ascii_alphanumeric c || Ascii.eqb c "_" || Ascii.eqb c "-" || Ascii.eqb c ".".
Definition bare (s : string) : bool := negb (is_empty s) && str_all bare_char s.
(** A text that three quotes end where they stand. *)
Definition literal (s : string) : bool :=
  no_control s && bool_decide (split_once_str "'''" (s +:+ "''") = None).

Definition wf_inline (v : inline) : bool :=
  match v with IStr s => plain s | IStrs l => forallb plain l end.

Definition wf_value (v : value) : bool :=
  match v with
  | VRaw s => plain s
  | VEsc s => no_control s
  | VLit s => literal s
  | VInt z => (0 <=? z) && (z <=? i64_max)
  | VBool _ => true
  | VStrs l => forallb plain l
  | VInline l => negb (bool_decide (l = [])) && forallb (λ '(k, v), bare k && wf_inline v) l
  end.

Definition wf_item (i : item) : bool :=
  match i with
  | Blank => true
  | Table n | ArrayTable n => bare n
  | Kv k v => bare k && wf_value v
  | QuotedKv k v => plain k && plain v
  end.

(** ** Reading what was written *)
Ltac str_norm :=
  unfold of_char;
  repeat first [rewrite <- str_app_assoc | rewrite str_app_cons | rewrite str_app_nil_l].

Lemma toml_escape_cons c s :
  toml_escape (String c s) =
  (if Ascii.eqb c backslash then of_char backslash +:+ of_char backslash
   else if Ascii.eqb c dquote then of_char backslash +:+ of_char dquote
   else of_char c) +:+ toml_escape s.
Proof.
  unfold toml_escape. cbn [replace_char].
  destruct (Ascii.eqb_spec c backslash) as [->|Hb]; [done|]. 
  generalize (replace_char backslash (of_char backslash +:+ of_char backslash) s). intros r.
  unfold of_char. rewrite (str_app_cons c), str_app_nil_l. cbn [replace_char].
  by destruct (Ascii.eqb c dquote).
Qed.

Lemma read_basic_escaped s rest :
  no_control s = true → read_basic (toml_escape s +:+ String dquote rest) = Some (s, rest).
Proof.
  intros Hs. induction s as [|c s IH]; [done|]. cbn in Hs. apply andb_true_iff in Hs as [Hc Hs].
  apply negb_true_iff in Hc. rewrite toml_escape_cons.
  destruct (Ascii.eqb_spec c backslash) as [->|Hb]; [str_norm; cbn; by rewrite IH|].
  destruct (Ascii.eqb_spec c dquote) as [->|Hd]; [str_norm; cbn; by rewrite IH|].
  str_norm. cbn. apply Ascii.eqb_neq in Hb as ->, Hd as ->. by rewrite Hc, IH.
Qed.

Lemma read_basic_plain s rest :
  plain s = true → read_basic (s +:+ String dquote rest) = Some (s, rest).
Proof.
  intros Hs. induction s as [|c s IH]; [done|]. cbn in Hs.
  rewrite !andb_true_iff, !negb_true_iff in Hs. destruct Hs as [[[Hc Hd] Hb] Hs].
  str_norm. cbn. by rewrite Hd, Hb, Hc, IH.
Qed.

Lemma read_string_quoted t s rest :
  read_basic (t +:+ String dquote rest) = Some (s, rest) →
  read_string (quoted t +:+ rest) = Some (s, rest).
Proof.
  intros H. unfold read_string, quoted. rewrite <- !str_app_assoc, strip_prefix_app. done.
Qed.

Lemma read_string_plain s rest :
  plain s = true → read_string (quoted s +:+ rest) = Some (s, rest).
Proof. intros Hs. by apply read_string_quoted, read_basic_plain. Qed.

Lemma join_cons2 sep a b l : join sep (a :: b :: l) = a +:+ sep +:+ join sep (b :: l).
Proof. done. Qed.

Lemma strip_bracket_comma s : strip_prefix "]" (", " +:+ s) = None.
Proof. by str_norm. Qed.

Lemma read_elements_plain x l rest fuel :
  forallb plain (x :: l) = true → (length l < fuel)%nat →
  read_elements fuel (join ", " (map quoted (x :: l)) +:+ "]" +:+ rest) = Some (x :: l, rest).
Proof.
  revert x fuel. induction l as [|y l IH]; intros x [|fuel] Hp Hf; cbn [length] in Hf; try lia;
    cbn [forallb] in Hp; apply andb_true_iff in Hp as [Hx Hp]; cbn [map].
  - cbn [join read_elements]. by rewrite read_string_plain.
  - rewrite join_cons2, <- !str_app_assoc. cbn [read_elements].
    rewrite read_string_plain by done. rewrite strip_bracket_comma, strip_prefix_app.
    cbn [and_then]. change (quoted y :: map quoted l) with (map quoted (y :: l)).
    by rewrite IH by (done || lia).
Qed.

Lemma quoted_length s : String.length (quoted s) = (2 + String.length s)%nat.
Proof. unfold quoted. rewrite !str_length_app. cbn. lia. Qed.

Lemma join_length sep l : (length l ≤ String.length (join sep (map quoted l)))%nat.
Proof.
  induction l as [|x [|y l] IH]; cbn [length map]; [lia|cbn [join]; rewrite quoted_length; lia|].
  rewrite join_cons2, !str_length_app, quoted_length. cbn [length map] in IH. lia.
Qed.

Lemma read_array_plain l rest :
  forallb plain l = true → read_array (toml_string_array l +:+ rest) = Some (l, rest).
Proof.
  intros Hl. unfold read_array, toml_string_array. rewrite <- !str_app_assoc, strip_prefix_app.
  cbn [and_then]. destruct l as [|x l]; [done|].
  assert (strip_prefix "]" (join ", " (map quoted (x :: l)) +:+ "]" +:+ rest) = None) as ->.
  { destruct l; cbn [map]; rewrite ?join_cons2; cbn [join]; unfold quoted at 1; by str_norm. }
  apply read_elements_plain; [done|]. pose proof (join_length ", " (x :: l)) as Hj.
  rewrite str_length_app. cbn [length] in *. lia.
Qed.

Lemma split_once_str_free c sep k rest :
  str_all (λ a, negb (Ascii.eqb c a)) k = true →
  split_once_str (String c sep) (k +:+ String c sep +:+ rest) = Some (k, rest).
Proof.
  intros Hk. induction k as [|a k IH].
  - rewrite str_app_nil_l. destruct (String c sep +:+ rest) as [|x y] eqn:E.
    { by rewrite str_app_cons in E. }
    cbn [split_once_str]. rewrite <- E. by rewrite strip_prefix_app.
  - cbn in Hk. apply andb_true_iff in Hk as [Ha Hk]. apply negb_true_iff in Ha.
    rewrite str_app_cons. cbn [split_once_str strip_prefix].
    destruct (Ascii.eqb_spec c a); [done|]. rewrite IH by done. done.
Qed.

Lemma bare_no_space k : bare k = true → str_all (λ a, negb (Ascii.eqb " " a)) k = true.
Proof.
  unfold bare. intros [_ Hk]%andb_true_iff. eapply str_all_impl; [|exact Hk]. intros c Hc.
  destruct (Ascii.eqb_spec " " c) as [<-|]; [by vm_compute in Hc|done].
Qed.

Lemma read_inline_print v rest :
  wf_inline v = true → read_inline (print_inline v +:+ rest) = Some (v, rest).
Proof.
  unfold read_inline. destruct v as [s|l]; cbn [wf_inline print_inline]; intros Hv.
  - by rewrite read_string_plain.
  - assert (read_string (toml_string_array l +:+ rest) = None) as ->.
    { unfold read_string, toml_string_array. by str_norm. }
    by rewrite read_array_plain.
Qed.

Definition print_entry : string * inline → string := λ '(k, v), k +:+ " = " +:+ print_inline v.

Lemma read_entries_print e l rest fuel :
  forallb (λ '(k, v), bare k && wf_inline v) (e :: l) = true → (length l < fuel)%nat →
  read_entries fuel (join ", " (map print_entry (e :: l)) +:+ " }" +:+ rest) = Some (e :: l, rest).
Proof.
  revert e fuel. induction l as [|e' l IH]; intros [k v] [|fuel] Hp Hf; cbn [length] in Hf; try lia;
    cbn [forallb] in Hp; apply andb_true_iff in Hp as [[Hk Hv]%andb_true_iff Hp]; cbn [map].
  - cbn [join read_entries print_entry]. rewrite <- !str_app_assoc.
    rewrite split_once_str_free by by apply bare_no_space.
    rewrite read_inline_print by done. by rewrite strip_prefix_app.
  - rewrite join_cons2. cbn [read_entries]. unfold print_entry at 1. rewrite <- !str_app_assoc.
    rewrite split_once_str_free by by apply bare_no_space.
    rewrite read_inline_print by done.
    assert (∀ s, strip_prefix " }" (", " +:+ s) = None) as -> by (intros s; by str_norm).
    rewrite strip_prefix_app. cbn [and_then].
    change (print_entry e' :: map print_entry l) with (map print_entry (e' :: l)).
    by rewrite IH by (done || lia).
Qed.

Lemma entries_length l : (length l ≤ String.length (join ", " (map print_entry l)))%nat.
Proof.
  induction l as [|[k v] [|y l] IH]; cbn [length map]; [lia|..].
  - cbn [join print_entry]. rewrite !str_length_app. cbn. lia.
  - rewrite join_cons2, !str_length_app. cbn [length map] in IH. cbn [String.length]. lia.
Qed.

Lemma strip_prefix_longer p s t :
  strip_prefix p s = None → (String.length p ≤ String.length s)%nat →
  strip_prefix p (s +:+ t) = None.
Proof.
  revert s. induction p as [|a p IH]; intros [|b s] H Hlen; cbn in Hlen; try (done || lia).
  rewrite str_app_cons. cbn [strip_prefix] in *. destruct (Ascii.eqb a b); [|done].
  apply IH; [done|lia].
Qed.

(** The quotes that end a literal are the first three in a row. *)
Lemma split_literal s rest :
  split_once_str "'''" (s +:+ "''") = None → split_once_str "'''" (s +:+ "'''" +:+ rest) = Some (s, rest).
Proof.
  induction s as [|c s IH]; intros H.
  { rewrite str_app_nil_l. by str_norm. }
  rewrite str_app_cons in H. rewrite (str_app_cons c s). cbn [split_once_str] in H |- *.
  destruct (strip_prefix "'''" (String c (s +:+ "''"))) as [r|] eqn:E; [done|].
  assert (strip_prefix "'''" (String c (s +:+ "'''" +:+ rest)) = None) as ->.
  { replace (String c (s +:+ "'''" +:+ rest)) with (String c (s +:+ "''") +:+ ("'" +:+ rest)).
    - apply strip_prefix_longer; [done|]. cbn [String.length]. rewrite str_length_app. cbn. lia.
    - rewrite str_app_cons. f_equal. by str_norm. }
  destruct (split_once_str "'''" (s +:+ "''")) as [[]|]; [done|]. by rewrite IH.
Qed.

Lemma read_value_print v : wf_value v = true → read_value (print_value v) = Some (value_meaning v).
Proof.
  assert (∀ t s, read_basic (t +:+ String dquote "") = Some (s, "") →
    read_value (quoted t) = Some (TStr s)) as Hq.
  { intros t s H. apply read_string_quoted in H. rewrite str_app_nil_r in H.
    unfold read_value. assert (starts_with (of_char dquote) (quoted t) = true) as ->.
    { unfold starts_with, quoted. by rewrite strip_prefix_app. }
    unfold whole. by rewrite H. }
  destruct v as [s|s|s|z|b|l|l]; cbn [print_value wf_value value_meaning]; intros Hv.
  - by apply Hq, read_basic_plain.
  - by apply Hq, read_basic_escaped.
  - unfold literal in Hv. apply andb_true_iff in Hv as [_ Hv%bool_decide_eq_true].
    unfold read_value. assert (starts_with (of_char dquote) ("'''" +:+ s +:+ "'''") = false) as ->
      by by str_norm.
    unfold starts_with at 1. rewrite strip_prefix_app. cbn [opt_is_some and_then].
    rewrite <- (str_app_nil_r "'''") at 2. by rewrite split_literal.
  - apply andb_true_iff in Hv as [Hz1%Z.leb_le Hz2%Z.leb_le].
    destruct (display_Z_nonempty z Hz1) as (c & t & Hd & Hc). unfold read_value. rewrite Hd.
    assert (∀ d p, is_ascii_digit d = false → starts_with (String d p) (String c t) = false) as Hst.
    { intros d p Hdd. unfold starts_with. cbn. destruct (Ascii.eqb_spec d c); [congruence|done]. }
    unfold of_char. rewrite !Hst by done.
    assert (∀ d p, is_ascii_digit d = false → str_eqb (String c t) (String d p) = false) as Hne.
    { intros d p Hdd. apply str_eqb_neq. intros [= -> _]. congruence. }
    rewrite !Hne by done. rewrite <- Hd. unfold parse_i64.
    by rewrite parse_signed_display by (unfold i64_min; lia).
  - by destruct b.
  - assert (starts_with (of_char dquote) (toml_string_array l) = false) as Hs1
      by (unfold toml_string_array; by str_norm).
    assert (starts_with "'''" (toml_string_array l) = false) as Hs2
      by (unfold toml_string_array; by str_norm).
    assert (starts_with "[" (toml_string_array l) = true) as Hs3
      by (unfold toml_string_array, starts_with; by rewrite strip_prefix_app).
    unfold read_value. rewrite Hs1, Hs2, Hs3.
    rewrite <- (str_app_nil_r (toml_string_array l)), read_array_plain by done. done.
  - apply andb_true_iff in Hv as [Hne Hl]. apply negb_true_iff, bool_decide_eq_false in Hne.
    destruct l as [|e l]; [done|]. fold print_entry. set (body := join ", " _).
    assert (starts_with (of_char dquote) ("{ " +:+ body +:+ " }") = false) as Hs1 by by str_norm.
    assert (starts_with "'''" ("{ " +:+ body +:+ " }") = false) as Hs2 by by str_norm.
    assert (starts_with "[" ("{ " +:+ body +:+ " }") = false) as Hs3 by by str_norm.
    unfold read_value. rewrite Hs1, Hs2, Hs3. unfold starts_with. rewrite strip_prefix_app.
    cbn [opt_is_some and_then]. rewrite <- (str_app_nil_r " }") at 2. unfold body.
    rewrite read_entries_print; [done|done|]. pose proof (entries_length (e :: l)) as Hlen.
    rewrite str_length_app. cbn [length] in *. lia.
Qed.

(** A bare text starts with none of the characters that open another item. *)
Lemma bare_starts c p k t :
  bare_char c = false → bare k = true → starts_with (String c p) (k +:+ t) = false.
Proof.
  unfold bare. intros Hc [Hne Hk]%andb_true_iff. destruct k as [|a k]; [done|].
  cbn in Hk. apply andb_true_iff in Hk as [Ha _]. rewrite str_app_cons. unfold starts_with. cbn.
  destruct (Ascii.eqb_spec c a) as [->|]; [congruence|done].
Qed.

Lemma read_item_print i : wf_item i = true → read_item (print_item i) = Some (item_meaning i).
Proof.
  destruct i as [|n|n|k v|k v]; cbn [wf_item print_item item_meaning]; intros H.
  - done.
  - unfold read_item. assert (is_empty ("[" +:+ n +:+ "]") = false) as -> by by str_norm.
    assert (starts_with "[[" ("[" +:+ n +:+ "]") = false) as ->.
    { pose proof (bare_starts "[" "" n "]" ltac:(done) H) as Hb. unfold starts_with in *.
      rewrite str_app_cons, str_app_nil_l. exact Hb. }
    unfold starts_with. rewrite strip_prefix_app. cbn [opt_is_some and_then].
    by rewrite strip_suffix_app.
  - unfold read_item. assert (is_empty ("[[" +:+ n +:+ "]]") = false) as -> by by str_norm.
    unfold starts_with. rewrite strip_prefix_app. cbn [opt_is_some and_then].
    by rewrite strip_suffix_app.
  - apply andb_true_iff in H as [Hk Hv]. unfold read_item.
    assert (is_empty (k +:+ " = " +:+ print_value v) = false) as ->.
    { destruct k; [done|]. by rewrite str_app_cons. }
    unfold of_char. rewrite !bare_starts by done.
    rewrite split_once_str_free by by apply bare_no_space. cbn [and_then].
    by rewrite read_value_print.
  - apply andb_true_iff in H as [Hk Hv]. unfold read_item.
    assert (is_empty (quoted k +:+ " = " +:+ quoted v) = false) as -> by (unfold quoted; by str_norm).
    assert (starts_with "[[" (quoted k +:+ " = " +:+ quoted v) = false) as ->
      by (unfold quoted; by str_norm).
    assert (starts_with "[" (quoted k +:+ " = " +:+ quoted v) = false) as ->
      by (unfold quoted; by str_norm).
    assert (starts_with (of_char dquote) (quoted k +:+ " = " +:+ quoted v) = true) as ->.
    { unfold quoted, starts_with. by rewrite <- !str_app_assoc, strip_prefix_app. }
    rewrite read_string_plain by done. cbn [and_then]. rewrite strip_prefix_app. cbn [and_then].
    change (quoted v) with (print_value (VRaw v)). by rewrite read_value_print.
Qed.

(** ** One line per item *)
Definition one_line (s : string) : bool := str_all (λ c, negb (Ascii.eqb nl c)) s.

Lemma one_line_app a b : one_line (a +:+ b) = one_line a && one_line b.
Proof. apply str_all_app. Qed.

Lemma no_control_one_line s : no_control s = true → one_line s = true.
Proof.
  apply str_all_impl. intros c Hc. destruct (Ascii.eqb_spec nl c) as [<-|]; [by vm_compute in Hc|done].
Qed.

Lemma plain_no_control s : plain s = true → no_control s = true.
Proof. apply str_all_impl. intros c. rewrite !andb_true_iff. tauto. Qed.

Lemma bare_one_line s : bare s = true → one_line s = true.
Proof.
  unfold bare. intros [_ H]%andb_true_iff. eapply str_all_impl; [|exact H]. intros c Hc.
  destruct (Ascii.eqb_spec nl c) as [<-|]; [by vm_compute in Hc|done].
Qed.

Lemma escape_one_line s : no_control s = true → one_line (toml_escape s) = true.
Proof.
  intros Hs%no_control_one_line. induction s as [|c s IH]; [done|].
  cbn in Hs. apply andb_true_iff in Hs as [Hc Hs]. rewrite toml_escape_cons, one_line_app, IH by done.
  rewrite andb_true_r. repeat case_match; try done. cbn. by rewrite Hc.
Qed.

Lemma quoted_one_line s : one_line s = true → one_line (quoted s) = true.
Proof. intros Hs. unfold quoted. by rewrite !one_line_app, Hs. Qed.

Lemma join_one_line sep l :
  one_line sep = true → (∀ s, s ∈ l → one_line s = true) → one_line (join sep l) = true.
Proof.
  intros Hsep. induction l as [|x [|y l] IH]; intros Hl; [done|apply Hl; left|].
  rewrite join_cons2, !one_line_app, Hsep, IH, Hl; [done|left|]. intros s Hs. apply Hl. by right.
Qed.

Lemma array_one_line l : forallb plain l = true → one_line (toml_string_array l) = true.
Proof.
  intros Hl. unfold toml_string_array. rewrite !one_line_app, (join_one_line ", "); [done|done|].
  intros s (x & -> & Hx)%list_elem_of_fmap. apply quoted_one_line, no_control_one_line, plain_no_control.
  rewrite forallb_forall in Hl. apply Hl. by apply list_elem_of_In.
Qed.

Lemma inline_one_line v : wf_inline v = true → one_line (print_inline v) = true.
Proof.
  destruct v as [s|l]; cbn; intros Hv; [|by apply array_one_line].
  by apply quoted_one_line, no_control_one_line, plain_no_control.
Qed.

Lemma value_one_line v : wf_value v = true → one_line (print_value v) = true.
Proof.
  destruct v as [s|s|s|z|b|l|l]; cbn [wf_value print_value]; intros Hv.
  - by apply quoted_one_line, no_control_one_line, plain_no_control.
  - by apply quoted_one_line, escape_one_line.
  - unfold literal in Hv. apply andb_true_iff in Hv as [Hv _].
    by rewrite !one_line_app, (no_control_one_line s).
  - apply andb_true_iff in Hv as [Hz%Z.leb_le _]. eapply str_all_impl; [|by apply display_Z_digits].
    intros c Hc. destruct (Ascii.eqb_spec nl c) as [<-|]; [by vm_compute in Hc|done].
  - by destruct b.
  - by apply array_one_line.
  - apply andb_true_iff in Hv as [_ Hl]. rewrite !one_line_app, (join_one_line ", "); [done|done|].
    intros s ([k v] & -> & Hx)%list_elem_of_fmap. rewrite forallb_forall in Hl.
    specialize (Hl (k, v)). cbn in Hl. rewrite andb_true_iff in Hl.
    destruct Hl as [Hk Hv]; [by apply list_elem_of_In|].
    by rewrite !one_line_app, (bare_one_line k), inline_one_line.
Qed.

Lemma item_one_line i : wf_item i = true → one_line (print_item i) = true.
Proof.
  destruct i as [|n|n|k v|k v]; cbn [wf_item print_item]; intros H; rewrite ?one_line_app; [done|..].
  - by rewrite (bare_one_line n).
  - by rewrite (bare_one_line n).
  - apply andb_true_iff in H as [Hk Hv]. by rewrite (bare_one_line k), value_one_line.
  - apply andb_true_iff in H as [Hk Hv].
    by rewrite (quoted_one_line k), (quoted_one_line v) by by apply no_control_one_line, plain_no_control.
Qed.

(** Segments joined by a character that none of them has. *)
Definition free_of (c : ascii) (s : string) : bool := str_all (λ a, negb (Ascii.eqb c a)) s.

Lemma split_segments c s segments :
  free_of c s = true → (∀ l, l ∈ segments → free_of c l = true) →
  split_char c (s +:+ concat_str (map (λ l, of_char c +:+ l) segments)) = s :: segments.
Proof.
  unfold split_char, free_of. revert s. induction segments as [|l segments IH]; intros s Hs Hl.
  - cbn. rewrite str_app_nil_r. by apply split_on_none.
  - cbn [map concat_str foldr]. unfold of_char at 1. rewrite <- (str_app_assoc (String c "")).
    rewrite str_app_cons, str_app_nil_l. rewrite split_on_sep; [|done|by rewrite Ascii.eqb_refl].
    f_equal. apply IH; [apply Hl; left|]. intros l' Hl'. apply Hl. by right.
Qed.

Lemma split_lines s lines :
  one_line s = true → (∀ l, l ∈ lines → one_line l = true) →
  split_char nl (s +:+ concat_str (map (λ l, of_char nl +:+ l) lines)) = s :: lines.
Proof. apply split_segments. Qed.

(** The text of a document without its last line feed. *)
Lemma print_doc_lines i d :
  print_doc (i :: d) =
  (print_item i +:+ concat_str (map (λ l, of_char nl +:+ l) (map print_item d))) +:+ of_char nl.
Proof.
  unfold print_doc. revert i. induction d as [|j d IH]; intros i.
  - cbn. by rewrite !str_app_nil_r.
  - cbn [map concat_str foldr] in *. rewrite (IH j). by rewrite <- !str_app_assoc.
Qed.

Lemma read_items_print d :
  forallb wf_item d = true → read_items (map print_item d) = Some (map item_meaning d).
Proof.
  induction d as [|i d IH]; cbn [forallb map read_items]; [done|].
  intros [Hi Hd]%andb_true_iff. rewrite read_item_print by done. cbn [and_then]. by rewrite IH.
Qed.

(** A clean document reads back as it was written. *)
Lemma read_print_doc d :
  d ≠ [] → forallb wf_item d = true → read_doc (print_doc d) = Some (map item_meaning d).
Proof.
  intros Hne Hwf. destruct d as [|i d]; [done|]. rewrite print_doc_lines. unfold read_doc.
  rewrite strip_suffix_app. cbn [and_then].
  assert (∀ j, j ∈ i :: d → one_line (print_item j) = true) as Hlines.
  { intros j Hj. apply item_one_line. rewrite forallb_forall in Hwf. apply Hwf. by apply list_elem_of_In. }
  rewrite split_lines.
  - apply (read_items_print (i :: d) Hwf).
  - apply Hlines. left.
  - intros l (j & -> & Hj)%list_elem_of_fmap. apply Hlines. by right.
Qed.

(** ** Tables and keys

    A document defines no table twice, and no key twice in a table; an element of an
    array of tables starts a table of its own.  No table has the name of a key of
    the root. *)
Fixpoint scoped (tables arrays keys : list string) (d : list titem) : bool :=
  match d with
  | [] => true
  | TBlank :: d => scoped tables arrays keys d
  | TKv k _ :: d => negb (bool_decide (k ∈ keys)) && scoped tables arrays (k :: keys) d
  | TTable n :: d =>
      negb (bool_decide (n ∈ tables ++ arrays)) && scoped (n :: tables) arrays [] d
  | TArrayTable n :: d => negb (bool_decide (n ∈ tables)) && scoped tables (n :: arrays) [] d
  end.

Fixpoint root_keys (d : list titem) : list string :=
  match d with
  | TBlank :: d => root_keys d
  | TKv k _ :: d => k :: root_keys d
  | _ => []
  end.

Definition table_of (i : titem) : option string := match i with TTable n => Some n | _ => None end.
Definition array_of (i : titem) : option string := match i with TArrayTable n => Some n | _ => None end.
Definition key_of (i : titem) : option string := match i with TKv k _ => Some k | _ => None end.
Definition tables_of (d : list titem) : list string := filter_map table_of d.
Definition arrays_of (d : list titem) : list string := filter_map array_of d.
Definition keys_of (d : list titem) : list string := filter_map key_of d.

Definition well_scoped (d : list titem) : bool :=
  scoped [] [] [] d &&
  forallb (λ n, negb (bool_decide (n ∈ root_keys d))) (tables_of d ++ arrays_of d).

(** A table or an element of an array of tables, with its keys. *)
Definition entries_ok (d : list titem) : Prop :=
  tables_of d = [] ∧ arrays_of d = [] ∧ NoDup (keys_of d).
Definition block_ok (b : list titem) : Prop :=
  match b with
  | TTable _ :: d | TArrayTable _ :: d => entries_ok d
  | _ => False
  end.

Lemma scoped_entries d tables arrays keys rest :
  tables_of d = [] → arrays_of d = [] → NoDup (keys_of d) → (∀ k, k ∈ keys_of d → k ∉ keys) →
  scoped tables arrays keys (d ++ rest) = scoped tables arrays (rev (keys_of d) ++ keys) rest.
Proof.
  revert keys. induction d as [|[] d IH]; intros keys Ht Ha Hn Hk; try done.
  - apply IH; done.
  - cbn in Hn, Hk. apply NoDup_cons in Hn as [Hx Hn]. cbn [app scoped].
    rewrite bool_decide_eq_false_2 by (apply Hk; left). cbn. rewrite IH; try done.
    + cbn. by rewrite <- app_assoc.
    + intros k' Hk'. apply not_elem_of_cons. split; [set_solver|]. apply Hk. by right.
Qed.

(** Blocks with distinct names are well scoped after any keys. *)
Lemma scoped_blocks bs tables arrays keys :
  Forall block_ok bs →
  NoDup (tables_of (concat bs)) →
  (∀ n, n ∈ tables_of (concat bs) → n ∉ tables ∧ n ∉ arrays ∧ n ∉ arrays_of (concat bs)) →
  (∀ n, n ∈ arrays_of (concat bs) → n ∉ tables) →
  scoped tables arrays keys (concat bs) = true.
Proof.
  intros Hok. revert tables arrays keys. induction Hok as [|b bs Hb Hbs IH]; intros tables arrays keys; [done|].
  unfold tables_of, arrays_of. cbn [concat]. rewrite !filter_map_app.
  destruct b as [|i d]; [done|]. intros Hn Ht Ha.
  destruct i as [|n|n|]; try done; destruct Hb as (Htd & Had & Hkd);
    unfold tables_of, arrays_of in Htd, Had;
    cbn [filter_map table_of array_of app] in *; rewrite Htd in Hn, Ht; rewrite Had in Ht, Ha; cbn [app] in *; cbn [app scoped].
  - apply NoDup_cons in Hn as [Hx Hn]. rewrite bool_decide_eq_false_2.
    2:{ destruct (Ht n) as (?&?&?); [left|]. rewrite elem_of_app. tauto. }
    cbn. rewrite scoped_entries; [|done|done|done|set_solver]. apply IH; [done| |].
    + intros m Hm. destruct (Ht m) as (?&?&?); [by right|]. split_and!; [|done|done].
      apply not_elem_of_cons. split; [|done]. intros ->. done.
    + intros m Hm. apply not_elem_of_cons. split; [|by apply Ha]. intros ->.
      destruct (Ht n) as (_&_&?); [left|done].
  - rewrite bool_decide_eq_false_2 by (apply Ha; left). cbn.
    rewrite scoped_entries; [|done|done|done|set_solver]. apply IH; [done| |].
    + intros m Hm. destruct (Ht m) as (?&?&Hna); [done|]. apply not_elem_of_cons in Hna as [??].
      split_and!; [done| |done]. by apply not_elem_of_cons.
    + intros m Hm. apply Ha. by right.
Qed.
