(* ===== verification/Tuning.v ===== *)
(** * Broker tuning (src/crd/kafka.rs)

    The [brokerTuning] part of a Kafka resource: 139 optional fields, the rule of
    each, the relations between them, and the [runtime] table they become in the
    broker's configuration.  The struct that the source's macro defines is a map
    from field names here, and the macro's argument is the list [tuning_fields]. *)

From S2P Require Import Prelude RustStd Kube Toml.
Local Open Scope Z_scope.

(** The first word of a field's line, with its bound. *)
Inductive tuning_kind : Type :=
  | KRefined (lo : Z)               (* refined: Greater<lo - 1> *)
  | KPlain
  | KString
  | KTime
  | KTimeNonnegative
  | KTimeMillis (max : option Z)    (* whole milliseconds, time_i32 and the like *)
  | KSize (max : Z)                 (* whole bytes *)
  | KSizeSnapshotFetch
  | KRatioPositive
  | KRatioUnit.

Definition tuning_fields : list (tuning_kind * string) :=
  [
(KTime, "startup_leader_wait_timeout");
   (KTime, "self_registration_backoff_min");
   (KTime, "self_registration_backoff_max");
   (KTime, "observer_poll_interval");
   (KTime, "audit_spool_replay_interval");
   (KTime, "audit_stats_poll_interval");
   (KTime, "audit_partition_wait_timeout");
   (KTime, "liveness_tick_interval");
   (KTime, "gauge_poll_interval");
   (KTime, "cleaner_interval");
   (KTime, "isr_scan_interval");
   (KTime, "future_log_move_retry_backoff");
   (KTime, "client_metrics_eviction_tick");
   (KTime, "client_metrics_stale_floor");
   ((KTimeMillis (Some i32_max)), "client_metrics_default_interval");
   ((KSize i32_max), "client_metrics_telemetry_max");
   (KTime, "client_metrics_prom_snapshot_ttl");
   (KTime, "rlmm_reconcile_tick");
   (KTime, "rlmm_bootstrap_backoff_initial");
   (KTime, "rlmm_bootstrap_backoff_max");
   (KTime, "connection_creation_throttle_max");
   (KTime, "opa_http_timeout");
   (KTime, "oauth_jwks_http_timeout");
   (KTime, "auto_join_retry_backoff");
   ((KTimeMillis (Some i32_max)), "auto_join_voter_request_timeout");
   ((KSize i32_max), "replication_fetch_max");
   ((KTimeMillis (Some i32_max)), "replication_fetch_max_wait");
   ((KSize i32_max), "replication_fetch_min");
   (KTime, "replication_throttle_exhausted_backoff");
   (KTime, "replication_send_error_backoff");
   (KTime, "replication_unknown_topic_retry_delay");
   (KTime, "replication_epoch_fence_backoff");
   (KTime, "replication_unexpected_error_backoff");
   (KTime, "replication_reconnect_initial_delay");
   (KTime, "replication_reconnect_delay_cap");
   (KTime, "coordinator_session_expiry_tick");
   (KTime, "coordinator_shutdown_ack_timeout");
   (KTime, "consumer_group_session_timeout");
   (KTime, "consumer_group_heartbeat_interval");
   (KTime, "consumer_group_min_session_timeout");
   (KTime, "consumer_group_max_session_timeout");
   (KTime, "consumer_group_min_heartbeat_interval");
   (KTime, "consumer_group_max_heartbeat_interval");
   ((KRefined 1), "consumer_group_max_size");
   (KTime, "classic_group_initial_rebalance_delay");
   (KTime, "sync_group_follower_wait");
   (KTime, "unclean_recovery_aggressive_deadline");
   (KTime, "unclean_recovery_balanced_deadline");
   (KTime, "operator_recovery_deadline");
   (KTime, "quota_throttle_max");
   ((KRefined 1), "self_registration_max_attempts");
   ((KSize u32_max), "observer_fetch_max");
   ((KRefined 1), "audit_event_queue_capacity");
   ((KRefined 1), "audit_tail_window_offsets");
   ((KSize u64_max), "audit_tail_read_max");
   (KTime, "offsets_topic_metadata_wait_timeout");
   ((KRefined 1), "client_metrics_stale_push_intervals");
   ((KRefined 1), "client_metrics_otlp_queue_capacity");
   ((KRefined 1), "coordinator_actor_mailbox_capacity");
   ((KRefined 1), "diskless_wal_local_replica_count");
   (KTime, "diskless_wal_flush_interval");
   ((KSize u64_max), "diskless_wal_flush_max_size");
   ((KRefined 0), "diskless_wal_trim_safety_lag");
   (KTime, "diskless_wal_index_projection_timeout");
   ((KRefined 1), "unclean_recovery_queue_capacity");
   ((KSize u64_max), "share_recovery_read_max");
   ((KRefined 1), "share_session_cache_max_when_unlimited");
   ((KSize u64_max), "log_read_buffer_cap");
   ((KSize u64_max), "log_timestamp_scan_window");
   ((KSize u32_max), "socket_request_max");
   ((KSize u64_max), "sendfile_min");
   ((KSize u64_max), "socket_send_buffer");
   ((KSize u64_max), "socket_receive_buffer");
   ((KSize u64_max), "acl_max_principal");
   ((KSize u64_max), "acl_max_resource_name");
   (KRatioPositive, "telemetry_max_decompression_ratio");
   ((KSize u64_max), "telemetry_decompressed_output_floor");
   ((KSize u64_max), "telemetry_decompressed_output_ceiling");
   (KRatioPositive, "record_decompression_max_ratio");
   ((KSize u64_max), "record_decompression_output_floor");
   ((KSize u64_max), "record_decompression_output_ceiling");
   (KString, "inter_broker_server_name");
   ((KTimeMillis None), "producer_id_expiration");
   (KTime, "producer_id_expiration_scan_interval");
   ((KRefined 1), "max_produce_group");
   ((KRefined 1), "partition_writer_queue_depth");
   ((KRefined 1), "default_min_insync_replicas");
   ((KSize u64_max), "future_log_move_read_chunk");
   ((KRefined 1), "share_state_num_partitions");
   ((KRefined 1), "share_state_replication_factor");
   ((KRefined 1), "transaction_state_num_partitions");
   ((KSize u64_max), "transaction_recovery_read_max");
   ((KRefined 1), "transaction_state_replication_factor");
   ((KTimeMillis (Some i32_max)), "transaction_min_timeout");
   ((KTimeMillis (Some (i32_max - 1))), "transaction_max_timeout");
   (KTimeNonnegative, "partition_disk_scan_interval");
   (KPlain, "observer_lag_bound");
   (KTime, "heartbeat_interval");
   (KTime, "heartbeat_timeout");
   (KTime, "replica_lag_time_max");
   (KTime, "controller_election_timeout");
   (KTime, "controller_heartbeat_interval");
   ((KRefined 1), "controller_fetch_miss_limit");
   ((KRefined 1), "metadata_raft_command_queue_capacity");
   ((KSize i32_max), "metadata_raft_fetch_max");
   (KTime, "controlled_shutdown_drain_timeout");
   ((KSize u64_max), "metadata_max_between_snapshots");
   (KTimeNonnegative, "metadata_max_snapshot_interval");
   ((KRefined 1), "metadata_snapshot_interval_records");
   (KSizeSnapshotFetch, "metadata_snapshot_fetch_max");
   (KTimeNonnegative, "txn_abort_cleanup_interval");
   (KTime, "leader_imbalance_check_interval");
   (KRatioUnit, "leader_imbalance_per_broker");
   (KTimeNonnegative, "tls_reload_interval");
   (KPlain, "max_incremental_fetch_session_cache_slots");
   (KPlain, "max_connections");
   (KPlain, "max_connections_per_ip");
   ((KTimeMillis None), "delegation_token_max_lifetime");
   ((KTimeMillis None), "delegation_token_expiry_check_interval");
   ((KTimeMillis None), "delegation_token_default_renew_period");
   (KTime, "remote_log_manager_interval");
   (KPlain, "share_group_enable");
   (KTime, "share_group_session_timeout");
   (KTime, "share_group_heartbeat_interval");
   ((KRefined 1), "share_group_max_size");
   (KTime, "share_group_record_lock_duration");
   ((KRefined 1), "share_group_max_delivery_attempts");
   ((KRefined 1), "share_group_max_inflight_records");
   (KString, "share_group_isolation_level");
   (KPlain, "streams_group_enable");
   (KTime, "streams_group_session_timeout");
   (KTime, "streams_group_heartbeat_interval");
   ((KRefined 1), "streams_group_max_size");
   ((KRefined 1), "streams_internal_topic_replication_factor");
   ((KRefined 0), "streams_group_num_standby_replicas");
   ((KRefined 0), "streams_group_num_warmup_replicas");
   ((KRefined 0), "streams_group_acceptable_recovery_lag");
   (KTime, "streams_group_task_offset_interval");
   (KString, "streams_group_assignor")
  ].

Inductive tuning_value {Time ByteSize Ratio : Type} : Type :=
  | TvInt (z : Z)
  | TvBool (b : bool)
  | TvStr (s : string)
  | TvTime (t : Time)
  | TvSize (s : ByteSize)
  | TvRatio (r : Ratio).
Arguments tuning_value Time ByteSize Ratio : clear implicits.

(** [krabka_units]'s sizes and ratios. *)
Class SizeOps (ByteSize : Type) : Type := {
  from_bytes : Z → ByteSize;
  bytes_u64 : ByteSize → Z;
  size_leb : ByteSize → ByteSize → bool;
  size_eqb : ByteSize → ByteSize → bool;
  size_finite : ByteSize → bool;
}.
Class RatioOps (Ratio : Type) : Type := {
  fraction : Z → Ratio;             (* of a whole number *)
  ratio_leb : Ratio → Ratio → bool;
  ratio_finite : Ratio → bool;
}.

Definition to_ascii_upper (c : ascii) : ascii :=
  if is_ascii_lower c then ascii_of_nat (nat_of_ascii c - 32) else c.

Definition camel_case (field : string) : string :=
  match split_char "_" field with
  | [] => ""
  | first :: parts =>
      first +:+ concat_str (map (λ part,
        match part with String c rest => String (to_ascii_upper c) rest | "" => "" end) parts)
  end.

Definition path (field : string) : string := "spec.brokerTuning." +:+ camel_case field.
Definition invalid (field error : string) : string := path field +:+ ": " +:+ error.
Definition invalid_relation (left_ right_ message : string) : string :=
  path left_ +:+ " and " +:+ path right_ +:+ ": " +:+ message.

Section tuning.
Context `{TimeOps Time} `{SizeOps ByteSize} `{RatioOps Ratio}.
Context (millis_i64 : Time → Z) (time_eqb : Time → Time → bool) (time_finite : Time → bool).
(** Errors of [refined_type], and the policies of other crates: the fetch limit of
    a metadata snapshot, and record decompression with its defaults. *)
Context (refined_error : Z → Z → string) (empty_error : string)
  (snapshot_fetch_max : ByteSize → result unit string)
  (decompression_policy : Ratio → ByteSize → ByteSize → result unit string)
  (default_ratio : Ratio) (default_floor default_ceiling : ByteSize).
#[local] Notation BrokerTuning := (gmap string (tuning_value Time ByteSize Ratio)).
#[local] Notation check := (result unit string).

(** ** The rule of one field *)
Definition validate_nonnegative_tuning_time (field : string) (v : Time) : check :=
  if time_finite v && time_leb (from_secs 0) v then Ok tt
  else Err (invalid field "must be finite and nonnegative").

Definition validate_positive_tuning_time (field : string) (v : Time) : check :=
  if? validate_nonnegative_tuning_time field v in
  if time_ltb (from_secs 0) v then Ok tt else Err (invalid field "must be positive").

Definition validate_whole_millis_tuning_time (field : string) (v : Time) : check :=
  if? validate_positive_tuning_time field v in
  if time_eqb (from_millis (millis_i64 v)) v then Ok tt
  else Err (invalid field "must be a whole number of milliseconds").

Definition validate_bounded_tuning_time (field : string) (v : Time) (max_ms : Z) : check :=
  if? validate_whole_millis_tuning_time field v in
  if millis_i64 v <=? max_ms then Ok tt
  else Err (invalid field ("must be at most " +:+ display_Z max_ms +:+ "ms")).

Definition validate_tuning_size (field : string) (v : ByteSize) (max : Z) : check :=
  let bytes := bytes_u64 v in
  if negb (size_finite v) || size_leb v (from_bytes 0) || negb (size_eqb (from_bytes bytes) v)
  then Err (invalid field "must be a positive whole number of bytes")
  else if bytes <=? max then Ok tt
  else Err (invalid field ("must be at most " +:+ display_Z max +:+ " bytes")).

Definition validate_positive_tuning_ratio (field : string) (v : Ratio) : check :=
  if ratio_finite v && negb (ratio_leb v (fraction 0)) then Ok tt
  else Err (invalid field "must be finite and positive").

Definition validate_unit_interval_tuning_ratio (field : string) (v : Ratio) : check :=
  if ratio_finite v && ratio_leb (fraction 0) v && ratio_leb v (fraction 1) then Ok tt
  else Err (invalid field "must be between 0% and 100%").

(** [validate_tuning_field!]: an absent field is fine. *)
Definition validate_tuning_field (t : BrokerTuning) (k : tuning_kind) (field : string) : check :=
  match k, t !! field with
  | KRefined lo, Some (TvInt v) =>
      if lo <=? v then Ok tt else Err (invalid field (refined_error lo v))
  | KTime, Some (TvTime v) => validate_positive_tuning_time field v
  | KTimeNonnegative, Some (TvTime v) => validate_nonnegative_tuning_time field v
  | KTimeMillis (Some max), Some (TvTime v) => validate_bounded_tuning_time field v max
  | KTimeMillis None, Some (TvTime v) => validate_whole_millis_tuning_time field v
  | KSize max, Some (TvSize v) => validate_tuning_size field v max
  | KSizeSnapshotFetch, Some (TvSize v) => map_err (invalid field) (snapshot_fetch_max v)
  | KRatioPositive, Some (TvRatio v) => validate_positive_tuning_ratio field v
  | KRatioUnit, Some (TvRatio v) => validate_unit_interval_tuning_ratio field v
  | _, _ => Ok tt
  end.

Fixpoint validate_fields (t : BrokerTuning) (fields : list (tuning_kind * string)) : check :=
  match fields with
  | [] => Ok tt
  | (k, field) :: fields => if? validate_tuning_field t k field in validate_fields t fields
  end.

(** ** Strings and relations *)
Definition string_field (t : BrokerTuning) (field : string) : option string :=
  match t !! field with Some (TvStr s) => Some s | _ => None end.
Definition time_field (t : BrokerTuning) (field : string) (default_ms : Z) : Time :=
  match t !! field with Some (TvTime v) => v | _ => from_millis default_ms end.
Definition size_field (t : BrokerTuning) (field : string) (d : ByteSize) : ByteSize :=
  match t !! field with Some (TvSize v) => v | _ => d end.

Definition one_of (values : list string) (v : option string) : bool :=
  is_none_or (λ s, existsb (str_eqb s) values) v.

Definition validate_strings (t : BrokerTuning) : check :=
  if? (if is_some_and is_empty (string_field t "inter_broker_server_name")
       then Err (invalid "inter_broker_server_name" empty_error) else Ok tt) in
  if? (if one_of ["read-uncommitted"; "read-committed"] (string_field t "share_group_isolation_level")
       then Ok tt
       else Err (invalid "share_group_isolation_level"
                   "expected `read-uncommitted` or `read-committed`")) in
  if one_of ["auto"; "sticky"; "highly-available"] (string_field t "streams_group_assignor")
  then Ok tt
  else Err (invalid "streams_group_assignor" "expected `auto`, `sticky`, or `highly-available`").

(** [ordered!] for times with [<=] and with [<], and for sizes. *)
Definition ordered_le (t : BrokerTuning) (l : string) (ld : Z) (r : string) (rd : Z) : check :=
  if time_ltb (time_field t r rd) (time_field t l ld)
  then Err (invalid_relation l r "minimum or initial value exceeds maximum") else Ok tt.
Definition ordered_lt (t : BrokerTuning) (l : string) (ld : Z) (r : string) (rd : Z) : check :=
  if time_leb (time_field t r rd) (time_field t l ld)
  then Err (invalid_relation l r "left value must be below right value") else Ok tt.
Definition ordered_size (t : BrokerTuning) (l : string) (ld : Z) (r : string) (rd : Z) : check :=
  if negb (size_leb (size_field t l (from_bytes ld)) (size_field t r (from_bytes rd)))
  then Err (invalid_relation l r "minimum or initial value exceeds maximum") else Ok tt.

(** [(min..=max).contains(v)] *)
Definition within (lo hi v : Time) : bool := time_leb lo v && time_leb v hi.

Definition bounded (t : BrokerTuning) (v : string) (vd : Z) (lo : string) (lod : Z)
    (hi : string) (hid : Z) : check :=
  if within (time_field t lo lod) (time_field t hi hid) (time_field t v vd) then Ok tt
  else Err (path v +:+ " must be within " +:+ path lo +:+ " and " +:+ path hi).

Definition fixed_range (t : BrokerTuning) (field : string) (lo hi : Z) : check :=
  if within (from_millis lo) (from_millis hi) (time_field t field lo) then Ok tt
  else Err (invalid field ("must be within " +:+ display_Z lo +:+ "..=" +:+ display_Z hi)).

Definition validate_record_decompression (t : BrokerTuning) : check :=
  let ratio := match t !! "record_decompression_max_ratio" with
               | Some (TvRatio r) => r | _ => default_ratio end in
  map_err (λ e, path "record_decompression_max_ratio" +:+ ", " +:+
                path "record_decompression_output_floor" +:+ ", and " +:+
                path "record_decompression_output_ceiling" +:+ ": " +:+ e)
    (decompression_policy ratio
       (size_field t "record_decompression_output_floor" default_floor)
       (size_field t "record_decompression_output_ceiling" default_ceiling)).

Definition validate_relations (t : BrokerTuning) : check :=
  if? ordered_le t "self_registration_backoff_min" 100 "self_registration_backoff_max" 5000 in
  if? ordered_le t "rlmm_bootstrap_backoff_initial" 250 "rlmm_bootstrap_backoff_max" 10000 in
  if? ordered_size t "replication_fetch_min" 1 "replication_fetch_max" 1048576 in
  if? ordered_le t "replication_reconnect_initial_delay" 100 "replication_reconnect_delay_cap" 5000 in
  if? ordered_lt t "heartbeat_interval" 3000 "heartbeat_timeout" 9000 in
  if? ordered_lt t "controller_heartbeat_interval" 500 "controller_election_timeout" 5000 in
  if? ordered_le t "delegation_token_default_renew_period" 86400000
        "delegation_token_max_lifetime" 604800000 in
  if? ordered_le t "client_metrics_eviction_tick" 60000 "client_metrics_stale_floor" 600000 in
  if? ordered_le t "unclean_recovery_aggressive_deadline" 2000
        "unclean_recovery_balanced_deadline" 30000 in
  if? ordered_size t "telemetry_decompressed_output_floor" 16777216
        "telemetry_decompressed_output_ceiling" 1073741824 in
  if? validate_record_decompression t in
  if? ordered_lt t "transaction_min_timeout" 1000 "transaction_max_timeout" 900000 in
  if? ordered_le t "consumer_group_min_session_timeout" 45000
        "consumer_group_max_session_timeout" 60000 in
  if? bounded t "consumer_group_session_timeout" 45000 "consumer_group_min_session_timeout" 45000
        "consumer_group_max_session_timeout" 60000 in
  if? ordered_le t "consumer_group_min_heartbeat_interval" 5000
        "consumer_group_max_heartbeat_interval" 15000 in
  if? bounded t "consumer_group_heartbeat_interval" 5000 "consumer_group_min_heartbeat_interval" 5000
        "consumer_group_max_heartbeat_interval" 15000 in
  if? fixed_range t "share_group_session_timeout" 45000 60000 in
  if? fixed_range t "share_group_heartbeat_interval" 5000 15000 in
  if? fixed_range t "streams_group_session_timeout" 45000 60000 in
  fixed_range t "streams_group_heartbeat_interval" 5000 15000.

Definition validate_tuning (t : BrokerTuning) : check :=
  if? validate_fields t tuning_fields in
  if? validate_strings t in
  validate_relations t.

(** ** The [runtime] table

    [toml_string] is the [Display] of [toml::Value::String]; the other three are the
    human forms of [krabka_units]. *)
Context (toml_string : string → string)
  (human_time : Time → string) (human_size : ByteSize → string) (human_ratio : Ratio → string).

(** [render_tuning_field!] *)
Definition render_tuning_value (v : tuning_value Time ByteSize Ratio) : string :=
  match v with
  | TvInt z => display_Z z
  | TvBool b => display_bool b
  | TvStr s => toml_string s
  | TvTime t => toml_string (human_time t)
  | TvSize s => toml_string (human_size s)
  | TvRatio r => toml_string (human_ratio r)
  end.

Definition render_runtime_toml (t : BrokerTuning) : string :=
  let values := concat_str (filter_map (λ '(_, field),
    opt_map (λ v, field +:+ " = " +:+ render_tuning_value v +:+ of_char nl) (t !! field))
    tuning_fields) in
  if is_empty values then "" else "[runtime]" +:+ of_char nl +:+ values +:+ of_char nl.
End tuning.

(** ** What a valid tuning satisfies *)
Section bounds.
Context `{TimeOps Time} `{SizeOps ByteSize} `{RatioOps Ratio}.
Context (millis_i64 : Time → Z) (time_eqb : Time → Time → bool) (time_finite : Time → bool).
Context (refined_error : Z → Z → string) (empty_error : string)
  (snapshot_fetch_max : ByteSize → result unit string)
  (decompression_policy : Ratio → ByteSize → ByteSize → result unit string)
  (default_ratio : Ratio) (default_floor default_ceiling : ByteSize).
#[local] Notation BrokerTuning := (gmap string (tuning_value Time ByteSize Ratio)).
#[local] Notation validate := (validate_tuning millis_i64 time_eqb time_finite refined_error
  empty_error snapshot_fetch_max decompression_policy default_ratio default_floor default_ceiling).
Implicit Types (t : BrokerTuning).

(** Above zero, also in an order that is not total. *)
Definition positive (x : Time) : Prop :=
  time_leb (from_secs 0) x = true ∧ time_leb x (from_secs 0) = false.

(** A value in the range of its field. *)
Definition in_kind (k : tuning_kind) (v : tuning_value Time ByteSize Ratio) : Prop :=
  match k, v with
  | KRefined lo, TvInt z => lo ≤ z
  | KTime, TvTime x => time_finite x = true ∧ positive x
  | KTimeNonnegative, TvTime x => time_finite x = true ∧ time_leb (from_secs 0) x = true
  | KTimeMillis max, TvTime x =>
      time_finite x = true ∧ positive x ∧
      time_eqb (from_millis (millis_i64 x)) x = true ∧ ∀ m, max = Some m → millis_i64 x ≤ m
  | KSize max, TvSize x =>
      size_finite x = true ∧ size_leb x (from_bytes 0) = false ∧ size_eqb (from_bytes (bytes_u64 x)) x = true ∧
      bytes_u64 x ≤ max
  | KSizeSnapshotFetch, TvSize x => snapshot_fetch_max x = Ok tt
  | KRatioPositive, TvRatio x => ratio_finite x = true ∧ ratio_leb x (fraction 0) = false
  | KRatioUnit, TvRatio x =>
      ratio_finite x = true ∧ ratio_leb (fraction 0) x = true ∧ ratio_leb x (fraction 1) = true
  | _, _ => True
  end.

(** The relations between the effective values of fields, the set ones or the
    defaults: times in order, times strictly in order, sizes in order, and times in a
    fixed range (whose lower end is the default). *)
Definition ordered_times : list (string * Z * string * Z) :=
  [("self_registration_backoff_min", 100, "self_registration_backoff_max", 5000);
   ("rlmm_bootstrap_backoff_initial", 250, "rlmm_bootstrap_backoff_max", 10000);
   ("replication_reconnect_initial_delay", 100, "replication_reconnect_delay_cap", 5000);
   ("delegation_token_default_renew_period", 86400000, "delegation_token_max_lifetime", 604800000);
   ("client_metrics_eviction_tick", 60000, "client_metrics_stale_floor", 600000);
   ("unclean_recovery_aggressive_deadline", 2000, "unclean_recovery_balanced_deadline", 30000);
   ("consumer_group_min_session_timeout", 45000, "consumer_group_max_session_timeout", 60000);
   ("consumer_group_min_session_timeout", 45000, "consumer_group_session_timeout", 45000);
   ("consumer_group_session_timeout", 45000, "consumer_group_max_session_timeout", 60000);
   ("consumer_group_min_heartbeat_interval", 5000, "consumer_group_max_heartbeat_interval", 15000);
   ("consumer_group_min_heartbeat_interval", 5000, "consumer_group_heartbeat_interval", 5000);
   ("consumer_group_heartbeat_interval", 5000, "consumer_group_max_heartbeat_interval", 15000)].
Definition strict_times : list (string * Z * string * Z) :=
  [("heartbeat_interval", 3000, "heartbeat_timeout", 9000);
   ("controller_heartbeat_interval", 500, "controller_election_timeout", 5000);
   ("transaction_min_timeout", 1000, "transaction_max_timeout", 900000)].
Definition ordered_sizes : list (string * Z * string * Z) :=
  [("replication_fetch_min", 1, "replication_fetch_max", 1048576);
   ("telemetry_decompressed_output_floor", 16777216, "telemetry_decompressed_output_ceiling", 1073741824)].
Definition ranged_times : list (string * Z * Z) :=
  [("share_group_session_timeout", 45000, 60000); ("share_group_heartbeat_interval", 5000, 15000);
   ("streams_group_session_timeout", 45000, 60000); ("streams_group_heartbeat_interval", 5000, 15000)].

Definition related t : Prop :=
  Forall (λ '(l, ld, r, rd), time_leb (time_field t l ld) (time_field t r rd) = true) ordered_times ∧
  Forall (λ '(l, ld, r, rd), time_leb (time_field t r rd) (time_field t l ld) = false) strict_times ∧
  Forall (λ '(l, ld, r, rd),
    size_leb (size_field t l (from_bytes ld)) (size_field t r (from_bytes rd)) = true) ordered_sizes ∧
  Forall (λ '(f, lo, hi), time_leb (from_millis lo) (time_field t f lo) = true ∧
                          time_leb (time_field t f lo) (from_millis hi) = true) ranged_times ∧
  decompression_policy
    (match t !! "record_decompression_max_ratio" with Some (TvRatio r) => r | _ => default_ratio end)
    (size_field t "record_decompression_output_floor" default_floor)
    (size_field t "record_decompression_output_ceiling" default_ceiling) = Ok tt.

(** The values of the fields that hold a text with a meaning. *)
Definition strings_known t : Prop :=
  string_field t "inter_broker_server_name" ≠ Some "" ∧
  (∀ v, string_field t "share_group_isolation_level" = Some v → v ∈ ["read-uncommitted"; "read-committed"]) ∧
  (∀ v, string_field t "streams_group_assignor" = Some v → v ∈ ["auto"; "sticky"; "highly-available"]).

Lemma check_Ok (a b : result unit string) : (if? a in b) = Ok tt ↔ a = Ok tt ∧ b = Ok tt.
Proof. destruct a as [[]|]; naive_solver. Qed.

Lemma if_Ok (b : bool) (e : string) : (if b then Ok tt else Err e) = Ok tt ↔ b = true.
Proof. by destruct b. Qed.

Lemma if_Err (b : bool) (e : string) : (if b then Err e else Ok tt) = Ok tt ↔ b = false.
Proof. by destruct b. Qed.

Lemma if_Err_else (b : bool) (e : string) (r : result unit string) :
  (if b then Err e else r) = Ok tt ↔ b = false ∧ r = Ok tt.
Proof. destruct b; naive_solver. Qed.

Lemma map_err_Ok (f : string → string) (r : result unit string) : map_err f r = Ok tt ↔ r = Ok tt.
Proof. by destruct r as [[]|]. Qed.

Lemma validate_tuning_field_Ok t k field :
  validate_tuning_field millis_i64 time_eqb time_finite refined_error snapshot_fetch_max t k field = Ok tt ↔
  ∀ v, t !! field = Some v → in_kind k v.
Proof.
  unfold validate_tuning_field, validate_bounded_tuning_time, validate_whole_millis_tuning_time,
    validate_positive_tuning_time, validate_nonnegative_tuning_time, validate_tuning_size,
    validate_positive_tuning_ratio, validate_unit_interval_tuning_ratio.
  destruct (t !! field) as [v|]; [|by destruct k as [| | | | |[]| | | |]].
  transitivity (in_kind k v); [|naive_solver].
  destruct k as [lo| | | | |[m|]|m| | |], v as [z|b|x|x|x|x]; cbn [in_kind]; try done;
    cbv zeta; rewrite ?check_Ok, ?map_err_Ok, ?if_Err_else, ?if_Ok, ?orb_false_iff, ?andb_true_iff,
      ?negb_false_iff, ?Z.leb_le; unfold time_ltb, positive; rewrite ?negb_true_iff; try tauto.
  all: naive_solver.
Qed.

Lemma validate_fields_Ok t fields :
  validate_fields millis_i64 time_eqb time_finite refined_error snapshot_fetch_max t fields = Ok tt ↔
  ∀ k field v, (k, field) ∈ fields → t !! field = Some v → in_kind k v.
Proof.
  induction fields as [|[k f] fields IH]; cbn [validate_fields]; [set_solver|].
  rewrite check_Ok, IH, validate_tuning_field_Ok. setoid_rewrite elem_of_cons. naive_solver.
Qed.

Lemma one_of_iff values v : one_of values v = true ↔ ∀ s, v = Some s → s ∈ values.
Proof.
  destruct v as [s|]; cbn; [|naive_solver]. rewrite existsb_exists. setoid_rewrite <- list_elem_of_In.
  split.
  - intros (x & Hx & ->%str_eqb_eq) ? [= <-]. done.
  - intros Hs. exists s. split; [by apply Hs|apply str_eqb_refl].
Qed.

Lemma validate_strings_Ok t : validate_strings empty_error t = Ok tt ↔ strings_known t.
Proof.
  unfold validate_strings, strings_known. rewrite !check_Ok, if_Err, !if_Ok, !one_of_iff.
  apply and_iff_compat_r. destruct (string_field t _) as [[]|]; cbn; naive_solver.
Qed.

(** One relation. *)
Lemma ordered_le_Ok t l ld r rd :
  ordered_le t l ld r rd = Ok tt ↔ time_leb (time_field t l ld) (time_field t r rd) = true.
Proof. unfold ordered_le, time_ltb. by rewrite if_Err, negb_false_iff. Qed.

Lemma ordered_lt_Ok t l ld r rd :
  ordered_lt t l ld r rd = Ok tt ↔ time_leb (time_field t r rd) (time_field t l ld) = false.
Proof. apply if_Err. Qed.

Lemma ordered_size_Ok t l ld r rd :
  ordered_size t l ld r rd = Ok tt ↔
  size_leb (size_field t l (from_bytes ld)) (size_field t r (from_bytes rd)) = true.
Proof. unfold ordered_size. by rewrite if_Err, negb_false_iff. Qed.

Lemma bounded_Ok t v vd lo lod hi hid :
  bounded t v vd lo lod hi hid = Ok tt ↔
  time_leb (time_field t lo lod) (time_field t v vd) = true ∧
  time_leb (time_field t v vd) (time_field t hi hid) = true.
Proof. unfold bounded, within. by rewrite if_Ok, andb_true_iff. Qed.

Lemma fixed_range_Ok t f lo hi :
  fixed_range t f lo hi = Ok tt ↔
  time_leb (from_millis lo) (time_field t f lo) = true ∧ time_leb (time_field t f lo) (from_millis hi) = true.
Proof. unfold fixed_range, within. by rewrite if_Ok, andb_true_iff. Qed.

Ltac one_relation :=
  solve [ done | by apply ordered_le_Ok | by apply ordered_lt_Ok | by apply ordered_size_Ok
        | by apply bounded_Ok | by apply fixed_range_Ok | by apply map_err_Ok
        | eapply proj1, bounded_Ok; eassumption | eapply proj2, bounded_Ok; eassumption ].

Lemma validate_relations_Ok t :
  validate_relations decompression_policy default_ratio default_floor default_ceiling t = Ok tt ↔ related t.
Proof.
  unfold validate_relations, related, ordered_times, strict_times, ordered_sizes, ranged_times. split.
  - intros Hv. repeat (apply check_Ok in Hv as [? Hv]).
    split_and!; repeat (apply Forall_cons; split); try apply Forall_nil_2;
      try (unfold validate_record_decompression in *; eapply map_err_Ok; eassumption); one_relation.
  - intros (Hle & Hlt & Hsize & Hrange & Hrecord).
    repeat match goal with
      | Hf : Forall _ (_ :: _) |- _ => apply Forall_cons in Hf as [? Hf]; cbn beta iota in *
      | Hf : Forall _ [] |- _ => clear Hf
      end.
    repeat (apply check_Ok; split); one_relation.
Qed.

(** C26. Validation accepts exactly the tunings that are in bounds.  Every field that is
    set lies in the range of its kind (positive and finite times, whole milliseconds that
    fit their integer, whole bytes up to the limit, ratios); the texts are among the
    known ones; and the effective values of the related fields, set or default, agree:
    times and sizes in order, the heartbeats and the transaction timeouts strictly, the
    share and streams group times in their fixed ranges, and the limits of record
    decompression as its policy accepts them. *)
Theorem tuning_in_bounds t :
  validate t = Ok tt ↔
  (∀ k field v, (k, field) ∈ tuning_fields → t !! field = Some v → in_kind k v) ∧
  strings_known t ∧ related t.
Proof.
  unfold validate_tuning. by rewrite !check_Ok, validate_fields_Ok, validate_strings_Ok, validate_relations_Ok.
Qed.
End bounds.

(** Sizes in bytes, ratios in percent, times in milliseconds. *)
Module TuningDemo.
#[export] Instance SizeOps_Z : SizeOps Z :=
  {| from_bytes := id; bytes_u64 := id; size_leb := Z.leb; size_eqb := Z.eqb;
     size_finite := λ _, true |}.
#[export] Instance RatioOps_Z : RatioOps Z :=
  {| fraction := λ n, 100 * n; ratio_leb := Z.leb; ratio_finite := λ _, true |}.

Definition tuning : gmap string (tuning_value Z Z Z) :=
  {["heartbeat_interval" := TvTime 1000; "heartbeat_timeout" := TvTime 4000;
    "max_produce_group" := TvInt 16; "replication_fetch_max" := TvSize 4096;
    "leader_imbalance_per_broker" := TvRatio 10]}.
Definition validate : gmap string (tuning_value Z Z Z) → result unit string :=
  validate_tuning id Z.eqb (λ _, true) (λ _ _, "too small") "empty" (λ _, Ok tt) (λ _ _ _, Ok tt)
    100 1 2.
End TuningDemo.

(** A tuning that is accepted, and one whose heartbeat is not below its timeout. *)
Lemma tuning_examples :
  TuningDemo.validate TuningDemo.tuning = Ok tt ∧
  TuningDemo.validate (<["heartbeat_interval" := TvTime 4000]> TuningDemo.tuning) =
    Err (invalid_relation "heartbeat_interval" "heartbeat_timeout" "left value must be below right value").
Proof. split; vm_compute; reflexivity. Qed.

(** The fields have distinct names. *)
Lemma tuning_fields_NoDup : NoDup (snd <$> tuning_fields).
Proof. apply (bool_decide_unpack _). vm_compute. exact I. Qed.
