(* ===== verification/RebalancerClient.v ===== *)
(** * Messages of the rebalancer (src/rebalancer_client.rs, src/crd/rebalance.rs)

    The proposal as the operator decodes it from the Connect-RPC JSON, and the
    error type of the client. *)

From S2P Require Import Prelude RustStd.
Local Open Scope Z_scope.

(** [Value::get], [Value::as_str], [Value::as_array]. *)
Definition jget (k : string) (v : json) : option json :=
  match v with
  | JObject fields => opt_map snd (find_first (λ f, str_eqb f.1 k) fields)
  | _ => None
  end.
Definition jstr (v : json) : option string :=
  match v with JString s => Some s | _ => None end.
Definition jarray (v : json) : option (list json) :=
  match v with JArray l => Some l | _ => None end.

Inductive KafkaRebalanceMode : Type := Full | RemoveBrokers | AddBrokers.

Inductive ProposalStatus : Type :=
  | Unspecified | Computed | Executing | Completed | Failed | Cancelled.

#[global] Instance KafkaRebalanceMode_eq_dec : EqDecision KafkaRebalanceMode.
Proof. solve_decision. Defined.
#[global] Instance ProposalStatus_eq_dec : EqDecision ProposalStatus.
Proof. solve_decision. Defined.

Definition status_from_json (v : json) : ProposalStatus :=
  match v with
  | JString s =>
      if str_eqb s "PROPOSAL_STATUS_COMPUTED" then Computed
      else if str_eqb s "PROPOSAL_STATUS_EXECUTING" then Executing
      else if str_eqb s "PROPOSAL_STATUS_COMPLETED" then Completed
      else if str_eqb s "PROPOSAL_STATUS_FAILED" then Failed
      else if str_eqb s "PROPOSAL_STATUS_CANCELLED" then Cancelled
      else Unspecified
  | JNumber (Some 1) => Computed
  | JNumber (Some 2) => Executing
  | JNumber (Some 3) => Completed
  | JNumber (Some 4) => Failed
  | JNumber (Some 5) => Cancelled
  | _ => Unspecified
  end.

(** The newtypes of src/ids.rs keep the six counts apart. *)
Inductive ReplicaMovementCount : Type := ReplicaMovements (n : Z).
Inductive LeaderMovementCount : Type := LeaderMovements (n : Z).
Inductive MaxReplicasCount : Type := MaxReplicas (n : Z).
Inductive MaxLeadersCount : Type := MaxLeaders (n : Z).

Definition display_replica_movements (c : ReplicaMovementCount) : string :=
  let '(ReplicaMovements n) := c in display_Z n.
Definition display_leader_movements (c : LeaderMovementCount) : string :=
  let '(LeaderMovements n) := c in display_Z n.

Record ProposalSummary : Type := {
  replica_movements : ReplicaMovementCount;
  leader_movements : LeaderMovementCount;
  max_replicas_before : MaxReplicasCount;
  max_replicas_after : MaxReplicasCount;
  max_leaders_before : MaxLeadersCount;
  max_leaders_after : MaxLeadersCount;
}.

Record RebalancerProposal : Type := {
  p_id : string;
  p_status : ProposalStatus;
  p_summary : ProposalSummary;
  p_goals_applied : list string;
  p_movement_count : nat;
  p_failure_reason : option string;
}.

Inductive RebalancerError : Type :=
  | Transport (msg : string)
  | Rpc (code message : string)
  | Decode (msg : string).

(** [Display] of the error. *)
Definition display_rebalancer_error (e : RebalancerError) : string :=
  match e with
  | Transport m => "rebalancer transport error: " +:+ m
  | Rpc code m => "rebalancer rpc error [" +:+ code +:+ "]: " +:+ m
  | Decode m => "rebalancer response decode error: " +:+ m
  end.

Definition json_i32 (obj : json) (camel snake : string) : Z :=
  match or_else (jget camel obj) (jget snake obj) with
  | Some (JNumber n) =>
      default 0 (and_then n (λ v, if in_i32 v then Some v else None))
  | Some (JString s) => default 0 (parse_i32 s)
  | _ => 0
  end.

Definition proposal_from_json (body : json) : RebalancerProposal :=
  let p := default body (jget "proposal" body) in
  let summary := default JNull (jget "summary" p) in
  let goals_applied :=
    default [] (opt_map (filter_map jstr)
      (and_then (or_else (jget "goalsApplied" p) (jget "goals_applied" p)) jarray)) in
  {| p_id := default "" (and_then (jget "id" p) jstr);
     p_status := status_from_json (default JNull (jget "status" p));
     p_summary :=
       {| replica_movements :=
            ReplicaMovements (json_i32 summary "replicaMovements" "replica_movements");
          leader_movements :=
            LeaderMovements (json_i32 summary "leaderMovements" "leader_movements");
          max_replicas_before :=
            MaxReplicas (json_i32 summary "maxReplicasBefore" "max_replicas_before");
          max_replicas_after :=
            MaxReplicas (json_i32 summary "maxReplicasAfter" "max_replicas_after");
          max_leaders_before :=
            MaxLeaders (json_i32 summary "maxLeadersBefore" "max_leaders_before");
          max_leaders_after :=
            MaxLeaders (json_i32 summary "maxLeadersAfter" "max_leaders_after") |};
     p_goals_applied := goals_applied;
     p_movement_count := default 0%nat (opt_map length (and_then (jget "movements" p) jarray));
     p_failure_reason :=
       and_then (or_else (jget "failureReason" p) (jget "failure_reason" p)) jstr |}.

(** [connect_error] with the body already parsed by [serde_json] (or not). *)
Definition connect_error (text : string) (parsed : option json) (http_status : Z)
  : RebalancerError :=
  let code := default ("http_" +:+ display_Z http_status) (and_then (and_then parsed (jget "code")) jstr) in
  let message := default (trim text) (and_then (and_then parsed (jget "message")) jstr) in
  Rpc code message.

Definition mode_name (mode : KafkaRebalanceMode) : string :=
  match mode with
  | Full => "PROPOSAL_MODE_FULL"
  | RemoveBrokers => "PROPOSAL_MODE_REMOVE_BROKERS"
  | AddBrokers => "PROPOSAL_MODE_ADD_BROKERS"
  end.

Definition create_proposal_body (mode : KafkaRebalanceMode) (brokers : list Z)
    (goals : list string) : json :=
  JObject [("mode", JString (mode_name mode));
           ("brokers", JArray (map (λ b, JNumber (Some b)) brokers));
           ("goals", JArray (map JString goals))].

(** ** Lemmas *)

(** Every count read from the wire fits the field it lands in. *)
Lemma json_i32_range obj camel snake : i32_min ≤ json_i32 obj camel snake ≤ i32_max.
Proof.
  assert (i32_min ≤ 0 ≤ i32_max) by (unfold i32_min, i32_max; lia).
  unfold json_i32. destruct (or_else _ _) as [[]|]; try done.
  - destruct as_i64 as [v|]; cbn; [|done]. unfold in_i32, in_range.
    destruct (Z.leb_spec i32_min v), (Z.leb_spec v i32_max); cbn; done || lia.
  - unfold parse_i32, parse_signed.
    repeat (case_match; try done; simplify_eq).
    all: destruct (checked _ _ _) eqn:E; cbn; try done; apply checked_Some in E as [-> ?]; lia.
Qed.
