(* ===== verification/Rebalance.v ===== *)
(** * The KafkaRebalance reconciler (src/controller/rebalance.rs)

    The annotation-driven state machine: the pure decision [decide], the
    outcomes of the RPCs, the endpoint guard, and the whole reconcile pass as
    a program over the Kubernetes and rebalancer calls. *)

From S2P Require Import Prelude RustStd Effects Kube RebalancerClient.
Local Open Scope Z_scope.

Definition ANNOTATION : string := "krabka.io/rebalance".
Definition REBALANCER_PORT : Z := 9300.

Inductive RebalanceState : Type :=
  | New | ProposalReady | Rebalancing | Ready | NotReady | Stopped.

Inductive RebalanceCommand : Type := Approve | Refresh | Stop.

Inductive RebalanceAction : Type :=
  | CreateProposal | Execute | PollExecution | Cancel | Idle.

#[global] Instance RebalanceState_eq_dec : EqDecision RebalanceState.
Proof. solve_decision. Defined.
#[global] Instance RebalanceCommand_eq_dec : EqDecision RebalanceCommand.
Proof. solve_decision. Defined.
#[global] Instance RebalanceAction_eq_dec : EqDecision RebalanceAction.
Proof. solve_decision. Defined.

Definition state_as_str (s : RebalanceState) : string :=
  match s with
  | New => "New"
  | ProposalReady => "ProposalReady"
  | Rebalancing => "Rebalancing"
  | Ready => "Ready"
  | NotReady => "NotReady"
  | Stopped => "Stopped"
  end.

(** [strum::EnumString] parses the variant names. *)
Definition from_condition_type (t : string) : option RebalanceState :=
  find_first (λ s, str_eqb (state_as_str s) t)
    [New; ProposalReady; Rebalancing; Ready; NotReady; Stopped].

Definition parse_command (v : string) : option RebalanceCommand :=
  let v := trim v in
  if str_eqb v "approve" then Some Approve
  else if str_eqb v "refresh" then Some Refresh
  else if str_eqb v "stop" then Some Stop
  else None.

Definition decide_action (state : RebalanceState) (command : option RebalanceCommand)
    (has_session : bool) : RebalanceAction :=
  match command with
  | Some Refresh => CreateProposal
  | Some Stop =>
      if bool_decide (state = Rebalancing) && has_session then Cancel else Idle
  | Some Approve =>
      if bool_decide (state = ProposalReady) && has_session then Execute else Idle
  | None =>
      match state with
      | New => CreateProposal
      | Rebalancing => if has_session then PollExecution else CreateProposal
      | ProposalReady | Ready | NotReady | Stopped => Idle
      end
  end.

(** ** The resource *)
Record RebalancerAuthorizationSecretRef : Type := {
  ref_name : string;
  ref_key : string;
}.
#[global] Instance AuthRef_eq_dec : EqDecision RebalancerAuthorizationSecretRef.
Proof. solve_decision. Defined.

Record OptimizationResult : Type := {
  or_replica_movements : ReplicaMovementCount;
  or_leader_movements : LeaderMovementCount;
  or_max_replicas_before : MaxReplicasCount;
  or_max_replicas_after : MaxReplicasCount;
  or_max_leaders_before : MaxLeadersCount;
  or_max_leaders_after : MaxLeadersCount;
  or_goals : list string;
}.

Record KafkaRebalanceStatus : Type := {
  rs_conditions : list KafkaCondition;
  rs_observed_generation : option Z;
  rs_session_id : option string;
  rs_optimization_result : option OptimizationResult;
}.

Section reconciler.
Context {Time ByteRate : Type}.

Record KafkaRebalanceSpec : Type := {
  rb_mode : KafkaRebalanceMode;
  rb_brokers : list Z;
  rb_authorization_secret_ref : option RebalancerAuthorizationSecretRef;
  rb_goals : option (list string);
  rb_throttle : option ByteRate;
  rb_endpoint : option string;
}.

Record KafkaRebalance : Type := {
  rb_meta : object_meta;
  rb_spec : KafkaRebalanceSpec;
  rb_status : option KafkaRebalanceStatus;
}.

(** The requeue delays of [OperatorConfig] that the pass uses. *)
Record rebalance_config : Type := {
  rebalancer_idle_interval : Time;
  rebalancer_poll_interval : Time;
  controller_error_requeue : Time;
}.

Definition optimization_result_from (p : RebalancerProposal) : OptimizationResult :=
  {| or_replica_movements := replica_movements (p_summary p);
     or_leader_movements := leader_movements (p_summary p);
     or_max_replicas_before := max_replicas_before (p_summary p);
     or_max_replicas_after := max_replicas_after (p_summary p);
     or_max_leaders_before := max_leaders_before (p_summary p);
     or_max_leaders_after := max_leaders_after (p_summary p);
     or_goals := p_goals_applied p |}.

(** ** Outcomes *)
Record Outcome : Type := {
  o_state : RebalanceState;
  o_reason : string;
  o_message : string;
  o_requeue : Time;
  o_new_session : option string;
  o_new_optimization : option OptimizationResult;
  o_advance_generation : bool;
}.

Definition transient (state : RebalanceState) (reason message : string) (requeue : Time)
  : Outcome :=
  {| o_state := state; o_reason := reason; o_message := message; o_requeue := requeue;
     o_new_session := None; o_new_optimization := None; o_advance_generation := false |}.

Definition from_create (p : RebalancerProposal) (idle_interval : Time) : Outcome :=
  match p_status p with
  | Computed =>
      {| o_state := ProposalReady;
         o_reason := "ProposalReady";
         o_message := "proposal " +:+ p_id p +:+ " computed: "
           +:+ display_replica_movements (replica_movements (p_summary p)) +:+ " replica / "
           +:+ display_leader_movements (leader_movements (p_summary p)) +:+ " leader movements";
         o_requeue := idle_interval;
         o_new_session := Some (p_id p);
         o_new_optimization := Some (optimization_result_from p);
         o_advance_generation := true |}
  | Completed =>
      {| o_state := Ready;
         o_reason := "AlreadyBalanced";
         o_message := "proposal " +:+ p_id p +:+ " required no movements";
         o_requeue := idle_interval;
         o_new_session := Some (p_id p);
         o_new_optimization := Some (optimization_result_from p);
         o_advance_generation := true |}
  | _ =>
      {| o_state := NotReady;
         o_reason := "UnexpectedProposalStatus";
         o_message := "CreateProposal returned non-Computed status for " +:+ p_id p;
         o_requeue := idle_interval;
         o_new_session := Some (p_id p);
         o_new_optimization := None;
         o_advance_generation := false |}
  end.

Definition from_execute_or_poll (p : RebalancerProposal) (poll_interval idle_interval : Time)
  : Outcome :=
  match p_status p with
  | Executing | Computed =>
      transient Rebalancing "Rebalancing" ("executing proposal " +:+ p_id p) poll_interval
  | Completed =>
      transient Ready "Ready" ("proposal " +:+ p_id p +:+ " completed") idle_interval
  | Failed =>
      transient NotReady "RebalanceFailed"
        (default ("proposal " +:+ p_id p +:+ " failed") (p_failure_reason p)) idle_interval
  | Cancelled =>
      transient Stopped "Stopped" ("proposal " +:+ p_id p +:+ " cancelled") idle_interval
  | Unspecified =>
      transient NotReady "UnexpectedProposalStatus"
        ("proposal " +:+ p_id p +:+ " reported an unknown status") idle_interval
  end.

Definition from_cancel (p : RebalancerProposal) (idle_interval : Time) : Outcome :=
  transient Stopped "Stopped" ("execution of proposal " +:+ p_id p +:+ " cancelled") idle_interval.

Definition RETRYABLE_RPC_CODES : list string :=
  ["failed_precondition"; "unavailable"; "aborted"; "resource_exhausted";
   "deadline_exceeded"; "http_502"; "http_503"; "http_504"].

Definition is_retryable (e : RebalancerError) : bool :=
  match e with
  | Transport _ => true
  | Rpc code _ => existsb (str_eqb code) RETRYABLE_RPC_CODES
  | Decode _ => false
  end.

Definition from_rpc_error (act : RebalanceAction) (e : RebalancerError)
    (retry_interval idle_interval : Time) : Outcome :=
  if bool_decide (act = CreateProposal) && is_retryable e then
    transient New "RetryingProposal"
      ("CreateProposal will retry: " +:+ display_rebalancer_error e) retry_interval
  else
    transient NotReady "RebalancerError" (display_rebalancer_error e) idle_interval.

(** ** Reading the resource *)
Definition true_condition (st : option KafkaRebalanceStatus) : option KafkaCondition :=
  and_then st (λ s, find_last (λ c, str_eqb (status c) "True") (rs_conditions s)).

Definition current_state (obj : KafkaRebalance) : RebalanceState :=
  default New
    (and_then (find_last (λ c, str_eqb (status c) "True")
                 (default [] (opt_map rs_conditions (rb_status obj))))
       (λ c, from_condition_type (type_ c))).

Definition read_command (obj : KafkaRebalance) : option RebalanceCommand :=
  and_then (annotation (rb_meta obj) ANNOTATION) parse_command.

Definition session_of (obj : KafkaRebalance) : option string :=
  and_then (rb_status obj) rs_session_id.

(** ** The endpoint guard *)
Definition CLUSTER_INTERNAL_SUFFIXES : list string :=
  [".svc"; ".svc.cluster.local"; ".cluster.local"].

Definition ip_literal_msg (host : string) : string :=
  "spec.endpoint host " +:+ debug_str host
  +:+ " is an IP literal; only cluster-internal DNS names are allowed".

Definition all_digits (s : string) : bool := str_all is_ascii_digit s.

(** The authority without the userinfo. *)
Definition endpoint_host_port (rest : string) : string :=
  let authority :=
    default rest (head (split_on (λ c, Ascii.eqb "/" c || Ascii.eqb "?" c || Ascii.eqb "#" c) rest)) in
  match rsplit_once "@" authority with Some (_, hp) => hp | None => authority end.

Definition endpoint_host (host_port : string) : string :=
  match rsplit_once ":" host_port with
  | Some (h, port) => if negb (is_empty port) && all_digits port then h else host_port
  | None => host_port
  end.

Definition is_ipv4_literal (host : string) : bool :=
  forallb (λ seg, negb (is_empty seg) && all_digits seg) (split_char "." host).

Definition validate_endpoint (endpoint : string) : result unit string :=
  match split_once_str "://" endpoint with
  | None => Err ("spec.endpoint " +:+ debug_str endpoint +:+ " is not an absolute http(s) URL")
  | Some (scheme, rest) =>
      if negb (eq_ignore_ascii_case scheme "http") && negb (eq_ignore_ascii_case scheme "https") then
        Err ("spec.endpoint scheme " +:+ debug_str scheme
             +:+ " is not allowed; only http/https are permitted")
      else
        let host_port := endpoint_host_port rest in
        match strip_prefix "[" host_port with
        | Some stripped =>
            Err (ip_literal_msg (default stripped (head (split_char "]" stripped))))
        | None =>
            let host := endpoint_host host_port in
            if is_empty host then
              Err ("spec.endpoint " +:+ debug_str endpoint +:+ " has no host")
            else if is_ipv4_literal host then Err (ip_literal_msg host)
            else
              let host_lc := to_ascii_lowercase host in
              if existsb (λ suffix, ends_with suffix host_lc) CLUSTER_INTERNAL_SUFFIXES
              then Ok tt
              else Err ("spec.endpoint host " +:+ debug_str host
                        +:+ " is not cluster-internal; it must end in one of "
                        +:+ debug_strs CLUSTER_INTERNAL_SUFFIXES)
        end
  end.

Definition cluster_label (obj : KafkaRebalance) : option string :=
  label (rb_meta obj) "krabka.io/cluster".

Definition resolve_endpoint (obj : KafkaRebalance) (namespace : string)
  : result (option string) string :=
  match option_filter (λ s, negb (is_empty s)) (rb_endpoint (rb_spec obj)) with
  | Some ep => if? validate_endpoint ep in Ok (Some ep)
  | None =>
      match option_filter (λ s, negb (is_empty s)) (cluster_label obj) with
      | None => Ok None
      | Some cluster =>
          Ok (Some ("http://" +:+ cluster +:+ "-rebalancer." +:+ namespace
                    +:+ ".svc.cluster.local:" +:+ display_Z REBALANCER_PORT))
      end
  end.

(** ** External calls of a pass *)
Inductive rb_call : Type :=
  | GetSecret (name : string)
  | RpcCreate (endpoint : string) (mode : KafkaRebalanceMode) (brokers : list Z)
      (goals : list string) (token : option string)
  | RpcExecute (endpoint id : string) (throttle : option ByteRate) (token : option string)
  | RpcGet (endpoint id : string)
  | RpcCancel (endpoint id : string)
  | DropClient (endpoint : string)
  | PatchStatus (status : KafkaRebalanceStatus)
  | RemoveCommandAnnotation.

Definition rb_resp (c : rb_call) : Type :=
  match c with
  | GetSecret _ => result (option secret) kube_error
  | RpcCreate _ _ _ _ _ | RpcExecute _ _ _ _ | RpcGet _ _ | RpcCancel _ _ =>
      result RebalancerProposal RebalancerError
  | DropClient _ => unit
  | PatchStatus _ | RemoveCommandAnnotation => result unit kube_error
  end.

(** ** The credential of a broker evacuation *)
Record CredentialFailure : Type := {
  cf_reason : string;
  cf_message : string;
}.

Definition resolve_evacuation_credential (obj : KafkaRebalance)
  : prog rb_resp (result (result string CredentialFailure) ReconcileError) :=
  let reference :=
    or_else (opt_map (λ r, (ref_name r, ref_key r)) (rb_authorization_secret_ref (rb_spec obj)))
            (opt_map (λ cluster, (cluster +:+ "-rebalancer-auth", "token")) (cluster_label obj)) in
  match reference with
  | None =>
      Ret (Ok (Err {| cf_reason := "MissingAuthorizationSecretRef";
        cf_message :=
          "removeBrokers requires spec.authorizationSecretRef or a krabka.io/cluster label" |}))
  | Some (name, key) =>
      got ← perform (resp := rb_resp) (GetSecret name);
      match got with
      | Err e => Ret (Err (Kube e))
      | Ok None =>
          Ret (Ok (Err {| cf_reason := "MissingAuthorizationSecret";
            cf_message := "removeBrokers authorization Secret " +:+ debug_str name
                          +:+ " was not found" |}))
      | Ok (Some sec) =>
          match and_then (sec_data sec) (λ d, d !! key) with
          | None =>
              Ret (Ok (Err {| cf_reason := "InvalidAuthorizationSecret";
                cf_message := "removeBrokers authorization Secret " +:+ debug_str name
                              +:+ " has no key " +:+ debug_str key |}))
          | Some b =>
              match from_utf8 b with
              | Ok token =>
                  if negb (is_empty token) then Ret (Ok (Ok token))
                  else
                    Ret (Ok (Err {| cf_reason := "InvalidAuthorizationSecret";
                      cf_message := "removeBrokers authorization Secret " +:+ debug_str name
                                    +:+ " key " +:+ debug_str key +:+ " is empty" |}))
              | Err error =>
                  Ret (Ok (Err {| cf_reason := "InvalidAuthorizationSecret";
                    cf_message := "removeBrokers authorization Secret " +:+ debug_str name
                                  +:+ " key " +:+ debug_str key +:+ " is not UTF-8: "
                                  +:+ error |}))
              end
          end
      end
  end.

(** ** Writing the status *)
Definition active_condition (ts : string) (existing : option KafkaRebalanceStatus)
    (outcome : Outcome) : KafkaCondition :=
  let active :=
    condition ts (state_as_str (o_state outcome)) "True" (o_reason outcome) (o_message outcome) in
  match option_filter (λ c, str_eqb (type_ c) (type_ active)) (true_condition existing) with
  | Some previous =>
      {| type_ := type_ active; status := status active; reason := reason active;
         message := message active;
         last_transition_time := last_transition_time previous |}
  | None => active
  end.

(** The status the merge patch leaves: every field of it is in the body, and
    [conditions] is replaced as a whole. *)
Definition next_status (ts : string) (obj : KafkaRebalance) (outcome : Outcome)
  : KafkaRebalanceStatus :=
  let existing := rb_status obj in
  {| rs_conditions := [active_condition ts existing outcome];
     rs_observed_generation :=
       if o_advance_generation outcome then om_generation (rb_meta obj)
       else and_then existing rs_observed_generation;
     rs_session_id := or_else (o_new_session outcome) (and_then existing rs_session_id);
     rs_optimization_result :=
       or_else (o_new_optimization outcome) (and_then existing rs_optimization_result) |}.

Definition write_status (ts : string) (obj : KafkaRebalance) (outcome : Outcome)
  : prog rb_resp (result unit ReconcileError) :=
  r ← perform (resp := rb_resp) (PatchStatus (next_status ts obj outcome));
  Ret (map_err Kube r).

Definition remove_command_annotation : prog rb_resp (result unit ReconcileError) :=
  r ← perform (resp := rb_resp) RemoveCommandAnnotation;
  Ret (map_err Kube r).

(** ** The pass *)

(** A status write that ends the pass. *)
Definition finish_with (ts : string) (obj : KafkaRebalance) (outcome : Outcome) (delay : Time)
  : prog rb_resp (result (action Time) ReconcileError) :=
  _ ←? write_status ts obj outcome;
  Ret (Ok (Requeue delay)).

Definition issue_rpc (cfg : rebalance_config) (obj : KafkaRebalance) (endpoint : string)
    (act : RebalanceAction) (session bearer_token : option string)
  : prog rb_resp (result Outcome RebalancerError) :=
  let idle := rebalancer_idle_interval cfg in
  let poll := rebalancer_poll_interval cfg in
  let lift (f : RebalancerProposal → Outcome) (r : result RebalancerProposal RebalancerError) :=
    match r with Ok p => Ok (f p) | Err e => Err e end in
  let id := default "" session in
  match act with
  | CreateProposal =>
      r ← perform (resp := rb_resp)
            (RpcCreate endpoint (rb_mode (rb_spec obj)) (rb_brokers (rb_spec obj))
               (default [] (rb_goals (rb_spec obj))) bearer_token);
      Ret (lift (λ p, from_create p idle) r)
  | Execute =>
      r ← perform (resp := rb_resp)
            (RpcExecute endpoint id (rb_throttle (rb_spec obj)) bearer_token);
      Ret (lift (λ p, from_execute_or_poll p poll idle) r)
  | PollExecution =>
      r ← perform (resp := rb_resp) (RpcGet endpoint id);
      Ret (lift (λ p, from_execute_or_poll p poll idle) r)
  | Cancel =>
      r ← perform (resp := rb_resp) (RpcCancel endpoint id);
      Ret (lift (λ p, from_cancel p idle) r)
  | Idle => Ret (Err (Decode "unreachable"))  (* handled by the caller *)
  end.

Definition needs_credential (obj : KafkaRebalance) (act : RebalanceAction) : bool :=
  bool_decide (rb_mode (rb_spec obj) = RemoveBrokers) &&
  match act with CreateProposal | Execute => true | _ => false end.

Definition reconcile_inner (cfg : rebalance_config) (ts : string) (obj : KafkaRebalance)
  : prog rb_resp (result (action Time) ReconcileError) :=
  let ns := namespace_or_default (rb_meta obj) in
  let idle := rebalancer_idle_interval cfg in
  match resolve_endpoint obj ns with
  | Ok None =>
      finish_with ts obj
        (transient NotReady "MissingEndpoint"
           "spec.endpoint is unset and no krabka.io/cluster label is present to derive it" idle)
        idle
  | Err invalid =>
      finish_with ts obj (transient NotReady "InvalidEndpoint" invalid idle) idle
  | Ok (Some endpoint) =>
      let state := current_state obj in
      let command := read_command obj in
      let session := session_of obj in
      let act := decide_action state command (opt_is_some session) in
      if bool_decide (act = Idle) then
        if opt_is_some command then
          _ ←? remove_command_annotation;
          Ret (Ok (Requeue idle))
        else Ret (Ok (Requeue idle))
      else
        cred ← (if needs_credential obj act
                then
                  c ← resolve_evacuation_credential obj;
                  Ret (match c with
                       | Err e => Err e
                       | Ok (Ok token) => Ok (Ok (Some token))
                       | Ok (Err failure) => Ok (Err failure)
                       end)
                else Ret (Ok (Ok None)));
        match cred with
        | Err e => Ret (Err e)
        | Ok (Err failure) =>
            finish_with ts obj
              (transient NotReady (cf_reason failure) (cf_message failure) idle) idle
        | Ok (Ok bearer_token) =>
            rpc_result ← issue_rpc cfg obj endpoint act session bearer_token;
            match rpc_result with
            | Err (Transport _) =>
                _ ← perform (resp := rb_resp) (DropClient endpoint);
                Ret (Ok (Requeue (controller_error_requeue cfg)))
            | _ =>
                let outcome :=
                  match rpc_result with
                  | Ok o => o
                  | Err e => from_rpc_error act e (controller_error_requeue cfg) idle
                  end in
                if opt_is_some command then
                  _ ←? remove_command_annotation;
                  finish_with ts obj outcome (o_requeue outcome)
                else finish_with ts obj outcome (o_requeue outcome)
            end
        end
  end.
End reconciler.

Arguments KafkaRebalance ByteRate : clear implicits.
Arguments KafkaRebalanceSpec ByteRate : clear implicits.
Arguments rebalance_config Time : clear implicits.
Arguments Outcome Time : clear implicits.
Arguments rb_call ByteRate : clear implicits.

(** ** Lemmas *)

Lemma state_round_trip s : from_condition_type (state_as_str s) = Some s.
Proof. by destruct s. Qed.

Lemma decide_execute s cmd has :
  decide_action s cmd has = Execute ↔ cmd = Some Approve ∧ s = ProposalReady ∧ has = true.
Proof. destruct s, cmd as [[]|], has; cbn; naive_solver. Qed.

Lemma decide_cancel s cmd has :
  decide_action s cmd has = Cancel ↔ cmd = Some Stop ∧ s = Rebalancing ∧ has = true.
Proof. destruct s, cmd as [[]|], has; cbn; naive_solver. Qed.

Lemma decide_poll s cmd has :
  decide_action s cmd has = PollExecution ↔ cmd = None ∧ s = Rebalancing ∧ has = true.
Proof. destruct s, cmd as [[]|], has; cbn; naive_solver. Qed.

Lemma decide_create s cmd has :
  decide_action s cmd has = CreateProposal ↔
  cmd = Some Refresh ∨ (cmd = None ∧ (s = New ∨ (s = Rebalancing ∧ has = false))).
Proof. destruct s, cmd as [[]|], has; cbn; naive_solver. Qed.

Section properties.
Context {Time ByteRate : Type}.
Implicit Types (obj : KafkaRebalance ByteRate) (cfg : rebalance_config Time).

Definition set_status (obj : KafkaRebalance ByteRate) (st : KafkaRebalanceStatus)
  : KafkaRebalance ByteRate :=
  {| rb_meta := rb_meta obj; rb_spec := rb_spec obj; rb_status := Some st |}.

Lemma true_condition_next ts obj (o : Outcome Time) :
  true_condition (Some (next_status ts obj o)) = Some (active_condition ts (rb_status obj) o).
Proof.
  unfold true_condition, next_status, active_condition. cbn.
  by destruct (option_filter _ _).
Qed.

Lemma active_condition_type ts st (o : Outcome Time) :
  type_ (active_condition ts st o) = state_as_str (o_state o).
Proof. unfold active_condition. by destruct (option_filter _ _). Qed.

Lemma current_state_alt obj :
  current_state obj =
  default New (and_then (true_condition (rb_status obj)) (λ c, from_condition_type (type_ c))).
Proof. unfold current_state. by destruct (rb_status obj). Qed.

(** What the operator writes is what it reads on the next pass. *)
Lemma current_state_next ts obj obj' (o : Outcome Time) :
  current_state (set_status obj' (next_status ts obj o)) = o_state o.
Proof.
  rewrite current_state_alt. unfold set_status. cbn [rb_status].
  rewrite true_condition_next. unfold and_then.
  by rewrite active_condition_type, state_round_trip.
Qed.

Lemma session_next ts obj obj' (o : Outcome Time) :
  session_of (set_status obj' (next_status ts obj o)) = or_else (o_new_session o) (session_of obj).
Proof. done. Qed.

(** What a pass does to the stored resource.  A patch that was refused or
    whose answer was lost may or may not have taken effect. *)
Definition clear_command (obj : KafkaRebalance ByteRate) : KafkaRebalance ByteRate :=
  let m := rb_meta obj in
  {| rb_meta := ObjectMeta (om_name m) (om_namespace m) (om_uid m) (om_labels m)
       (opt_map (delete ANNOTATION) (om_annotations m)) (om_finalizers m)
       (om_generation m) (om_deleting m) (om_owners m);
     rb_spec := rb_spec obj; rb_status := rb_status obj |}.

Definition effect (c : rb_call ByteRate) (obj : KafkaRebalance ByteRate)
  : KafkaRebalance ByteRate :=
  match c with
  | PatchStatus st => set_status obj st
  | RemoveCommandAnnotation => clear_command obj
  | _ => obj
  end.

Definition uncertain (e : event (rb_resp (ByteRate := ByteRate))) : bool :=
  match e with
  | existT (PatchStatus _ as c) r | existT (RemoveCommandAnnotation as c) r => negb (is_ok r)
  | _ => false
  end.

Fixpoint stored_after (tr : list (event (rb_resp (ByteRate := ByteRate))))
    (obj : KafkaRebalance ByteRate) : list (KafkaRebalance ByteRate) :=
  match tr with
  | [] => [obj]
  | e :: tr =>
      stored_after tr (effect (projT1 e) obj) ++
      (if uncertain e then stored_after tr obj else [])
  end.

Lemma from_rpc_error_state act e (retry idle : Time) :
  o_state (from_rpc_error act e retry idle) = NotReady ∨
  (act = CreateProposal ∧ o_state (from_rpc_error act e retry idle) = New).
Proof.
  unfold from_rpc_error. destruct (bool_decide (act = CreateProposal)) eqn:E; cbn; [|by left].
  apply bool_decide_eq_true in E. destruct (is_retryable e); [right|left]; done.
Qed.

(** The calls that reach the rebalancer, and where. *)
Definition rpc_endpoint (c : rb_call ByteRate) : option string :=
  match c with
  | RpcCreate ep _ _ _ _ | RpcExecute ep _ _ _ | RpcGet ep _ | RpcCancel ep _ => Some ep
  | _ => None
  end.
Definition rpc_token (c : rb_call ByteRate) : option (option string) :=
  match c with
  | RpcCreate _ _ _ _ tok | RpcExecute _ _ _ tok => Some tok
  | RpcGet _ _ | RpcCancel _ _ => Some None
  | _ => None
  end.
Definition is_status_patch (c : rb_call ByteRate) : bool :=
  match c with PatchStatus _ => true | _ => false end.
End properties.

(** A URL taken apart, with a host of the cluster's own DNS. *)
Definition url_delimiter (c : ascii) : bool := Ascii.eqb "/" c || Ascii.eqb "?" c || Ascii.eqb "#" c.

Record internal_url (e scheme userinfo host port tail : string) : Prop := {
  url_parts : e = scheme +:+ "://" +:+ userinfo +:+ host +:+ port +:+ tail;
  url_scheme : to_ascii_lowercase scheme = "http" ∨ to_ascii_lowercase scheme = "https";
  url_userinfo : userinfo = "" ∨ ∃ u, userinfo = u +:+ "@";
  url_authority : str_all (λ c, negb (url_delimiter c)) (userinfo +:+ host +:+ port) = true;
  url_host_no_at : str_all (λ c, negb (Ascii.eqb "@" c)) (host +:+ port) = true;
  url_port : port = "" ∨ ∃ d, port = ":" +:+ d ∧ d ≠ "" ∧ all_digits d = true;
  url_tail : tail = "" ∨ ∃ c t, tail = String c t ∧ url_delimiter c = true;
  url_not_ipv4 : is_ipv4_literal host = false;
  url_not_ipv6 : strip_prefix "[" (host +:+ port) = None;
  url_suffix : ∃ suffix prefix, suffix ∈ CLUSTER_INTERNAL_SUFFIXES ∧
    to_ascii_lowercase host = prefix +:+ suffix;
}.

Lemma endpoint_host_port_parts rest :
  ∃ userinfo tail, rest = userinfo +:+ endpoint_host_port rest +:+ tail ∧
    (userinfo = "" ∨ ∃ u, userinfo = u +:+ "@") ∧
    str_all (λ c, negb (url_delimiter c)) (userinfo +:+ endpoint_host_port rest) = true ∧
    str_all (λ c, negb (Ascii.eqb "@" c)) (endpoint_host_port rest) = true ∧
    (tail = "" ∨ ∃ c t, tail = String c t ∧ url_delimiter c = true).
Proof.
  unfold endpoint_host_port.
  destruct (split_on_head url_delimiter rest) as (w & tail & Hh & Hs & Hw & Ht).
  unfold url_delimiter in Hh at 1. rewrite Hh. cbn.
  destruct (rsplit_once "@" w) as [[u hp]|] eqn:E.
  - apply rsplit_once_Some in E as [Hwp Hp]. exists (u +:+ "@"), tail.
    assert (u +:+ "@" +:+ hp = w) as Hu by done.
    rewrite <- !str_app_assoc, (str_app_assoc "@" hp), (str_app_assoc u), Hu.
    split_and!; [by rewrite Hs at 1|eauto|done..].
  - apply rsplit_once_None in E. exists "", tail. rewrite !str_app_nil_l. split_and!; auto.
Qed.

Lemma endpoint_host_parts hp :
  ∃ port, hp = endpoint_host hp +:+ port ∧
    (port = "" ∨ ∃ d, port = ":" +:+ d ∧ d ≠ "" ∧ all_digits d = true).
Proof.
  unfold endpoint_host. destruct (rsplit_once ":" hp) as [[h d]|] eqn:E.
  - apply rsplit_once_Some in E as [-> _].
    destruct (negb (is_empty d) && all_digits d) eqn:Ed.
    + apply andb_true_iff in Ed as [Hd%negb_true_iff Ha]. exists (":" +:+ d).
      split; [done|]. right. exists d. split_and!; [done|by apply is_empty_false|done].
    + exists "". rewrite str_app_nil_r. auto.
  - exists "". rewrite str_app_nil_r. auto.
Qed.

Ltac pass_cases :=
  unfold all_runs, reconcile_inner, finish_with, write_status, remove_command_annotation,
    issue_rpc, resolve_evacuation_credential;
  run_cases.

(** ** Properties *)

(** The endpoint guard.  A [spec.endpoint] that passes [validate_endpoint]
    is an http(s) URL whose host, after the userinfo and before the port and
    the path, is not an IP literal and ends (case-insensitively) in one of the
    cluster-internal DNS suffixes; no [@], [/], [?] or [#] can move the host
    the guard looked at away from the host of the URL. *)
Theorem validate_endpoint_internal e :
  validate_endpoint e = Ok tt →
  ∃ scheme userinfo host port tail, internal_url e scheme userinfo host port tail.
Proof.
  unfold validate_endpoint. intros H.
  destruct (split_once_str "://" e) as [[scheme rest]|] eqn:He; [|done].
  apply split_once_str_Some in He.
  destruct (negb (eq_ignore_ascii_case scheme "http") && _) eqn:Hsch; [done|].
  destruct (strip_prefix "[" (endpoint_host_port rest)) eqn:H6; [done|].
  destruct (endpoint_host_port_parts rest) as (userinfo & tail & Hr & Hu & Hd & Ha & Ht).
  destruct (endpoint_host_parts (endpoint_host_port rest)) as (port & Hp & Hport).
  set (hp := endpoint_host_port rest) in *. set (host := endpoint_host hp) in *.
  destruct (is_empty host); [done|]. destruct (is_ipv4_literal host) eqn:H4; [done|].
  destruct (existsb _ _) eqn:Hsuf; [|done].
  exists scheme, userinfo, host, port, tail. split; rewrite <- ?Hp; try done.
  - rewrite He, Hr at 1. by rewrite Hp at 1; rewrite <- !str_app_assoc.
  - apply andb_false_iff in Hsch as [Hs|Hs]; apply negb_false_iff, str_eqb_eq in Hs; auto.
  - apply existsb_exists in Hsuf as (suf & Hin & Hend).
    apply ends_with_iff in Hend as [pre Hpre]. exists suf, pre.
    by rewrite list_elem_of_In.
Qed.

Lemma validate_endpoint_internal_witness :
  validate_endpoint "http://u@my-rebalancer.Kafka.SVC:9300/x" = Ok tt ∧
  ∃ scheme userinfo host port tail,
    internal_url "http://u@my-rebalancer.Kafka.SVC:9300/x" scheme userinfo host port tail.
Proof.
  split; [vm_compute; reflexivity|].
  apply validate_endpoint_internal. vm_compute. reflexivity.
Defined.

Section claims.
Context {Time ByteRate : Type}.
Implicit Types (obj seen stored : KafkaRebalance ByteRate) (cfg : rebalance_config Time).

(** C5. Partition data moves only on approval.  In every run of a reconcile
    pass, [ExecuteProposal] is sent only when the resource carries the
    [approve] command, its state is [ProposalReady], and the proposal executed
    is the one recorded in the status. *)
Theorem execute_only_on_approval cfg ts obj :
  all_runs (reconcile_inner cfg ts obj) (λ tr _,
    ∀ ep id throttle token, RpcExecute ep id throttle token ∈ calls tr →
      read_command obj = Some Approve ∧ current_state obj = ProposalReady ∧
      session_of obj = Some id).
Proof.
  pass_cases; intros ep id th tok Hin; log_mem Hin.
  all: injection Hin as -> -> -> ->.
  all: match goal with H : decide_action _ _ _ = Execute |- _ =>
         apply decide_execute in H as (Hc & Hs & Hh) end.
  all: destruct (session_of obj); [done|discriminate].
Qed.

(** A pass talks to the rebalancer at most once, only at the endpoint that
    [resolve_endpoint] let through, and a transport failure of that call
    leaves both the status and the pending command as they are. *)
Theorem one_guarded_rpc cfg ts obj :
  all_runs (reconcile_inner cfg ts obj) (λ tr r,
    length (omap rpc_endpoint (calls tr)) ≤ 1 ∧
    (∀ ep, ep ∈ omap rpc_endpoint (calls tr) →
       resolve_endpoint obj (namespace_or_default (rb_meta obj)) = Ok (Some ep)) ∧
    (∀ ep, DropClient ep ∈ calls tr →
       Forall (λ c, is_status_patch c = false ∧ c ≠ RemoveCommandAnnotation) (calls tr) ∧
       r = Ok (Requeue (controller_error_requeue cfg))))%nat.
Proof.
  pass_cases; cbn; (split; [lia|]); (split; [set_solver|]);
    intros ep Hin; log_mem Hin; split; try done; by repeat constructor.
Qed.

(** Where the bearer credential of an evacuation comes from. *)
Definition credential_reference (obj : KafkaRebalance ByteRate) : option (string * string) :=
  match rb_authorization_secret_ref (rb_spec obj) with
  | Some r => Some (ref_name r, ref_key r)
  | None => opt_map (λ cluster, (cluster +:+ "-rebalancer-auth", "token")) (cluster_label obj)
  end.

Lemma credential_reference_alt obj :
  or_else (opt_map (λ r, (ref_name r, ref_key r)) (rb_authorization_secret_ref (rb_spec obj)))
          (opt_map (λ cluster, (cluster +:+ "-rebalancer-auth", "token")) (cluster_label obj))
  = credential_reference obj.
Proof. unfold credential_reference. by destruct (rb_authorization_secret_ref _). Qed.

(** The evacuation credential.  A bearer token is sent only to create or
    execute a [removeBrokers] proposal; then it is always sent, it is not
    empty, and it is the value read in this pass from the Secret and key the
    resource names (or the cluster's default Secret). *)
Theorem evacuation_is_authorized cfg ts obj :
  all_runs (reconcile_inner cfg ts obj) (λ tr _,
    ∀ c tok, c ∈ calls tr → rpc_token c = Some tok →
      (is_Some tok ↔
         rb_mode (rb_spec obj) = RemoveBrokers ∧
         (decide_action (current_state obj) (read_command obj) (opt_is_some (session_of obj))
          ∈ [CreateProposal; Execute])) ∧
      (∀ t, tok = Some t →
         t ≠ "" ∧
         ∃ name key sec data, credential_reference obj = Some (name, key) ∧
           ev (GetSecret name) (Ok (Some sec)) ∈ tr ∧
           sec_data sec = Some data ∧ data !! key = Some t)).
Proof.
  pass_cases; intros c tok Hin Htok; log_mem Hin; subst c; cbn in Htok; simplify_eq.
  all: unfold needs_credential in *.
  all: repeat match goal with
       | H : _ && _ = true |- _ => apply andb_true_iff in H as [? ?]
       | H : bool_decide _ = true |- _ => apply bool_decide_eq_true in H
       | H : bool_decide _ && _ = false |- _ => apply andb_false_iff in H as [H|H]
       | H : bool_decide _ = false |- _ => apply bool_decide_eq_false in H
       | H : from_utf8 _ = Ok _ |- _ => apply from_utf8_Ok in H; subst
       | H : and_then _ _ = Some _ |- _ => apply and_then_Some in H as (? & ? & ?)
       | H : negb (is_empty _) = true |- _ => apply negb_true_iff, is_empty_false in H
       end; try done.
  all: split; [split; [intros [? ?]; simplify_eq; try (split; [done|in_log])|intros [? Hd]]
              |intros t ?; simplify_eq]; try done.
  all: try (by log_mem Hd).
  all: split; [done|]; eexists _, _, _, _; split_and!; [|in_log|done|done].
  all: by rewrite <- credential_reference_alt.
Qed.

(** *** The life cycle

    The diagram of the module's header, with the answer that each edge needs.  A proposal
    is computed for a new resource, on [refresh], and when a rebalance lost its id; it is
    executed on [approve], polled while it runs and cancelled on [stop]. *)
Inductive proposed : result RebalancerProposal RebalancerError → RebalanceState → Prop :=
  | pr_computed p : p_status p = Computed → proposed (Ok p) ProposalReady
  | pr_balanced p : p_status p = Completed → proposed (Ok p) Ready
  | pr_unexpected p : p_status p ∉ [Computed; Completed] → proposed (Ok p) NotReady
  | pr_retry code message : code ∈ RETRYABLE_RPC_CODES → proposed (Err (Rpc code message)) New
  | pr_failed e : is_retryable e = false → proposed (Err e) NotReady.

Inductive progressed : result RebalancerProposal RebalancerError → RebalanceState → Prop :=
  | pg_running p : p_status p ∈ [Executing; Computed] → progressed (Ok p) Rebalancing
  | pg_completed p : p_status p = Completed → progressed (Ok p) Ready
  | pg_failed p : p_status p ∈ [Failed; Unspecified] → progressed (Ok p) NotReady
  | pg_cancelled p : p_status p = Cancelled → progressed (Ok p) Stopped
  | pg_error e : (∀ m, e ≠ Transport m) → progressed (Err e) NotReady.

Inductive halted : result RebalancerProposal RebalancerError → RebalanceState → Prop :=
  | ha_stopped p : halted (Ok p) Stopped
  | ha_error e : (∀ m, e ≠ Transport m) → halted (Err e) NotReady.

Definition wants_proposal (obj : KafkaRebalance ByteRate) : Prop :=
  read_command obj = Some Refresh ∨
  (read_command obj = None ∧
   (current_state obj = New ∨ current_state obj = Rebalancing ∧ session_of obj = None)).

Definition approved (obj : KafkaRebalance ByteRate) : Prop :=
  current_state obj = ProposalReady ∧ read_command obj = Some Approve.

(** The pass found no token to evacuate brokers with. *)
Definition no_credential (h : list (event (rb_resp (ByteRate := ByteRate)))) (obj : KafkaRebalance ByteRate) : Prop :=
  match credential_reference obj with
  | None => True
  | Some (name, key) =>
      ∃ got, ev (GetSecret name) (Ok got) ∈ h ∧
        ∀ sec data b, got = Some sec → sec_data sec = Some data → data !! key = Some b →
          b = "" ∨ ∃ e, from_utf8 b = Err e
  end.

#[local] Notation rev := (ev (resp := rb_resp (ByteRate := ByteRate))).
Inductive life_cycle (h : list (event (rb_resp (ByteRate := ByteRate)))) (obj : KafkaRebalance ByteRate)
  : RebalanceState → Prop :=
  | lc_propose ep token (r : result RebalancerProposal RebalancerError) s :
      wants_proposal obj →
      rev (RpcCreate ep (rb_mode (rb_spec obj)) (rb_brokers (rb_spec obj)) (default [] (rb_goals (rb_spec obj))) token)
        r ∈ h →
      proposed r s → life_cycle h obj s
  | lc_execute ep id token (r : result RebalancerProposal RebalancerError) s :
      approved obj → session_of obj = Some id →
      rev (RpcExecute ep id (rb_throttle (rb_spec obj)) token) r ∈ h → progressed r s → life_cycle h obj s
  | lc_poll ep id (r : result RebalancerProposal RebalancerError) s :
      current_state obj = Rebalancing → read_command obj = None → session_of obj = Some id →
      rev (RpcGet ep id) r ∈ h → progressed r s → life_cycle h obj s
  | lc_stop ep id (r : result RebalancerProposal RebalancerError) s :
      current_state obj = Rebalancing → read_command obj = Some Stop → session_of obj = Some id →
      rev (RpcCancel ep id) r ∈ h → halted r s → life_cycle h obj s
  | lc_no_endpoint :
      (∀ ep, resolve_endpoint obj (namespace_or_default (rb_meta obj)) ≠ Ok (Some ep)) → life_cycle h obj NotReady
  | lc_no_credential :
      rb_mode (rb_spec obj) = RemoveBrokers → wants_proposal obj ∨ approved obj ∧ is_Some (session_of obj) →
      no_credential h obj → life_cycle h obj NotReady.

Lemma create_proposed p (idle : Time) : proposed (Ok p) (o_state (from_create p idle)).
Proof.
  unfold from_create. destruct (p_status p) eqn:E; cbn; first [by constructor|constructor; rewrite E; set_solver].
Qed.

Lemma execute_progressed p (poll idle : Time) : progressed (Ok p) (o_state (from_execute_or_poll p poll idle)).
Proof.
  unfold from_execute_or_poll. destruct (p_status p) eqn:E; cbn; first [by constructor|constructor; rewrite E; set_solver].
Qed.

Lemma create_failed e (retry idle : Time) :
  (∀ m, e ≠ Transport m) → proposed (Err e) (o_state (from_rpc_error CreateProposal e retry idle)).
Proof.
  intros Ht. unfold from_rpc_error. destruct (is_retryable e) eqn:E; cbn; [|by constructor].
  destruct e as [m|code m|m]; [by destruct (Ht m)| |done]. constructor. unfold is_retryable in E.
  apply existsb_exists in E as (x & Hx%list_elem_of_In & ->%str_eqb_eq). done.
Qed.

Lemma session_some obj : opt_is_some (session_of obj) = true → session_of obj = Some (default "" (session_of obj)).
Proof. by destruct (session_of obj). Qed.

(** What the decision says of the resource. *)
Lemma decided obj act :
  decide_action (current_state obj) (read_command obj) (opt_is_some (session_of obj)) = act →
  match act with
  | CreateProposal => wants_proposal obj
  | Execute => approved obj ∧ session_of obj = Some (default "" (session_of obj))
  | PollExecution => current_state obj = Rebalancing ∧ read_command obj = None ∧
      session_of obj = Some (default "" (session_of obj))
  | Cancel => current_state obj = Rebalancing ∧ read_command obj = Some Stop ∧
      session_of obj = Some (default "" (session_of obj))
  | Idle => True
  end.
Proof.
  intros Hd. destruct act; [apply decide_create in Hd|apply decide_execute in Hd as (? & ? & ?%session_some)
    |apply decide_poll in Hd as (? & ? & ?%session_some)|apply decide_cancel in Hd as (? & ? & ?%session_some)|done].
  - destruct Hd as [?|(? & [?|[? Hs]])]; [by left|right; auto..]. split; [done|]. right. split; [done|].
    by destruct (session_of obj).
  - by split.
  - done.
  - done.
Qed.

Lemma other_failed act e (retry idle : Time) :
  act ≠ CreateProposal → o_state (from_rpc_error act e retry idle) = NotReady.
Proof. intros Ha. unfold from_rpc_error. by rewrite bool_decide_false. Qed.

(** A credential is asked for to propose and to execute an evacuation. *)
Lemma credential_needed obj act :
  decide_action (current_state obj) (read_command obj) (opt_is_some (session_of obj)) = act →
  needs_credential obj act = true →
  rb_mode (rb_spec obj) = RemoveBrokers ∧ (wants_proposal obj ∨ approved obj ∧ is_Some (session_of obj)).
Proof.
  intros Hd%decided [Hm%bool_decide_eq_true Ha]%andb_true_iff. split; [done|].
  destruct act; try done; [by left|right]. destruct Hd as [Hd ->]. eauto.
Qed.

(** The state of a written status, from the call that it answers. *)
Ltac answered_call :=
  lazymatch goal with
  | |- life_cycle _ _ (o_state (from_create _ _)) => eapply lc_propose; [done|in_log|apply create_proposed]
  | |- life_cycle _ _ (o_state (from_rpc_error CreateProposal _ _ _)) =>
      eapply lc_propose; [done|in_log|by apply create_failed]
  | |- life_cycle _ _ (o_state (from_execute_or_poll _ _ _)) =>
      first [eapply lc_execute; [by destruct_and?|by destruct_and?|in_log|apply execute_progressed]
            |eapply lc_poll; [by destruct_and?|by destruct_and?|by destruct_and?|in_log|apply execute_progressed]]
  | |- life_cycle _ _ (o_state (from_rpc_error _ _ _ _)) =>
      rewrite other_failed by done;
      first [eapply lc_execute; [by destruct_and?|by destruct_and?|in_log|by constructor]
            |eapply lc_poll; [by destruct_and?|by destruct_and?|by destruct_and?|in_log|by constructor]
            |eapply lc_stop; [by destruct_and?|by destruct_and?|by destruct_and?|in_log|by constructor]]
  | |- life_cycle _ _ (o_state (from_cancel _ _)) =>
      eapply lc_stop; [by destruct_and?|by destruct_and?|by destruct_and?|in_log|constructor]
  end.

Ltac credential_missing :=
  match goal with H : needs_credential _ ?a = true |- _ => destruct (credential_needed _ a eq_refl H) end;
  apply lc_no_credential; [done|done|];
  unfold no_credential; rewrite <- credential_reference_alt;
  match goal with H : or_else _ _ = _ |- _ => rewrite H end;
  first [done|eexists; split; [in_log|]; intros ? ? ? Hgot Hdata Hb].

(** C6. The state of a rebalance moves only along its life cycle.  Whatever the API
    server and the rebalancer answer, and whether or not a failed patch took effect, the
    status stored after a pass is the one from before, or its state is one that the
    command and the state before it ask for, given the answer that the rebalancer gave
    in this pass: a proposal is ready only if one was computed, a rebalance runs only
    once it was approved and is being executed, it is ready, failed or stopped as the
    rebalancer says, and it is not ready when there is no valid endpoint or no
    credential for an evacuation. *)
Theorem pass_follows_life_cycle cfg ts obj :
  all_runs (reconcile_inner cfg ts obj) (λ tr _,
    ∀ obj', obj' ∈ stored_after tr obj →
      rb_status obj' = rb_status obj ∨ life_cycle tr obj (current_state obj')).
Proof.
  pass_cases; intros obj' Hin; cbn in Hin;
    repeat (apply elem_of_cons in Hin as [->|Hin]); try (by apply elem_of_nil in Hin); try (by left);
    right; rewrite current_state_next; cbn [o_state transient].
  all: try (apply lc_no_endpoint; congruence).
  all: try (match goal with H : decide_action _ _ _ = _ |- _ => apply decided in H end; answered_call).
  all: credential_missing; simplify_eq.
  all: match goal with H : and_then _ _ = _ |- _ => rewrite Hdata in H; cbn in H; rewrite Hb in H; simplify_eq end.
  all: first [ match goal with H : from_utf8 _ = Err _ |- _ => right; rewrite H; by eauto end | left ].
  all: match goal with H : from_utf8 _ = Ok _ |- _ => apply from_utf8_Ok in H; subst end.
  all: match goal with H : negb (is_empty ?a) = false |- _ => by destruct a end.
Qed.

(** The life of a resource: it starts without a status, anyone may edit its
    metadata and spec, and the operator runs passes against any environment,
    on a snapshot [seen] that may be older than what is stored. *)
Inductive reachable (cfg : rebalance_config Time) : KafkaRebalance ByteRate → Prop :=
  | reach_new obj : rb_status obj = None → reachable cfg obj
  | reach_edit obj obj' :
      reachable cfg obj → rb_status obj' = rb_status obj → reachable cfg obj'
  | reach_pass seen stored obj' ts (S : Type) (env : S → ∀ c, S * rb_resp c) s :
      reachable cfg seen → reachable cfg stored →
      obj' ∈ stored_after (exec env (reconcile_inner cfg ts seen) s).1.2 stored →
      reachable cfg obj'.

Definition has_proposal (obj : KafkaRebalance ByteRate) : Prop :=
  current_state obj ∈ [ProposalReady; Rebalancing] → is_Some (session_of obj).

Lemma has_proposal_status obj obj' :
  rb_status obj' = rb_status obj → has_proposal obj → has_proposal obj'.
Proof. unfold has_proposal. rewrite !current_state_alt. unfold session_of. by intros ->. Qed.

Lemma has_proposal_next ts seen stored (o : Outcome Time) :
  (o_state o ∈ [ProposalReady; Rebalancing] → is_Some (o_new_session o) ∨ is_Some (session_of seen)) →
  has_proposal (set_status stored (next_status ts seen o)).
Proof.
  intros H. unfold has_proposal. rewrite current_state_next, session_next.
  intros [[? Hn]|[? Hn]]%H; rewrite Hn; [by eexists|]. destruct (o_new_session o); by eexists.
Qed.

Lemma pass_keeps_proposal cfg ts seen :
  all_runs (reconcile_inner cfg ts seen) (λ tr _,
    ∀ stored obj', has_proposal stored → obj' ∈ stored_after tr stored → has_proposal obj').
Proof.
  pass_cases; intros stored obj' Hw Hin; cbn in Hin;
    repeat (apply elem_of_cons in Hin as [->|Hin]); try (by apply elem_of_nil in Hin);
    try (eapply has_proposal_status; [|exact Hw]; done);
    apply has_proposal_next; cbn; try set_solver.
  all: match goal with
       | H : decide_action _ _ _ = CreateProposal |- _ => idtac
       | H : decide_action _ _ _ = Execute |- _ => apply decide_execute in H as (_ & _ & H)
       | H : decide_action _ _ _ = PollExecution |- _ => apply decide_poll in H as (_ & _ & H)
       | H : decide_action _ _ _ = Cancel |- _ => apply decide_cancel in H as (_ & _ & H)
       end.
  all: try (intros _; right; by apply opt_is_some_true).
  all: try (intros _; left; unfold from_create; destruct (p_status _); by eexists).
  all: match goal with
       | |- context [from_rpc_error ?a ?e ?q ?i] =>
           destruct (from_rpc_error_state a e q i) as [Hs|[_ Hs]]; rewrite Hs; set_solver
       end.
Qed.

(** A proposal is always on file while one is ready or executing.  In every
    state the resource can reach, [ProposalReady] and [Rebalancing] come with
    a session id, so the next pass over an executing proposal polls it, and
    never takes the branch for a corrupt status that would plan a second
    proposal over the running one. *)
Theorem executing_has_proposal cfg obj :
  reachable cfg obj →
  (current_state obj ∈ [ProposalReady; Rebalancing] → is_Some (session_of obj)) ∧
  (current_state obj = Rebalancing →
   decide_action (current_state obj) None (opt_is_some (session_of obj)) = PollExecution).
Proof.
  intros Hr. assert (has_proposal obj) as Hp.
  { induction Hr as [obj Hn|obj obj' _ IH Hs|seen stored obj' ts S env s _ _ _ IH Hin].
    - unfold has_proposal. rewrite current_state_alt, Hn. cbn. set_solver.
    - by eapply has_proposal_status.
    - exact (all_runs_exec env _ s _ (pass_keeps_proposal cfg ts seen) stored obj' IH Hin). }
  split; [exact Hp|]. intros Hs. destruct Hp as [id Hid]; [rewrite Hs; in_log|].
  by rewrite Hs, Hid.
Qed.

(** Writing the same outcome again does not change the status: whatever
    the clock says, the transition time, the session, the result and the
    observed generation are the ones already stored, so the patch is a no-op
    and raises no watch event. *)
Theorem retry_writes_same_status ts1 ts2 obj (o : Outcome Time) :
  next_status ts2 (set_status obj (next_status ts1 obj o)) o = next_status ts1 obj o.
Proof.
  unfold next_status at 1. cbn [rb_status set_status].
  replace (active_condition ts2 (Some (next_status ts1 obj o)) o)
    with (active_condition ts1 (rb_status obj) o).
  - unfold next_status. cbn.
    by destruct (o_advance_generation o), (o_new_session o), (o_new_optimization o).
  - symmetry. unfold active_condition at 1. rewrite true_condition_next. cbn [option_filter].
    rewrite active_condition_type. cbn [type_ condition]. rewrite str_eqb_refl.
    unfold active_condition. by destruct (option_filter _ _).
Qed.
End claims.

(** A resource with a derived endpoint, planned and approved against a
    rebalancer that computes and executes proposal [p1]. *)
Module Sample.
Definition cfg : rebalance_config Z :=
  {| rebalancer_idle_interval := 300; rebalancer_poll_interval := 10;
     controller_error_requeue := 5 |}.
Definition meta (annotations : option (gmap string string)) : object_meta :=
  ObjectMeta (Some "r") (Some "kafka") None (Some {["krabka.io/cluster" := "c"]})
    annotations None (Some 1) false [].
Definition spec : KafkaRebalanceSpec Z :=
  {| rb_mode := Full; rb_brokers := []; rb_authorization_secret_ref := None;
     rb_goals := None; rb_throttle := None; rb_endpoint := None |}.
Definition fresh : KafkaRebalance Z :=
  {| rb_meta := meta None; rb_spec := spec; rb_status := None |}.
Definition proposal (st : ProposalStatus) : RebalancerProposal :=
  proposal_from_json (JObject [("id", JString "p1");
    ("status", JString match st with Computed => "PROPOSAL_STATUS_COMPUTED"
                                   | _ => "PROPOSAL_STATUS_EXECUTING" end);
    ("summary", JObject [("replicaMovements", JNumber (Some 3))])]).
Definition env (s : unit) (c : rb_call Z) : unit * rb_resp c :=
  (tt, match c return rb_resp c with
       | GetSecret _ => Ok None
       | RpcCreate _ _ _ _ _ => Ok (proposal Computed)
       | RpcExecute _ _ _ _ | RpcGet _ _ | RpcCancel _ _ => Ok (proposal Executing)
       | DropClient _ => tt
       | PatchStatus _ | RemoveCommandAnnotation => Ok tt
       end).
Definition after (obj : KafkaRebalance Z) : KafkaRebalance Z :=
  default obj (head (stored_after (exec env (reconcile_inner cfg "t" obj) tt).1.2 obj)).
Definition approved (obj : KafkaRebalance Z) : KafkaRebalance Z :=
  {| rb_meta := meta (Some {[ANNOTATION := "approve"]}); rb_spec := spec;
     rb_status := rb_status obj |}.
Definition executing : KafkaRebalance Z := after (approved (after fresh)).
End Sample.

Lemma sample_pass obj :
  reachable Sample.cfg obj →
  Sample.after obj ∈
    stored_after (exec Sample.env (reconcile_inner Sample.cfg "t" obj) tt).1.2 obj →
  reachable Sample.cfg (Sample.after obj).
Proof. intros H Hin. by eapply reach_pass with (seen := obj) (stored := obj). Qed.

Lemma executing_has_proposal_witness :
  current_state Sample.executing = Rebalancing ∧
  decide_action (current_state Sample.executing) None (opt_is_some (session_of Sample.executing))
    = PollExecution.
Proof.
  split; [vm_compute; reflexivity|].
  apply (executing_has_proposal Sample.cfg Sample.executing); [|vm_compute; reflexivity].
  apply sample_pass; [|vm_compute; constructor].
  apply reach_edit with (obj := Sample.after Sample.fresh); [|reflexivity].
  apply sample_pass; [by apply reach_new|vm_compute; constructor].
Defined.
