(* ===== verification/LeaderElection.v ===== *)
(** * Leader election over a Kubernetes Lease (src/leader_election.rs)

    The pure tests and edits of a lease, and the three programs that use the
    lease API: [acquire], [renew_loop] and [release_lease].  The API server is
    not modelled as code: its documented optimistic concurrency is stated on
    logs ([replay] below), and the concurrent theorem is about every
    interleaving of replicas that is consistent with it. *)

From S2P Require Import Prelude RustStd Effects Kube.
Local Open Scope Z_scope.

Record LeaseSpec : Type := {
  holder_identity : option string;
  lease_duration_seconds : option Z;
  acquire_time : option Z;   (* nanoseconds since the epoch *)
  renew_time : option Z;
  lease_transitions : option Z;
}.

Definition LeaseSpec_default : LeaseSpec := {|
  holder_identity := None; lease_duration_seconds := None; acquire_time := None;
  renew_time := None; lease_transitions := None |}.

(** A lease with its [resourceVersion]; [None] on an object to be created. *)
Record Lease : Type := {
  lease_name : string;
  resource_version : option Z;
  lease_spec : option LeaseSpec;
}.

#[global] Instance LeaseSpec_eq_dec : EqDecision LeaseSpec.
Proof. solve_decision. Defined.
#[global] Instance Lease_eq_dec : EqDecision Lease.
Proof. solve_decision. Defined.

Inductive Release : Type := Released | NotHeld | Conflict.

(** ** Tests and edits of a lease *)
Definition held_by_us (lease : Lease) (identity : string) : bool :=
  bool_decide (and_then (lease_spec lease) holder_identity = Some identity).

Definition is_vacant (lease : Lease) : bool :=
  is_none_or is_empty (and_then (lease_spec lease) holder_identity).

(** [jiff::Timestamp::as_second] *)
Definition as_second (nanos : Z) : Z := Z.quot nanos 1000000000.

Definition with_spec (lease : Lease) (spec : LeaseSpec) : Lease :=
  {| lease_name := lease_name lease; resource_version := resource_version lease;
     lease_spec := Some spec |}.

(** The lease [released] writes back, with [now] read by the caller. *)
Definition released (lease : Lease) (identity : string) (now : Z) : option Lease :=
  if negb (held_by_us lease identity) then None
  else
    let spec := default LeaseSpec_default (lease_spec lease) in
    Some (with_spec lease
      {| holder_identity := None;
         lease_duration_seconds := Some 1;
         acquire_time := Some now;
         renew_time := Some now;
         lease_transitions := lease_transitions spec |}).

Definition claim (lease : Lease) (identity : string) (duration : Z) (now : Z) : Lease :=
  let spec := default LeaseSpec_default (lease_spec lease) in
  let changed_holder := negb (bool_decide (holder_identity spec = Some identity)) in
  with_spec lease
    {| holder_identity := Some identity;
       lease_duration_seconds := Some duration;
       acquire_time := Some now;
       renew_time := Some now;
       lease_transitions :=
         if changed_holder
         then Some (saturating_add_i32 (default 0 (lease_transitions spec)) 1)
         else lease_transitions spec |}.

(** The edit of [renew_once]. *)
Definition renewed (lease : Lease) (duration : Z) (now : Z) : Lease :=
  let spec := default LeaseSpec_default (lease_spec lease) in
  with_spec lease
    {| holder_identity := holder_identity spec;
       lease_duration_seconds := Some duration;
       acquire_time := acquire_time spec;
       renew_time := Some now;
       lease_transitions := lease_transitions spec |}.

Section leases.
Context `{TimeOps Time}.

Definition is_expired (lease : Lease) (fallback_duration : Time) (now : Z) : bool :=
  match lease_spec lease with
  | None => true
  | Some spec =>
      match renew_time spec with
      | None => true
      | Some renew =>
          let lease_duration :=
            match lease_duration_seconds spec with
            | Some raw => from_secs raw
            | None => fallback_duration
            end in
          let elapsed := from_secs (as_second now - as_second renew) in
          time_ltb lease_duration elapsed
      end
  end.

Definition is_claimable (lease : Lease) (fallback_duration : Time) (now : Z) : bool :=
  is_vacant lease || is_expired lease fallback_duration now.

(** [i32::try_from(extent.secs_i64())] *)
Definition lease_duration_i32 (extent : Time) : option Z :=
  checked i32_min i32_max (secs_i64 extent).

(** ** External calls *)
Inductive lease_call : Type :=
  | GetLease
  | CreateLease (lease : Lease)
  | ReplaceLease (lease : Lease)
  | Now                      (* jiff::Timestamp::now *)
  | InstantNow               (* tokio::time::Instant::now *)
  | Sleep (extent : Time).

Definition lease_resp (c : lease_call) : Type :=
  match c with
  | GetLease => result (option Lease) kube_error
  | CreateLease _ | ReplaceLease _ => result unit kube_error
  | Now | InstantNow => Z
  | Sleep _ => unit
  end.

Notation lprog := (prog lease_resp).

Definition is_conflict (e : kube_error) : bool :=
  match e with KubeApi code => code =? 409 | KubeOther _ => false end.

(** ** Acquiring *)
Inductive acquire_outcome : Type :=
  | Acquired
  | AcquireFailed (e : kube_error)
  | DurationOutOfRange.

(** One turn of the loop: [None] goes round again. *)
Definition acquire_iter (name identity : string) (lease_duration retry_interval : Time)
    (duration_i32 : Z) : lprog (option acquire_outcome) :=
  got ← perform (resp := lease_resp) GetLease;
  match got with
  | Err e => Ret (Some (AcquireFailed e))
  | Ok None =>
      t1 ← perform (resp := lease_resp) Now;
      t2 ← perform (resp := lease_resp) Now;
      created ← perform (resp := lease_resp)
        (CreateLease {| lease_name := name; resource_version := None;
           lease_spec := Some {| holder_identity := Some identity;
             lease_duration_seconds := Some duration_i32;
             acquire_time := Some t1; renew_time := Some t2;
             lease_transitions := Some 1 |} |});
      match created with
      | Ok _ => Ret (Some Acquired)
      | Err e => if is_conflict e then Ret None else Ret (Some (AcquireFailed e))
      end
  | Ok (Some existing) =>
      if held_by_us existing identity then Ret (Some Acquired)
      else
        (* [is_claimable] reads the clock only when the lease has a holder and
           a renewal time; reading it always does not change the test. *)
        now ← perform (resp := lease_resp) Now;
        if is_claimable existing lease_duration now then
          t ← perform (resp := lease_resp) Now;
          replaced ← perform (resp := lease_resp)
            (ReplaceLease (claim existing identity duration_i32 t));
          match replaced with
          | Ok _ => Ret (Some Acquired)
          | Err _ =>
              _ ← perform (resp := lease_resp) (Sleep retry_interval);
              Ret None
          end
        else
          _ ← perform (resp := lease_resp) (Sleep retry_interval);
          Ret None
  end.

(** The loop of [acquire], cut after [fuel] turns. *)
Fixpoint acquire_loop (fuel : nat) (name identity : string) (lease_duration retry_interval : Time)
    (duration_i32 : Z) : lprog (option acquire_outcome) :=
  match fuel with
  | O => Ret None
  | S fuel =>
      o ← acquire_iter name identity lease_duration retry_interval duration_i32;
      match o with
      | Some r => Ret (Some r)
      | None => acquire_loop fuel name identity lease_duration retry_interval duration_i32
      end
  end.

Definition acquire (fuel : nat) (name identity : string) (lease_duration retry_interval : Time)
  : lprog (option acquire_outcome) :=
  match lease_duration_i32 lease_duration with
  | None => Ret (Some DurationOutOfRange)
  | Some duration_i32 =>
      acquire_loop fuel name identity lease_duration retry_interval duration_i32
  end.

(** ** Renewing *)
Inductive RenewError : Type :=
  | Lost (why : string)
  | Retry (e : kube_error).

Definition renew_once (identity : string) (duration_i32 : Z) : lprog (result unit RenewError) :=
  got ← perform (resp := lease_resp) GetLease;
  match got with
  | Err e => Ret (Err (Retry e))
  | Ok None => Ret (Err (Lost "lease was deleted"))
  | Ok (Some lease) =>
      if negb (held_by_us lease identity) then
        let holder := default "<none>" (and_then (lease_spec lease) holder_identity) in
        Ret (Err (Lost ("holder changed to " +:+ holder)))
      else
        t ← perform (resp := lease_resp) Now;
        replaced ← perform (resp := lease_resp) (ReplaceLease (renewed lease duration_i32 t));
        match replaced with
        | Ok _ => Ret (Ok tt)
        | Err e => Ret (Err (Retry e))
        end
  end.

(** One turn of [renew_loop] from the last success: the new last success, or
    the end of the loop. *)
Inductive renew_end : Type :=
  | LostLease (why : string)
  | MissedDeadline (e : kube_error).

Definition renew_iter (identity : string) (lease_duration retry_interval : Time)
    (duration_i32 last_success : Z) : lprog (result Z renew_end) :=
  _ ← perform (resp := lease_resp) (Sleep retry_interval);
  renewal ← renew_once identity duration_i32;
  match renewal with
  | Ok _ =>
      t ← perform (resp := lease_resp) InstantNow;
      Ret (Ok t)
  | Err (Lost reason) => Ret (Err (LostLease reason))
  | Err (Retry error) =>
      t ← perform (resp := lease_resp) InstantNow;
      if to_std_nanos lease_duration <=? t - last_success
      then Ret (Err (MissedDeadline error))
      else Ret (Ok last_success)
  end.

(** The loop, cut after [fuel] turns ([Ok last] when it still runs). *)
Fixpoint renew_loop (fuel : nat) (identity : string) (lease_duration retry_interval : Time)
    (duration_i32 last_success : Z) : lprog (result Z renew_end) :=
  match fuel with
  | O => Ret (Ok last_success)
  | S fuel =>
      r ← renew_iter identity lease_duration retry_interval duration_i32 last_success;
      match r with
      | Err e => Ret (Err e)
      | Ok last => renew_loop fuel identity lease_duration retry_interval duration_i32 last
      end
  end.

(** ** Releasing *)
Definition release_lease (identity : string) (now : Z) : lprog (result Release kube_error) :=
  got ← perform (resp := lease_resp) GetLease;
  match got with
  | Err e => Ret (Err e)
  | Ok None => Ret (Ok NotHeld)
  | Ok (Some lease) =>
      match released lease identity now with
      | None => Ret (Ok NotHeld)
      | Some lease' =>
          replaced ← perform (resp := lease_resp) (ReplaceLease lease');
          match replaced with
          | Ok _ => Ret (Ok Released)
          | Err e => if is_conflict e then Ret (Ok Conflict) else Ret (Err e)
          end
      end
  end.
End leases.

Arguments lease_call Time : clear implicits.

(** ** The API server, by what it answers

    The stored lease and the next [resourceVersion].  [serve s e] lists the
    states an answered call can leave: a read answers with the stored lease, a
    write takes effect only with the stored version, a conflict changes
    nothing, and a write that failed otherwise may or may not have taken
    effect. *)
Record server : Type := {
  sv_lease : option Lease;
  sv_next : Z;
}.

Definition stamp (l : Lease) (version : Z) : Lease :=
  {| lease_name := lease_name l; resource_version := Some version; lease_spec := lease_spec l |}.

Definition store (s : server) (l : Lease) : server :=
  {| sv_lease := Some (stamp l (sv_next s)); sv_next := sv_next s + 1 |}.

Definition version_matches (s : server) (l : Lease) : bool :=
  match sv_lease s with
  | Some cur => is_some_and (λ _, bool_decide (resource_version l = resource_version cur))
                  (resource_version l)
  | None => false
  end.

Definition write_results (s : server) (ok : bool) (l : Lease) (r : result unit kube_error)
  : list server :=
  let applied := if ok then [store s l] else [] in
  match r with
  | Ok _ => applied
  | Err e => if is_conflict e then [s] else s :: applied
  end.

Section server.
Context `{TimeOps Time}.

Definition serve (s : server) (e : event (lease_resp (Time := Time))) : list server :=
  match e with
  | existT GetLease r =>
      match r with
      | Ok o => if bool_decide (o = sv_lease s) then [s] else []
      | Err _ => [s]
      end
  | existT (CreateLease l) r => write_results s (negb (opt_is_some (sv_lease s))) l r
  | existT (ReplaceLease l) r => write_results s (version_matches s l) l r
  | _ => [s]
  end.

(** All states after a log of the replicas' calls, in the order served. *)
Fixpoint replay (log : list (string * event (lease_resp (Time := Time)))) (s : server)
  : list server :=
  match log with
  | [] => [s]
  | (_, e) :: log => s' ← serve s e; replay log s'
  end.

Definition of_replica (i : string) (log : list (string * event (lease_resp (Time := Time))))
  : list (event (lease_resp (Time := Time))) :=
  map snd (filter (λ x, x.1 = i) log).

(** What replica [i], configured with lease duration [dur], may write over a
    lease [l], and how its own calls until then ([pre]) end: a lease it does
    not hold it claims only when vacant, or expired at the time [checked] it
    then read from the clock; a lease it holds it renews or releases. *)
Inductive derived (dur : Time) (i : string) (pre : list (event (lease_resp (Time := Time))))
    (l : Lease) : Lease → Prop :=
  | by_claim pre' checked d32 t :
      pre = pre' ++ [ev GetLease (Ok (Some l)); ev Now checked; ev Now t] →
      held_by_us l i = false →
      is_vacant l = true ∨ is_expired l dur checked = true →
      lease_duration_i32 dur = Some d32 →
      derived dur i pre l (claim l i d32 t)
  | by_renewal pre' d32 t :
      pre = pre' ++ [ev GetLease (Ok (Some l)); ev Now t] →
      held_by_us l i = true →
      lease_duration_i32 dur = Some d32 →
      derived dur i pre l (renewed l d32 t)
  | by_release pre' t l' :
      pre = pre' ++ [ev GetLease (Ok (Some l))] →
      released l i t = Some l' →
      derived dur i pre l l'.

(** Every replacement is justified by the calls of the same replica before it. *)
Definition reads_first (dur : Time) (i : string) (tr : list (event (lease_resp (Time := Time))))
  : Prop :=
  ∀ tr1 l' r tr2, tr = tr1 ++ ev (ReplaceLease l') r :: tr2 → ∃ l, derived dur i tr1 l l'.

(** What replica [i] does over time: runs of the three programs with its
    configured lease duration, one after the other, cut at any point. *)
Inductive replica_log (dur : Time) (i : string)
  : list (event (lease_resp (Time := Time))) → Prop :=
  | rl_nil : replica_log dur i []
  | rl_acquire tr fuel name q (S : Type) (env : S → ∀ c, S * lease_resp c) s :
      replica_log dur i tr →
      replica_log dur i (tr ++ (exec env (acquire fuel name i dur q) s).1.2)
  | rl_renew tr fuel q d32 t (S : Type) (env : S → ∀ c, S * lease_resp c) s :
      lease_duration_i32 dur = Some d32 → replica_log dur i tr →
      replica_log dur i (tr ++ (exec env (renew_loop fuel i dur q d32 t) s).1.2)
  | rl_release tr t (S : Type) (env : S → ∀ c, S * lease_resp c) s :
      replica_log dur i tr → replica_log dur i (tr ++ (exec env (release_lease i t) s).1.2)
  | rl_cut tr tr' : replica_log dur i (tr ++ tr') → replica_log dur i tr.
End server.

(** ** Lemmas *)

Lemma resource_version_released l i t l' :
  released l i t = Some l' → resource_version l' = resource_version l.
Proof. unfold released. destruct (held_by_us l i); cbn; [|done]. by intros [= <-]. Qed.

Section lemmas.
Context `{TimeOps Time}.
Implicit Types (tr : list (event (lease_resp (Time := Time)))).

Lemma derived_version dur i pre l l' :
  derived dur i pre l l' → resource_version l' = resource_version l.
Proof. intros []; eauto using resource_version_released. Qed.

Lemma derived_read dur i pre l l' :
  derived dur i pre l l' → ev GetLease (Ok (Some l)) ∈ pre.
Proof. intros []; subst; set_solver. Qed.

Lemma derived_after dur i tr pre l l' : derived dur i pre l l' → derived dur i (tr ++ pre) l l'.
Proof.
  intros []; subst; rewrite app_assoc; eauto using by_claim, by_renewal, by_release.
Qed.

Lemma reads_first_nil dur i : reads_first dur i [].
Proof. intros tr1 l' r tr2 Ht. by destruct tr1. Qed.

Lemma reads_first_app dur i tr tr' :
  reads_first dur i tr → reads_first dur i tr' → reads_first dur i (tr ++ tr').
Proof.
  intros H1 H2 tr1 l' r tr2 Ht.
  apply app_eq_inv in Ht as [(k & -> & Ht)|(k & -> & Ht)].
  - destruct k as [|e k]; cbn in Ht.
    + destruct (H2 [] l' r tr2) as (l & Hl%derived_read); [by rewrite Ht|].
      by apply elem_of_nil in Hl.
    + injection Ht as <- ->. by apply (H1 tr1 l' r k).
  - destruct (H2 k l' r tr2 Ht) as (l & Hd). eauto using derived_after.
Qed.

Lemma reads_first_cut dur i tr tr' : reads_first dur i (tr ++ tr') → reads_first dur i tr.
Proof. intros Hj tr1 l' r tr2 ->. apply (Hj tr1 l' r (tr2 ++ tr')). by rewrite <- app_assoc. Qed.

(** In a concrete log: one goal for each replacement in it. *)
Ltac justify :=
  let tr1 := fresh "tr" in let Ht := fresh "Ht" in let Hc := fresh "Hc" in
  intros tr1 ? ? ? Ht;
  repeat (destruct tr1 as [|? tr1]; cbn in Ht;
    [pose proof (f_equal (hd_error ∘ calls) Ht) as Hc; cbn in Hc;
     first [discriminate Hc | injection Hc as <-; clear Ht]
    |pose proof (f_equal hd_error Ht) as Hc; cbn in Hc; apply (inj Some) in Hc; subst;
     apply (f_equal tail) in Ht; cbn in Ht]);
  try (exfalso; by destruct tr1).

Lemma acquire_iter_justified name i d q d32 :
  lease_duration_i32 d = Some d32 →
  all_runs (acquire_iter name i d q d32) (λ tr _, reads_first d i tr).
Proof.
  intros Hd. unfold all_runs, acquire_iter. run_cases; cbn; justify.
  all: eexists; eapply (by_claim _ _ _ _ []); [reflexivity|done|by apply orb_true_iff|done].
Qed.

Lemma renew_once_justified i d d32 :
  lease_duration_i32 d = Some d32 →
  all_runs (renew_once i d32) (λ tr _, reads_first d i tr).
Proof.
  intros Hd. unfold all_runs, renew_once. run_cases; cbn; justify.
  all: eexists; eapply (by_renewal _ _ _ _ []); [reflexivity|by apply negb_false_iff|done].
Qed.

Lemma release_lease_justified d i t :
  all_runs (release_lease (Time := Time) i t) (λ tr _, reads_first d i tr).
Proof.
  unfold all_runs, release_lease. run_cases; cbn; justify.
  all: eexists; eapply (by_release _ _ _ _ []); [reflexivity|done].
Qed.

Lemma acquire_justified fuel name i d q :
  all_runs (acquire fuel name i d q) (λ tr _, reads_first d i tr).
Proof.
  unfold acquire. destruct (lease_duration_i32 d) as [d32|] eqn:Hd; [|apply reads_first_nil].
  induction fuel as [|fuel IH]; cbn [acquire_loop]; [apply reads_first_nil|].
  apply all_runs_bind_app; [apply reads_first_app|by apply acquire_iter_justified|].
  intros [o|]; [apply reads_first_nil|exact IH].
Qed.

Lemma renew_iter_justified i d q d32 t :
  lease_duration_i32 d = Some d32 →
  all_runs (renew_iter i d q d32 t) (λ tr _, reads_first d i tr).
Proof.
  intros Hd. unfold renew_iter.
  apply all_runs_bind_app; [apply reads_first_app|intros ?; justify|intros _].
  apply all_runs_bind_app; [apply reads_first_app|by apply renew_once_justified|].
  intros []; unfold all_runs; run_cases; cbn; justify.
Qed.

Lemma renew_loop_justified fuel i d q d32 t :
  lease_duration_i32 d = Some d32 →
  all_runs (renew_loop fuel i d q d32 t) (λ tr _, reads_first d i tr).
Proof.
  intros Hd. revert t.
  induction fuel as [|fuel IH]; intros t; cbn [renew_loop]; [apply reads_first_nil|].
  apply all_runs_bind_app; [apply reads_first_app|by apply renew_iter_justified|].
  intros [t'|e]; [apply IH|apply reads_first_nil].
Qed.

Lemma replica_log_justified dur i tr : replica_log dur i tr → reads_first dur i tr.
Proof.
  induction 1 as [|tr fuel name q S env s ? IH|tr fuel q d32 t S env s Hd ? IH|tr t S env s ? IH|];
    eauto using reads_first_nil, reads_first_cut; (apply reads_first_app; [done|]).
  - apply (all_runs_exec env _ s _ (acquire_justified fuel name i dur q)).
  - apply (all_runs_exec env _ s _ (renew_loop_justified fuel i dur q d32 t Hd)).
  - apply (all_runs_exec env _ s _ (release_lease_justified dur i t)).
Qed.

(** ** Versions identify what was read *)
Implicit Types (log : list (string * event (lease_resp (Time := Time)))).

Definition versioned (s : server) : Prop :=
  ∀ cur, sv_lease s = Some cur → ∃ v, resource_version cur = Some v ∧ v < sv_next s.

(** A lease read during [log] has a version of the past, and the stored lease
    is that lease if it still has that version. *)
Definition reads_fresh log (s : server) : Prop :=
  ∀ i l, (i, ev GetLease (Ok (Some l))) ∈ log →
    ∃ v, resource_version l = Some v ∧ v < sv_next s ∧
         ∀ cur, sv_lease s = Some cur → resource_version cur = Some v → cur = l.

Lemma elem_of_write_results s ok l r s' :
  s' ∈ write_results s ok l r → s' = s ∨ (ok = true ∧ s' = store s l).
Proof. unfold write_results. destruct r, ok; repeat case_match; set_solver. Qed.

Lemma serve_cases s (e : event (lease_resp (Time := Time))) s' :
  s' ∈ serve s e →
  s' = s ∨ ((∀ l, e ≠ ev GetLease (Ok (Some l))) ∧ ∃ l, s' = store s l).
Proof.
  destruct e as [[| | | | |] x]; cbn; intros Hs.
  - left. destruct x; [case_bool_decide|]; set_solver.
  - apply elem_of_write_results in Hs as [?|[_ ?]]; [by left|]. right. eauto.
  - apply elem_of_write_results in Hs as [?|[_ ?]]; [by left|]. right. eauto.
  - set_solver.
  - set_solver.
  - set_solver.
Qed.

Lemma serve_versioned s (e : event (lease_resp (Time := Time))) s' :
  versioned s → s' ∈ serve s e → versioned s'.
Proof.
  intros Hv [->|(_ & l & ->)]%serve_cases; [done|].
  intros cur [= <-]. exists (sv_next s). cbn. split; [done|lia].
Qed.

Lemma serve_read s (l : Lease) s' :
  s' ∈ serve s (ev (resp := lease_resp (Time := Time)) GetLease (Ok (Some l))) →
  s' = s ∧ sv_lease s = Some l.
Proof. cbn. case_bool_decide; set_solver. Qed.

Lemma serve_reads_fresh log s i e s' :
  versioned s → reads_fresh log s → s' ∈ serve s e → reads_fresh (log ++ [(i, e)]) s'.
Proof.
  intros Hv Hr Hs j l Hin. apply elem_of_app in Hin as [Hin|Hin%list_elem_of_singleton].
  - destruct (Hr j l Hin) as (v & Hl & Hlt & Hc). exists v.
    apply serve_cases in Hs as [->|(_ & l0 & ->)]; [done|]. cbn.
    split; [done|]. split; [lia|]. intros cur [= <-] [= Hx]. lia.
  - injection Hin as -> <-. apply serve_read in Hs as [-> Hl].
    destruct (Hv l Hl) as (v & Hlv & Hlt). exists v. split; [done|]. split; [done|].
    intros cur Hcur _. congruence.
Qed.

Lemma elem_of_replay_snoc log i e s s' :
  s' ∈ replay (log ++ [(i, e)]) s ↔ ∃ s1, s1 ∈ replay log s ∧ s' ∈ serve s1 e.
Proof.
  revert s. induction log as [|[k e0] log IH]; intros s; cbn [app replay].
  - rewrite list_elem_of_bind. setoid_rewrite list_elem_of_singleton. naive_solver.
  - setoid_rewrite list_elem_of_bind. setoid_rewrite IH. naive_solver.
Qed.

Lemma replay_invariant log s s' :
  versioned s → s' ∈ replay log s → versioned s' ∧ reads_fresh log s'.
Proof.
  intros Hv. revert s'. induction log as [|[i e] log IH] using rev_ind; intros s' Hs.
  - apply list_elem_of_singleton in Hs as ->. split; [done|]. intros i l Hin. by apply elem_of_nil in Hin.
  - apply elem_of_replay_snoc in Hs as (s1 & Hs1 & Hs). destruct (IH s1 Hs1) as [Hv1 Hr1].
    eauto using serve_versioned, serve_reads_fresh.
Qed.

Lemma elem_of_of_replica i e log : e ∈ of_replica i log ↔ (i, e) ∈ log.
Proof.
  unfold of_replica. rewrite list_elem_of_fmap. setoid_rewrite list_elem_of_filter.
  split; [by intros ([j e'] & -> & <- & ?)|]. intros. by exists (i, e).
Qed.

(** ** The renewal deadline, read off a log

    [watch] follows the clock readings: one that follows a successful renewal
    is the new last success, any other must come less than the lease duration
    after the last success ([None] once one does not). *)
Definition watch (d : Time) (st : option (bool * Z)) (e : event (lease_resp (Time := Time)))
  : option (bool * Z) :=
  match st, e with
  | None, _ => None
  | Some (_, last), existT (ReplaceLease _) (Ok _) => Some (true, last)
  | Some (true, _), existT InstantNow t => Some (false, t)
  | Some (false, last), existT InstantNow t =>
      if t - last <? to_std_nanos d then Some (false, last) else None
  | Some st, _ => Some st
  end.

(** The last lease a log read is no longer ours. *)
Definition lost_by (i : string) tr : Prop :=
  ∃ tr' o, tr = tr' ++ [ev GetLease (Ok o)] ∧
           is_some_and (λ l, held_by_us l i) o = false.

Definition deadline_kept (i : string) (d : Time) (last : Z) tr (r : result Z renew_end) : Prop :=
  match r with
  | Ok last' => fold_left (watch d) tr (Some (false, last)) = Some (false, last')
  | Err (MissedDeadline _) => fold_left (watch d) tr (Some (false, last)) = None
  | Err (LostLease _) => lost_by i tr
  end.

Lemma renew_iter_deadline i d q d32 last :
  all_runs (renew_iter i d q d32 last) (deadline_kept i d last).
Proof.
  unfold all_runs, renew_iter, renew_once, deadline_kept.
  run_cases; simplify_eq; cbn; try done.
  all: repeat match goal with
    | H : (_ <=? _) = true |- _ => apply Z.leb_le in H
    | H : (_ <=? _) = false |- _ => apply Z.leb_gt in H
    | |- context [?a <? ?b] => destruct (Z.ltb_spec a b); [|try lia]
    end; try (done || lia).
  all: eexists (_ :: []), _; split; [done|]; cbn; try done.
  all: by apply negb_true_iff.
Qed.

Lemma lost_by_app i tr tr' : lost_by i tr' → lost_by i (tr ++ tr').
Proof. intros (t & o & -> & Ho). exists (tr ++ t), o. by rewrite app_assoc. Qed.
End lemmas.

(** ** What the acquired lease looks like *)
Section claims.
Context `{TimeOps Time}.
Implicit Types (tr : list (event (lease_resp (Time := Time)))).
Implicit Types (log : list (string * event (lease_resp (Time := Time)))).

(** The call that makes replica [i] leave [acquire]: the server's lease names
    [i] once it is served. *)
Definition makes_holder (i : string) (e : event (lease_resp (Time := Time))) : Prop :=
  ∀ s s', s' ∈ serve s e → ∃ l, sv_lease s' = Some l ∧ held_by_us l i = true.

Lemma held_by_us_stamp l v i : held_by_us (stamp l v) i = held_by_us l i.
Proof. done. Qed.

Lemma held_by_us_claim l i d t : held_by_us (claim l i d t) i = true.
Proof. by apply bool_decide_eq_true. Qed.

Lemma write_ok_makes_holder l i s ok s' u :
  held_by_us l i = true → s' ∈ write_results s ok l (Ok u) →
  ∃ l', sv_lease s' = Some l' ∧ held_by_us l' i = true.
Proof. intros Hl Hs. destruct ok; cbn in Hs; [|set_solver]. apply list_elem_of_singleton in Hs as ->. cbn. eauto. Qed.

Lemma acquire_iter_holds name i d q d32 :
  all_runs (acquire_iter name i d q d32)
    (λ tr r, r = Some Acquired → ∃ tr' e, tr = tr' ++ [e] ∧ makes_holder i e).
Proof.
  unfold all_runs, acquire_iter. run_cases; try done; simplify_eq; intros _.
  - exists [], (ev GetLease (Ok (Some l))). split; [done|].
    intros s s' [-> ->]%serve_read. eauto.
  - eexists _, _. split; [reflexivity|]. intros s s'.
    by apply write_ok_makes_holder, held_by_us_claim.
  - eexists _, _. split; [reflexivity|]. intros s s'.
    apply write_ok_makes_holder. by apply bool_decide_eq_true.
Qed.

(** C7. No replica overwrites a lease it did not read.  Replica [i], with its
    configured lease duration [dur], runs its acquire, renew and release
    programs in any order, cut anywhere, while any other clients call the API
    server in between.  If a replacement by [i] takes effect, the lease it
    overwrites is the lease [i] read just before, and what it writes follows
    from it: [i] held it and renews it for its configured duration or releases
    it; or [i] did not hold it, it was vacant or expired at the clock reading
    that followed, and [i] claims it for its configured duration.  A replica
    that lost the lease cannot overwrite the new holder. *)
Theorem replace_is_optimistic dur i log s0 s l' r s' :
  versioned s0 → s ∈ replay log s0 →
  replica_log dur i (of_replica i (log ++ [(i, ev (ReplaceLease l') r)])) →
  s' ∈ serve s (ev (ReplaceLease l') r) → s' ≠ s →
  ∃ l, sv_lease s = Some l ∧ derived dur i (of_replica i log) l l' ∧ s' = store s l'.
Proof.
  intros Hv Hs Hi Hs' Hne.
  destruct (replay_invariant _ _ _ Hv Hs) as [_ Hr].
  apply replica_log_justified in Hi.
  destruct (Hi (of_replica i log) l' r []) as (l & Hd).
  { unfold of_replica. rewrite filter_app, map_app. cbn. by rewrite decide_True. }
  pose proof (derived_read _ _ _ _ _ Hd) as Hl.
  apply elem_of_of_replica in Hl. exists l.
  cbn in Hs'. apply elem_of_write_results in Hs' as [?|[Hm ->]]; [done|].
  split; [|done]. destruct (Hr i l Hl) as (v & Hlv & _ & Hc).
  unfold version_matches in Hm. destruct (sv_lease s) as [cur|]; [|done].
  rewrite (derived_version _ _ _ _ _ Hd), Hlv in Hm. cbn in Hm.
  apply bool_decide_eq_true in Hm. f_equal. by apply Hc.
Qed.

(** [acquire] returns only as the holder: its last call is a read, a
    creation or a replacement after which the lease on the server names this
    replica, whatever was stored before. *)
Theorem acquire_returns_as_holder fuel name i d q :
  all_runs (acquire fuel name i d q)
    (λ tr r, r = Some Acquired → ∃ tr' e, tr = tr' ++ [e] ∧ makes_holder i e).
Proof.
  unfold acquire. destruct (lease_duration_i32 d) as [d32|]; [|done].
  induction fuel as [|fuel IH]; cbn [acquire_loop]; [done|].
  apply all_runs_bind. eapply all_runs_mono; [|apply acquire_iter_holds].
  intros tr [o|] Ho; cbn.
  - intros [= ->]. rewrite app_nil_r. auto.
  - eapply all_runs_mono; [|exact IH]. intros tr' r Hr ->.
    destruct Hr as (t & e & -> & He); [done|]. exists (tr ++ t), e. by rewrite app_assoc.
Qed.

(** The renewal loop never outlives its lease.  While it runs, every
    failed renewal is noticed less than the lease duration after the last
    success; it ends on the first one that is not, or as soon as a read shows
    that the lease is gone or held by another. *)
Theorem renew_loop_deadline fuel i d q d32 last :
  all_runs (renew_loop fuel i d q d32 last) (deadline_kept i d last).
Proof.
  revert last. induction fuel as [|fuel IH]; intros last; cbn [renew_loop]; [done|].
  apply all_runs_bind. eapply all_runs_mono; [|apply renew_iter_deadline].
  intros tr [last'|e] Hr.
  - eapply all_runs_mono; [|apply IH]. intros tr' [t|[]] Ht; cbn in *.
    + by rewrite fold_left_app, Hr.
    + by apply lost_by_app.
    + by rewrite fold_left_app, Hr.
  - cbn. by rewrite app_nil_r.
Qed.

(** A released lease changes hands at once and the hand-over is counted:
    only the holder releases, the lease it leaves is claimable at any time and
    under any fallback duration, and the next claim makes its replica the
    holder and adds one transition (saturating at [i32::MAX]). *)
Theorem release_hands_over l i t l' fallback now j d t' :
  released l i t = Some l' →
  held_by_us l i = true ∧ is_claimable l' fallback now = true ∧
  held_by_us l' i = false ∧ held_by_us (claim l' j d t') j = true ∧
  and_then (lease_spec (claim l' j d t')) lease_transitions =
    Some (saturating_add_i32 (default 0 (and_then (lease_spec l) lease_transitions)) 1).
Proof.
  unfold released. destruct (held_by_us l i) eqn:Hh; [|done]. cbn. intros [= <-].
  split; [done|]. split; [done|]. split; [done|]. split; [apply held_by_us_claim|].
  unfold claim. cbn. by destruct (lease_spec l).
Qed.
End claims.

(** ** Witnesses: replica B takes an expired lease over from A *)
Definition demo_spec (holder : option string) (renewed_at : Z) : LeaseSpec := {|
  holder_identity := holder; lease_duration_seconds := Some 15; acquire_time := Some 0;
  renew_time := Some renewed_at; lease_transitions := Some 1 |}.
Definition demo_lease : Lease := {|
  lease_name := "krabka-operator"; resource_version := Some 7;
  lease_spec := Some (demo_spec (Some "A") 0) |}.
Definition demo_server : server := {| sv_lease := Some demo_lease; sv_next := 8 |}.

Definition demo_env (s : unit) (c : lease_call Z) : unit * lease_resp c :=
  match c return unit * lease_resp c with
  | GetLease => (tt, Ok (Some demo_lease))
  | CreateLease _ | ReplaceLease _ => (tt, Ok tt)
  | Now | InstantNow => (tt, 60000000000)
  | Sleep _ => (tt, tt)
  end.

Definition demo_log : list (string * event (lease_resp (Time := Z))) :=
  [("B", ev GetLease (Ok (Some demo_lease))); ("B", ev Now 60000000000);
   ("B", ev Now 60000000000)].
Definition demo_claim : Lease := claim demo_lease "B" 15 60000000000.

Lemma replace_is_optimistic_witness :
  ∃ l, sv_lease demo_server = Some l ∧
       derived (Time := Z) 15000 "B" (of_replica "B" demo_log) l demo_claim ∧
       store demo_server demo_claim = store demo_server demo_claim.
Proof.
  apply (replace_is_optimistic 15000 "B" demo_log demo_server demo_server demo_claim (Ok tt)).
  - intros cur [= <-]. exists 7. split; [reflexivity|vm_compute; reflexivity].
  - vm_compute. by left.
  - assert (Hlog : of_replica "B" (demo_log ++ [("B", ev (ReplaceLease demo_claim) (Ok tt))]) =
      [] ++ (exec demo_env (acquire 1 "krabka-operator" "B" 15000 2000) tt).1.2)
      by (vm_compute; reflexivity).
    rewrite Hlog. apply rl_acquire, rl_nil.
  - vm_compute. by left.
  - discriminate.
Defined.

Lemma release_hands_over_witness :
  held_by_us demo_lease "A" = true ∧
  is_claimable (with_spec demo_lease {| holder_identity := None; lease_duration_seconds := Some 1;
    acquire_time := Some 5; renew_time := Some 5; lease_transitions := Some 1 |}) 15000 6 = true ∧
  held_by_us (with_spec demo_lease {| holder_identity := None; lease_duration_seconds := Some 1;
    acquire_time := Some 5; renew_time := Some 5; lease_transitions := Some 1 |}) "A" = false ∧
  held_by_us (claim (with_spec demo_lease {| holder_identity := None; lease_duration_seconds := Some 1;
    acquire_time := Some 5; renew_time := Some 5; lease_transitions := Some 1 |}) "B" 15 6) "B" = true ∧
  and_then (lease_spec (claim (with_spec demo_lease {| holder_identity := None;
    lease_duration_seconds := Some 1; acquire_time := Some 5; renew_time := Some 5;
    lease_transitions := Some 1 |}) "B" 15 6)) lease_transitions =
    Some (saturating_add_i32 (default 0 (and_then (lease_spec demo_lease) lease_transitions)) 1).
Proof. apply (release_hands_over demo_lease "A" 5). vm_compute. reflexivity. Defined.
