(* ===== verification/Utf8.v ===== *)
(** * Concatenating and cutting valid UTF-8

    A Rust [String] is valid UTF-8 by its type; here that is a fact to prove of
    the byte strings the code concatenates and slices before a Secret value is
    read back through [from_utf8]. *)

From S2P Require Import Prelude RustStd.
Local Open Scope Z_scope.

Definition valid_utf8 (s : string) : Prop := utf8_scan 0 0 s = None.

Lemma from_utf8_valid s : valid_utf8 s → from_utf8 s = Ok s.
Proof. unfold valid_utf8, from_utf8. by intros ->. Qed.

Lemma valid_utf8_from s t : from_utf8 s = Ok t → valid_utf8 t ∧ t = s.
Proof. unfold valid_utf8, from_utf8. destruct (utf8_scan 0 0 s) eqn:E; [done|]. by intros [= <-]. Qed.

(** The index only appears in the error text. *)
Lemma utf8_scan_idx k i j s : utf8_scan k i s = None → utf8_scan k j s = None.
Proof.
  revert k i j. induction s as [|c s IH]; intros k i j; [done|]. cbn.
  destruct k; [|apply IH]. destruct (utf8_first c s); [apply IH|done|done].
Qed.

Definition is_ascii (c : ascii) : bool := code c <=? 127.
Definition ascii_start (s : string) : Prop :=
  match s with EmptyString => True | String c _ => is_ascii c = true end.

(** ** The bytes after the first one *)
Notation utf8_go := (fix go (i : nat) (s : string) (ranges : list (Z * Z)) : utf8_step :=
     match ranges, s with
     | [], _ => Utf8Char i
     | _, EmptyString => Utf8Incomplete
     | (lo, hi) :: ranges, String c s =>
         if continuation lo hi c then go (S i) s ranges else Utf8Invalid i
     end).

Lemma utf8_go_app i s t ranges w :
  utf8_go i s ranges = Utf8Char w →
  utf8_go i (s +:+ t) ranges = Utf8Char w ∧ (w ≤ i + String.length s)%nat ∧ (i ≤ w)%nat.
Proof.
  revert i s. induction ranges as [|[lo hi] ranges IH]; intros i s.
  - destruct s; cbn; intros [= <-]; (split; [by destruct t|lia]).
  - destruct s as [|c s]; [done|]. rewrite str_app_cons. cbn.
    destruct (continuation lo hi c); [|done]. intros [? Hw]%IH. split; [done|lia].
Qed.

Lemma utf8_go_cut i s t ranges w :
  Forall (λ r, 128 ≤ r.1) ranges → ascii_start t →
  utf8_go i (s +:+ t) ranges = Utf8Char w → utf8_go i s ranges = Utf8Char w.
Proof.
  intros Hr Ht. revert i s. induction Hr as [|[lo hi] ranges Hlo Hr IH]; intros i s.
  - destruct s; [rewrite str_app_nil_l; by destruct t|done].
  - destruct s as [|c s].
    + rewrite str_app_nil_l. destruct t as [|c t]; [done|]. cbn in *.
      unfold continuation, is_ascii in *. destruct (Z.leb_spec lo (code c)); cbn; [lia|done].
    + rewrite str_app_cons. cbn. destruct (continuation lo hi c); [apply IH|done].
Qed.

Ltac utf8_first_cases :=
  unfold utf8_first, utf8_tail;
  repeat match goal with |- context [if ?b then _ else _] => destruct b end.

Lemma utf8_first_app c s t w :
  utf8_first c s = Utf8Char w →
  utf8_first c (s +:+ t) = Utf8Char w ∧ (pred w ≤ String.length s)%nat.
Proof.
  utf8_first_cases; intros H;
    try (by injection H as <-; split; [done|cbn; lia]); try discriminate H.
  all: apply (utf8_go_app 1 s t) in H as (? & ? & ?); (split; [done|lia]).
Qed.

Lemma utf8_first_cut c s t w :
  ascii_start t → utf8_first c (s +:+ t) = Utf8Char w → utf8_first c s = Utf8Char w.
Proof.
  intros Ht. utf8_first_cases; try done.
  all: apply utf8_go_cut; [|done]; repeat (apply Forall_cons; split; [cbn; lia|]); by apply Forall_nil.
Qed.

(** ** Scans *)
Lemma utf8_scan_app k s t :
  (k ≤ String.length s)%nat → utf8_scan k 0 s = None → valid_utf8 t →
  utf8_scan k 0 (s +:+ t) = None.
Proof.
  intros Hk Hs Ht. revert k Hk Hs. induction s as [|c s IH]; intros k Hk Hs.
  - by replace k with O by (cbn in Hk; lia).
  - rewrite str_app_cons. cbn in *. destruct k as [|k].
    + destruct (utf8_first c s) as [w| |] eqn:E; [|done..].
      apply (utf8_first_app _ _ t) in E as [-> Hw].
      apply (utf8_scan_idx _ 0). apply IH; [done|]. by apply (utf8_scan_idx _ (0 + 1)).
    + apply (utf8_scan_idx _ 0). apply IH; [lia|]. by apply (utf8_scan_idx _ (0 + 1)).
Qed.

Lemma utf8_scan_cut k s t :
  ascii_start t → (k ≤ String.length s)%nat → utf8_scan k 0 (s +:+ t) = None →
  utf8_scan k 0 s = None ∧ valid_utf8 t.
Proof.
  intros Ht. revert k. induction s as [|c s IH]; intros k Hk Hs.
  - replace k with O in * by (cbn in Hk; lia). done.
  - rewrite str_app_cons in Hs. cbn in *. destruct k as [|k].
    + destruct (utf8_first c (s +:+ t)) as [w| |] eqn:E; [|done..].
      apply utf8_first_cut in E; [|done]. rewrite E.
      destruct (utf8_first_app _ _ t _ E) as [_ Hw].
      destruct (IH (pred w) Hw) as [H1 H2]; [by apply (utf8_scan_idx _ (0 + 1))|].
      split; [by apply (utf8_scan_idx _ 0)|done].
    + destruct (IH k) as [H1 H2]; [lia|by apply (utf8_scan_idx _ (0 + 1))|].
      split; [by apply (utf8_scan_idx _ 0)|done].
Qed.

Lemma valid_utf8_app s t : valid_utf8 s → valid_utf8 t → valid_utf8 (s +:+ t).
Proof. intros. apply utf8_scan_app; [lia|done..]. Qed.

Lemma valid_utf8_cut s t :
  ascii_start t → valid_utf8 (s +:+ t) → valid_utf8 s ∧ valid_utf8 t.
Proof. intros. apply utf8_scan_cut; [done|lia|done]. Qed.

(** A slice that starts and ends at an ASCII character. *)
Lemma valid_utf8_slice a s c t :
  is_ascii c = true → ascii_start (s +:+ String c t) →
  valid_utf8 (a +:+ s +:+ String c t) → valid_utf8 (s +:+ String c "").
Proof.
  intros Hc Hs Hv. apply valid_utf8_cut in Hv as [_ Hv]; [|done].
  apply valid_utf8_cut in Hv as [Hv _]; [|done].
  apply valid_utf8_app; [done|]. unfold valid_utf8. cbn.
  unfold utf8_first. unfold is_ascii in Hc. by rewrite Hc.
Qed.

Lemma valid_utf8_concat l : Forall valid_utf8 l → valid_utf8 (concat_str l).
Proof. induction 1; [done|]. by apply valid_utf8_app. Qed.

(** An ASCII string. *)
Lemma valid_utf8_ascii s : str_all is_ascii s = true → valid_utf8 s.
Proof.
  induction s as [|c s IH]; [done|]. cbn. intros [Hc Hs]%andb_true_iff.
  unfold valid_utf8. cbn. unfold utf8_first. unfold is_ascii in Hc. rewrite Hc.
  cbn. apply (utf8_scan_idx _ 0). by apply IH.
Qed.

#[export] Hint Resolve valid_utf8_app valid_utf8_concat : utf8.

(** ** ASCII texts are valid *)
Lemma ascii_utf8 s : str_all is_ascii s = true → valid_utf8 s.
Proof.
  unfold valid_utf8. generalize 0%Z at 1. induction s as [|c s IH]; intros i; [done|]. cbn.
  intros [Hc Hs]%andb_true_iff. unfold is_ascii in Hc. unfold utf8_first.
  rewrite Hc. by apply IH.
Qed.

Lemma display_Z_utf8 z : 0 ≤ z → valid_utf8 (display_Z z).
Proof.
  intros Hz. apply ascii_utf8. eapply str_all_impl; [|by apply display_Z_digits]. intros c.
  unfold is_ascii_digit, is_ascii. rewrite andb_true_iff, !Z.leb_le. lia.
Qed.
