(* ===== verification/CaBundle.v ===== *)
(** * Trust bundles (src/controller/cluster_ca.rs, the pure helpers)

    A CA's trust bundle is the concatenation of PEM certificate blocks, the
    signing certificate first.  [split_pem_certs] and [join_bundle] convert
    between the Secret value and the list of blocks; [dedup_blocks] and
    [prune_expired] edit the list.  Parsing a certificate is done by the rustls
    and x509 crates: the interface [X509] names what the code calls. *)

From S2P Require Import Prelude RustStd Utf8 Kube.
Local Open Scope Z_scope.

(** Instants ([OffsetDateTime]) are nanoseconds since the epoch. *)
Class X509 : Type := {
  first_der : string → option (result string string);   (* pem_slice_iter().next() *)
  der_not_after : string → result Z string;             (* from_der, validity().not_after *)
  from_unix_timestamp : Z → result Z string;
  rfc3339 : Z → result string string;                   (* format(&Rfc3339) *)
}.

Definition BEGIN_CERT : string := "-----BEGIN CERTIFICATE-----".
Definition END_CERT : string := "-----END CERTIFICATE-----".
Definition nl : string := bytes [10]%nat.

(** The loop of [split_pem_certs]; [fuel] bounds the rounds, each of which
    consumes at least one block. *)
Fixpoint split_blocks (fuel : nat) (rest : string) : list string :=
  match fuel with
  | O => []
  | S fuel =>
      match split_once_str BEGIN_CERT rest with
      | None => []
      | Some (_, r) =>
          let after := BEGIN_CERT +:+ r in
          match split_once_str END_CERT after with
          | None => []
          | Some (l, rest) => (trim (l +:+ END_CERT) +:+ nl) :: split_blocks fuel rest
          end
      end
  end.

Definition split_pem_certs (bundle : string) : list string :=
  split_blocks (S (String.length bundle)) bundle.

Definition join_bundle (blocks : list string) : string := concat_str blocks.

Definition dedup_blocks (blocks : list string) : list string :=
  (fix go (seen : list string) (blocks : list string) : list string :=
     match blocks with
     | [] => []
     | b :: blocks => if bool_decide (b ∈ seen) then go seen blocks else b :: go (b :: seen) blocks
     end) [] blocks.

Definition normalize_block (cert_pem : string) : string :=
  match head (split_pem_certs cert_pem) with
  | Some b => b
  | None => trim cert_pem +:+ nl
  end.

Section x509.
Context `{X509}.

Definition cert_not_after (pem : string) : result Z ReconcileError :=
  let? der := ok_or (first_der pem) (CertParse "no PEM block") in
  let? der := map_err CertParse der in
  let? ts := map_err CertParse (der_not_after der) in
  map_err CertParse (from_unix_timestamp ts).

(** [cert_not_after(b).map_or(true, |na| na > now)] *)
Definition unexpired (now : Z) (b : string) : bool :=
  match cert_not_after b with Ok na => now <? na | Err _ => true end.

Definition prune_expired (blocks : list string) (now : Z) : list string :=
  map snd (List.filter (λ '(i, b), (i =? 0)%nat || unexpired now b) (imap pair blocks)).

Definition renew_if_expiring `{TimeOps Time} (cert_pem : string) (renewal : Time) (now : Z)
  : result bool ReconcileError :=
  let? not_after := cert_not_after cert_pem in
  Ok (time_leb (from_span_nanos (not_after - now)) renewal).
End x509.

Definition whole_days `{TimeOps Time} (extent : Time) : Z :=
  let value := round_days extent in
  if value <=? 0 then 0 else default u32_max (checked 0 u32_max value).

(** ** Blocks *)

(** One certificate block: it starts with the BEGIN line, the END line occurs
    once, at its end, and a newline follows. *)
Definition is_block (b : string) : Prop :=
  ∃ l, b = (l +:+ END_CERT) +:+ nl ∧ starts_with BEGIN_CERT (l +:+ END_CERT) = true ∧
       split_once_str END_CERT (l +:+ END_CERT) = Some (l, "").

(** ** Lemmas *)

Lemma strip_prefix_short p s t q :
  strip_prefix p (s +:+ t) = Some q → (String.length p ≤ String.length s)%nat →
  is_Some (strip_prefix p s).
Proof.
  revert s. induction p as [|a p IH]; intros s; cbn; [eauto|].
  destruct s as [|b s]; cbn; [lia|]. rewrite str_app_cons. cbn.
  destruct (Ascii.eqb a b); [|done]. intros Hp Hl. apply (IH s); [done|lia].
Qed.

(** The first occurrence stays the first when more text follows. *)
Lemma split_once_str_app sep s t l r :
  split_once_str sep s = Some (l, r) → split_once_str sep (s +:+ t) = Some (l, r +:+ t).
Proof.
  revert l. induction s as [|a s IH]; intros l; cbn [split_once_str].
  - destruct (strip_prefix sep "") as [r'|] eqn:E; [|done]. intros [= <- <-].
    apply strip_prefix_Some in E. destruct sep; [|done]. rewrite str_app_nil_l in E. subst r'.
    rewrite !str_app_nil_l. by destruct t.
  - rewrite str_app_cons. cbn [split_once_str].
    destruct (strip_prefix sep (String a s)) as [r'|] eqn:E.
    + intros [= <- <-]. apply strip_prefix_Some in E.
      by rewrite <- str_app_cons, E, <- str_app_assoc, strip_prefix_app.
    + intros Hs. apply fmap_Some in Hs as ([l' r'] & Hs & [= -> ->]).
      destruct (strip_prefix sep (String a (s +:+ t))) as [q|] eqn:E'; [|by rewrite (IH l' Hs)].
      rewrite <- str_app_cons in E'. apply strip_prefix_short in E' as [? E']; [congruence|].
      apply split_once_str_Some in Hs as ->. cbn. rewrite !str_length_app. lia.
Qed.

(** ** Trimming *)
(** Text that starts and ends with a dash is not trimmed. *)
Lemma trim_dashes s : last_char (String "-" s) = Some "-"%char →
  trim (String "-" s) = String "-" s.
Proof.
  intros Hl. unfold trim.
  assert (trim_start (String "-" s) = String "-" s) as -> by (by vm_compute).
  unfold trim_end. cbn [strip_while String.length].
  assert (first_some (λ w, strip_suffix w (String "-" s)) white_space = None) as ->; [|done].
  unfold white_space. cbn [app map first_some bytes foldr].
  by repeat (rewrite strip_suffix_last; [|rewrite Hl; vm_compute; congruence]).
Qed.

(** ** Splitting and joining *)
Lemma strip_prefix_extend p s t q :
  strip_prefix p s = Some q → strip_prefix p (s +:+ t) = Some (q +:+ t).
Proof. rewrite strip_prefix_Some. intros ->. by rewrite <- str_app_assoc, strip_prefix_app. Qed.

(** The first occurrence of [sep] ends where it ends, whatever follows. *)
Lemma split_once_str_cut sep l t :
  split_once_str sep ((l +:+ sep) +:+ t) = Some (l, t) →
  split_once_str sep (l +:+ sep) = Some (l, "").
Proof.
  induction l as [|a l IH]; intros Hs.
  - rewrite str_app_nil_l. assert (strip_prefix sep sep = Some "") as Hp.
    { rewrite <- (str_app_nil_r sep) at 2. apply strip_prefix_app. }
    destruct sep; cbn [split_once_str]; by rewrite Hp.
  - rewrite !str_app_cons in Hs. rewrite str_app_cons. cbn [split_once_str] in *.
    destruct (strip_prefix sep (String a (l +:+ sep))) as [q|] eqn:E.
    + apply (strip_prefix_extend _ _ t) in E. rewrite str_app_cons in E.
      rewrite E in Hs. by injection Hs.
    + destruct (strip_prefix sep (String a ((l +:+ sep) +:+ t))); [by injection Hs|].
      apply fmap_Some in Hs as ([l' r'] & Hs & [= -> ->]). by rewrite (IH Hs).
Qed.

Lemma trim_block l : starts_with BEGIN_CERT (l +:+ END_CERT) = true →
  trim (l +:+ END_CERT) = l +:+ END_CERT.
Proof.
  intros Hb. apply opt_is_some_true in Hb as [r Hr].
  apply strip_prefix_Some in Hr as Hx. pose proof (last_char_app l "-" "----END CERTIFICATE-----") as Hl.
  fold END_CERT in Hl. change (BEGIN_CERT +:+ r) with (String "-" ("----BEGIN CERTIFICATE-----" +:+ r)) in Hx.
  rewrite Hx in *. apply trim_dashes. by rewrite Hl.
Qed.

(** What one round of the loop cuts out. *)
Lemma split_round r l rest :
  split_once_str END_CERT (BEGIN_CERT +:+ r) = Some (l, rest) →
  BEGIN_CERT +:+ r = (l +:+ END_CERT) +:+ rest ∧
  starts_with BEGIN_CERT (l +:+ END_CERT) = true ∧
  split_once_str END_CERT (l +:+ END_CERT) = Some (l, "") ∧
  trim (l +:+ END_CERT) = l +:+ END_CERT.
Proof.
  intros Hs. pose proof (split_once_str_Some _ _ _ _ Hs) as Hx.
  rewrite str_app_assoc in Hx. split; [done|].
  assert (starts_with BEGIN_CERT (l +:+ END_CERT) = true) as Hb.
  { apply opt_is_some_true, (strip_prefix_short _ _ rest r).
    - rewrite <- Hx. apply strip_prefix_app.
    - destruct l as [|a [|b l]]; [| |rewrite str_length_app; cbn; lia].
      + by rewrite str_app_nil_l in Hx.
      + by rewrite !str_app_cons in Hx. }
  split; [done|]. split; [|by apply trim_block].
  rewrite Hx in Hs. by apply split_once_str_cut in Hs.
Qed.

Lemma split_blocks_are_blocks fuel s : Forall is_block (split_blocks fuel s).
Proof.
  revert s. induction fuel as [|fuel IH]; intros s; cbn [split_blocks]; [done|].
  destruct (split_once_str BEGIN_CERT s) as [[p r]|]; [|done].
  destruct (split_once_str END_CERT (BEGIN_CERT +:+ r)) as [[l rest]|] eqn:E; [|done].
  constructor; [|apply IH]. apply split_round in E as (_ & ? & ? & ->). by exists l.
Qed.

Lemma split_blocks_shorter s p r l rest :
  split_once_str BEGIN_CERT s = Some (p, r) →
  split_once_str END_CERT (BEGIN_CERT +:+ r) = Some (l, rest) →
  (String.length rest < String.length s)%nat.
Proof.
  intros Hb He. apply split_once_str_Some in Hb as ->.
  apply split_round in He as (Hx & _). apply (f_equal String.length) in Hx.
  rewrite !str_length_app in *. cbn in *. lia.
Qed.

(** The fuel of [split_pem_certs] is enough: more changes nothing. *)
Lemma split_blocks_fuel f1 f2 s :
  (String.length s < f1)%nat → (String.length s < f2)%nat → split_blocks f1 s = split_blocks f2 s.
Proof.
  revert f2 s. induction f1 as [|f1 IH]; intros f2 s H1 H2; [lia|].
  destruct f2 as [|f2]; [lia|]. cbn [split_blocks].
  destruct (split_once_str BEGIN_CERT s) as [[p r]|] eqn:Hb; [|done].
  destruct (split_once_str END_CERT (BEGIN_CERT +:+ r)) as [[l rest]|] eqn:He; [|done].
  f_equal. pose proof (split_blocks_shorter _ _ _ _ _ Hb He). apply IH; lia.
Qed.

Lemma split_blocks_nl fuel s : split_blocks fuel (nl +:+ s) = split_blocks fuel s.
Proof.
  destruct fuel as [|fuel]; [done|]. cbn [split_blocks].
  change (nl +:+ s) with (String (ascii_of_nat 10) s). cbn [split_once_str].
  change (strip_prefix BEGIN_CERT (String (ascii_of_nat 10) s)) with (@None string). cbv iota.
  by destruct (split_once_str BEGIN_CERT s) as [[]|].
Qed.

Lemma split_blocks_block fuel b s :
  is_block b → split_blocks (S fuel) (b +:+ s) = b :: split_blocks fuel s.
Proof.
  intros (l & -> & Hb & He). cbn [split_blocks].
  apply opt_is_some_true in Hb as [r Hr].
  pose proof Hr as Hx. apply strip_prefix_Some in Hx.
  assert (split_once_str BEGIN_CERT (((l +:+ END_CERT) +:+ nl) +:+ s) = Some ("", r +:+ nl +:+ s)) as ->.
  { rewrite Hx, <- !str_app_assoc. destruct r; done. }
  rewrite str_app_assoc, <- Hx, (split_once_str_app _ _ _ _ _ He), str_app_nil_l.
  rewrite trim_block by (apply opt_is_some_true; eauto). by rewrite split_blocks_nl.
Qed.

Lemma split_join_gen bs fuel :
  Forall is_block bs → (length bs < fuel)%nat → split_blocks fuel (join_bundle bs) = bs.
Proof.
  intros Hbs. revert fuel. induction Hbs as [|b bs Hb Hbs IH]; intros fuel Hf.
  - by destruct fuel.
  - destruct fuel as [|fuel]; [lia|]. cbn [length] in Hf.
    change (join_bundle (b :: bs)) with (b +:+ join_bundle bs).
    rewrite split_blocks_block by done. rewrite IH; [done|lia].
Qed.

Lemma block_length b : is_block b → (1 ≤ String.length b)%nat.
Proof. intros (l & -> & _). rewrite !str_length_app. cbn. lia. Qed.

Lemma join_bundle_length bs : Forall is_block bs → (length bs ≤ String.length (join_bundle bs))%nat.
Proof.
  induction 1 as [|b bs Hb Hbs IH]; [done|].
  change (join_bundle (b :: bs)) with (b +:+ join_bundle bs).
  rewrite str_length_app. apply block_length in Hb. cbn. lia.
Qed.

Lemma split_pem_certs_join bs : Forall is_block bs → split_pem_certs (join_bundle bs) = bs.
Proof. intros Hbs. apply split_join_gen; [done|]. pose proof (join_bundle_length _ Hbs). lia. Qed.

Lemma split_pem_certs_blocks s : Forall is_block (split_pem_certs s).
Proof. apply split_blocks_are_blocks. Qed.

(** ** Editing the list of blocks *)
Notation dedup_go := (fix go (seen : list string) (blocks : list string) : list string :=
     match blocks with
     | [] => []
     | b :: blocks => if bool_decide (b ∈ seen) then go seen blocks else b :: go (b :: seen) blocks
     end).

Lemma elem_of_dedup_go seen l x : x ∈ dedup_go seen l ↔ x ∈ l ∧ x ∉ seen.
Proof.
  revert seen. induction l as [|b l IH]; intros seen; cbn; [set_solver|].
  case_bool_decide; [rewrite IH; set_solver|].
  rewrite elem_of_cons, IH. destruct (decide (x = b)); set_solver.
Qed.

Lemma elem_of_dedup_blocks l x : x ∈ dedup_blocks l ↔ x ∈ l.
Proof. unfold dedup_blocks. rewrite elem_of_dedup_go. set_solver. Qed.

Lemma NoDup_dedup_blocks l : NoDup (dedup_blocks l).
Proof.
  unfold dedup_blocks. generalize (@nil string) at 2. induction l as [|b l IH]; intros seen; cbn.
  - constructor.
  - case_bool_decide; [apply IH|]. constructor; [|apply IH].
    rewrite elem_of_dedup_go. set_solver.
Qed.

Lemma dedup_blocks_cons b l : ∃ l', dedup_blocks (b :: l) = b :: l'.
Proof. unfold dedup_blocks. cbn. eauto. Qed.

Lemma Forall_dedup_blocks P l : Forall P l → Forall P (dedup_blocks l).
Proof. rewrite !Forall_forall. intros HP x Hx. apply HP. by apply elem_of_dedup_blocks. Qed.

Section pruning.
Context `{X509}.

Lemma prune_expired_cons b bs now :
  prune_expired (b :: bs) now = b :: List.filter (unexpired now) bs.
Proof.
  unfold prune_expired. rewrite imap_cons. cbn. f_equal.
  assert (∀ k, map snd (List.filter (λ '(i, b), (i =? 0)%nat || unexpired now b)
    (imap (λ i x, (S (k + i), x)) bs)) = List.filter (unexpired now) bs) as Hgo; [|apply (Hgo O)].
  induction bs as [|c bs IH]; intros k; [done|]. rewrite imap_cons. cbn.
  destruct (unexpired now c) eqn:E; cbn; rewrite ?E; [f_equal|];
    rewrite <- (IH (S k)); do 2 f_equal; apply imap_ext; intros; cbn; do 2 f_equal; lia.
Qed.

(** A block goes away only if it is expired; the first one never does. *)
Lemma elem_of_prune_expired bs now x :
  x ∈ prune_expired bs now → x ∈ bs.
Proof.
  destruct bs as [|b bs]; [done|]. rewrite prune_expired_cons, !elem_of_cons.
  rewrite elem_of_List_filter. naive_solver.
Qed.

Lemma prune_expired_keeps bs now x :
  x ∈ bs → unexpired now x = true → x ∈ prune_expired bs now.
Proof.
  destruct bs as [|b bs]; [done|]. rewrite prune_expired_cons, !elem_of_cons.
  rewrite elem_of_List_filter. naive_solver.
Qed.

Lemma prune_expired_head bs now : head (prune_expired bs now) = head bs.
Proof. destruct bs; [done|]. by rewrite prune_expired_cons. Qed.

Lemma Forall_prune_expired P bs now : Forall P bs → Forall P (prune_expired bs now).
Proof. rewrite !Forall_forall. intros HP x Hx. eapply HP, elem_of_prune_expired, Hx. Qed.
End pruning.

(** ** Normalized certificates *)
Definition has_cert (pem : string) : Prop := split_pem_certs pem ≠ [].

Lemma normalize_block_is_block pem : has_cert pem → is_block (normalize_block pem).
Proof.
  unfold has_cert. intros Hc. unfold normalize_block. pose proof (split_pem_certs_blocks pem) as Hb.
  destruct (split_pem_certs pem); [done|]. by apply Forall_cons in Hb as [].
Qed.

Lemma split_pem_certs_block b : is_block b → split_pem_certs b = [b].
Proof.
  intros Hb. replace b with (join_bundle [b]) at 1 by (cbn; apply str_app_nil_r).
  apply split_pem_certs_join. by repeat constructor.
Qed.

Lemma normalize_block_idem b : is_block b → normalize_block b = b.
Proof. intros Hb. unfold normalize_block. by rewrite split_pem_certs_block. Qed.

(** ** The blocks of a UTF-8 bundle are UTF-8 *)
Lemma ascii_start_begin r : ascii_start (BEGIN_CERT +:+ r).
Proof. done. Qed.

Lemma split_blocks_valid fuel s : valid_utf8 s → Forall valid_utf8 (split_blocks fuel s).
Proof.
  revert s. induction fuel as [|fuel IH]; intros s Hs; cbn [split_blocks]; [done|].
  destruct (split_once_str BEGIN_CERT s) as [[p r]|] eqn:Hb; [|done].
  destruct (split_once_str END_CERT (BEGIN_CERT +:+ r)) as [[l rest]|] eqn:He; [|done].
  apply split_once_str_Some in Hb as ->. apply split_round in He as (Hx & Hb & _ & ->).
  rewrite Hx in Hs.
  assert (ascii_start ((l +:+ END_CERT) +:+ rest)) as Ha by (rewrite <- Hx; done).
  change END_CERT with ("-----END CERTIFICATE----" +:+ "-") in *.
  rewrite (str_app_assoc l) in *. set (x := l +:+ "-----END CERTIFICATE----") in *.
  rewrite <- (str_app_assoc x "-" rest) in *.
  assert (valid_utf8 (x +:+ "-")) as Hv by (eapply (valid_utf8_slice p x "-" rest); done).
  constructor; [by apply valid_utf8_app|]. apply IH.
  apply valid_utf8_cut in Hs as [_ Hs]; [|done].
  apply valid_utf8_cut in Hs as [_ Hs]; [|done].
  unfold valid_utf8 in *. cbn in Hs. by apply (utf8_scan_idx _ (0 + 1)).
Qed.

Lemma split_pem_certs_valid s : valid_utf8 s → Forall valid_utf8 (split_pem_certs s).
Proof. apply split_blocks_valid. Qed.

Lemma normalize_block_valid pem : has_cert pem → valid_utf8 pem → valid_utf8 (normalize_block pem).
Proof.
  unfold has_cert. intros Hc Hv. unfold normalize_block. pose proof (split_pem_certs_valid pem Hv) as Hb.
  destruct (split_pem_certs pem); [done|]. by apply Forall_cons in Hb as [].
Qed.

(** Nothing is lost between passes: a trust bundle made of certificate
    blocks reads back from the Secret as the same list of blocks, in order;
    and whatever text is stored, what is read is made of blocks, so that
    writing it again and reading it once more changes nothing. *)
Theorem bundle_roundtrip bs s :
  Forall is_block bs →
  split_pem_certs (join_bundle bs) = bs ∧
  split_pem_certs (join_bundle (split_pem_certs s)) = split_pem_certs s.
Proof.
  split; [by apply split_pem_certs_join|].
  apply split_pem_certs_join, split_pem_certs_blocks.
Qed.

Definition demo_block (body : string) : string :=
  BEGIN_CERT +:+ nl +:+ body +:+ nl +:+ END_CERT +:+ nl.

Lemma bundle_roundtrip_witness :
  split_pem_certs (join_bundle [demo_block "AAAA"; demo_block "BBBB"]) =
    [demo_block "AAAA"; demo_block "BBBB"] ∧
  split_pem_certs (join_bundle (split_pem_certs ("junk" +:+ demo_block "AAAA"))) =
    split_pem_certs ("junk" +:+ demo_block "AAAA").
Proof.
  apply bundle_roundtrip. constructor; [|constructor; [|constructor]].
  - exists (BEGIN_CERT +:+ nl +:+ "AAAA" +:+ nl). vm_compute. done.
  - exists (BEGIN_CERT +:+ nl +:+ "BBBB" +:+ nl). vm_compute. done.
Defined.
