(* ===== verification/ClusterCa.v ===== *)
(** * Rotation of the cluster CA and the clients CA (src/controller/cluster_ca.rs)

    The pure planner [plan_ca_rotation], the pass [reconcile_ca] that creates,
    reuses and rotates one CA over its two Secrets, and the marker
    [mark_leafs_reissued].  Certificates and keys are generated by the
    krabka-security crate: those calls, like the Secret API, are calls of the
    pass.  The second half states what the API server does with an applied
    Secret and proves the rotation safe at every point where a pass can be cut. *)

From S2P Require Import Prelude RustStd Utf8 Effects Kube CaBundle.
Local Open Scope Z_scope.

Definition ANN_CERT_GENERATION : string := "krabka.io/ca-cert-generation".
Definition ANN_KEY_GENERATION : string := "krabka.io/ca-key-generation".
Definition ANN_LEAFS_KEY_GENERATION : string := "krabka.io/ca-leafs-key-generation".
Definition ANN_ROTATION_PHASE : string := "krabka.io/ca-rotation-phase".
Definition NEXT_KEY : string := "ca.key.next".
Definition NEXT_CERT : string := "ca.crt.next".

Definition cluster_ca_key_name (cluster : string) : string := cluster +:+ "-cluster-ca".
Definition cluster_ca_cert_name (cluster : string) : string := cluster +:+ "-cluster-ca-cert".
Definition clients_ca_key_name (cluster : string) : string := cluster +:+ "-clients-ca".
Definition clients_ca_cert_name (cluster : string) : string := cluster +:+ "-clients-ca-cert".

Inductive CaPhase : Type := Idle | KeyReplaceTrust | KeyReplacePromote.

Definition as_str (p : CaPhase) : string :=
  match p with
  | Idle => "idle"
  | KeyReplaceTrust => "key-replace-trust"
  | KeyReplacePromote => "key-replace-promote"
  end.

Definition parse_phase (s : string) : CaPhase :=
  if str_eqb s "idle" then Idle
  else if str_eqb s "key-replace-trust" then KeyReplaceTrust
  else if str_eqb s "key-replace-promote" then KeyReplacePromote
  else Idle.

Inductive WhichCa : Type := Cluster | Clients.

Definition cn_suffix (w : WhichCa) : string :=
  match w with Cluster => "-cluster-ca" | Clients => "-clients-ca" end.
Definition condition_name (w : WhichCa) : string :=
  match w with Cluster => "ClusterCaReady" | Clients => "ClientsCaReady" end.

(** [CertGeneration] and [KeyGeneration] are [u64]; [+= 1] wraps in a release
    build. *)
Definition next_generation (g : Z) : Z := (g + 1) mod (u64_max + 1).

Record CaState : Type := {
  bundle : list string;
  key_pem : string;
  pending_key_pem : option string;
  pending_cert_pem : option string;
  cert_generation : Z;
  key_generation : Z;
  leafs_key_generation : option Z;
  phase : CaPhase;
}.

Inductive ForceRotation : Type := ForceNone | RenewCertificate | ReplaceKey | RenewAndReplaceKey.

Definition renews_certificate (f : ForceRotation) : bool :=
  match f with RenewCertificate | RenewAndReplaceKey => true | _ => false end.
Definition replaces_key (f : ForceRotation) : bool :=
  match f with ReplaceKey | RenewAndReplaceKey => true | _ => false end.

Record RotationInputs (Time : Type) : Type := {
  generate : bool;
  validity : Time;
  renewal : Time;
  force : ForceRotation;
  rollout_converged : bool;
  now : Z;
  which : WhichCa;
}.
Arguments generate {Time} _.
Arguments validity {Time} _.
Arguments renewal {Time} _.
Arguments force {Time} _.
Arguments rollout_converged {Time} _.
Arguments now {Time} _.
Arguments which {Time} _.

Inductive RefuseReason : Type := Byo.

Inductive CaRotationPlan : Type :=
  | NoOp
  | RenewCertSameKey
  | StartKeyReplace
  | PromoteNewKey
  | PruneOldTrust
  | Refuse (reason : RefuseReason).

#[global] Instance CaPhase_eq_dec : EqDecision CaPhase.
Proof. solve_decision. Defined.
#[global] Instance WhichCa_eq_dec : EqDecision WhichCa.
Proof. solve_decision. Defined.
#[global] Instance RefuseReason_eq_dec : EqDecision RefuseReason.
Proof. solve_decision. Defined.
#[global] Instance CaRotationPlan_eq_dec : EqDecision CaRotationPlan.
Proof. solve_decision. Defined.

(** ** Reading the Secret pair *)
Definition read_optional_generation (s : secret) (ann : string) : option Z :=
  and_then (annotation (sec_meta s) ann) parse_u64.
Definition read_generation (s : secret) (ann : string) : Z :=
  default 0 (read_optional_generation s ann).
Definition read_phase (cert_secret : secret) : CaPhase :=
  match annotation (sec_meta cert_secret) ANN_ROTATION_PHASE with
  | None => Idle
  | Some v => parse_phase v
  end.

(** The state of [reconcile_ca]'s reuse path, with the stored bundle text. *)
Definition read_ca_state (k c : secret) : option (CaState * string) :=
  match read_pem_key k "ca.key", read_pem_key c "ca.crt" with
  | Some key, Some bundle_pem =>
      Some ({| bundle := split_pem_certs bundle_pem;
               key_pem := key;
               pending_key_pem := read_pem_key k NEXT_KEY;
               pending_cert_pem := read_pem_key k NEXT_CERT;
               cert_generation := read_generation c ANN_CERT_GENERATION;
               key_generation := read_generation k ANN_KEY_GENERATION;
               leafs_key_generation := read_optional_generation c ANN_LEAFS_KEY_GENERATION;
               phase := read_phase c |}, bundle_pem)
  | _, _ => None
  end.

(** ** The planner *)
Section planner.
Context `{TimeOps Time} `{X509}.

Definition plan_ca_rotation (state : CaState) (inp : RotationInputs Time) : CaRotationPlan :=
  if negb (generate inp) then
    if renews_certificate (force inp) || replaces_key (force inp) then Refuse Byo else NoOp
  else
    match phase state with
    | KeyReplaceTrust => if rollout_converged inp then PromoteNewKey else NoOp
    | KeyReplacePromote =>
        let leafs_converged :=
          bool_decide (which inp = Cluster)
          || bool_decide (leafs_key_generation state = Some (key_generation state)) in
        if rollout_converged inp && leafs_converged then PruneOldTrust else NoOp
    | Idle =>
        if replaces_key (force inp) then StartKeyReplace
        else
          let signing := default "" (head (bundle state)) in
          let renew_due :=
            renews_certificate (force inp)
            || match renew_if_expiring signing (renewal inp) (now inp) with
               | Ok b => b | Err _ => false end in
          if renew_due then RenewCertSameKey
          else
            let has_expired :=
              existsb (λ b, match cert_not_after b with
                            | Ok na => na <=? now inp | Err _ => false end)
                (drop 1 (bundle state)) in
            if has_expired then PruneOldTrust else NoOp
    end.
End planner.

(** ** Outcome of a pass *)
Inductive CaLeafTransition : Type := LeafNone | Reissue | OldTrustPruned.

Definition requires_reissue (t : CaLeafTransition) : bool :=
  match t with Reissue => true | _ => false end.
Definition pruned_old_trust (t : CaLeafTransition) : bool :=
  match t with OldTrustPruned => true | _ => false end.

Record CaMaterial : Type := { ca_cert : string; ca_key : string }.

Record CaReconcileOutcome : Type := {
  signing_material : CaMaterial;
  trust_bundle_pem : string;
  oc_not_after : string;
  generated : bool;
  oc_cert_generation : Z;
  oc_key_generation : Z;
  oc_phase : CaPhase;
  trust_anchors : nat;
  leaf_transition : CaLeafTransition;
  rotation_in_progress : bool;
  rotation_reason : string;
  rotation_message : string;
  refused : option RefuseReason;
}.

(** [None] is the [unreachable!] of a refused plan without its reason. *)
Definition rotation_condition (plan : CaRotationPlan) (phase : CaPhase)
    (refused : option RefuseReason) : option (bool * string * string) :=
  match refused with
  | Some Byo => Some (false, "ByoCaImmutable",
      "forced rotation ignored: BYO CA (generateCertificateAuthority=false)")
  | None =>
      match plan with
      | RenewCertSameKey => Some (true, "RenewingCert", "re-signing the CA cert (same key)")
      | StartKeyReplace => Some (true, "DistributingTrust",
          "new CA generated; rolling to distribute the trust bundle")
      | PromoteNewKey => Some (true, "PromotingKey",
          "promoting the new CA key and reissuing leaf certificates")
      | NoOp =>
          match phase with
          | KeyReplaceTrust => Some (true, "DistributingTrust",
              "waiting for the trust-bundle roll to converge")
          | KeyReplacePromote => Some (true, "PromotingKey",
              "waiting for the new-key roll and leaf reissue to converge")
          | Idle => Some (false, "Idle", "no rotation in progress")
          end
      | PruneOldTrust => Some (false, "Idle", "rotation complete; pruned old trust anchors")
      | Refuse _ => None
      end
  end.

(** ** The CRD fields the pass reads *)
Record CertificateAuthority : Type := {
  generate_certificate_authority : bool;
  validity_days : Z;
  renewal_days : Z;
}.
Definition CertificateAuthority_default : CertificateAuthority :=
  {| generate_certificate_authority := true; validity_days := 365; renewal_days := 30 |}.

Record KafkaCas : Type := {
  kc_meta : object_meta;
  cluster_ca : option CertificateAuthority;
  clients_ca : option CertificateAuthority;
}.

Definition ca_spec (kafka : KafkaCas) (w : WhichCa) : CertificateAuthority :=
  default CertificateAuthority_default
    match w with Cluster => cluster_ca kafka | Clients => clients_ca kafka end.
Definition ca_key_name (kafka : KafkaCas) (w : WhichCa) : string :=
  let cluster := name_any (kc_meta kafka) in
  match w with Cluster => cluster_ca_key_name cluster | Clients => clients_ca_key_name cluster end.
Definition ca_cert_name (kafka : KafkaCas) (w : WhichCa) : string :=
  let cluster := name_any (kc_meta kafka) in
  match w with Cluster => cluster_ca_cert_name cluster | Clients => clients_ca_cert_name cluster end.

Definition render_ca_secret (kafka : KafkaCas) (name secret_type_label : string)
    (data annotations : gmap string string) : result secret ReconcileError :=
  let? owner := owner_ref "Kafka" (kc_meta kafka) in
  Ok {| sec_meta :=
          {| om_name := Some name;
             om_namespace := om_namespace (kc_meta kafka);
             om_uid := None;
             om_labels := Some {["krabka.io/secret-type" := secret_type_label;
                                 "krabka.io/cluster" := name_any (kc_meta kafka)]};
             om_annotations :=
               Some (annotations ∪ {["krabka.io/strictly-operator-managed" := "true"]});
             om_finalizers := None; om_generation := None; om_deleting := false;
             om_owners := [owner] |};
        sec_data := Some data |}.

(** ** The pass *)
Inductive ca_call : Type :=
  | GetSecret (name : string)
  | ApplySecret (name : string) (s : secret)
  | MergeAnnotation (name key value : string)
  | GenerateCa (w : WhichCa) (cn : string) (validity_days : Z)
  | RenewCa (w : WhichCa) (key cn : string) (validity_days : Z).

Definition ca_resp (c : ca_call) : Type :=
  match c with
  | GetSecret _ => result (option secret) kube_error
  | ApplySecret _ _ | MergeAnnotation _ _ _ => result unit kube_error
  | GenerateCa _ _ _ => result CaMaterial string
  | RenewCa _ _ _ _ => result string string
  end.

Notation cprog := (prog ca_resp).
Notation call := (perform (resp := ca_resp)).

Definition patch_secret (kafka : KafkaCas) (name secret_type_label : string)
    (data annotations : gmap string string) : cprog (result unit ReconcileError) :=
  match render_ca_secret kafka name secret_type_label data annotations with
  | Err e => Ret (Err e)
  | Ok s => patched ← call (ApplySecret name s); Ret (map_err Kube patched)
  end.

Definition patch_key (kafka : KafkaCas) (key_name : string) (data : gmap string string)
    (key_gen : Z) : cprog (result unit ReconcileError) :=
  patch_secret kafka key_name "ca-key" data {[ANN_KEY_GENERATION := display_Z key_gen]}.

Definition patch_cert_bundle (kafka : KafkaCas) (cert_name : string) (blocks : list string)
    (cert_gen : Z) (phase : CaPhase) : cprog (result unit ReconcileError) :=
  patch_secret kafka cert_name "ca-cert" {["ca.crt" := join_bundle blocks]}
    {[ANN_CERT_GENERATION := display_Z cert_gen; ANN_ROTATION_PHASE := as_str phase]}.

(** The variables [apply_ca_rotation] updates. *)
Record rotation : Type := {
  r_bundle : list string;
  r_key : string;
  r_cert_gen : Z;
  r_key_gen : Z;
  r_phase : CaPhase;
  r_force_reissue : bool;
  r_raw : option string;
  r_refused : option RefuseReason;
}.

Section pass.
Context `{TimeOps Time} `{X509}.

Definition rotate (kafka : KafkaCas) (key_name cert_name cn : string) (state : CaState)
    (plan : CaRotationPlan) (inp : RotationInputs Time) (raw_bundle_pem : string)
  : cprog (result rotation ReconcileError) :=
  let w := which inp in
  let kept refused := {| r_bundle := bundle state; r_key := key_pem state;
    r_cert_gen := cert_generation state; r_key_gen := key_generation state;
    r_phase := phase state; r_force_reissue := false; r_raw := Some raw_bundle_pem;
    r_refused := refused |} in
  match plan with
  | NoOp => Ret (Ok (kept None))
  | Refuse reason => Ret (Ok (kept (Some reason)))
  | RenewCertSameKey =>
      new_cert ← call (RenewCa w (key_pem state) cn (whole_days (validity inp)));
      match new_cert with
      | Err e => Ret (Err (Ca e))
      | Ok new_cert =>
          let blocks := dedup_blocks
            (normalize_block new_cert :: prune_expired (bundle state) (now inp)) in
          let cert_gen := next_generation (cert_generation state) in
          _ ←? patch_cert_bundle kafka cert_name blocks cert_gen Idle;
          Ret (Ok {| r_bundle := blocks; r_key := key_pem state; r_cert_gen := cert_gen;
                     r_key_gen := key_generation state; r_phase := Idle;
                     r_force_reissue := false; r_raw := None; r_refused := None |})
      end
  | StartKeyReplace =>
      new ← call (GenerateCa w cn (whole_days (validity inp)));
      match new with
      | Err e => Ret (Err (Ca e))
      | Ok new =>
          let blocks := dedup_blocks
            (prune_expired (bundle state) (now inp) ++ [normalize_block (ca_cert new)]) in
          _ ←? patch_key kafka key_name
                 {["ca.key" := key_pem state; NEXT_KEY := ca_key new; NEXT_CERT := ca_cert new]}
                 (key_generation state);
          _ ←? patch_cert_bundle kafka cert_name blocks (cert_generation state) KeyReplaceTrust;
          Ret (Ok {| r_bundle := blocks; r_key := key_pem state;
                     r_cert_gen := cert_generation state; r_key_gen := key_generation state;
                     r_phase := KeyReplaceTrust; r_force_reissue := false; r_raw := None;
                     r_refused := None |})
      end
  | PromoteNewKey =>
      match pending_key_pem state with
      | None => Ret (Err (CertParse "promote without staged key"))
      | Some new_key =>
          match pending_cert_pem state with
          | None => Ret (Err (CertParse "promote without staged cert"))
          | Some staged =>
              let new_cert := normalize_block staged in
              let remaining := List.filter (λ b, negb (str_eqb b new_cert)) (bundle state) in
              let blocks := prune_expired (dedup_blocks (new_cert :: remaining)) (now inp) in
              let key_was_already_promoted := str_eqb (key_pem state) new_key in
              let cert_gen := next_generation (cert_generation state) in
              let key_gen :=
                if negb key_was_already_promoted then next_generation (key_generation state)
                else key_generation state in
              _ ←? patch_key kafka key_name
                     {["ca.key" := new_key; NEXT_KEY := new_key; NEXT_CERT := new_cert]} key_gen;
              _ ←? patch_cert_bundle kafka cert_name blocks cert_gen KeyReplacePromote;
              Ret (Ok {| r_bundle := blocks; r_key := new_key; r_cert_gen := cert_gen;
                         r_key_gen := key_gen; r_phase := KeyReplacePromote;
                         r_force_reissue := true; r_raw := None; r_refused := None |})
          end
      end
  | PruneOldTrust =>
      blocks ←? (if bool_decide (phase state = KeyReplacePromote) then
                   _ ←? patch_key kafka key_name {["ca.key" := key_pem state]}
                          (key_generation state);
                   Ret (Ok (option_list (head (bundle state))))
                 else Ret (Ok (prune_expired (bundle state) (now inp))));
      _ ←? patch_cert_bundle kafka cert_name blocks (cert_generation state) Idle;
      Ret (Ok {| r_bundle := blocks; r_key := key_pem state;
                 r_cert_gen := cert_generation state; r_key_gen := key_generation state;
                 r_phase := Idle; r_force_reissue := false; r_raw := None; r_refused := None |})
  end.

Definition not_after_text (pem : string) : result string ReconcileError :=
  let? na := cert_not_after pem in map_err CertParse (rfc3339 na).

(** The outcome built from the updated variables.  [Err None] would be the
    [unreachable!] of [rotation_condition]. *)
Definition rotation_outcome (state : CaState) (plan : CaRotationPlan) (inp : RotationInputs Time)
    (r : rotation) : result CaReconcileOutcome (option ReconcileError) :=
  let signing_cert_pem := default "" (head (r_bundle r)) in
  let trust := default (join_bundle (r_bundle r)) (r_raw r) in
  let? na := map_err Some (not_after_text signing_cert_pem) in
  let? cond := ok_or (rotation_condition plan (r_phase r) (r_refused r)) None in
  let '(in_progress, reason, message) := cond in
  let force_reissue :=
    r_force_reissue r
    || (bool_decide (which inp = Clients) && bool_decide (r_phase r = KeyReplacePromote)
        && negb (bool_decide (leafs_key_generation state = Some (r_key_gen r)))) in
  Ok {| signing_material := {| ca_cert := signing_cert_pem; ca_key := r_key r |};
        trust_bundle_pem := trust;
        oc_not_after := na;
        generated := generate inp;
        oc_cert_generation := r_cert_gen r;
        oc_key_generation := r_key_gen r;
        oc_phase := r_phase r;
        trust_anchors := length (r_bundle r);
        leaf_transition :=
          if force_reissue then Reissue
          else if bool_decide (plan = PruneOldTrust) then OldTrustPruned else LeafNone;
        rotation_in_progress := in_progress;
        rotation_reason := reason;
        rotation_message := message;
        refused := r_refused r |}.

Definition apply_ca_rotation (kafka : KafkaCas) (key_name cert_name cn : string) (state : CaState)
    (plan : CaRotationPlan) (inp : RotationInputs Time) (raw_bundle_pem : string)
  : cprog (result CaReconcileOutcome (option ReconcileError)) :=
  rotated ← rotate kafka key_name cert_name cn state plan inp raw_bundle_pem;
  match rotated with
  | Err e => Ret (Err (Some e))
  | Ok r => Ret (rotation_outcome state plan inp r)
  end.

Definition rotation_inputs (kafka : KafkaCas) (w : WhichCa) (force_renew force_replace_key : bool)
    (converged : bool) (at_ : Z) : RotationInputs Time :=
  let spec := ca_spec kafka w in
  {| generate := generate_certificate_authority spec;
     validity := days (validity_days spec);
     renewal := days (renewal_days spec);
     force := match force_renew, force_replace_key with
              | false, false => ForceNone
              | true, false => RenewCertificate
              | false, true => ReplaceKey
              | true, true => RenewAndReplaceKey
              end;
     rollout_converged := converged;
     now := at_;
     which := w |}.

(** A fresh single-certificate CA: generation 0, idle. *)
Definition create_ca (kafka : KafkaCas) (w : WhichCa) (key_name cert_name cn : string)
  : cprog (result CaReconcileOutcome (option ReconcileError)) :=
  let spec := ca_spec kafka w in
  if negb (generate_certificate_authority spec) then
    Ret (Err (Some (ByoCaMissing (condition_name w))))
  else
    made ← call (GenerateCa w cn (validity_days spec));
    match made with
    | Err e => Ret (Err (Some (Ca e)))
    | Ok material =>
        r1 ← patch_secret kafka key_name "ca-key" {["ca.key" := ca_key material]}
               {[ANN_KEY_GENERATION := "0"]};
        match r1 with
        | Err e => Ret (Err (Some e))
        | Ok _ =>
            r2 ← patch_secret kafka cert_name "ca-cert" {["ca.crt" := ca_cert material]}
                   {[ANN_CERT_GENERATION := "0"]};
            match r2 with
            | Err e => Ret (Err (Some e))
            | Ok _ =>
                Ret (let? na := map_err Some (not_after_text (ca_cert material)) in
                     Ok {| signing_material := material;
                           trust_bundle_pem := ca_cert material;
                           oc_not_after := na;
                           generated := true;
                           oc_cert_generation := 0;
                           oc_key_generation := 0;
                           oc_phase := Idle;
                           trust_anchors := 1;
                           leaf_transition := LeafNone;
                           rotation_in_progress := false;
                           rotation_reason := "Idle";
                           rotation_message := "no rotation in progress";
                           refused := None |})
            end
        end
    end.

Definition reconcile_ca (kafka : KafkaCas) (w : WhichCa) (force_renew force_replace_key : bool)
    (converged : bool) (at_ : Z) : cprog (result CaReconcileOutcome (option ReconcileError)) :=
  let key_name := ca_key_name kafka w in
  let cert_name := ca_cert_name kafka w in
  let cn := name_any (kc_meta kafka) +:+ cn_suffix w in
  existing_key ← call (GetSecret key_name);
  match existing_key with
  | Err e => Ret (Err (Some (Kube e)))
  | Ok existing_key =>
      existing_cert ← call (GetSecret cert_name);
      match existing_cert with
      | Err e => Ret (Err (Some (Kube e)))
      | Ok existing_cert =>
          match and_then existing_key (λ k, and_then existing_cert (λ c, read_ca_state k c)) with
          | Some (state, bundle_pem) =>
              let inp := rotation_inputs kafka w force_renew force_replace_key converged at_ in
              apply_ca_rotation kafka key_name cert_name cn state
                (plan_ca_rotation state inp) inp bundle_pem
          | None => create_ca kafka w key_name cert_name cn
          end
      end
  end.

(** [mark_leafs_reissued]: after the whole batch of user Secrets. *)
Definition mark_leafs_reissued (cluster : string) (generation : Z)
  : cprog (result unit ReconcileError) :=
  patched ← call (MergeAnnotation (clients_ca_cert_name cluster) ANN_LEAFS_KEY_GENERATION
                    (display_Z generation));
  Ret (map_err Kube patched).
End pass.

(** A CA pass reads and applies Secrets; annotations are merged only by the marker. *)
Definition merges (c : ca_call) : bool := match c with MergeAnnotation _ _ _ => true | _ => false end.

Lemma reconcile_ca_only `{TimeOps Time} `{X509} kafka w force_renew force_replace_key converged at_ :
  only (λ c, merges c = false) (reconcile_ca kafka w force_renew force_replace_key converged at_).
Proof.
  unfold reconcile_ca, apply_ca_rotation, rotate, create_ca, patch_key, patch_cert_bundle, patch_secret.
  only_calls; done.
Qed.

(** ** The API server

    The Secrets by name.  An applied Secret replaces the data and the
    annotations the operator owns; annotations of other managers stay (the
    leaf marker is merged under a different one).  A call that failed may or
    may not have taken effect. *)
Notation ca_store := (gmap string secret).

Definition operator_annotations : list string :=
  [ANN_CERT_GENERATION; ANN_KEY_GENERATION; ANN_ROTATION_PHASE;
   "krabka.io/strictly-operator-managed"].

Definition with_annotations (m : object_meta) (a : gmap string string) : object_meta :=
  {| om_name := om_name m; om_namespace := om_namespace m; om_uid := om_uid m;
     om_labels := om_labels m; om_annotations := Some a; om_finalizers := om_finalizers m;
     om_generation := om_generation m; om_deleting := om_deleting m; om_owners := om_owners m |}.

Definition annotations_of (s : secret) : gmap string string :=
  default ∅ (om_annotations (sec_meta s)).

Definition applied (old : option secret) (new : secret) : secret :=
  let others := filter (λ kv : string * string, kv.1 ∉ operator_annotations)
                  (default ∅ (annotations_of <$> old)) in
  {| sec_meta := with_annotations (sec_meta new) (annotations_of new ∪ others);
     sec_data := sec_data new |}.

Definition merged (old : secret) (key value : string) : secret :=
  {| sec_meta := with_annotations (sec_meta old) (<[key := value]> (annotations_of old));
     sec_data := sec_data old |}.

Section safety.
Context `{TimeOps Time} `{X509}.

(** [pairs cert key]: the certificate block carries the public key of [key]. *)
Variable pairs : string → string → Prop.

(** What generating or re-signing a CA returns. *)
Definition ca_pair (cert key : string) : Prop :=
  has_cert cert ∧ valid_utf8 cert ∧ valid_utf8 key ∧ pairs (normalize_block cert) key.

Definition api_step (s : ca_store) (e : event ca_resp) (s' : ca_store) : Prop :=
  match e with
  | existT (GetSecret n) r => s' = s ∧ ∀ o, r = Ok o → o = s !! n
  | existT (ApplySecret n sec) r =>
      s' = <[n := applied (s !! n) sec]> s ∨ (s' = s ∧ ∃ e, r = Err e)
  | existT (MergeAnnotation n k v) r =>
      (∃ old, s !! n = Some old ∧ s' = <[n := merged old k v]> s) ∨ (s' = s ∧ ∃ e, r = Err e)
  | existT (GenerateCa _ _ _) r => s' = s ∧ ∀ m, r = Ok m → ca_pair (ca_cert m) (ca_key m)
  | existT (RenewCa _ key _ _) r => s' = s ∧ ∀ cert, r = Ok cert → ca_pair cert key
  end.

(** The signing certificate comes first and belongs to the active key.  While
    the new trust is distributed, the staged pair is complete, its certificate
    is already trusted, and the active key may already be the staged one (a
    promotion cut between its two patches). *)
Definition state_ok (st : CaState) : Prop :=
  ∃ signing rest, bundle st = signing :: rest ∧
  match phase st with
  | KeyReplaceTrust =>
      ∃ pk pc, pending_key_pem st = Some pk ∧ pending_cert_pem st = Some pc ∧
        has_cert pc ∧ normalize_block pc ∈ bundle st ∧ pairs (normalize_block pc) pk ∧
        (pairs signing (key_pem st) ∨ key_pem st = pk)
  | _ => pairs signing (key_pem st)
  end.

(** Every readable certificate Secret has its key Secret, and the pair is in
    order. *)
Definition ca_inv (kafka : KafkaCas) (w : WhichCa) (s : ca_store) : Prop :=
  ∀ c b, s !! ca_cert_name kafka w = Some c → read_pem_key c "ca.crt" = Some b →
    ∃ k st, s !! ca_key_name kafka w = Some k ∧ read_ca_state k c = Some (st, b) ∧ state_ok st.

(** A pass whose promotion was cut before: the old certificate still signs in
    the bundle while the new key is already active. *)
Definition promotion_cut (kafka : KafkaCas) (w : WhichCa) (s : ca_store) : Prop :=
  ∃ k c st b, s !! ca_key_name kafka w = Some k ∧ s !! ca_cert_name kafka w = Some c ∧
    read_ca_state k c = Some (st, b) ∧ phase st = KeyReplaceTrust ∧
    pending_key_pem st = Some (key_pem st).

(** The bundle a certificate Secret holds. *)
Definition bundle_in (kafka : KafkaCas) (w : WhichCa) (allowed : list string → Prop) (s : ca_store)
  : Prop :=
  ∀ c b, s !! ca_cert_name kafka w = Some c → read_pem_key c "ca.crt" = Some b →
    allowed (split_pem_certs b).

(** The rotation, as a relation between the bundle a pass reads and the bundle
    it leaves: what may enter, what may sign, and what may go, and when. *)
Inductive next_bundle (st : CaState) (inp : RotationInputs Time) : list string → Prop :=
  | nb_same : next_bundle st inp (bundle st)
  | nb_renew cert :
      phase st = Idle → generate inp = true → pairs (normalize_block cert) (key_pem st) →
      next_bundle st inp
        (dedup_blocks (normalize_block cert :: prune_expired (bundle st) (now inp)))
  | nb_trust cert key :
      phase st = Idle → generate inp = true → replaces_key (force inp) = true →
      pairs (normalize_block cert) key →
      next_bundle st inp
        (dedup_blocks (prune_expired (bundle st) (now inp) ++ [normalize_block cert]))
  | nb_promote cert key :
      phase st = KeyReplaceTrust → generate inp = true → rollout_converged inp = true →
      cert ∈ bundle st → pending_key_pem st = Some key → pairs cert key →
      next_bundle st inp
        (prune_expired
           (dedup_blocks (cert :: List.filter (λ b, negb (str_eqb b cert)) (bundle st))) (now inp))
  | nb_distrust :
      phase st = KeyReplacePromote → generate inp = true → rollout_converged inp = true →
      (which inp = Cluster ∨ leafs_key_generation st = Some (key_generation st)) →
      next_bundle st inp (option_list (head (bundle st)))
  | nb_expire :
      phase st = Idle → generate inp = true →
      next_bundle st inp (prune_expired (bundle st) (now inp)).

Definition material_ok (m : CaMaterial) : Prop := pairs (normalize_block (ca_cert m)) (ca_key m).
End safety.

(** ** Reading back what a patch wrote *)
Lemma key_cert_names kafka w : ca_key_name kafka w ≠ ca_cert_name kafka w.
Proof. destruct w; cbn; intros Hn; by apply str_app_inj_l in Hn. Qed.

Lemma render_ca_secret_Ok kafka name label data ann sec :
  render_ca_secret kafka name label data ann = Ok sec →
  sec_data sec = Some data ∧
  annotations_of sec = ann ∪ {["krabka.io/strictly-operator-managed" := "true"]}.
Proof.
  unfold render_ca_secret. destruct (owner_ref "Kafka" (kc_meta kafka)); [|done]. by intros [= <-].
Qed.

Lemma applied_read kafka name label data ann sec old f :
  render_ca_secret kafka name label data ann = Ok sec →
  read_pem_key (applied old sec) f = and_then (data !! f) (λ b, result_ok (from_utf8 b)).
Proof. intros [Hd _]%render_ca_secret_Ok. unfold read_pem_key, applied. cbn. by rewrite Hd. Qed.

Lemma applied_annotation kafka name label data ann sec old a :
  render_ca_secret kafka name label data ann = Ok sec → a ∈ operator_annotations →
  a ≠ "krabka.io/strictly-operator-managed" →
  annotation (sec_meta (applied old sec)) a = ann !! a.
Proof.
  intros [_ Ha]%render_ca_secret_Ok Hin Hne. unfold annotation, applied. cbn. rewrite Ha.
  rewrite lookup_union_l.
  - rewrite lookup_union_l; [done|]. by rewrite lookup_singleton_ne.
  - apply map_lookup_filter_None. right. intros x _. cbn. tauto.
Qed.

(** The leaf marker survives. *)
Lemma applied_leafs kafka name label data ann sec old :
  render_ca_secret kafka name label data ann = Ok sec → ann !! ANN_LEAFS_KEY_GENERATION = None →
  annotation (sec_meta (applied old sec)) ANN_LEAFS_KEY_GENERATION =
    old ≫= λ s, annotation (sec_meta s) ANN_LEAFS_KEY_GENERATION.
Proof.
  intros [_ Ha]%render_ca_secret_Ok Hn. unfold annotation, applied. cbn. rewrite Ha.
  rewrite lookup_union_r.
  2:{ apply lookup_union_None. split; [done|]. by rewrite lookup_singleton_ne. }
  destruct old as [s|]; cbn; [|by rewrite map_lookup_filter_None; left].
  unfold annotations_of. destruct (om_annotations (sec_meta s)) as [m|]; cbn.
  - destruct (m !! ANN_LEAFS_KEY_GENERATION) as [v|] eqn:E.
    + apply map_lookup_filter_Some. split; [done|]. cbn. vm_compute. intros Hx.
      repeat (apply elem_of_cons in Hx as [Hx|Hx]; [done|]). by apply elem_of_nil in Hx.
    + apply map_lookup_filter_None. by left.
  - rewrite map_filter_empty. apply lookup_empty.
Qed.

Lemma parse_phase_as_str p : parse_phase (as_str p) = p.
Proof. by destruct p. Qed.

Lemma read_pem_key_valid s f v : read_pem_key s f = Some v → valid_utf8 v.
Proof.
  unfold read_pem_key. rewrite and_then_Some. intros (d & _ & Hd).
  rewrite and_then_Some in Hd. destruct Hd as (b & _ & Hb).
  destruct (from_utf8 b) eqn:E; [|done]. cbn in Hb. simplify_eq.
  by apply valid_utf8_from in E as [].
Qed.

(** What a state read from the pair says. *)
Record reads (k c : secret) (st : CaState) (b : string) : Prop := {
  reads_key : read_pem_key k "ca.key" = Some (key_pem st);
  reads_cert : read_pem_key c "ca.crt" = Some b;
  reads_bundle : bundle st = split_pem_certs b;
  reads_next_key : pending_key_pem st = read_pem_key k NEXT_KEY;
  reads_next_cert : pending_cert_pem st = read_pem_key k NEXT_CERT;
  reads_cert_gen : cert_generation st = read_generation c ANN_CERT_GENERATION;
  reads_key_gen : key_generation st = read_generation k ANN_KEY_GENERATION;
  reads_leafs : leafs_key_generation st = read_optional_generation c ANN_LEAFS_KEY_GENERATION;
  reads_phase : phase st = read_phase c;
}.

Lemma read_ca_state_reads k c st b : read_ca_state k c = Some (st, b) ↔ reads k c st b.
Proof.
  unfold read_ca_state. split.
  - destruct (read_pem_key k "ca.key") eqn:?, (read_pem_key c "ca.crt") eqn:?; try done.
    intros [= <- <-]. by split.
  - intros []. rewrite reads_key0, reads_cert0. destruct st; cbn in *. congruence.
Qed.

Lemma read_ca_state_exists k c key b :
  read_pem_key k "ca.key" = Some key → read_pem_key c "ca.crt" = Some b →
  ∃ st, read_ca_state k c = Some (st, b) ∧ reads k c st b.
Proof.
  intros Hk Hc. destruct (read_ca_state k c) as [[st b']|] eqn:E.
  - apply read_ca_state_reads in E as Hr. assert (b' = b) as -> by (destruct Hr; congruence). eauto.
  - unfold read_ca_state in E. by rewrite Hk, Hc in E.
Qed.

(** A block that reads back as itself. *)
Definition good_block (b : string) : Prop := is_block b ∧ valid_utf8 b.

Lemma reads_blocks k c st b : reads k c st b →
  Forall good_block (bundle st) ∧ valid_utf8 (key_pem st).
Proof.
  intros []. rewrite reads_bundle0. split; [|by eapply read_pem_key_valid].
  apply Forall_and. split; [apply split_pem_certs_blocks|].
  eapply split_pem_certs_valid, read_pem_key_valid. eauto.
Qed.

Lemma normalize_good_block pem : has_cert pem → valid_utf8 pem → good_block (normalize_block pem).
Proof. split; [by apply normalize_block_is_block|by apply normalize_block_valid]. Qed.

Lemma good_bundle bs : Forall good_block bs → Forall is_block bs ∧ Forall valid_utf8 bs.
Proof. apply Forall_and. Qed.

(** The certificate Secret after [patch_cert_bundle]. *)
Lemma cert_patched kafka name blocks g p sec old k key :
  render_ca_secret kafka name "ca-cert" {["ca.crt" := join_bundle blocks]}
    {[ANN_CERT_GENERATION := display_Z g; ANN_ROTATION_PHASE := as_str p]} = Ok sec →
  Forall good_block blocks → read_pem_key k "ca.key" = Some key →
  ∃ st, read_ca_state k (applied old sec) = Some (st, join_bundle blocks) ∧
    bundle st = blocks ∧ phase st = p ∧ key_pem st = key ∧
    pending_key_pem st = read_pem_key k NEXT_KEY ∧ pending_cert_pem st = read_pem_key k NEXT_CERT ∧
    cert_generation st = default 0 (parse_u64 (display_Z g)) ∧
    key_generation st = read_generation k ANN_KEY_GENERATION.
Proof.
  intros Hr [Hb Hv]%good_bundle Hk.
  assert (read_pem_key (applied old sec) "ca.crt" = Some (join_bundle blocks)) as Hc.
  { rewrite (applied_read _ _ _ _ _ _ _ _ Hr). cbn. rewrite lookup_singleton_eq. cbn.
    rewrite from_utf8_valid; [done|]. by apply valid_utf8_concat. }
  destruct (read_ca_state_exists k _ key _ Hk Hc) as (st & Hst & []). exists st.
  split; [done|]. rewrite reads_bundle0, reads_phase0, reads_cert_gen0.
  split; [by apply split_pem_certs_join|].
  unfold read_phase, read_generation, read_optional_generation.
  rewrite (applied_annotation _ _ _ _ _ _ _ ANN_ROTATION_PHASE Hr); [|set_solver|done].
  rewrite (applied_annotation _ _ _ _ _ _ _ ANN_CERT_GENERATION Hr); [|set_solver|done].
  split; [apply parse_phase_as_str|]. split; [congruence|done].
Qed.

(** The key Secret after [patch_key]. *)
Lemma key_patched kafka name data g sec old c b key :
  render_ca_secret kafka name "ca-key" data {[ANN_KEY_GENERATION := display_Z g]} = Ok sec →
  data !! "ca.key" = Some key → valid_utf8 key → read_pem_key c "ca.crt" = Some b →
  ∃ st, read_ca_state (applied old sec) c = Some (st, b) ∧
    bundle st = split_pem_certs b ∧ phase st = read_phase c ∧ key_pem st = key ∧
    (∀ v, data !! NEXT_KEY = Some v → valid_utf8 v → pending_key_pem st = Some v) ∧
    (∀ v, data !! NEXT_CERT = Some v → valid_utf8 v → pending_cert_pem st = Some v) ∧
    key_generation st = default 0 (parse_u64 (display_Z g)) ∧
    cert_generation st = read_generation c ANN_CERT_GENERATION.
Proof.
  intros Hr Hd Hv Hc.
  assert (∀ f v, data !! f = Some v → valid_utf8 v → read_pem_key (applied old sec) f = Some v) as Hf.
  { intros f v Hdf Hvf. rewrite (applied_read _ _ _ _ _ _ _ _ Hr), Hdf. cbn.
    by rewrite from_utf8_valid. }
  destruct (read_ca_state_exists (applied old sec) c key b) as (st & Hst & []); [by apply Hf|done|].
  exists st. split; [done|]. split; [done|]. split; [done|].
  rewrite (Hf _ _ Hd Hv) in reads_key0. split; [congruence|].
  split; [intros; rewrite reads_next_key0; auto|]. split; [intros; rewrite reads_next_cert0; auto|].
  split; [|done]. rewrite reads_key_gen0. unfold read_generation, read_optional_generation.
  rewrite (applied_annotation _ _ _ _ _ _ _ ANN_KEY_GENERATION Hr); [done|set_solver|done].
Qed.

(** The three values of a staged key Secret. *)
Definition staged (key next_key next_cert : string) : gmap string string :=
  {["ca.key" := key; NEXT_KEY := next_key; NEXT_CERT := next_cert]}.

Lemma staged_lookup key nk nc :
  staged key nk nc !! "ca.key" = Some key ∧ staged key nk nc !! NEXT_KEY = Some nk ∧
  staged key nk nc !! NEXT_CERT = Some nc.
Proof. vm_compute. done. Qed.

(** ** Every step of a rotation keeps the invariant *)
Section safety_proofs.
Context `{TimeOps Time} `{X509} (pairs : string → string → Prop) (kafka : KafkaCas) (w : WhichCa).
Context (allowed : list string → Prop).
Notation inv := (λ s, ca_inv pairs kafka w s ∧ bundle_in kafka w allowed s).
Notation through := (throughout (api_step pairs) inv).
Notation kn := (ca_key_name kafka w).
Notation cn := (ca_cert_name kafka w).

Lemma inv_cert_patch s k key blocks g p sec :
  s !! kn = Some k → read_pem_key k "ca.key" = Some key → Forall good_block blocks →
  render_ca_secret kafka cn "ca-cert" {["ca.crt" := join_bundle blocks]}
    {[ANN_CERT_GENERATION := display_Z g; ANN_ROTATION_PHASE := as_str p]} = Ok sec →
  (∀ st, bundle st = blocks → phase st = p → key_pem st = key →
     pending_key_pem st = read_pem_key k NEXT_KEY → pending_cert_pem st = read_pem_key k NEXT_CERT →
     state_ok pairs st) →
  allowed blocks →
  inv (<[cn := applied (s !! cn) sec]> s).
Proof.
  intros Hk Hkey Hb Hr Hok Hal. cbn beta. split; intros c b Hc Hcb;
    rewrite lookup_insert_eq in Hc; injection Hc as <-.
  2:{ destruct (cert_patched _ _ _ _ _ _ (s !! cn) _ _ Hr Hb Hkey) as (st & Hst & Hbs & _).
      apply read_ca_state_reads in Hst as []. rewrite Hbs in *. by simplify_eq; congruence. }
  destruct (cert_patched _ _ _ _ _ _ (s !! cn) _ _ Hr Hb Hkey) as (st & Hst & ? & ? & ? & ? & ? & _).
  exists k, st. rewrite lookup_insert_ne by (intros Heq; by apply (key_cert_names kafka w)).
  split; [done|]. split; [|by apply Hok].
  apply read_ca_state_reads in Hst as Hr'. destruct Hr'. rewrite Hst. congruence.
Qed.

Lemma inv_key_patch s data g sec key :
  (∀ c b, s !! cn = Some c → read_pem_key c "ca.crt" = Some b →
     ∀ st, bundle st = split_pem_certs b → phase st = read_phase c → key_pem st = key →
       (∀ v, data !! NEXT_KEY = Some v → valid_utf8 v → pending_key_pem st = Some v) →
       (∀ v, data !! NEXT_CERT = Some v → valid_utf8 v → pending_cert_pem st = Some v) →
       state_ok pairs st) →
  bundle_in kafka w allowed s → data !! "ca.key" = Some key → valid_utf8 key →
  render_ca_secret kafka kn "ca-key" data {[ANN_KEY_GENERATION := display_Z g]} = Ok sec →
  inv (<[kn := applied (s !! kn) sec]> s).
Proof.
  intros Hok Hal Hd Hv Hr. cbn beta. split; intros c b Hc Hcb;
    rewrite lookup_insert_ne in Hc by apply key_cert_names; [|by eapply Hal].
  destruct (key_patched _ _ _ _ _ (s !! kn) c b _ Hr Hd Hv Hcb) as (st & Hst & ? & ? & ? & ? & ? & _).
  exists (applied (s !! kn) sec), st. rewrite lookup_insert_eq. eauto.
Qed.

Lemma through_ret {R} (r : R) s (Q : ca_store → R → Prop) : inv s → Q s r → through (Ret r) s Q.
Proof. by split. Qed.

Lemma through_patch {R} name label data ann (k : result unit ReconcileError → cprog R) s Q :
  inv s →
  (∀ sec, render_ca_secret kafka name label data ann = Ok sec →
     inv (<[name := applied (s !! name) sec]> s)) →
  (∀ s' e, inv s' → through (k (Err e)) s' Q) →
  (∀ sec, render_ca_secret kafka name label data ann = Ok sec →
     through (k (Ok tt)) (<[name := applied (s !! name) sec]> s) Q) →
  through (patch_secret kafka name label data ann ≫= k) s Q.
Proof.
  intros Hs Hp He Hk. unfold patch_secret.
  destruct (render_ca_secret kafka name label data ann) as [sec|e] eqn:Er; [|by apply He].
  split; [done|]. intros x s' Hx. cbn in x, Hx.
  destruct Hx as [->|[-> [e ->]]]; cbn; [|by apply He].
  destruct x as [[]|e]; cbn; [by apply Hk|]. apply He. by apply Hp.
Qed.

(** The signing pair of an outcome. *)
Definition rot_ok (s : ca_store) (r : result rotation ReconcileError) : Prop :=
  match r with
  | Err _ => True
  | Ok r => (∃ signing rest, r_bundle r = signing :: rest ∧ is_block signing ∧ pairs signing (r_key r))
            ∨ promotion_cut kafka w s
  end.

Definition outcome_ok (s : ca_store) (r : result CaReconcileOutcome (option ReconcileError)) : Prop :=
  match r with
  | Err _ => True
  | Ok oc => material_ok pairs (signing_material oc) ∨ promotion_cut kafka w s
  end.

(** A CA created from nothing: the key first, so that a cut leaves a key
    without a certificate and the next pass starts over. *)
Lemma create_ca_safe name s :
  (∀ l, allowed l) → inv s →
  (∀ c, s !! cn = Some c → read_pem_key c "ca.crt" = None) →
  through (create_ca kafka w kn cn name) s outcome_ok.
Proof.
  intros Hal Hs Hno. unfold create_ca. cbv zeta. case_match; [by apply through_ret|].
  apply throughout_call; [done|]. intros x s' [-> Hx]. cbn in x. destruct x as [new|e]; [|done].
  destruct (Hx new eq_refl) as (Hcert & Hval & Hnk & Hpair).
  assert (∀ sec, render_ca_secret kafka kn "ca-key" {["ca.key" := ca_key new]}
      {[ANN_KEY_GENERATION := "0"]} = Ok sec → inv (<[kn := applied (s !! kn) sec]> s)) as Hi.
  { intros sec Hsec. split; [|by intros ?]. intros c b Hc Hcb.
    rewrite lookup_insert_ne in Hc by apply key_cert_names. rewrite Hno in Hcb; done. }
  apply through_patch; [done|done|by intros|]. intros sec1 Hsec1. set (s1 := <[kn := _]> s).
  assert (read_pem_key (applied (s !! kn) sec1) "ca.key" = Some (ca_key new)) as Hk1.
  { rewrite (applied_read _ _ _ _ _ _ _ _ Hsec1), lookup_singleton_eq. cbn.
    by rewrite from_utf8_valid. }
  assert (∀ sec, render_ca_secret kafka cn "ca-cert" {["ca.crt" := ca_cert new]}
      {[ANN_CERT_GENERATION := "0"]} = Ok sec → inv (<[cn := applied (s1 !! cn) sec]> s1)) as Hi2.
  { intros sec Hsec. split; [|by intros ?]. intros c b Hc Hcb.
    rewrite lookup_insert_eq in Hc. injection Hc as <-.
    assert (b = ca_cert new) as ->.
    { rewrite (applied_read _ _ _ _ _ _ _ _ Hsec), lookup_singleton_eq in Hcb. cbn in Hcb.
      rewrite from_utf8_valid in Hcb by done. by injection Hcb. }
    destruct (read_ca_state_exists _ _ _ _ Hk1 Hcb) as (st & Hst & []).
    exists (applied (s !! kn) sec1), st. rewrite lookup_insert_ne by (intros Heq; by apply (key_cert_names kafka w)).
    split; [apply lookup_insert_eq|]. split; [done|]. unfold state_ok.
    rewrite reads_bundle0, reads_phase0. unfold read_phase.
    rewrite (applied_annotation _ _ _ _ _ _ _ ANN_ROTATION_PHASE Hsec); [|set_solver|done].
    rewrite lookup_singleton_ne by done. unfold has_cert, normalize_block in *.
    destruct (split_pem_certs (ca_cert new)) as [|sg rest]; [done|].
    exists sg, rest. split; [done|]. cbn in Hpair. congruence. }
  apply through_patch; [by apply Hi|done|by intros|]. intros sec2 Hsec2.
  apply through_ret; [by apply Hi2|]. unfold outcome_ok. repeat case_match; simplify_eq; [|done].
  left. done.
Qed.

Context (s : ca_store) (k c : secret) (st : CaState) (b : string).
Hypothesis (Hk : s !! kn = Some k) (Hc : s !! cn = Some c).
Hypothesis (Hreads : reads k c st b) (Hok : state_ok pairs st) (Hinv : ca_inv pairs kafka w s ∧ bundle_in kafka w allowed s).

Lemma rotate_kept name plan (inp : RotationInputs Time) :
  plan = NoOp ∨ (∃ r, plan = Refuse r) →
  through (rotate kafka kn cn name st plan inp b) s rot_ok.
Proof.
  intros Hp.
  assert ((∃ signing rest, bundle st = signing :: rest ∧ is_block signing ∧ pairs signing (key_pem st))
            ∨ promotion_cut kafka w s) as Hr.
  { destruct Hok as (sg & rest & Hb & Hph). destruct (reads_blocks _ _ _ _ Hreads) as [Hbl _].
    rewrite Hb in Hbl. apply Forall_cons in Hbl as [[Hbl _] _].
    destruct (phase st) eqn:Hphase; [by left; eauto| |by left; eauto].
    destruct Hph as (pk & pc & Hpk & Hpc & _ & _ & _ & [Hp'|Hp']); [by left; eauto|].
    right. exists k, c, st, b. rewrite read_ca_state_reads. naive_solver congruence. }
  destruct Hp as [->|[? ->]]; by apply through_ret.
Qed.

(** The certificate patch that ends a rotation step. *)
Lemma through_cert_patch s' k' blocks g p r :
  inv s' → s' !! kn = Some k' → read_pem_key k' "ca.key" = Some (r_key r) →
  Forall good_block blocks → r_bundle r = blocks →
  (∀ st, bundle st = blocks → phase st = p → key_pem st = r_key r →
     pending_key_pem st = read_pem_key k' NEXT_KEY → pending_cert_pem st = read_pem_key k' NEXT_CERT →
     state_ok pairs st) →
  allowed blocks → (∃ sg rest, blocks = sg :: rest ∧ pairs sg (r_key r)) →
  through (_ ←? patch_cert_bundle kafka cn blocks g p; Ret (Ok r)) s' rot_ok.
Proof.
  intros Hs' Hk' Hkey Hg Hb Hst Hal (sg & rest & Hsg & Hp).
  assert (∀ sec, render_ca_secret kafka cn "ca-cert" {["ca.crt" := join_bundle blocks]}
    {[ANN_CERT_GENERATION := display_Z g; ANN_ROTATION_PHASE := as_str p]} = Ok sec →
    inv (<[cn := applied (s' !! cn) sec]> s')) as Hi by eauto using inv_cert_patch.
  apply through_patch; [done|done|by intros|].
  intros sec Hsec. apply through_ret; [by apply Hi|]. left. exists sg, rest.
  rewrite Hb. split; [done|]. rewrite Hsg in Hg. by apply Forall_cons in Hg as [[] _].
Qed.

Lemma rotate_renew name (inp : RotationInputs Time) :
  phase st = Idle → generate inp = true → (∀ l, next_bundle pairs st inp l → allowed l) →
  through (rotate kafka kn cn name st RenewCertSameKey inp b) s rot_ok.
Proof.
  intros Hph Hgen Hal. destruct (reads_blocks _ _ _ _ Hreads) as (Hbl & _).
  apply throughout_call; [done|]. intros x s' [-> Hx]. cbn in x. destruct x as [new|e]; [|done].
  destruct (Hx new eq_refl) as (Hcert & Hval & _ & Hpair). cbv zeta.
  set (blocks := dedup_blocks _).
  destruct (dedup_blocks_cons (normalize_block new) (prune_expired (bundle st) (now inp))) as [l' Hl'].
  eapply through_cert_patch; [done|done|by apply Hreads| |done| |by apply Hal, nb_renew|].
  - apply Forall_dedup_blocks. constructor; [by apply normalize_good_block|].
    by apply Forall_prune_expired.
  - intros st' Hb' Hph' Hkey' _ _. exists (normalize_block new), l'.
    rewrite Hb', Hph', Hkey'. by split.
  - by exists (normalize_block new), l'.
Qed.

Lemma rotate_start name (inp : RotationInputs Time) :
  phase st = Idle → generate inp = true → replaces_key (force inp) = true →
  (∀ l, next_bundle pairs st inp l → allowed l) →
  through (rotate kafka kn cn name st StartKeyReplace inp b) s rot_ok.
Proof.
  intros Hph Hgen Hforce Hal. destruct (reads_blocks _ _ _ _ Hreads) as (Hbl & Hkv).
  destruct Hok as (sg & rest & Hb & Hp). rewrite Hph in Hp.
  apply throughout_call; [done|]. intros x s' [-> Hx]. cbn in x. destruct x as [new|e]; [|done].
  destruct (Hx new eq_refl) as (Hcert & Hval & Hnk & Hpair). cbv zeta.
  fold (staged (key_pem st) (ca_key new) (ca_cert new)). set (data := staged _ _ _).
  destruct (staged_lookup (key_pem st) (ca_key new) (ca_cert new)) as (Hd1 & Hd2 & Hd3).
  assert (∀ sec, render_ca_secret kafka kn "ca-key" data
      {[ANN_KEY_GENERATION := display_Z (key_generation st)]} = Ok sec →
    inv (<[kn := applied (s !! kn) sec]> s)) as Hi.
  { intros sec Hsec. eapply inv_key_patch; [|apply Hinv|exact Hd1|exact Hkv|exact Hsec].
    intros c' b' Hc' Hcb st' Hb' Hph' Hk' _ _. rewrite Hc in Hc'. injection Hc' as <-.
    destruct Hreads. assert (b' = b) as -> by congruence.
    exists sg, rest. rewrite Hb', Hph', Hk', <- reads_bundle0, <- reads_phase0, Hph. done. }
  apply through_patch; [done|done|by intros|]. intros sec Hsec.
  destruct (key_patched _ _ _ _ _ (s !! kn) c b _ Hsec Hd1 Hkv (reads_cert _ _ _ _ Hreads))
    as (st1 & Hst1 & _ & _ & Hk1 & Hnk1 & Hnc1 & _).
  apply read_ca_state_reads in Hst1 as Hr1.
  assert (allowed (dedup_blocks (prune_expired (bundle st) (now inp) ++ [normalize_block (ca_cert new)])))
    as Hal' by (by eapply Hal, nb_trust).
  rewrite Hb, prune_expired_cons, <- app_comm_cons in *.
  set (more := List.filter _ _ ++ _).
  destruct (dedup_blocks_cons sg more) as [l' Hl'].
  eapply through_cert_patch; [by apply Hi|by rewrite lookup_insert_eq| | |done| |done|].
  - cbn. rewrite <- Hk1. apply Hr1.
  - apply Forall_dedup_blocks. apply Forall_cons in Hbl as [? Hbl].
    constructor; [done|]. apply Forall_app. split; [|by repeat constructor; apply normalize_good_block].
    rewrite Forall_forall in *. intros y [Hy _]%elem_of_List_filter. auto.
  - intros st' Hb' Hph' Hkey' Hpk Hpc. exists sg, l'. rewrite Hb', Hph', Hkey'. split; [done|].
    exists (ca_key new), (ca_cert new). rewrite Hpk, Hpc, <- (reads_next_key _ _ _ _ Hr1), <- (reads_next_cert _ _ _ _ Hr1).
    split; [by apply Hnk1|]. split; [by apply Hnc1|]. split; [done|]. split; [|by auto].
    apply elem_of_dedup_blocks. set_solver.
  - exists sg, l'. by split.
Qed.

Lemma rotate_promote name (inp : RotationInputs Time) :
  phase st = KeyReplaceTrust → generate inp = true → rollout_converged inp = true →
  (∀ l, next_bundle pairs st inp l → allowed l) →
  through (rotate kafka kn cn name st PromoteNewKey inp b) s rot_ok.
Proof.
  intros Hph Hgen Hconv Hal. destruct (reads_blocks _ _ _ _ Hreads) as (Hbl & _).
  destruct Hok as (sg & rest & Hb & Hp). rewrite Hph in Hp.
  destruct Hp as (pk & pc & Hpk & Hpc & Hcert & Hin & Hpair & _).
  cbn [rotate]. rewrite Hpk, Hpc. cbv zeta.
  set (nc := normalize_block pc) in *. set (key_gen := if negb _ then _ else _).
  assert (valid_utf8 pk) as Hpkv.
  { eapply read_pem_key_valid. by rewrite <- (reads_next_key _ _ _ _ Hreads). }
  assert (good_block nc) as Hnc by (rewrite Forall_forall in Hbl; by apply Hbl).
  fold (staged pk pk nc). destruct (staged_lookup pk pk nc) as (Hd1 & Hd2 & Hd3).
  assert (∀ sec, render_ca_secret kafka kn "ca-key" (staged pk pk nc)
      {[ANN_KEY_GENERATION := display_Z key_gen]} = Ok sec →
    inv (<[kn := applied (s !! kn) sec]> s)) as Hi.
  { intros sec Hsec. eapply inv_key_patch; [|apply Hinv|exact Hd1|exact Hpkv|exact Hsec].
    intros c' b' Hc' Hcb st' Hb' Hph' Hk' Hnk' Hnc'. rewrite Hc in Hc'. injection Hc' as <-.
    destruct Hreads. assert (b' = b) as -> by congruence.
    exists sg, rest. rewrite Hb', Hph', Hk', <- reads_bundle0, <- reads_phase0, Hph. split; [done|].
    exists pk, nc. rewrite (Hnk' _ Hd2 Hpkv), (Hnc' _ Hd3 (proj2 Hnc)).
    rewrite (normalize_block_idem nc) by apply Hnc.
    split; [done|]. split; [done|]. split; [|by auto].
    unfold has_cert. by rewrite split_pem_certs_block by apply Hnc. }
  apply through_patch; [done|done|by intros|]. intros sec Hsec.
  destruct (key_patched _ _ _ _ _ (s !! kn) c b _ Hsec Hd1 Hpkv (reads_cert _ _ _ _ Hreads))
    as (st1 & Hst1 & _ & _ & Hk1 & _).
  apply read_ca_state_reads in Hst1 as Hr1.
  set (remaining := List.filter _ _). destruct (dedup_blocks_cons nc remaining) as [l' Hl'].
  assert (Forall good_block (dedup_blocks (nc :: remaining))) as Hg.
  { apply Forall_dedup_blocks. constructor; [done|].
    rewrite Forall_forall in *. intros y [Hy _]%elem_of_List_filter. auto. }
  assert (allowed (prune_expired (dedup_blocks (nc :: remaining)) (now inp))) as Hal'
    by (by eapply Hal, nb_promote).
  rewrite Hl' in *. rewrite prune_expired_cons in *.
  eapply through_cert_patch; [by apply Hi|by rewrite lookup_insert_eq| | |done| |done|].
  - cbn. rewrite <- Hk1. apply Hr1.
  - rewrite <- (prune_expired_cons nc l'). by apply Forall_prune_expired.
  - intros st' Hb' Hph' Hkey' _ _. eexists nc, _. rewrite Hb', Hph', Hkey'. by split.
  - by eexists nc, _.
Qed.

Lemma rotate_prune name (inp : RotationInputs Time) :
  phase st = Idle ∨
    (phase st = KeyReplacePromote ∧ rollout_converged inp = true ∧
     (which inp = Cluster ∨ leafs_key_generation st = Some (key_generation st))) →
  generate inp = true → (∀ l, next_bundle pairs st inp l → allowed l) →
  through (rotate kafka kn cn name st PruneOldTrust inp b) s rot_ok.
Proof.
  intros Hph Hgen Hal. destruct (reads_blocks _ _ _ _ Hreads) as (Hbl & Hkv).
  destruct Hok as (sg & rest & Hb & Hp).
  assert (pairs sg (key_pem st)) as Hpair by (destruct Hph as [Hx|[Hx _]]; by rewrite Hx in Hp). clear Hp.
  cbn [rotate]. case_bool_decide as Hpr.
  - assert (∀ sec, render_ca_secret kafka kn "ca-key" {["ca.key" := key_pem st]}
        {[ANN_KEY_GENERATION := display_Z (key_generation st)]} = Ok sec →
      inv (<[kn := applied (s !! kn) sec]> s)) as Hi.
    { intros sec Hsec. eapply inv_key_patch; [|apply Hinv|apply lookup_singleton_eq|exact Hkv|exact Hsec].
      intros c' b' Hc' Hcb st' Hb' Hph' Hk' _ _. rewrite Hc in Hc'. injection Hc' as <-.
      destruct Hreads. assert (b' = b) as -> by congruence.
      exists sg, rest. rewrite Hb', Hph', Hk', <- reads_bundle0, <- reads_phase0, Hpr. done. }
    apply throughout_bind, through_patch; [done|done|by intros|]. intros sec Hsec.
    destruct (key_patched _ _ _ _ _ (s !! kn) c b _ Hsec (lookup_singleton_eq _ _) Hkv
      (reads_cert _ _ _ _ Hreads)) as (st1 & Hst1 & _ & _ & Hk1 & _).
    apply read_ca_state_reads in Hst1 as Hr1.
    apply through_ret; [by apply Hi|].
    assert (allowed (option_list (head (bundle st)))) as Hal'.
    { destruct Hph as [Hx|(? & ? & ?)]; [congruence|]. by apply Hal, nb_distrust. }
    rewrite Hb in *. cbn [head option_list] in *.
    eapply through_cert_patch; [by apply Hi|by rewrite lookup_insert_eq| | |done| |done|].
    + cbn. rewrite <- Hk1. apply Hr1.
    + apply Forall_cons in Hbl as [? _]. by repeat constructor; apply H1.
    + intros st' Hb' Hph' Hkey' _ _. exists sg, []. rewrite Hb', Hph', Hkey'. by split.
    + by exists sg, [].
  - assert (allowed (prune_expired (bundle st) (now inp))) as Hal'.
    { destruct Hph as [Hx|[Hx _]]; [by apply Hal, nb_expire|congruence]. }
    cbn [mbind prog_bind]. rewrite Hb, prune_expired_cons in *.
    eapply through_cert_patch; [done|done|by apply Hreads| |done| |done|].
    + rewrite <- prune_expired_cons. by apply Forall_prune_expired.
    + intros st' Hb' Hph' Hkey' _ _. eexists sg, _. rewrite Hb', Hph', Hkey'. by split.
    + by eexists sg, _.
Qed.

Lemma rotate_safe name (inp : RotationInputs Time) :
  (∀ l, next_bundle pairs st inp l → allowed l) →
  through (rotate kafka kn cn name st (plan_ca_rotation st inp) inp b) s rot_ok.
Proof.
  intros Hal. unfold plan_ca_rotation.
  destruct (generate inp) eqn:Hgen; cbn [negb]; [|case_match; apply rotate_kept; eauto].
  destruct (phase st) eqn:Hph.
  - repeat case_match; first [by apply rotate_start | by apply rotate_renew
      | by apply rotate_prune; [left|..] | apply rotate_kept; eauto].
  - case_match; [by apply rotate_promote|apply rotate_kept; eauto].
  - case_match eqn:Hc'; [|apply rotate_kept; eauto].
    apply andb_true_iff in Hc' as [Hconv Hl]. rewrite orb_true_iff, !bool_decide_eq_true in Hl.
    apply rotate_prune; [right|..]; done.
Qed.

Lemma apply_ca_rotation_safe name (inp : RotationInputs Time) :
  (∀ l, next_bundle pairs st inp l → allowed l) →
  through (apply_ca_rotation kafka kn cn name st (plan_ca_rotation st inp) inp b) s outcome_ok.
Proof.
  intros Hal. unfold apply_ca_rotation. apply throughout_bind.
  eapply throughout_mono; [|by apply rotate_safe].
  intros s' [r|e] Hs' Hr; apply through_ret; try done.
  unfold rotation_outcome. destruct (map_err Some _) as [na|e]; [|done].
  destruct (rotation_condition _ _ _) as [[[ip rs] ms]|]; [|done]. cbn.
  destruct Hr as [(sg & rest & Hb & Hblk & Hp)|Hr]; [left|by right].
  unfold material_ok. cbn. rewrite Hb. cbn. by rewrite normalize_block_idem.
Qed.
End safety_proofs.

Section claims.
Context `{TimeOps Time} `{X509} (pairs : string → string → Prop) (kafka : KafkaCas) (w : WhichCa).

(** The bundle stored in [s], seen from the pair a pass read in [s0]. *)
Definition evolves (inp : RotationInputs Time) (s0 s : ca_store) : Prop :=
  ∀ k c st b, s0 !! ca_key_name kafka w = Some k → s0 !! ca_cert_name kafka w = Some c →
    read_ca_state k c = Some (st, b) → bundle_in kafka w (next_bundle pairs st inp) s.

Lemma reconcile_ca_safe force_renew force_replace_key converged at_ s0 :
  ca_inv pairs kafka w s0 →
  throughout (api_step pairs)
    (λ s, ca_inv pairs kafka w s ∧
          evolves (rotation_inputs kafka w force_renew force_replace_key converged at_) s0 s)
    (reconcile_ca (Time := Time) kafka w force_renew force_replace_key converged at_) s0
    (outcome_ok pairs kafka w).
Proof.
  intros Hinv. set (inp := rotation_inputs _ _ _ _ _ _).
  assert (evolves inp s0 s0) as Hev0.
  { intros k c st b Hk Hc Hst c' b' Hc' Hb'. apply read_ca_state_reads in Hst as [].
    assert (bundle st = split_pem_certs b') as <- by (simplify_eq; congruence). apply nb_same. }
  unfold reconcile_ca. cbv zeta. fold inp.
  apply throughout_call; [done|]. intros x s [-> Hx]. cbn in x. destruct x as [ok|e]; [|done].
  apply throughout_call; [done|]. intros y s [-> Hy]. cbn in y. destruct y as [oc|e]; [|done].
  rewrite (Hx ok eq_refl), (Hy oc eq_refl). clear ok oc Hx Hy.
  destruct (and_then (s0 !! ca_key_name kafka w) _) as [[st b]|] eqn:Est.
  - apply and_then_Some in Est as (k & Hk & Est). apply and_then_Some in Est as (c & Hc & Est).
    apply read_ca_state_reads in Est as Hr.
    destruct (Hinv c b Hc (reads_cert _ _ _ _ Hr)) as (k' & st' & Hk' & Hst' & Hok).
    assert (k' = k) as -> by congruence. assert (st' = st) as -> by congruence.
    eapply throughout_weaken; [|eapply (apply_ca_rotation_safe pairs kafka w (next_bundle pairs st inp)
      s0 k c st b Hk Hc Hr Hok); [split; [done|by eapply Hev0]|done]].
    intros s [Hs Hb]. split; [done|]. intros k2 c2 st2 b2 Hk2 Hc2 Hst2.
    assert (k2 = k) as -> by congruence. assert (c2 = c) as -> by congruence.
    by assert (st2 = st) as -> by congruence.
  - eapply throughout_weaken; [|apply (create_ca_safe pairs kafka w (λ _, True)); [done|by split|]].
    + intros s [Hs _]. split; [done|]. intros k c st b Hk Hc Hst.
      exfalso. by rewrite Hk, Hc in Est; cbn in Est; rewrite Hst in Est.
    + intros c Hc. destruct (read_pem_key c "ca.crt") as [b|] eqn:Hb; [|done]. exfalso.
      destruct (Hinv c b Hc Hb) as (k & st & Hk & Hst & _).
      by rewrite Hk, Hc in Est; cbn in Est; rewrite Hst in Est.
Qed.

(** Recording the reissued leafs changes neither the keys nor the bundle. *)
Lemma mark_leafs_safe s0 generation :
  ca_inv pairs kafka w s0 →
  throughout (api_step pairs) (ca_inv pairs kafka w)
    (mark_leafs_reissued (name_any (kc_meta kafka)) generation) s0 (λ _ _, True).
Proof.
  intros Hinv. apply throughout_call; [done|]. intros x s Hx. split; [|done].
  destruct Hx as [(old & Hold & ->)|[-> _]]; [|done]. intros c b Hc Hcb.
  set (n := clients_ca_cert_name _) in *.
  assert (n ≠ ca_key_name kafka w) as Hnk
    by (unfold n; destruct w; cbn; intros Hn; by apply str_app_inj_l in Hn).
  clearbody n.
  assert (∃ c0, s0 !! ca_cert_name kafka w = Some c0 ∧ sec_data c0 = sec_data c ∧
            read_phase c0 = read_phase c) as (c0 & Hc0 & Hd & Hph).
  { destruct (decide (n = ca_cert_name kafka w)) as [->|Hne].
    - rewrite lookup_insert_eq in Hc. injection Hc as <-. exists old. split; [done|]. split; [done|].
      unfold read_phase, annotation, merged, annotations_of. cbn.
      rewrite lookup_insert_ne by done. by destruct (om_annotations (sec_meta old)).
    - rewrite lookup_insert_ne in Hc by done. eauto. }
  assert (read_pem_key c0 "ca.crt" = Some b) as Hcb0 by (unfold read_pem_key in *; by rewrite Hd).
  destruct (Hinv c0 b Hc0 Hcb0) as (k & st & Hk & Hst & Hok). apply read_ca_state_reads in Hst as [].
  destruct (read_ca_state_exists k c _ b reads_key0 Hcb) as (st' & Hst' & []). exists k, st'.
  rewrite lookup_insert_ne by done. split; [done|]. split; [done|].
  assert (key_pem st' = key_pem st) as Hkey by congruence. unfold state_ok in *.
  rewrite reads_bundle1, reads_phase1, reads_next_key1, reads_next_cert1, Hkey, <- Hph.
  by rewrite <- reads_bundle0, <- reads_phase0, <- reads_next_key0, <- reads_next_cert0.
Qed.

(** C9. Rotation is crash-safe.  From a CA in order, [reconcile_ca] keeps it
    in order at every point: before and after each of its calls, so also when
    it is cut there, or a write fails, or its answer is lost; so does the
    marker of reissued leafs.  In order means ([state_ok]): the signing
    certificate comes first and belongs to the active key, and a staged pair is
    complete and already trusted.  The one exception lies between the two writes
    of a promotion: there the active key may be the staged one already, while the
    old certificate still signs ([interrupted_promotion_mismatch]).  A pass that
    succeeds returns a matching certificate and key, with the same exception. *)
Theorem ca_rotation_crash_safe force_renew force_replace_key converged at_ generation s0 :
  ca_inv pairs kafka w s0 →
  throughout (api_step pairs) (ca_inv pairs kafka w)
    (reconcile_ca (Time := Time) kafka w force_renew force_replace_key converged at_) s0
    (outcome_ok pairs kafka w) ∧
  throughout (api_step pairs) (ca_inv pairs kafka w)
    (mark_leafs_reissued (name_any (kc_meta kafka)) generation) s0 (λ _ _, True).
Proof.
  intros Hinv. split; [|by apply mark_leafs_safe].
  eapply throughout_weaken; [|by apply reconcile_ca_safe]. by intros s [].
Qed.

(** A trust anchor goes only when it expired, or at the end of a key
    replacement; who signs changes only to a certificate of the same key, or to
    one that every broker already trusts. *)
Definition trust_continuity (st : CaState) (inp : RotationInputs Time) (l : list string) : Prop :=
  (∀ blk, blk ∈ bundle st → unexpired (now inp) blk = true → blk ∉ l →
     phase st = KeyReplacePromote ∧ rollout_converged inp = true ∧ head (bundle st) ≠ Some blk ∧
     (which inp = Cluster ∨ leafs_key_generation st = Some (key_generation st))) ∧
  (∃ sg, head l = Some sg ∧
     (head (bundle st) = Some sg ∨ pairs sg (key_pem st) ∨
      (phase st = KeyReplaceTrust ∧ rollout_converged inp = true ∧ sg ∈ bundle st))).

Lemma next_bundle_continuity st inp l :
  state_ok pairs st → next_bundle pairs st inp l → trust_continuity st inp l.
Proof.
  intros (sg & rest & Hb & _) Hn. unfold trust_continuity.
  destruct Hn as [|cert Hph _ Hp|cert key Hph _ _ Hp|cert key Hph _ Hconv Hin Hpk Hp|Hph _ Hconv Hl|Hph _].
  - rewrite Hb. split; [done|]. exists sg. eauto.
  - split.
    + intros blk Hblk Hun Hnin. exfalso. apply Hnin, elem_of_dedup_blocks, elem_of_cons. right.
      by apply prune_expired_keeps.
    + destruct (dedup_blocks_cons (normalize_block cert) (prune_expired (bundle st) (now inp))) as [l' ->].
      eexists. cbn. eauto.
  - split.
    + intros blk Hblk Hun Hnin. exfalso. apply Hnin, elem_of_dedup_blocks, elem_of_app. left.
      by apply prune_expired_keeps.
    + rewrite Hb, prune_expired_cons, <- app_comm_cons.
      edestruct dedup_blocks_cons as [l' ->]. exists sg. cbn. eauto.
  - split.
    + intros blk Hblk Hun Hnin. exfalso. apply Hnin, prune_expired_keeps; [|done].
      rewrite elem_of_dedup_blocks, elem_of_cons, elem_of_List_filter, negb_true_iff, str_eqb_neq.
      destruct (decide (blk = cert)); auto.
    + rewrite prune_expired_head. edestruct dedup_blocks_cons as [l' ->]. exists cert. cbn. eauto 6.
  - rewrite Hb. split; [|exists sg; cbn; eauto]. intros blk Hblk Hun Hnin. cbn in Hnin.
    split; [done|]. split; [done|]. split; [|done]. intros [= ->]. set_solver.
  - split.
    + intros blk Hblk Hun Hnin. exfalso. by apply Hnin, prune_expired_keeps.
    + rewrite prune_expired_head, Hb. exists sg. cbn. eauto.
Qed.

(** C10. Trust before use, use before distrust.  At every point of a pass, cut
    or not, compare the stored bundle with the one that was read: an unexpired
    trust anchor is gone only at the end of a key replacement, after the rollout
    converged and, for the clients CA, every leaf was reissued with the current
    key generation, and the signing certificate never goes; and the certificate
    that signs is the same one, one of the same key, or, once the rollout that
    distributed it converged, one that was already in the trust bundle. *)
Theorem ca_trust_continuity force_renew force_replace_key converged at_ s0 :
  ca_inv pairs kafka w s0 →
  throughout (api_step pairs)
    (λ s, ∀ k c st b, s0 !! ca_key_name kafka w = Some k → s0 !! ca_cert_name kafka w = Some c →
       read_ca_state k c = Some (st, b) →
       bundle_in kafka w (trust_continuity st
         (rotation_inputs kafka w force_renew force_replace_key converged at_)) s)
    (reconcile_ca (Time := Time) kafka w force_renew force_replace_key converged at_) s0
    (λ _ _, True).
Proof.
  intros Hinv. eapply throughout_mono; [done|].
  eapply throughout_weaken; [|by apply reconcile_ca_safe].
  intros s [_ Hev] k c st b Hk Hc Hst c' b' Hc' Hb'. apply next_bundle_continuity; [|by eapply Hev].
  apply read_ca_state_reads in Hst as Hr.
  destruct (Hinv c b Hc (reads_cert _ _ _ _ Hr)) as (k1 & st1 & Hk1 & Hst1 & Hok).
  assert (k1 = k) as -> by congruence. by assert (st1 = st) as -> by congruence.
Qed.

Lemma plan_byo st force_renew force_replace_key converged at_ :
  generate_certificate_authority (ca_spec kafka w) = false →
  plan_ca_rotation (Time := Time) st
    (rotation_inputs kafka w force_renew force_replace_key converged at_) =
  if force_renew || force_replace_key then Refuse Byo else NoOp.
Proof.
  intros Hgen. unfold plan_ca_rotation. cbn. rewrite Hgen.
  by destruct force_renew, force_replace_key.
Qed.

(** A run that ends with an error after reads only. *)
Ltac byo_quiet := cbn; intros _; split; [set_solver|done].

(** A CA the operator does not own is never touched.  With
    [generateCertificateAuthority: false] a pass only reads: no certificate is
    generated or re-signed, no Secret is written.  Its outcome serves the stored
    bundle byte for byte and keeps the generations and the phase, and a forced
    rotation is refused. *)
Theorem byo_ca_untouched force_renew force_replace_key converged at_ :
  all_runs (reconcile_ca (Time := Time) kafka w force_renew force_replace_key converged at_)
    (λ tr r, generate_certificate_authority (ca_spec kafka w) = false →
       (∀ a, a ∈ calls tr → ∃ n, a = GetSecret n) ∧
       ∀ oc, r = Ok oc → ∃ k c st b,
         ev (GetSecret (ca_key_name kafka w)) (Ok (Some k)) ∈ tr ∧
         ev (GetSecret (ca_cert_name kafka w)) (Ok (Some c)) ∈ tr ∧
         read_ca_state k c = Some (st, b) ∧
         trust_bundle_pem oc = b ∧ oc_phase oc = phase st ∧
         oc_cert_generation oc = cert_generation st ∧ oc_key_generation oc = key_generation st ∧
         ca_key (signing_material oc) = key_pem st ∧ generated oc = false ∧
         refused oc = if force_renew || force_replace_key then Some Byo else None).
Proof.
  destruct (generate_certificate_authority (ca_spec kafka w)) eqn:Hgen.
  { apply (all_runs_mono _ (λ _ _, True)); [done|]. apply all_runs_trivial. }
  unfold all_runs, reconcile_ca, create_ca. rewrite Hgen. cbv zeta. cbn [negb].
  intros [ok|e]; [|byo_quiet]. intros [oc|e]; [|byo_quiet].
  cbn [mbind prog_bind].
  destruct (and_then ok _) as [[st b]|] eqn:Est; [|byo_quiet].
  apply and_then_Some in Est as (k & -> & Est). apply and_then_Some in Est as (c & -> & Est).
  rewrite plan_byo by done.
  unfold apply_ca_rotation. destruct force_renew, force_replace_key; cbn [orb rotate].
  all: cbn; split; [set_solver|]; intros oc; unfold rotation_outcome;
    destruct (map_err Some _); [|done]; cbn; destruct (phase st) eqn:Hph; cbn; intros [= <-].
  all: exists k, c, st, b; cbn; split; [set_solver|]; split; [set_solver|].
  all: by rewrite ?Hph, Hgen.
Qed.
End claims.

(** ** Replaying a promotion *)

(** An API server that stores, except for the writes that are [lost]. *)
Definition api_env (lost : ca_call → bool) (s : ca_store) (a : ca_call) : ca_store * ca_resp a :=
  match a return ca_store * ca_resp a with
  | GetSecret n => (s, Ok (s !! n))
  | ApplySecret n sec =>
      if lost (ApplySecret n sec) then (s, Err (KubeOther "connection reset"))
      else (<[n := applied (s !! n) sec]> s, Ok tt)
  | MergeAnnotation n k v =>
      match s !! n with
      | Some old => (<[n := merged old k v]> s, Ok tt)
      | None => (s, Err (KubeApi 404))
      end
  | GenerateCa _ _ _ => (s, Err "no entropy")
  | RenewCa _ _ _ _ => (s, Err "no entropy")
  end.

Definition none_lost (_ : ca_call) : bool := false.
Definition writes_to (name : string) (a : ca_call) : bool :=
  match a with ApplySecret n _ => str_eqb n name | _ => false end.

Section replay.
Context `{TimeOps Time} `{X509} (kafka : KafkaCas) (w : WhichCa).
Notation kn := (ca_key_name kafka w).
Notation cn := (ca_cert_name kafka w).

(** The two Secrets a promotion writes. *)
Definition promoted_key_gen (st : CaState) (pk : string) : Z :=
  if negb (str_eqb (key_pem st) pk) then next_generation (key_generation st) else key_generation st.

Definition promoted_key_secret (pk pc : string) (g : Z) : result secret ReconcileError :=
  render_ca_secret kafka kn "ca-key"
    (staged pk pk (normalize_block pc)) {[ANN_KEY_GENERATION := display_Z g]}.

Definition promoted_cert_secret (st : CaState) (pc : string) (at_ : Z) : result secret ReconcileError :=
  let nc := normalize_block pc in
  render_ca_secret kafka cn "ca-cert"
    {["ca.crt" := join_bundle (prune_expired (dedup_blocks
        (nc :: List.filter (λ b, negb (str_eqb b nc)) (bundle st))) at_)]}
    {[ANN_CERT_GENERATION := display_Z (next_generation (cert_generation st));
      ANN_ROTATION_PHASE := as_str KeyReplacePromote]}.

Lemma promote_exec lost fr fk at_ s k c st b pk pc ksec csec :
  s !! kn = Some k → s !! cn = Some c → read_ca_state k c = Some (st, b) →
  generate_certificate_authority (ca_spec kafka w) = true → phase st = KeyReplaceTrust →
  pending_key_pem st = Some pk → pending_cert_pem st = Some pc →
  promoted_key_secret pk pc (promoted_key_gen st pk) = Ok ksec →
  promoted_cert_secret st pc at_ = Ok csec →
  lost (ApplySecret kn ksec) = false →
  (exec (api_env lost) (reconcile_ca (Time := Time) kafka w fr fk true at_) s).1.1 =
    (let s1 := <[kn := applied (Some k) ksec]> s in
     if lost (ApplySecret cn csec) then s1 else <[cn := applied (Some c) csec]> s1).
Proof.
  intros Hk Hc Hst Hgen Hph Hpk Hpc Hks Hcs Hl.
  assert (plan_ca_rotation (Time := Time) st (rotation_inputs kafka w fr fk true at_) = PromoteNewKey)
    as Hplan by (unfold plan_ca_rotation; cbn; by rewrite Hgen, Hph).
  unfold reconcile_ca. cbv zeta. cbn [mbind prog_bind perform exec api_env].
  rewrite Hk, Hc. cbn [and_then]. rewrite Hst, Hplan.
  unfold apply_ca_rotation, rotate. rewrite Hpk, Hpc. unfold patch_key, patch_secret.
  unfold promoted_key_secret, promoted_key_gen, staged in Hks. rewrite Hks.
  cbn [mbind prog_bind perform exec api_env map_err]. rewrite Hl, Hk.
  cbn [mbind prog_bind perform exec api_env map_err].
  unfold patch_cert_bundle, patch_secret. unfold promoted_cert_secret in Hcs. cbv zeta in Hcs.
  change (now (rotation_inputs kafka w fr fk true at_)) with at_. rewrite Hcs.
  cbn [mbind prog_bind perform exec api_env map_err].
  rewrite lookup_insert_ne, Hc by apply key_cert_names.
  by destruct (lost (ApplySecret cn csec)).
Qed.

Lemma applied_idem name label data ann sec old :
  render_ca_secret kafka name label data ann = Ok sec → dom ann ⊆ list_to_set operator_annotations →
  applied (Some (applied old sec)) sec = applied old sec.
Proof.
  intros [_ Ha]%render_ca_secret_Ok Hdom.
  assert (∀ i x, annotations_of sec !! i = Some x → i ∈ operator_annotations) as HA.
  { rewrite Ha. intros i x Hi. apply lookup_union_Some_raw in Hi as [Hi|[_ Hi]].
    - apply elem_of_dom_2, Hdom, elem_of_list_to_set in Hi. done.
    - apply lookup_singleton_Some in Hi as [<- _]. set_solver. }
  set (F := filter (λ kv : string * string, kv.1 ∉ operator_annotations)
              (default ∅ (annotations_of <$> old))).
  assert (annotations_of sec ∪ filter (λ kv : string * string, kv.1 ∉ operator_annotations)
            (annotations_of sec ∪ F) = annotations_of sec ∪ F) as HF.
  { apply map_eq. intros i. rewrite !lookup_union. destruct (annotations_of sec !! i) as [x|] eqn:Hi.
    - by destruct (filter _ _ !! i), (F !! i).
    - f_equal. rewrite map_lookup_filter, lookup_union, Hi. cbn.
      destruct (F !! i) as [y|] eqn:Hy; cbn; [|done].
      apply map_lookup_filter_Some in Hy as [_ Hy]. by rewrite option_guard_True. }
  change (applied (Some (applied old sec)) sec) with
    {| sec_meta := with_annotations (sec_meta sec) (annotations_of sec ∪
         filter (λ kv : string * string, kv.1 ∉ operator_annotations) (annotations_of sec ∪ F));
       sec_data := sec_data sec |}. by rewrite HF.
Qed.

Lemma render_ok name label data ann :
  is_Some (om_uid (kc_meta kafka)) → ∃ sec, render_ca_secret kafka name label data ann = Ok sec.
Proof. intros [u Hu]. unfold render_ca_secret, owner_ref. rewrite Hu. cbn. eauto. Qed.

Lemma promoted_key_gen_range k c st b pk :
  reads k c st b → 0 ≤ promoted_key_gen st pk ≤ u64_max.
Proof.
  intros []. assert (0 ≤ key_generation st ≤ u64_max).
  { rewrite reads_key_gen0. unfold read_generation, read_optional_generation.
    destruct (annotation _ _) as [v|]; cbn; [|by vm_compute].
    destruct (parse_u64 v) eqn:E; cbn; [by apply parse_u64_range in E|by vm_compute]. }
  unfold promoted_key_gen, next_generation. case_match; [|done].
  assert (0 < u64_max + 1) by (by vm_compute). pose proof (Z.mod_pos_bound (key_generation st + 1) (u64_max + 1)). lia.
Qed.

(** C11. A promotion cut between its two writes is completed by a next pass that
    runs with the rollout still converged, as if it had not been cut: from a CA whose new key is staged, a pass whose
    certificate write is lost, followed by a converged pass, leaves exactly the
    Secrets that the second pass alone would have left.  In particular the key
    generation counts the key once. *)
Theorem promotion_replay pairs s k c st b fr fk at_ fr' fk' at' :
  s !! kn = Some k → s !! cn = Some c → read_ca_state k c = Some (st, b) → state_ok pairs st →
  phase st = KeyReplaceTrust → generate_certificate_authority (ca_spec kafka w) = true →
  is_Some (om_uid (kc_meta kafka)) →
  let pass := reconcile_ca (Time := Time) kafka w in
  let cut := (exec (api_env (writes_to cn)) (pass fr fk true at_) s).1.1 in
  (exec (api_env none_lost) (pass fr' fk' true at') cut).1.1 =
  (exec (api_env none_lost) (pass fr' fk' true at') s).1.1.
Proof.
  intros Hk Hc Hst Hok Hph Hgen Huid pass cut.
  destruct Hok as (sg & rest & Hb & Hp). rewrite Hph in Hp.
  destruct Hp as (pk & pc & Hpk & Hpc & Hcert & Hin & _). apply read_ca_state_reads in Hst as Hr.
  destruct (reads_blocks _ _ _ _ Hr) as [Hbl _]. rewrite Forall_forall in Hbl.
  destruct (Hbl _ Hin) as [Hncb Hncv]. set (nc := normalize_block pc) in *.
  assert (valid_utf8 pk) as Hpkv.
  { eapply read_pem_key_valid. by rewrite <- (reads_next_key _ _ _ _ Hr). }
  set (g := promoted_key_gen st pk).
  destruct (render_ok kn "ca-key" (staged pk pk nc) {[ANN_KEY_GENERATION := display_Z g]} Huid) as [ksec Hks].
  assert (∀ t, ∃ sec, promoted_cert_secret st pc t = Ok sec) as Hcs by (intros; by apply render_ok).
  destruct (Hcs at_) as [csec1 Hcs1]. destruct (Hcs at') as [csec Hcs2].
  assert (writes_to cn (ApplySecret kn ksec) = false) as Hwk by (by apply str_eqb_neq, key_cert_names).
  assert (cut = <[kn := applied (Some k) ksec]> s) as ->.
  { unfold cut, pass. rewrite (promote_exec _ _ _ _ _ k c st b pk pc ksec csec1) by done.
    cbn [writes_to]. by rewrite str_eqb_refl. }
  destruct (staged_lookup pk pk nc) as (Hd1 & Hd2 & Hd3).
  destruct (key_patched _ _ _ _ _ (Some k) c b _ Hks Hd1 Hpkv (reads_cert _ _ _ _ Hr))
    as (st1 & Hst1 & Hb1 & Hph1 & Hk1 & Hnk1 & Hnc1 & Hg1 & Hcg1).
  rewrite <- (reads_bundle _ _ _ _ Hr) in Hb1. rewrite <- (reads_phase _ _ _ _ Hr) in Hph1.
  rewrite <- (reads_cert_gen _ _ _ _ Hr) in Hcg1.
  assert (key_generation st1 = g) as Hg1'.
  { rewrite Hg1. unfold parse_u64. rewrite parse_unsigned_display; [done|by eapply promoted_key_gen_range]. }
  unfold pass. rewrite (promote_exec none_lost _ _ _ s k c st b pk pc ksec csec) by done.
  rewrite (promote_exec none_lost _ _ _ _ (applied (Some k) ksec) c st1 b pk nc ksec csec).
  - cbn [none_lost]. rewrite insert_insert_eq. rewrite (applied_idem _ _ _ _ _ _ Hks); [done|].
    rewrite dom_singleton_L. set_solver.
  - apply lookup_insert_eq.
  - by rewrite lookup_insert_ne by apply key_cert_names.
  - done.
  - done.
  - congruence.
  - by apply Hnk1.
  - by apply Hnc1.
  - unfold promoted_key_secret, promoted_key_gen. rewrite Hk1, str_eqb_refl, Hg1'. cbn [negb].
    by rewrite normalize_block_idem.
  - unfold promoted_cert_secret in *. by rewrite normalize_block_idem, Hb1, Hcg1.
  - done.
Qed.
End replay.

(** ** Witnesses: a cluster CA whose new key is staged and trusted *)
Definition demo_x509 : X509 := {|
  first_der pem := Some (Ok pem);
  der_not_after _ := Ok 4102444800;
  from_unix_timestamp t := Ok (t * 1000000000);
  rfc3339 _ := Ok "2100-01-01T00:00:00Z" |}.

Definition demo_pairs (cert key : string) : Prop := cert = demo_block key.

Definition demo_kafka : KafkaCas := {|
  kc_meta := ObjectMeta (Some "prod") (Some "kafka") (Some "uid-1") None None None None false [];
  cluster_ca := None; clients_ca := None |}.

Definition demo_secret (data annotations : gmap string string) : secret := {|
  sec_meta := ObjectMeta None None None None (Some annotations) None None false [];
  sec_data := Some data |}.

Definition demo_key_secret : secret :=
  demo_secret (staged "old" "new" (demo_block "new")) {[ANN_KEY_GENERATION := "3"]}.
Definition demo_cert_secret : secret :=
  demo_secret {["ca.crt" := join_bundle [demo_block "old"; demo_block "new"]]}
    {[ANN_CERT_GENERATION := "5"; ANN_ROTATION_PHASE := "key-replace-trust"]}.
Definition demo_store : ca_store :=
  {["prod-cluster-ca" := demo_key_secret; "prod-cluster-ca-cert" := demo_cert_secret]}.

Definition demo_state : CaState := {|
  bundle := [demo_block "old"; demo_block "new"]; key_pem := "old";
  pending_key_pem := Some "new"; pending_cert_pem := Some (demo_block "new");
  cert_generation := 5; key_generation := 3; leafs_key_generation := None;
  phase := KeyReplaceTrust |}.

Lemma demo_reads :
  demo_store !! ca_key_name demo_kafka Cluster = Some demo_key_secret ∧
  demo_store !! ca_cert_name demo_kafka Cluster = Some demo_cert_secret ∧
  read_ca_state demo_key_secret demo_cert_secret =
    Some (demo_state, join_bundle [demo_block "old"; demo_block "new"]).
Proof. split; [|split]; vm_compute; reflexivity. Qed.

Lemma demo_state_ok : state_ok demo_pairs demo_state.
Proof.
  exists (demo_block "old"), [demo_block "new"]. split; [done|]. cbn.
  exists "new", (demo_block "new"). split; [done|]. split; [done|].
  assert (normalize_block (demo_block "new") = demo_block "new") as Hn by (vm_compute; reflexivity).
  split; [intros Hs; by vm_compute in Hs|]. rewrite Hn. split; [set_solver|]. split; [done|]. by left.
Qed.

Lemma demo_inv : ca_inv demo_pairs demo_kafka Cluster demo_store.
Proof.
  destruct demo_reads as (Hk & Hc & Hst). intros c b Hc' Hb. rewrite Hc in Hc'. injection Hc' as <-.
  exists demo_key_secret, demo_state. split; [done|]. split; [|exact demo_state_ok].
  apply read_ca_state_reads in Hst as Hr. rewrite (reads_cert _ _ _ _ Hr) in Hb. by injection Hb as <-.
Qed.

Lemma ca_rotation_crash_safe_witness :
  throughout (api_step demo_pairs) (ca_inv demo_pairs demo_kafka Cluster)
    (@reconcile_ca Z _ demo_x509 demo_kafka Cluster false false true 0) demo_store
    (outcome_ok demo_pairs demo_kafka Cluster) ∧
  throughout (api_step demo_pairs) (ca_inv demo_pairs demo_kafka Cluster)
    (mark_leafs_reissued "prod" 4) demo_store (λ _ _, True).
Proof.
  apply (@ca_rotation_crash_safe Z _ demo_x509 demo_pairs demo_kafka Cluster false false true 0 4).
  exact demo_inv.
Defined.

Lemma ca_trust_continuity_witness :
  throughout (api_step demo_pairs)
    (λ s, ∀ k c st b, demo_store !! ca_key_name demo_kafka Cluster = Some k →
       demo_store !! ca_cert_name demo_kafka Cluster = Some c → read_ca_state k c = Some (st, b) →
       bundle_in demo_kafka Cluster (@trust_continuity Z demo_x509 demo_pairs st
         (rotation_inputs demo_kafka Cluster false false true 0)) s)
    (@reconcile_ca Z _ demo_x509 demo_kafka Cluster false false true 0) demo_store (λ _ _, True).
Proof.
  apply (@ca_trust_continuity Z _ demo_x509 demo_pairs demo_kafka Cluster false false true 0).
  exact demo_inv.
Defined.

(** The store a promotion leaves when its certificate write is lost. *)
Definition demo_cut : ca_store :=
  (exec (api_env (writes_to "prod-cluster-ca-cert"))
     (@reconcile_ca Z _ demo_x509 demo_kafka Cluster false false true 0) demo_store).1.1.

Lemma promotion_replay_witness :
  (exec (api_env none_lost)
     (@reconcile_ca Z _ demo_x509 demo_kafka Cluster true false true 60) demo_cut).1.1 =
  (exec (api_env none_lost)
     (@reconcile_ca Z _ demo_x509 demo_kafka Cluster true false true 60) demo_store).1.1.
Proof.
  destruct demo_reads as (Hk & Hc & Hst).
  apply (@promotion_replay Z _ demo_x509 demo_kafka Cluster demo_pairs demo_store demo_key_secret
    demo_cert_secret demo_state _ false false 0 true false 60 Hk Hc Hst demo_state_ok eq_refl eq_refl).
  by exists "uid-1".
Defined.

(** While the rollout is not converged, the pass after a cut promotion serves
    the new key together with the old signing certificate. *)
Lemma interrupted_promotion_mismatch :
  match (exec (api_env none_lost)
           (@reconcile_ca Z _ demo_x509 demo_kafka Cluster false false false 60) demo_cut).2 with
  | Ok oc => signing_material oc = {| ca_cert := demo_block "old"; ca_key := "new" |}
  | Err _ => False
  end.
Proof. vm_compute. reflexivity. Qed.
