(* ===== verification/BrokerKeystore.v ===== *)
(** * Broker certificates (src/controller/cluster_ca.rs)

    The keystore Secret with one leaf certificate per broker, which a pass of the
    Kafka controller keeps in line with the brokers; the digest of the names in a
    certificate; and the renewal job that reissues leafs before they expire and
    flags a CA that is about to. *)

From S2P Require Import Prelude RustStd Effects Kube CaBundle ClusterCa.
Local Open Scope Z_scope.

Definition ANN_RENEW_AFTER : string := "krabka.io/ca-renew-after".
Definition SECRET_TYPE_BROKER_KEYSTORE : string := "broker-keystore".
Definition broker_keystore_name (cluster : string) : string := cluster +:+ "-kafka-brokers".

(** The keys of broker [id] in the Secret. *)
Definition crt_key (id : Z) : string := display_Z id +:+ ".crt".
Definition key_key (id : Z) : string := display_Z id +:+ ".key".
Definition digest_key (id : Z) : string := display_Z id +:+ ".sans-digest".
Definition keys_of (id : Z) : list string := [crt_key id; key_key id; digest_key id].

(** [Path::new(k).extension()]; the key of a Secret has no slash. *)
Definition path_extension (k : string) : option string :=
  and_then (rsplit_once "." k) (λ '(stem, ext), if is_empty stem then None else Some ext).

Section keystore.
(** Addresses with their [Display], the order on names, SHA-256 in hex, and the
    X.509 reader: subject common names and the general names of the SAN
    extension. *)
Context `{TimeOps Time} `{X509} {IpAddr : Type} `{EqDecision IpAddr}.
Context (ip_str : IpAddr → string) (ip_of_bytes : string → IpAddr).

Inductive SubjectAltName : Type :=
  | Dns (d : string)
  | Ip (ip : IpAddr).

#[export] Instance SubjectAltName_eq_dec : EqDecision SubjectAltName.
Proof. solve_decision. Defined.

Inductive GeneralName : Type :=
  | DNSName (s : string)
  | IPAddress (octets : string)
  | OtherName.

Record leaf_names : Type := {
  common_names : list (option string);                       (* as_str().ok() *)
  alternative_names : result (option (list GeneralName)) string;
}.

Context (san_leb : SubjectAltName → SubjectAltName → bool) (sha256_hex : string → string)
        (parse_leaf : string → result leaf_names string).

Record BrokerCertRequest : Type := {
  broker_id : Z;
  req_cn : string;
  sans : list SubjectAltName;
  extra_sans : list SubjectAltName;
}.

Record BrokerKeystoreStatus : Type := {
  issued : list Z;
  reused : list Z;
  pruned : list Z;
  leaf_material : string;
}.

Definition san_line (s : SubjectAltName) : string :=
  match s with
  | Dns d => "DNS:" +:+ d +:+ bytes [10]%nat
  | Ip ip => "IP:" +:+ ip_str ip +:+ bytes [10]%nat
  end.

(** The bytes that are hashed. *)
Definition san_text (base_sans extras : list SubjectAltName) : string :=
  concat_str (map san_line (dedup (sort_by san_leb (base_sans ++ extras)))).

Definition compute_san_digest (base_sans extras : list SubjectAltName) : string :=
  sha256_hex (san_text base_sans extras).

(** ** Calls.  Issuing draws a fresh key. *)
Inductive keystore_call : Type :=
  | ListKafkas (namespace : option string)
  | GetSecret (name : string)
  | ApplySecret (name : string) (s : secret)
  | AnnotateKafka (name key value : string)
  | EmitEvent (type_ reason message : string)
  | IssueBrokerCert (ca_cert ca_key cn : string) (sans extras : list SubjectAltName) (validity_days : Z)
  | NowUtc.

Definition keystore_resp (c : keystore_call) : Type :=
  match c with
  | ListKafkas _ => result (list KafkaCas) kube_error
  | GetSecret _ => result (option secret) kube_error
  | ApplySecret _ _ | AnnotateKafka _ _ _ | EmitEvent _ _ _ => result unit kube_error
  | IssueBrokerCert _ _ _ _ _ _ => result (string * string) string   (* certificate, key *)
  | NowUtc => Z
  end.

Notation pass R := (prog keystore_resp (result R ReconcileError)).
Notation call := (perform (resp := keystore_resp)).

Definition kube {A} (p : prog keystore_resp (result A kube_error)) : pass A :=
  r ← p; Ret (map_err Kube r).

Definition issue_broker_cert (ca : CaMaterial) (cn : string) (names extras : list SubjectAltName)
    (validity : Time) : pass (string * string) :=
  r ← call (IssueBrokerCert (ca_cert ca) (ca_key ca) cn names extras (whole_days validity));
  Ret (map_err Ca r).

(** ** The keystore of a pass *)
Section ensure.
Context (kafka : KafkaCas) (ca : CaMaterial) (force_reissue : bool).
Let name : string := broker_keystore_name (name_any (kc_meta kafka)).
Definition leaf_validity : Time := days (from_option validity_days 365 (cluster_ca kafka)).
Definition leaf_renewal : Time := days (from_option renewal_days 30 (cluster_ca kafka)).

Definition is_expiring (data : gmap string string) (id : Z) : pass bool :=
  match data !! crt_key id with
  | None => Ret (Ok true)
  | Some cert =>
      match from_utf8 cert with
      | Err _ => Ret (Ok true)
      | Ok pem => now ← call NowUtc; Ret (renew_if_expiring pem leaf_renewal now)
      end
  end.

Definition stored_digest (data : gmap string string) (id : Z) : option string :=
  and_then (data !! digest_key id) (λ b, result_ok (from_utf8 b)).

Definition needs_reissue (data : gmap string string) (req : BrokerCertRequest) (expiring : bool) : bool :=
  let id := broker_id req in
  force_reissue
  || negb (opt_is_some (data !! crt_key id) && opt_is_some (data !! key_key id))
  || expiring
  || negb (opt_is_some (stored_digest data id))
  || negb (bool_decide (stored_digest data id
                        = Some (compute_san_digest (sans req) (extra_sans req)))).

Definition store_leaf (data : gmap string string) (req : BrokerCertRequest) (leaf : string * string)
  : gmap string string :=
  let id := broker_id req in
  <[digest_key id := compute_san_digest (sans req) (extra_sans req)]>
    (<[key_key id := leaf.2]> (<[crt_key id := leaf.1]> data)).

Fixpoint issue_leafs (requests : list BrokerCertRequest) (data : gmap string string)
    (issued reused : list Z) : pass (gmap string string * list Z * list Z) :=
  match requests with
  | [] => Ret (Ok (data, issued, reused))
  | req :: requests =>
      expiring ←? is_expiring data (broker_id req);
      if negb (needs_reissue data req expiring)
      then issue_leafs requests data issued (reused ++ [broker_id req])
      else
        leaf ←? issue_broker_cert ca (req_cn req) (sans req) (extra_sans req) leaf_validity;
        issue_leafs requests (store_leaf data req leaf) (issued ++ [broker_id req]) reused
  end.

Definition want_keys (requests : list BrokerCertRequest) : list string :=
  concat (map (λ req, keys_of (broker_id req)) requests).

(** The broker a key belongs to. *)
Definition owner_of (k : string) : option Z :=
  and_then (split_once "." k) (λ '(id_str, _), parse_i32 id_str).

Definition stale (requests : list BrokerCertRequest) (k : string) : bool :=
  negb (bool_decide (k ∈ want_keys requests)) && opt_is_some (owner_of k).

Definition retain (requests : list BrokerCertRequest) (data : gmap string string) : gmap string string :=
  filter (λ kv, stale requests kv.1 = false) data.

Definition pruned_ids (requests : list BrokerCertRequest) (data : gmap string string) : list Z :=
  set_list_Z (list_to_set (filter_map owner_of (List.filter (stale requests) (btree_keys data)))).

Definition leaf_material_of (data : gmap string string) : string :=
  concat_str (map (λ '(_, v), bytes [30]%nat +:+ from_utf8_lossy v)
    (List.filter (λ '(k, _), opt_is_some (strip_suffix ".crt" k)) (btree_list data))).

Definition keystore_secret (data : gmap string string) : result secret ReconcileError :=
  let? owner := owner_ref "Kafka" (kc_meta kafka) in
  Ok {| sec_meta :=
          {| om_name := Some name;
             om_namespace := Some (default "" (om_namespace (kc_meta kafka)));
             om_uid := None;
             om_labels := Some {["krabka.io/secret-type" := SECRET_TYPE_BROKER_KEYSTORE;
                                 "krabka.io/cluster" := name_any (kc_meta kafka)]};
             om_annotations := None; om_finalizers := None; om_generation := None;
             om_deleting := false; om_owners := [owner] |};
        sec_data := Some data |}.

Definition ensure_broker_keystore (requests : list BrokerCertRequest) : pass BrokerKeystoreStatus :=
  existing ←? kube (call (GetSecret name));
  let data := default ∅ (and_then existing sec_data) in
  leafs ←? issue_leafs requests data [] [];
  let '(data, issued, reused) := leafs in
  let pruned := pruned_ids requests data in
  let data := retain requests data in
  match keystore_secret data with
  | Err e => Ret (Err e)
  | Ok s =>
      _ ←? kube (call (ApplySecret name s));
      Ret (Ok {| issued := issued; reused := reused; pruned := pruned;
                 leaf_material := leaf_material_of data |})
  end.
End ensure.

(** ** The renewal job *)
Definition san_of (g : GeneralName) : option SubjectAltName :=
  match g with
  | DNSName s => Some (Dns s)
  | IPAddress octets =>
      if (String.length octets =? 4)%nat || (String.length octets =? 16)%nat
      then Some (Ip (ip_of_bytes octets)) else None
  | OtherName => None
  end.

Definition read_existing_cn_and_sans (cert_pem : string)
  : result (string * list SubjectAltName) ReconcileError :=
  let? der := ok_or (first_der cert_pem) (CertParse "no PEM block in broker cert") in
  let? der := map_err CertParse der in
  let? names := map_err CertParse (parse_leaf der) in
  let? cn := ok_or (and_then (head (common_names names)) id)
               (CertParse "broker cert has no CN in subject") in
  let? ext := map_err CertParse (alternative_names names) in
  Ok (cn, from_option (filter_map san_of) [] ext).

Section renewal.
Context (kafka : KafkaCas) (now : Z).
Let cluster : string := name_any (kc_meta kafka).

Definition emit_event (type_ reason message : string) : pass unit :=
  kube (call (EmitEvent type_ reason message)).

Definition read_existing_ca (w : WhichCa) : pass CaMaterial :=
  let key_name := ca_key_name kafka w in
  let cert_name := ca_cert_name kafka w in
  key ←? kube (call (GetSecret key_name));
  match key with
  | None => Ret (Err (CaSecretMissing key_name))
  | Some key =>
      cert ←? kube (call (GetSecret cert_name));
      match cert with
      | None => Ret (Err (CaSecretMissing cert_name))
      | Some cert =>
          Ret (let? key_pem := ok_or (read_pem_key key "ca.key")
                                 (CertParse (key_name +:+ " ca.key unreadable")) in
               let? cert_pem := ok_or (read_pem_key cert "ca.crt")
                                  (CertParse (cert_name +:+ " ca.crt unreadable")) in
               Ok {| ca_cert := cert_pem; ca_key := key_pem |})
      end
  end.

Definition flag_ca_if_expiring (ca_cert_pem : string) (spec : CertificateAuthority) (w : WhichCa)
  : pass unit :=
  match renew_if_expiring ca_cert_pem (days (renewal_days spec) : Time) now with
  | Err e => Ret (Err e)
  | Ok false => Ret (Ok tt)
  | Ok true =>
      if generate_certificate_authority spec then
        if opt_is_some (annotation (kc_meta kafka) ANN_RENEW_AFTER) then Ret (Ok tt)
        else
          match map_err CertParse (rfc3339 now) with
          | Err e => Ret (Err e)
          | Ok stamp =>
              _ ←? kube (call (AnnotateKafka cluster ANN_RENEW_AFTER stamp));
              emit_event "Normal" "CaRenewalScheduled"
                ("CA " +:+ condition_name w
                   +:+ " is within renewalDays; scheduled a same-key renewal on the next reconcile")
          end
      else
        emit_event "Warning" "ByoCaExpiringSoon"
          ("CA " +:+ condition_name w
             +:+ " is expiring within renewalDays; rotation is the cluster admin's responsibility (BYO)")
  end.

(** One certificate key; [None] when it is left as it is. *)
Definition renew_leaf (ca : CaMaterial) (renewal validity : Time) (data : gmap string string)
    (k : string) : pass (option (Z * gmap string string)) :=
  match owner_of k, and_then (data !! k) (λ b, result_ok (from_utf8 b)) with
  | Some id, Some cert_pem =>
      match renew_if_expiring cert_pem renewal now with
      | Err e => Ret (Err e)
      | Ok false => Ret (Ok None)
      | Ok true =>
          match read_existing_cn_and_sans cert_pem with
          | Err _ => Ret (Ok None)
          | Ok (cn, names) =>
              leaf ←? issue_broker_cert ca cn names [] validity;
              Ret (Ok (Some (id,
                <[digest_key id := compute_san_digest names []]>
                  (<[key_key id := leaf.2]> (<[k := leaf.1]> data)))))
          end
      end
  | _, _ => Ret (Ok None)
  end.

Fixpoint renew_leafs (ca : CaMaterial) (renewal validity : Time) (crt_keys : list string)
    (data : gmap string string) (renewed : list Z) : pass (gmap string string * list Z) :=
  match crt_keys with
  | [] => Ret (Ok (data, renewed))
  | k :: crt_keys =>
      o ←? renew_leaf ca renewal validity data k;
      match o with
      | None => renew_leafs ca renewal validity crt_keys data renewed
      | Some (id, data) => renew_leafs ca renewal validity crt_keys data (renewed ++ [id])
      end
  end.

Definition renew_broker_leafs (ca : CaMaterial) (renewal validity : Time) : pass unit :=
  let name := broker_keystore_name cluster in
  existing ←? kube (call (GetSecret name));
  match existing with
  | None => Ret (Ok tt)
  | Some s =>
      match sec_data s with
      | None => Ret (Ok tt)
      | Some data =>
          let crt_keys := List.filter
            (λ k, is_some_and (λ ext, eq_ignore_ascii_case ext "crt") (path_extension k))
            (btree_keys data) in
          renewed ←? renew_leafs ca renewal validity crt_keys data [];
          let '(data, ids) := renewed in
          match ids with
          | [] => Ret (Ok tt)
          | _ =>
              _ ←? kube (call (ApplySecret name {| sec_meta := sec_meta s; sec_data := Some data |}));
              failed ← for_each ids (λ id,
                emitted ← emit_event "Normal" "BrokerCertRenewed"
                  ("broker=" +:+ display_Z id +:+ " reissued by ca-renewal-check");
                Ret (match emitted with Ok _ => None | Err e => Some e end));
              Ret (match failed with Some e => Err e | None => Ok tt end)
          end
      end
  end.

Definition renew_one : pass unit :=
  cluster_ca ←? read_existing_ca Cluster;
  clients_ca ←? read_existing_ca Clients;
  _ ←? flag_ca_if_expiring (ca_cert cluster_ca) (ca_spec kafka Cluster) Cluster;
  _ ←? flag_ca_if_expiring (ca_cert clients_ca) (ca_spec kafka Clients) Clients;
  renew_broker_leafs cluster_ca (days (renewal_days (ca_spec kafka Cluster)))
    (days (validity_days (ca_spec kafka Cluster))).
End renewal.

(** A cluster that fails is logged and does not stop the others. *)
Definition run_renewal_check (namespace : option string) : pass unit :=
  kafkas ←? kube (call (ListKafkas namespace));
  _ ← for_each (R := unit) kafkas (λ kafka,
    now ← call NowUtc;
    _ ← renew_one kafka now;
    Ret None);
  Ret (Ok tt).
End keystore.

Arguments SubjectAltName IpAddr : clear implicits.
Arguments BrokerCertRequest IpAddr : clear implicits.

(** ** The keys of different brokers are different *)
Lemma display_Z_no_dot z : str_all (λ c, negb (Ascii.eqb "." c)) (display_Z z) = true.
Proof.
  destruct (decide (0 ≤ z)) as [Hz|Hz].
  - eapply str_all_impl; [|by apply display_Z_digits]. intros c Hc.
    by destruct (Ascii.eqb_spec "." c) as [<-|].
  - destruct z as [|p|p]; [lia|lia|].
    change (str_all (λ c, negb (Ascii.eqb "." c)) ("-" +:+ display_Z (Zpos p)) = true).
    rewrite str_all_app. apply andb_true_iff. split; [done|].
    eapply str_all_impl; [|apply display_Z_digits; lia]. intros c Hc.
    by destruct (Ascii.eqb_spec "." c) as [<-|].
Qed.

Lemma broker_key_inj id id' suf suf' :
  display_Z id +:+ String "." suf = display_Z id' +:+ String "." suf' → id = id' ∧ suf = suf'.
Proof.
  intros Heq. pose proof (split_once_app "." _ suf (display_Z_no_dot id)) as H1.
  rewrite Heq, (split_once_app "." _ suf' (display_Z_no_dot id')) in H1.
  injection H1 as Hd ->. split; [|done]. symmetry. by apply (inj (pretty (A := Z))).
Qed.

Lemma elem_of_keys_of k id :
  k ∈ keys_of id ↔ ∃ suf, suf ∈ ["crt"; "key"; "sans-digest"] ∧ k = display_Z id +:+ String "." suf.
Proof.
  unfold keys_of, crt_key, key_key, digest_key. rewrite !elem_of_cons. split.
  - intros [->|[->|[->|[]%not_elem_of_nil]]]; eexists; (split; [|reflexivity]); set_solver.
  - intros (suf & Hsuf & ->). rewrite !elem_of_cons in Hsuf.
    destruct Hsuf as [->|[->|[->|[]%not_elem_of_nil]]]; auto.
Qed.

Lemma keys_of_disjoint k id id' : k ∈ keys_of id → k ∈ keys_of id' → id = id'.
Proof.
  rewrite !elem_of_keys_of. intros (s & _ & ->) (s' & _ & Heq). by apply broker_key_inj in Heq as [-> _].
Qed.

Lemma crt_in_keys id : crt_key id ∈ keys_of id. Proof. unfold keys_of. set_solver. Qed.
Lemma key_in_keys id : key_key id ∈ keys_of id. Proof. unfold keys_of. set_solver. Qed.
Lemma digest_in_keys id : digest_key id ∈ keys_of id. Proof. unfold keys_of. set_solver. Qed.

Lemma crt_key_neq id : crt_key id ≠ key_key id ∧ crt_key id ≠ digest_key id ∧ key_key id ≠ digest_key id.
Proof. split_and!; intros [_ Heq]%broker_key_inj; done. Qed.

Lemma elem_of_want_keys {IpAddr} k (requests : list (BrokerCertRequest IpAddr)) :
  k ∈ want_keys requests ↔ ∃ req, req ∈ requests ∧ k ∈ keys_of (broker_id req).
Proof. unfold want_keys. rewrite elem_of_concat_map. naive_solver. Qed.

Create HintDb keystore.
#[export] Hint Resolve crt_in_keys key_in_keys digest_in_keys : keystore.

(** ** What a keystore pass leaves behind *)
Section serves.
Context `{TimeOps Time} `{X509} {IpAddr : Type} `{EqDecision IpAddr}.
Context (ip_str : IpAddr → string) (san_leb : SubjectAltName IpAddr → SubjectAltName IpAddr → bool)
        (sha256_hex : string → string).
Context (kafka : KafkaCas) (ca : CaMaterial) (force_reissue : bool).
Notation resp := (keystore_resp (IpAddr := IpAddr)).
Notation request := (BrokerCertRequest IpAddr).
Notation digest req := (compute_san_digest ip_str san_leb sha256_hex (sans req) (extra_sans req)).
Notation issue_leafs := (issue_leafs ip_str san_leb sha256_hex kafka ca force_reissue).
Notation validity := (leaf_validity (Time := Time) kafka).
Notation renewal := (leaf_renewal (Time := Time) kafka).
Implicit Types (tr : list (event resp)) (old data : gmap string string) (req : request).

(** Broker [req] was issued a certificate by [ca] in this run, for the names it
    asks for, with its key. *)
Definition newly_issued tr data req : Prop :=
  ∃ leaf,
    ev (resp := resp) (IssueBrokerCert (ca_cert ca) (ca_key ca) (req_cn req) (sans req)
                         (extra_sans req) (whole_days validity)) (Ok leaf) ∈ tr ∧
    data !! crt_key (broker_id req) = Some leaf.1 ∧ data !! key_key (broker_id req) = Some leaf.2.

(** Or it keeps the pair it had, which is not about to expire. *)
Definition kept tr old data req : Prop :=
  ∃ cert key now,
    force_reissue = false ∧
    old !! crt_key (broker_id req) = Some cert ∧ data !! crt_key (broker_id req) = Some cert ∧
    old !! key_key (broker_id req) = Some key ∧ data !! key_key (broker_id req) = Some key ∧
    ev (resp := resp) NowUtc now ∈ tr ∧ renew_if_expiring cert renewal now = Ok false.

(** Either way the stored digest is the one of the names asked for. *)
Definition served tr old data (i r : list Z) req : Prop :=
  data !! digest_key (broker_id req) = Some (digest req) ∧
  (broker_id req ∈ i ∧ newly_issued tr data req ∨ broker_id req ∈ r ∧ kept tr old data req).

Lemma needs_reissue_false data req expiring :
  needs_reissue ip_str san_leb sha256_hex force_reissue data req expiring = false →
  force_reissue = false ∧ expiring = false ∧
  is_Some (data !! crt_key (broker_id req)) ∧ is_Some (data !! key_key (broker_id req)) ∧
  data !! digest_key (broker_id req) = Some (digest req).
Proof.
  unfold needs_reissue, stored_digest.
  rewrite !orb_false_iff, !negb_false_iff, andb_true_iff, !opt_is_some_true, bool_decide_eq_true.
  intros [[[[Hf [Hc Hk]] He] _] Hd]. split_and!; [done..|].
  destruct (data !! digest_key (broker_id req)) as [b|]; [|done]. cbn in Hd.
  destruct (from_utf8 b) as [s|] eqn:Hb; [|done]. apply from_utf8_Ok in Hb. cbn in Hd. congruence.
Qed.

Lemma is_expiring_false data id :
  all_runs (is_expiring (IpAddr := IpAddr) kafka data id) (λ tr x, x = Ok false →
    ∃ cert now, data !! crt_key id = Some cert ∧ ev (resp := resp) NowUtc now ∈ tr ∧
      renew_if_expiring cert renewal now = Ok false).
Proof.
  unfold is_expiring. destruct (data !! crt_key id) as [cert|]; [|done].
  destruct (from_utf8 cert) as [pem|] eqn:Hu; [|done]. apply from_utf8_Ok in Hu as ->.
  intros now Hok. exists cert, now. split; [done|]. split; [logged|done].
Qed.

(** A leaf stored for one broker does not touch the others. *)
Lemma store_leaf_other data req leaf k :
  k ∉ keys_of (broker_id req) →
  store_leaf ip_str san_leb sha256_hex data req leaf !! k = data !! k.
Proof.
  intros Hk. unfold store_leaf. rewrite !lookup_insert_ne; [done|..];
    intros <-; apply Hk; eauto with keystore.
Qed.

Lemma store_leaf_own data req leaf :
  let data' := store_leaf ip_str san_leb sha256_hex data req leaf in
  data' !! crt_key (broker_id req) = Some leaf.1 ∧ data' !! key_key (broker_id req) = Some leaf.2 ∧
  data' !! digest_key (broker_id req) = Some (digest req).
Proof.
  destruct (crt_key_neq (broker_id req)) as (H1 & H2 & H3). unfold store_leaf. split_and!.
  - rewrite !lookup_insert_ne by done. apply lookup_insert_eq.
  - rewrite lookup_insert_ne by done. apply lookup_insert_eq.
  - apply lookup_insert_eq.
Qed.

(** What serves a broker depends on its own keys only, and on what was logged. *)
Lemma served_other tr tr' old old' data i r req :
  tr ⊆ tr' → (∀ k, k ∈ keys_of (broker_id req) → old' !! k = old !! k) →
  served tr old data i r req → served tr' old' data i r req.
Proof.
  intros Hsub Hold [Hd [[Hi (leaf & Hl & Hc & Hk)]|[Hr (cert & key & now & Hf & Hc & Hc' & Hk & Hk' & Hn & He)]]].
  - split; [done|]. left. split; [done|]. exists leaf. auto.
  - split; [done|]. right. split; [done|]. exists cert, key, now.
    rewrite !Hold by eauto with keystore. split_and!; auto.
Qed.

Lemma other_broker req req' (requests : list request) k :
  broker_id req ∉ map broker_id requests → req' ∈ requests →
  k ∈ keys_of (broker_id req) → k ∉ keys_of (broker_id req').
Proof.
  intros Hnot Hin Hk Hk'. apply Hnot. rewrite (keys_of_disjoint k _ _ Hk Hk').
  apply list_elem_of_fmap. eauto.
Qed.

Definition leafs_done (requests : list request) (old : gmap string string) (i0 r0 : list Z) tr
    (res : result (gmap string string * list Z * list Z) ReconcileError) : Prop :=
  ∀ data i r, res = Ok (data, i, r) →
    (∀ k, k ∉ want_keys requests → data !! k = old !! k) ∧ i0 ⊆ i ∧ r0 ⊆ r ∧
    ∀ req, req ∈ requests → served tr old data i r req.

(** One more broker in front: it is served with the data before the loop goes
    on, and the rest of the loop leaves it alone. *)
Lemma leafs_done_cons req requests old old1 i0 r0 i1 r1 tr1 tr2 res :
  broker_id req ∉ map broker_id requests →
  (∀ k, k ∉ keys_of (broker_id req) → old1 !! k = old !! k) →
  i0 ⊆ i1 → r0 ⊆ r1 →
  (∀ data i r, i1 ⊆ i → r1 ⊆ r → (∀ k, k ∈ keys_of (broker_id req) → data !! k = old1 !! k) →
     served (tr1 ++ tr2) old data i r req) →
  leafs_done requests old1 i1 r1 tr2 res → leafs_done (req :: requests) old i0 r0 (tr1 ++ tr2) res.
Proof.
  intros Hnot Hold Hi Hr Hreq Hrest data i r Hres. destruct (Hrest data i r Hres) as (Hk & Hi1 & Hr1 & Hs).
  split_and!; [|by etrans..|].
  - intros k Hkw. rewrite elem_of_want_keys in Hkw. rewrite Hk, Hold; [done|..].
    + intros Hin. apply Hkw. exists req. split; [by left|done].
    + rewrite elem_of_want_keys. intros (q & Hq & Hkq). apply Hkw. exists q. split; [by right|done].
  - intros q [->|Hq]%elem_of_cons.
    + apply Hreq; [done..|]. intros k Hkq. apply Hk. rewrite elem_of_want_keys.
      intros (q & Hq & Hkq'). by eapply (other_broker req q).
    + eapply served_other; [| |by apply Hs].
      * intros e He. apply elem_of_app. by right.
      * intros k Hkq. symmetry. apply Hold. intros Hkr. by eapply (other_broker req q).
Qed.

Lemma issue_leafs_spec (requests : list request) data i0 r0 :
  NoDup (map broker_id requests) →
  all_runs (issue_leafs requests data i0 r0) (leafs_done requests data i0 r0).
Proof.
  revert data i0 r0. induction requests as [|req requests IH]; intros data i0 r0 Hnd.
  { intros data' i r [= <- <- <-]. split_and!; [done..|]. intros req []%not_elem_of_nil. }
  cbn in Hnd. apply NoDup_cons in Hnd as [Hnot Hnd]. cbn [BrokerKeystore.issue_leafs].
  apply all_runs_bind. eapply all_runs_mono; [|apply is_expiring_false]. cbn beta.
  intros tr1 [expiring|e] Hexp; [|by intros ? ? ?].
  destruct (needs_reissue _ _ _ _ data req expiring) eqn:Hneed; cbn [negb].
  - apply all_runs_bind. intros [leaf|e]; [|by intros ? ? ?].
    cbn [always map_err app]. eapply all_runs_mono; [|apply IH, Hnd]. intros tr2 res Hrest.
    rewrite app_assoc. eapply leafs_done_cons; [done| | | | |exact Hrest].
    + intros k Hk. by apply store_leaf_other.
    + intros x Hx. apply elem_of_app. by left.
    + done.
    + intros data' i r Hi _ Hown. destruct (store_leaf_own data req leaf) as (Hc & Hk & Hd).
      split; [by rewrite Hown by eauto with keystore|]. left. split; [apply Hi, elem_of_app; right; by left|].
      exists leaf. rewrite !Hown by eauto with keystore. split_and!; [logged|done..].
  - apply needs_reissue_false in Hneed as (Hf & -> & [cert Hc] & [key Hk] & Hd).
    destruct (Hexp eq_refl) as (cert' & now & Hc' & Hn & He).
    assert (cert' = cert) as -> by congruence.
    eapply all_runs_mono; [|apply IH, Hnd]. intros tr2 res Hrest.
    eapply leafs_done_cons; [done|done|done| | |exact Hrest].
    + intros x Hx. apply elem_of_app. by left.
    + intros data' i r _ Hr Hown. split; [by rewrite Hown by eauto with keystore|]. right.
      split; [apply Hr, elem_of_app; right; by left|]. exists cert, key, now.
      rewrite !Hown by eauto with keystore. split_and!; try done. logged.
Qed.

Lemma served_same tr old data data' i r req :
  (∀ k, k ∈ keys_of (broker_id req) → data' !! k = data !! k) →
  served tr old data i r req → served tr old data' i r req.
Proof.
  intros Hd. unfold served, newly_issued, kept. by rewrite !Hd by eauto with keystore.
Qed.

Lemma retain_lookup (requests : list request) data k :
  retain requests data !! k = if stale requests k then None else data !! k.
Proof.
  unfold retain. destruct (stale requests k) eqn:Hs.
  - apply map_lookup_filter_None. right. intros v _. cbn. congruence.
  - destruct (data !! k) as [v|] eqn:Hv.
    + by apply map_lookup_filter_Some.
    + apply map_lookup_filter_None. by left.
Qed.

Lemma stale_false (requests : list request) k :
  stale requests k = false ↔ k ∈ want_keys requests ∨ owner_of k = None.
Proof.
  unfold stale. rewrite andb_false_iff, negb_false_iff, bool_decide_eq_true.
  destruct (owner_of k); cbn; naive_solver.
Qed.

Notation keystore := (broker_keystore_name (name_any (kc_meta kafka))).

(** C20. Every broker gets a certificate that fits.  For brokers with different
    ids, a keystore pass that succeeds has written a Secret in which each of them
    has a certificate, its key, and the digest of the names it asks for: either
    issued in this pass by the given CA for exactly those names, or the pair the
    Secret had, when nothing forces a reissue, its digest was the same and it is
    outside the renewal window.  No entry of another broker is left, entries that
    belong to no broker are as before, and the material returned for the roll is
    that of the Secret written. *)
Theorem keystore_serves_brokers (requests : list request) :
  NoDup (map broker_id requests) →
  all_runs (ensure_broker_keystore ip_str san_leb sha256_hex kafka ca force_reissue requests)
    (λ tr res, ∀ st, res = Ok st → ∃ existing s data,
      ev (resp := resp) (GetSecret keystore) (Ok existing) ∈ tr ∧
      ev (resp := resp) (ApplySecret keystore s) (Ok tt) ∈ tr ∧ sec_data s = Some data ∧
      (∀ req, req ∈ requests →
         served tr (default ∅ (and_then existing sec_data)) data (issued st) (reused st) req) ∧
      (∀ k, is_Some (data !! k) → k ∈ want_keys requests ∨ owner_of k = None) ∧
      (∀ k, k ∉ want_keys requests → owner_of k = None →
         data !! k = default ∅ (and_then existing sec_data) !! k) ∧
      leaf_material st = leaf_material_of data).
Proof.
  intros Hnd. unfold ensure_broker_keystore. apply all_runs_bind. intros [existing|e]; [|by intros ?].
  cbn [always map_err app]. set (old := default ∅ (and_then existing sec_data)).
  apply all_runs_bind. eapply all_runs_mono; [|by apply (issue_leafs_spec requests old [] [])].
  intros tr1 [[[d i] r]|e] Hdone; [|by intros ?]. destruct (Hdone d i r eq_refl) as (Hk & _ & _ & Hs).
  destruct (keystore_secret kafka (retain requests d)) as [s|e] eqn:Hsec; [|by intros ?].
  apply all_runs_bind. intros [[]|e]; [|by intros ?]. cbn [always map_err app]. intros st [= <-]. cbn.
  exists existing, s, (retain requests d). split_and!; [logged|logged|..].
  - unfold keystore_secret in Hsec. destruct (owner_ref "Kafka" (kc_meta kafka)); [|done]. by injection Hsec as <-.
  - intros req Hreq. eapply served_same.
    + intros k Hkr. rewrite retain_lookup. rewrite (proj2 (stale_false requests k)); [done|].
      left. apply elem_of_want_keys. eauto.
    + eapply served_other; [|done|by apply Hs]. intros e He. logged.
  - intros k [v Hv]. rewrite retain_lookup in Hv. destruct (stale requests k) eqn:Hst; [done|].
    by apply stale_false.
  - intros k Hkw Hko. rewrite retain_lookup, (proj2 (stale_false requests k)) by auto. by apply Hk.
  - done.
Qed.
End serves.

(** ** The digest depends on the set of names only *)

(** What [Ord] promises of the derived order on names. *)
Class NameOrder {A} (le : A → A → bool) : Prop := {
  name_total x y : le x y = false → le y x = true;
  name_trans x y z : le x y = true → le y z = true → le x z = true;
  name_antisym x y : le x y = true → le y x = true → x = y;
}.

Section dedup_lemmas.
Context {A : Type} `{EqDecision A} (le : A → A → bool) `{!NameOrder le}.

(** In a sorted list equal elements are neighbours, so none is left twice. *)
Lemma dedup_sorted (l : list A) :
  StronglySorted (λ a b, le a b = true) l → StronglySorted (λ a b, le a b = true ∧ a ≠ b) (dedup l).
Proof.
  induction l as [|a [|b l] IH]; intros Hs; [constructor|repeat constructor|].
  apply StronglySorted_cons in Hs as [Ha Hs]. rewrite dedup_cons2. case_bool_decide as Hab; [by apply IH|].
  apply StronglySorted_cons. split; [|by apply IH]. apply Forall_forall. intros x Hx.
  rewrite elem_of_dedup in Hx. rewrite Forall_forall in Ha. split; [by apply Ha|]. intros <-. apply Hab.
  apply name_antisym; [apply Ha; by left|].
  apply elem_of_cons in Hx as [<-|Hx]; [apply Ha; by left|].
  apply StronglySorted_cons in Hs as [Hb _]. rewrite Forall_forall in Hb. by apply Hb.
Qed.

Lemma strict_sorted_unique (l l' : list A) :
  StronglySorted (λ a b, le a b = true ∧ a ≠ b) l → StronglySorted (λ a b, le a b = true ∧ a ≠ b) l' →
  (∀ x, x ∈ l ↔ x ∈ l') → l = l'.
Proof.
  revert l'. induction l as [|a l IH]; intros [|b l'] Hs Hs' Heq; [done|..].
  - exfalso. apply (not_elem_of_nil b), Heq. by left.
  - exfalso. apply (not_elem_of_nil a), Heq. by left.
  - apply StronglySorted_cons in Hs as [Ha Hs], Hs' as [Hb Hs']. rewrite Forall_forall in Ha, Hb.
    assert (a = b) as <-.
    { assert (a ∈ b :: l') as [?|Hal]%elem_of_cons by (apply Heq; by left); [done|].
      assert (b ∈ a :: l) as [?|Hbl]%elem_of_cons by (apply Heq; by left); [done|].
      apply name_antisym; [by apply Ha|by apply Hb]. }
    f_equal. apply IH; [done..|]. intros x. specialize (Heq x). rewrite !elem_of_cons in Heq.
    split; intros Hx.
    + destruct (proj1 Heq (or_intror Hx)) as [->|]; [|done]. by destruct (Ha a Hx).
    + destruct (proj2 Heq (or_intror Hx)) as [->|]; [|done]. by destruct (Hb a Hx).
Qed.

Lemma canonical_list_eq (l l' : list A) :
  dedup (sort_by le l) = dedup (sort_by le l') ↔ ∀ x, x ∈ l ↔ x ∈ l'.
Proof.
  split.
  - intros Heq x.
    rewrite <- (elem_of_sort_by le x l), <- (elem_of_sort_by le x l').
    rewrite <- (elem_of_dedup (sort_by le l)), <- (elem_of_dedup (sort_by le l')). by rewrite Heq.
  - intros Heq. apply strict_sorted_unique;
      [apply dedup_sorted, sort_by_sorted; eauto using name_total, name_trans..|].
    intros x. by rewrite !elem_of_dedup, !elem_of_sort_by.
Qed.
End dedup_lemmas.

Section digest.
Context {IpAddr : Type} `{EqDecision IpAddr} (ip_str : IpAddr → string).
Context (san_leb : SubjectAltName IpAddr → SubjectAltName IpAddr → bool) `{!NameOrder san_leb}.

(** A name is printed on a line of its own. *)
Definition name_body (n : SubjectAltName IpAddr) : string :=
  match n with Dns d => "DNS:" +:+ d | Ip ip => "IP:" +:+ ip_str ip end.
Definition one_line (n : SubjectAltName IpAddr) : Prop :=
  str_all (λ c, negb (Ascii.eqb (ascii_of_nat 10) c)) (name_body n) = true.

Lemma san_line_body n : san_line ip_str n = name_body n +:+ String (ascii_of_nat 10) "".
Proof. destruct n; cbn [san_line name_body]; by rewrite <- str_app_assoc. Qed.

Lemma name_body_inj n n' : (∀ a b, ip_str a = ip_str b → a = b) → name_body n = name_body n' → n = n'.
Proof.
  intros Hinj. destruct n, n'; cbn; intros Heq; simplify_eq; [|f_equal; eauto]; done.
Qed.

Lemma lines_inj l l' :
  (∀ a b, ip_str a = ip_str b → a = b) → Forall one_line l → Forall one_line l' →
  concat_str (map (san_line ip_str) l) = concat_str (map (san_line ip_str) l') → l = l'.
Proof.
  intros Hinj Hl. revert l'. induction Hl as [|n l Hn Hl IH]; intros l' Hl' Heq; destruct Hl' as [|n' l' Hn' Hl'].
  - done.
  - exfalso. revert Heq. cbn. rewrite san_line_body. by destruct n'.
  - exfalso. revert Heq. cbn. rewrite san_line_body. by destruct n.
  - change (san_line ip_str n +:+ concat_str (map (san_line ip_str) l)
            = san_line ip_str n' +:+ concat_str (map (san_line ip_str) l')) in Heq.
    rewrite !san_line_body, <- !str_app_assoc, !str_app_cons, !str_app_nil_l in Heq.
    pose proof (split_once_app _ _ (concat_str (map (san_line ip_str) l)) Hn) as Hsplit.
    rewrite Heq, (split_once_app _ _ _ Hn') in Hsplit. injection Hsplit as Hb Ht.
    apply name_body_inj in Hb as <-; [|done]. f_equal. by apply IH.
Qed.

(** The text that is hashed tells sets of names apart, and nothing else: the
    order and the repetition of names, and which of the two lists a name is in,
    do not matter. *)
Lemma san_text_same_names (b e b' e' : list (SubjectAltName IpAddr)) :
  (∀ n, n ∈ b ++ e ↔ n ∈ b' ++ e') → san_text ip_str san_leb b e = san_text ip_str san_leb b' e'.
Proof. intros Heq. unfold san_text. by rewrite (proj2 (canonical_list_eq san_leb _ _) Heq). Qed.

Lemma san_text_exact (b e b' e' : list (SubjectAltName IpAddr)) :
  (∀ a b, ip_str a = ip_str b → a = b) → Forall one_line (b ++ e) → Forall one_line (b' ++ e') →
  san_text ip_str san_leb b e = san_text ip_str san_leb b' e' ↔ ∀ n, n ∈ b ++ e ↔ n ∈ b' ++ e'.
Proof.
  intros Hinj Hl Hl'. split; [|apply san_text_same_names]. unfold san_text. intros Heq.
  apply (canonical_list_eq san_leb). eapply lines_inj; [done|..|exact Heq].
  all: apply Forall_forall; intros n Hn; rewrite elem_of_dedup, elem_of_sort_by in Hn.
  all: rewrite Forall_forall in Hl, Hl'; first [by apply Hl|by apply Hl'].
Qed.
End digest.

(** ** The renewal job *)

(** Every entry that belongs to a broker is one of its three keys.  This is what
    a keystore pass leaves ([retain]). *)
Definition canonical (data : gmap string string) : Prop :=
  ∀ k id, is_Some (data !! k) → owner_of k = Some id → k ∈ keys_of id.

(** The entries a keystore pass leaves are canonical. *)
Lemma pass_leaves_canonical {IpAddr} (requests : list (BrokerCertRequest IpAddr)) data :
  Forall (λ req, 0 ≤ broker_id req ≤ i32_max) requests →
  (∀ k, is_Some (data !! k) → k ∈ want_keys requests ∨ owner_of k = None) → canonical data.
Proof.
  intros Hids Hkeys k id Hk Ho. destruct (Hkeys k Hk) as [Hw|]; [|congruence].
  apply elem_of_want_keys in Hw as (req & Hreq & Hin). rewrite Forall_forall in Hids.
  apply elem_of_keys_of in Hin as Hsuf. destruct Hsuf as (suf & _ & ->). revert Ho. unfold owner_of.
  rewrite split_once_app by apply display_Z_no_dot. cbn [and_then].
  unfold parse_i32. rewrite parse_signed_display; [by intros [= <-]|done|by apply Hids].
Qed.

Definition canonicalb (data : gmap string string) : bool :=
  forallb (λ k, match owner_of k with Some id => bool_decide (k ∈ keys_of id) | None => true end)
    (btree_keys data).

Lemma canonicalb_true data : canonicalb data = true → canonical data.
Proof.
  unfold canonicalb. rewrite forallb_forall. intros Hall k id Hk Ho.
  specialize (Hall k). rewrite Ho, bool_decide_eq_true, <- list_elem_of_In, elem_of_btree_keys in Hall.
  by apply Hall.
Qed.

Section renewed.
Context `{TimeOps Time} `{X509} {IpAddr : Type} `{EqDecision IpAddr}.
Context (ip_str : IpAddr → string) (ip_of_bytes : string → IpAddr).
Context (san_leb : SubjectAltName IpAddr → SubjectAltName IpAddr → bool) `{!NameOrder san_leb}.
Context (sha256_hex : string → string) (parse_leaf : string → result leaf_names string).
(** The hex digest is text. *)
Context (sha256_text : ∀ t, from_utf8 (sha256_hex t) = Ok (sha256_hex t)).
Context (kafka : KafkaCas) (now : Z) (ca : CaMaterial) (renewal validity : Time).
Notation resp := (keystore_resp (IpAddr := IpAddr)).
Notation request := (BrokerCertRequest IpAddr).
Notation digest names := (compute_san_digest ip_str san_leb sha256_hex names []).
Notation keystore := (broker_keystore_name (name_any (kc_meta kafka))).
Notation renew_leaf :=
  (renew_leaf ip_str ip_of_bytes san_leb sha256_hex parse_leaf now ca renewal validity).
Notation renew_leafs :=
  (renew_leafs ip_str ip_of_bytes san_leb sha256_hex parse_leaf now ca renewal validity).
Implicit Types (tr : list (event resp)) (old data : gmap string string).

Definition same_leaf old data (id : Z) : Prop := ∀ k, k ∈ keys_of id → data !! k = old !! k.

(** The certificate of broker [id] was about to expire and has been issued anew
    by [ca] for the common name and the names it had. *)
Definition reissued tr old data (id : Z) (names : list (SubjectAltName IpAddr)) : Prop :=
  ∃ cert cn leaf,
    old !! crt_key id = Some cert ∧ renew_if_expiring cert renewal now = Ok true ∧
    read_existing_cn_and_sans ip_of_bytes parse_leaf cert = Ok (cn, names) ∧
    ev (resp := resp) (IssueBrokerCert (ca_cert ca) (ca_key ca) cn names [] (whole_days validity))
      (Ok leaf) ∈ tr ∧
    data !! crt_key id = Some leaf.1 ∧ data !! key_key id = Some leaf.2 ∧
    data !! digest_key id = Some (digest names).

Definition leaf_renewed tr old data (id : Z) : Prop :=
  same_leaf old data id ∨ ∃ names, reissued tr old data id names.

Definition leafs_renewed (keys : list string) old tr
    (res : result (gmap string string * list Z) ReconcileError) : Prop :=
  ∀ data ids, res = Ok (data, ids) →
    (∀ k, (∀ id, crt_key id ∈ keys → k ∉ keys_of id) → data !! k = old !! k) ∧
    ∀ id, crt_key id ∈ keys → leaf_renewed tr old data id.

Lemma crt_key_inj id id' : crt_key id = crt_key id' → id = id'.
Proof. by intros [-> _]%broker_key_inj. Qed.

(** One certificate: the others keep their entries. *)
Lemma renew_leaf_spec old k :
  (∀ id, owner_of k = Some id → k = crt_key id) →
  all_runs (renew_leaf old k) (λ tr res, ∀ o, res = Ok o →
    match o with
    | None => True
    | Some (id, data) =>
        k = crt_key id ∧ (∃ names, reissued tr old data id names) ∧
        ∀ k', k' ∉ keys_of id → data !! k' = old !! k'
    end).
Proof.
  intros Hk. unfold BrokerKeystore.renew_leaf.
  destruct (owner_of k) as [id|]; [|by intros o [= <-]].
  destruct (and_then (old !! k) _) as [cert|] eqn:Hc; [|by intros o [= <-]].
  rewrite (Hk id eq_refl) in *. clear Hk k.
  apply and_then_Some in Hc as (b & Hb & Hu). destruct (from_utf8 b) as [s|] eqn:Hs; [|done].
  injection Hu as ->. apply from_utf8_Ok in Hs as <-.
  destruct (renew_if_expiring cert renewal now) as [[]|] eqn:He; [|by intros o [= <-]|by intros o [=]].
  destruct (read_existing_cn_and_sans _ _ cert) as [[cn names]|] eqn:Hr; [|by intros o [= <-]].
  apply all_runs_bind. intros [leaf|e]; [|by intros o [=]]. intros o [= <-].
  destruct (crt_key_neq id) as (H1 & H2 & H3). split; [done|]. split.
  - exists names, cert, cn, leaf. split_and!; [done..|logged| | |].
    + rewrite !lookup_insert_ne by done. apply lookup_insert_eq.
    + rewrite lookup_insert_ne by done. apply lookup_insert_eq.
    + apply lookup_insert_eq.
  - intros k' Hk'. rewrite !lookup_insert_ne; [done|..]; intros <-; apply Hk'; eauto with keystore.
Qed.

Lemma leaf_renewed_other tr tr' old old' data id :
  tr ⊆ tr' → same_leaf old' old id → leaf_renewed tr old data id → leaf_renewed tr' old' data id.
Proof.
  intros Hsub Hold [Hsame|(names & cert & cn & leaf & Hc & He & Hr & Hi & Hd)].
  - left. intros k Hk. rewrite Hsame by done. by apply Hold.
  - right. exists names, cert, cn, leaf. rewrite <- Hold by eauto with keystore. split_and!; try apply Hd; auto.
Qed.

Lemma renew_leafs_spec (keys : list string) old ids0 :
  NoDup keys → (∀ k id, k ∈ keys → owner_of k = Some id → k = crt_key id) →
  all_runs (renew_leafs keys old ids0) (leafs_renewed keys old).
Proof.
  revert old ids0. induction keys as [|k keys IH]; intros old ids0 Hnd Hcrt.
  { intros data ids [= <- <-]. split; [done|]. intros id []%not_elem_of_nil. }
  apply NoDup_cons in Hnd as [Hnot Hnd]. cbn [BrokerKeystore.renew_leafs].
  apply all_runs_bind. eapply all_runs_mono; [|apply (renew_leaf_spec old k); intros id; by apply Hcrt; left].
  cbn beta. intros tr1 [o|e] Ho; [|by intros ? ?]. specialize (Ho o eq_refl).
  assert (∀ k' id, k' ∈ keys → owner_of k' = Some id → k' = crt_key id) as Hcrt'
    by (intros; apply Hcrt; [by right|done]).
  destruct o as [[id data]|].
  - destruct Ho as (-> & Hre & Hother).
    eapply all_runs_mono; [|by apply IH]. intros tr2 res Hrest data' ids Hres.
    destruct (Hrest data' ids Hres) as [Hkeep Hleafs].
    assert (∀ id', crt_key id' ∈ keys → id' ≠ id) as Hne by (intros id' Hin ->; done). split.
    + intros k Hk. rewrite Hkeep, Hother; [done|apply Hk; by left|]. intros id' Hin. apply Hk. by right.
    + intros id' [->%crt_key_inj|Hin]%elem_of_cons.
      * right. destruct Hre as (names & cert & cn & leaf & Hc & He & Hr & Hi & Hd & Hd' & Hd'').
        exists names, cert, cn, leaf. rewrite !Hkeep;
          [split_and!; try done; logged|..]; intros id' Hin Hk; apply (Hne id' Hin);
          eapply keys_of_disjoint; eauto with keystore.
      * eapply leaf_renewed_other; [| |by apply Hleafs]; [by apply list_subseteq_app_r|].
        intros k Hk. apply Hother. intros Hk'. apply (Hne id' Hin). by eapply keys_of_disjoint.
  - eapply all_runs_mono; [|by apply IH]. intros tr2 res Hrest data' ids Hres.
    destruct (Hrest data' ids Hres) as [Hkeep Hleafs]. split.
    + intros k' Hk. apply Hkeep. intros id' Hin. apply Hk. by right.
    + intros id' [<-|Hin]%elem_of_cons.
      * left. intros k Hk. apply Hkeep. intros id2 Hin Hk2.
        by rewrite (keys_of_disjoint _ _ _ Hk Hk2) in Hnot.
      * eapply leaf_renewed_other; [| |by apply Hleafs]; [by apply list_subseteq_app_r|done].
Qed.
(** A key with the extension of a certificate is the one of its broker. *)
Lemma crt_extension k id :
  k ∈ keys_of id →
  is_some_and (λ ext, eq_ignore_ascii_case ext "crt") (path_extension k) = true → k = crt_key id.
Proof.
  rewrite elem_of_keys_of. intros (suf & Hsuf & ->). unfold path_extension.
  rewrite !elem_of_cons in Hsuf. destruct Hsuf as [->|[->|[->|[]%not_elem_of_nil]]]; [done|..];
    rewrite rsplit_once_app by done; cbn [and_then]; by destruct (is_empty _).
Qed.

(** A reissued leaf passes the test of the next keystore pass. *)
Lemma reissued_kept tr old data names (req : request) :
  reissued tr old data (broker_id req) names →
  (∀ n, n ∈ sans req ++ extra_sans req ↔ n ∈ names) →
  needs_reissue ip_str san_leb sha256_hex false data req false = false.
Proof.
  intros (cert & cn & leaf & _ & _ & _ & _ & Hc & Hk & Hd) Hnames.
  assert (compute_san_digest ip_str san_leb sha256_hex (sans req) (extra_sans req) = digest names) as Hdig.
  { unfold compute_san_digest. f_equal. apply (san_text_same_names ip_str san_leb).
    intros n. by rewrite Hnames, app_nil_r. }
  assert (stored_digest data (broker_id req) = Some (digest names)) as Hst.
  { unfold stored_digest. rewrite Hd. cbn [and_then].
    unfold compute_san_digest. pose proof (sha256_text (san_text ip_str san_leb names [])) as ->. done. }
  unfold needs_reissue. rewrite Hc, Hk, Hst, Hdig. cbn. by rewrite bool_decide_eq_true_2.
Qed.

(** Issuing certificates and publishing events reads and writes no Secret. *)
Definition no_secret tr : Prop :=
  ∀ e, e ∈ tr → match projT1 e with GetSecret _ | ApplySecret _ _ => False | _ => True end.

Lemma no_secret_app tr1 tr2 : no_secret tr1 → no_secret tr2 → no_secret (tr1 ++ tr2).
Proof. intros H1 H2 e [He|He]%elem_of_app; [by apply H1|by apply H2]. Qed.

Lemma no_secret_one c (x : resp c) :
  match c with GetSecret _ | ApplySecret _ _ => False | _ => True end → no_secret [ev c x].
Proof. by intros Hc e ->%list_elem_of_singleton. Qed.

Lemma no_secret_nil : no_secret [].
Proof. intros e []%not_elem_of_nil. Qed.

Lemma renew_leafs_no_secret keys old ids0 : all_runs (renew_leafs keys old ids0) (λ tr _, no_secret tr).
Proof.
  revert old ids0. induction keys as [|k keys IH]; intros old ids0; [exact no_secret_nil|].
  cbn [BrokerKeystore.renew_leafs]. apply all_runs_bind_app; [exact no_secret_app| |].
  - unfold all_runs, BrokerKeystore.renew_leaf, issue_broker_cert.
    run_cases; try exact no_secret_nil; by apply no_secret_one.
  - intros [[[id data]|]|e]; [apply IH..|exact no_secret_nil].
Qed.

Definition secret_answer (e : event resp) : option (result (option secret) kube_error) :=
  let 'existT c x := e in
  match c return resp c → option (result (option secret) kube_error) with GetSecret _ => Some | _ => λ _, None end x.

(** With one read and one write of the Secret, these are the ones in the log. *)
Lemma read_and_written tr1 tr2 s w y s0 w0 x :
  no_secret tr1 → no_secret tr2 →
  let tr := ev (resp := resp) (GetSecret keystore) (Ok (Some s)) :: tr1 ++
              ev (resp := resp) (ApplySecret keystore w) y :: tr2 in
  ev (resp := resp) (GetSecret keystore) (Ok (Some s0)) ∈ tr →
  ev (resp := resp) (ApplySecret keystore w0) x ∈ tr → s0 = s ∧ w0 = w.
Proof.
  intros H1 H2 tr Hget Hput. subst tr. rewrite elem_of_cons, elem_of_app, elem_of_cons in Hget, Hput. split.
  - destruct Hget as [Heq|[[]%H1|[Heq|[]%H2]]]; [|discriminate].
    apply (f_equal secret_answer) in Heq. cbn in Heq. congruence.
  - destruct Hput as [Heq|[[]%H1|[Heq|[]%H2]]]; [discriminate|].
    apply (f_equal projT1) in Heq. cbn in Heq. congruence.
Qed.

(** The Secret [s'] written for [s], with what it says of every key. *)
Definition renewal_of tr (s : secret) (old : gmap string string) (s' : secret) : Prop :=
  sec_meta s' = sec_meta s ∧ ∃ data', sec_data s' = Some data' ∧
    (∀ k, (∀ id, k ∉ keys_of id) → data' !! k = old !! k) ∧
    ∀ id, same_leaf old data' id ∨
      ∃ names, reissued tr old data' id names ∧
        ∀ req : request, broker_id req = id → (∀ n, n ∈ sans req ++ extra_sans req ↔ n ∈ names) →
          needs_reissue ip_str san_leb sha256_hex false data' req false = false.

Lemma leafs_renewed_written keys tr tr' s old data' ids :
  leafs_renewed keys old tr (Ok (data', ids)) → tr ⊆ tr' →
  renewal_of tr' s old {| sec_meta := sec_meta s; sec_data := Some data' |}.
Proof.
  intros Hren Hsub. destruct (Hren data' ids eq_refl) as [Hkeep Hleafs]. split; [done|].
  exists data'. split; [done|]. split; [auto|]. intros id.
  destruct (decide (crt_key id ∈ keys)) as [Hin|Hout].
  - destruct (leaf_renewed_other tr tr' old old data' id Hsub (λ _ _, eq_refl) (Hleafs id Hin))
      as [Hsame|[names Hre]]; [by left|]. right. exists names. split; [done|].
    intros req <- Hnames. by eapply reissued_kept.
  - left. intros k Hk. apply Hkeep. intros id' Hin Hk'. apply Hout.
    by rewrite (keys_of_disjoint _ _ _ Hk Hk').
Qed.

(** Renewal changes nothing but what is about to expire.  When the renewal
    job writes the keystore of a cluster whose entries are canonical, the broker
    entries it changes are those of brokers whose certificate was in the renewal
    window; such a broker gets a certificate issued by the CA for the common name
    and the alternative names it had, with the key of that certificate and the
    digest of those names.  The next keystore pass keeps it, if the broker asks
    for the same set of names. *)
Theorem renewal_reissues_same_names :
  all_runs (renew_broker_leafs ip_str ip_of_bytes san_leb sha256_hex parse_leaf kafka now ca renewal validity)
    (λ tr _, ∀ s data s' x,
      ev (resp := resp) (GetSecret keystore) (Ok (Some s)) ∈ tr → sec_data s = Some data →
      canonical data → ev (resp := resp) (ApplySecret keystore s') x ∈ tr → renewal_of tr s data s').
Proof.
  unfold renew_broker_leafs. apply all_runs_bind.
  intros [[s|]|e]; cbn [always map_err app prog_bind];
    [|intros s data s' x _ _ _ Hap; log_mem Hap..].
  destruct (sec_data s) as [old|] eqn:Hold; [|intros s0 data s' x _ _ _ Hap; log_mem Hap].
  set (keys := List.filter _ (btree_keys old)). apply all_runs_bind. eapply all_runs_mono.
  2:{ apply always_and; [apply renew_leafs_no_secret|].
      apply (all_runs_assume (canonical old) _ (leafs_renewed keys old)).
      intros Hcan. apply (renew_leafs_spec keys old []).
      - apply NoDup_ListNoDup, List.NoDup_filter, NoDup_ListNoDup, NoDup_btree_keys.
      - intros k id [Hk Hext]%elem_of_List_filter Ho. rewrite elem_of_btree_keys in Hk.
        apply crt_extension; [by apply Hcan|done]. }
  cbn beta. intros tr1 [[data' [|id0 ids]]|e] [Hns Hren]; cycle 1.
  - apply all_runs_bind. intros y. cbn [always app prog_bind].
    eapply all_runs_mono with (Q := λ tr _, no_secret tr).
    + intros tr2 r Hns2 s0 data s' x Hget Hdata Hcan Hput.
      destruct (read_and_written _ _ _ _ _ _ _ _ Hns Hns2 Hget Hput) as [-> ->].
      assert (data = old) as -> by congruence. eapply leafs_renewed_written; [by apply Hren|].
      intros e He. logged.
    + destruct y as [[]|e]; [|exact no_secret_nil]. apply all_runs_bind_app; [exact no_secret_app| |].
      * apply all_runs_for_each; [exact no_secret_app|exact no_secret_nil|].
        intros id x. by apply no_secret_one.
      * intros [e|]; exact no_secret_nil.
  - intros s0 data s' x _ _ _ Hap. exfalso. rewrite app_nil_r in Hap.
    apply elem_of_cons in Hap as [Hap|Hap%Hns]; done.
  - intros s0 data s' x _ _ _ Hap. exfalso. rewrite app_nil_r in Hap.
    apply elem_of_cons in Hap as [Hap|Hap%Hns]; done.
Qed.
End renewed.

(** ** Witnesses: a keystore with a leaf that fits, one that is missing and one of
    a broker that is gone *)
Definition demo_san_leb (a b : SubjectAltName string) : bool :=
  match a, b with
  | Dns x, Dns y | Ip x, Ip y => str_leb x y
  | Dns _, Ip _ => true
  | Ip _, Dns _ => false
  end.

Lemma str_leb_antisym a b : str_leb a b = true → str_leb b a = true → a = b.
Proof. unfold str_leb. rewrite !bool_decide_eq_true. apply (anti_symm String.le). Qed.

#[export] Instance demo_order : NameOrder demo_san_leb.
Proof.
  split; [intros [x|x] [y|y]|intros [x|x] [y|y] [z|z]|intros [x|x] [y|y]]; cbn; try done;
    eauto using str_leb_total, str_leb_trans; intros; f_equal; by apply str_leb_antisym.
Qed.

Definition demo_digest (_ : string) : string := "e3b0c442".
Definition demo_ca : CaMaterial := {| ca_cert := "ca-cert"; ca_key := "ca-key" |}.
Definition demo_requests : list (BrokerCertRequest string) :=
  [{| broker_id := 0; req_cn := "prod-0"; sans := [Dns "prod-0.svc"]; extra_sans := [] |};
   {| broker_id := 1; req_cn := "prod-1"; sans := [Dns "prod-1.svc"]; extra_sans := [Ip "10.0.0.1"] |}].
Definition demo_keystore : secret :=
  demo_secret {["1.crt" := "pem-1"; "1.key" := "key-1"; "1.sans-digest" := "e3b0c442";
                "7.crt" := "pem-7"; "7.key" := "key-7"; "note" := "kept"]} ∅.

(** A server that holds this Secret, at time [now]. *)
Definition demo_answers (now : Z) (_ : unit) (c : keystore_call (IpAddr := string))
  : unit * keystore_resp c :=
  (tt, match c return keystore_resp c with
       | ListKafkas _ => Ok [demo_kafka]
       | GetSecret _ => Ok (Some demo_keystore)
       | ApplySecret _ _ | AnnotateKafka _ _ _ | EmitEvent _ _ _ => Ok tt
       | IssueBrokerCert _ _ cn _ _ _ => Ok ("pem of " +:+ cn, "key of " +:+ cn)
       | NowUtc => now
       end).

Notation demo_pass :=
  (@ensure_broker_keystore Z _ demo_x509 string _ id demo_san_leb demo_digest demo_kafka demo_ca false
     demo_requests).

Lemma keystore_serves_brokers_witness :
  ∃ st s data, (exec (demo_answers 0) demo_pass tt).2 = Ok st ∧
    issued st = [0] ∧ reused st = [1] ∧ pruned st = [7] ∧
    ev (resp := keystore_resp (IpAddr := string)) (ApplySecret "prod-kafka-brokers" s) (Ok tt)
      ∈ (exec (demo_answers 0) demo_pass tt).1.2 ∧
    sec_data s = Some data ∧
    ∀ k, is_Some (data !! k) → k ∈ want_keys demo_requests ∨ owner_of k = None.
Proof.
  assert (∃ st, (exec (demo_answers 0) demo_pass tt).2 = Ok st ∧
    issued st = [0] ∧ reused st = [1] ∧ pruned st = [7]) as (st & Hst & Hsts).
  { eexists. split; [vm_compute; reflexivity|]. done. }
  assert (NoDup (map broker_id demo_requests)) as Hnd by (apply (bool_decide_unpack _); vm_compute; exact I).
  destruct (all_runs_exec (demo_answers 0) _ tt _
    (@keystore_serves_brokers Z _ demo_x509 string _ id demo_san_leb demo_digest demo_kafka demo_ca false
       demo_requests Hnd) st Hst) as (existing & s & data & _ & Hput & Hdata & _ & Hkeys & _).
  exists st, s, data. split_and!; [exact Hst|apply Hsts..|exact Hput|exact Hdata|exact Hkeys].
Defined.

Definition demo_leaf (_ : string) : result leaf_names string :=
  Ok {| common_names := [Some "prod-1"];
        alternative_names := Ok (Some [DNSName "prod-1.svc"; OtherName]) |}.

(** Just before the certificates run out. *)
Notation demo_late := 4102444799000000000.
Notation demo_renewal :=
  (@renew_broker_leafs Z _ demo_x509 string _ id id demo_san_leb demo_digest demo_leaf demo_kafka demo_late
     demo_ca (days 30) (days 365)).

Lemma renewal_reissues_same_names_witness :
  ∃ s' x, ev (resp := keystore_resp (IpAddr := string)) (ApplySecret "prod-kafka-brokers" s') x
      ∈ (exec (demo_answers demo_late) demo_renewal tt).1.2 ∧
    (sec_data s' ≫= lookup "1.crt") = Some "pem of prod-1" ∧
    @renewal_of Z _ demo_x509 string _ id id demo_san_leb demo_digest demo_leaf demo_late demo_ca
      (days 30) (days 365)
      (exec (demo_answers demo_late) demo_renewal tt).1.2 demo_keystore (default ∅ (sec_data demo_keystore)) s'.
Proof.
  assert (∃ s' x, ev (resp := keystore_resp (IpAddr := string)) (ApplySecret "prod-kafka-brokers" s') x
      ∈ (exec (demo_answers demo_late) demo_renewal tt).1.2 ∧
    (sec_data s' ≫= lookup "1.crt") = Some "pem of prod-1") as (s' & x & Hput & Hcrt).
  { eexists _, _. split.
    - vm_compute. apply list_elem_of_further, list_elem_of_further, list_elem_of_further, list_elem_of_here.
    - vm_compute. reflexivity. }
  exists s', x. split; [exact Hput|]. split; [exact Hcrt|].
  apply (all_runs_exec (demo_answers demo_late) demo_renewal tt _
    (@renewal_reissues_same_names Z _ demo_x509 string _ id id demo_san_leb _ demo_digest demo_leaf
       (λ _, eq_refl) demo_kafka demo_late demo_ca (days 30) (days 365)) _ _ _ x).
  - vm_compute. apply list_elem_of_here.
  - reflexivity.
  - apply canonicalb_true. vm_compute. reflexivity.
  - exact Hput.
Defined.
