(* ===== verification/UserTls.v ===== *)
(** * TLS credentials (src/controller/user_tls.rs)

    The client certificate of a TLS user and the operator's own identity: when the
    certificate in the Secret is kept and when a new one is issued, the trust
    bundle beside it, and the batch that reissues every user's certificate after
    the clients CA got a new key. *)

From S2P Require Import Prelude RustStd Effects Kube CaBundle ClusterCa.
Local Open Scope Z_scope.

Definition DEFAULT_VALIDITY_DAYS : Z := 365.
Definition DEFAULT_RENEWAL_DAYS : Z := 30.
Definition OPERATOR_IDENTITY : string := "krabka-operator@internal".
Definition OPERATOR_IDENTITY_ANNOTATION : string := "krabka.io/internal-operator-identity".

Definition operator_secret_name (cluster : string) : string := cluster +:+ "-operator-identity".
Definition tls_principal (name : string) : string := "User:CN=" +:+ name.

Record TlsAuth : Type := {
  auth_validity_days : option Z;   (* u32 *)
  auth_renewal_days : option Z;
}.

Record UserCertStatus : Type := { not_after : string; issued_new : bool }.
Record UserCert : Type := { uc_cert_pem : string; uc_key_pem : string; uc_not_after : string }.

(** Certificates as the x509-parser and rustls crates read them, and the checked
    addition of days to an instant, whose overflow panics. *)
Class UserX509 : Type := {
  Certificate : Type;
  parse_x509_pem : string → option Certificate;       (* parse_x509_pem, then parse_x509 *)
  cert_timestamp : Certificate → Z;                   (* validity().not_after.timestamp() *)
  verify_signature : Certificate → Certificate → bool;  (* against the public key of a CA *)
  subject_cn : Certificate → option string;           (* first common name, as_str().ok() *)
  cert_spki : Certificate → string;
  key_spki : string → option string;                  (* public key of a private key PEM *)
  add_days : Z → Z → option Z;
}.

Section tls.
Context `{TimeOps Time} `{X509} `{UserX509}.

(** ** Calls: those of the CA pass, a merge of one key of a Secret, issuing and
    the clock. *)
Inductive tls_call : Type :=
  | OnCa (c : ca_call)
  | MergeSecretData (name key value : string)
  | IssueUserCert (ca_cert ca_key cn : string) (validity_days : Z)
  | NowUtc.

Definition tls_resp (c : tls_call) : Type :=
  match c with
  | OnCa c => ca_resp c
  | MergeSecretData _ _ _ => result unit kube_error
  | IssueUserCert _ _ _ _ => result UserCert string
  | NowUtc => Z
  end.

Notation pass R := (prog tls_resp (result R (option ReconcileError))).
Notation call := (perform (resp := tls_resp)).

Definition kube {A} (p : prog tls_resp (result A kube_error)) : pass A :=
  r ← p; Ret (map_err (λ e, Some (Kube e)) r).
Definition get_opt (name : string) : pass (option secret) := kube (call (OnCa (GetSecret name))).
Definition apply_secret (name : string) (s : secret) : pass unit :=
  kube (call (OnCa (ApplySecret name s))).

(** ** Certificates *)
Definition is_cert_expiring_soon (not_after renewal_days now : Z) : option bool :=
  opt_map (λ limit, not_after <=? limit) (add_days now renewal_days).

Definition format_rfc3339 (t : Z) : result string (option ReconcileError) :=
  map_err (λ e, Some (CertParse ("rfc3339 format: " +:+ e))) (rfc3339 t).

Definition cert_not_after_from_pem (pem : string) : option Z :=
  and_then (parse_x509_pem pem) (λ cert, result_ok (from_unix_timestamp (cert_timestamp cert))).

Definition read_user_cert_not_after (s : secret) : option Z :=
  and_then (read_pem_key s "user.crt") cert_not_after_from_pem.

Definition cert_is_signed_by (cert_pem ca_cert_pem : string) : bool :=
  match parse_x509_pem cert_pem, parse_x509_pem ca_cert_pem with
  | Some cert, Some ca => verify_signature cert ca
  | _, _ => false
  end.

Definition cert_matches_private_key (cert_pem key_pem : string) : bool :=
  match key_spki key_pem, parse_x509_pem cert_pem with
  | Some key, Some cert => str_eqb (cert_spki cert) key
  | _, _ => false
  end.

Definition cert_common_name (pem : string) : option string := and_then (parse_x509_pem pem) subject_cn.

(** ** Keeping or issuing *)

(** The certificate of [existing] is outside the renewal window and [fits]:
    its expiry.  The clock is read once there is a certificate to test. *)
Definition usable (existing : option secret) (renewal : Z) (fits : secret → string → bool)
  : pass (option (secret * Z)) :=
  match existing with
  | None => Ret (Ok None)
  | Some s =>
      match read_user_cert_not_after s with
      | None => Ret (Ok None)
      | Some expiry =>
          now ← call NowUtc;
          Ret (match is_cert_expiring_soon expiry renewal now with
               | None => Err None
               | Some soon =>
                   if negb soon && is_some_and (fits s) (read_pem_key s "user.crt")
                   then Ok (Some (s, expiry)) else Ok None
               end)
      end
  end.

(** A kept certificate: only its trust bundle may have to be brought up to date. *)
Definition keep (name : string) (existing : secret) (expiry : Z) (bundle : string)
  : pass UserCertStatus :=
  _ ←? (if negb (bool_decide (read_pem_key existing "ca.crt" = Some bundle))
        then kube (call (MergeSecretData name "ca.crt" bundle)) else Ret (Ok tt));
  Ret (let? t := format_rfc3339 expiry in Ok {| not_after := t; issued_new := false |}).

Definition issue_user_cert (ca : CaMaterial) (cn : string) (validity : Z) : pass UserCert :=
  r ← call (IssueUserCert (ca_cert ca) (ca_key ca) cn validity);
  Ret (map_err (λ e, Some (Ca e)) r).

Definition cert_data (cert : UserCert) (bundle : string) : gmap string string :=
  {["user.crt" := uc_cert_pem cert; "user.key" := uc_key_pem cert; "ca.crt" := bundle]}.

Definition is_operator_identity_secret (s : secret) : bool :=
  bool_decide (annotation (sec_meta s) OPERATOR_IDENTITY_ANNOTATION = Some "true").

Definition operator_cert_fits (ca : CaMaterial) (existing : secret) (cert : string) : bool :=
  cert_is_signed_by cert (ca_cert ca)
  && bool_decide (cert_common_name cert = Some OPERATOR_IDENTITY)
  && is_some_and (cert_matches_private_key cert) (read_pem_key existing "user.key").

Definition operator_cert_secret (kafka : KafkaCas) (cert : UserCert) (bundle : string)
  : result secret ReconcileError :=
  let? owner := owner_ref "Kafka" (kc_meta kafka) in
  Ok {| sec_meta :=
          {| om_name := Some (operator_secret_name (name_any (kc_meta kafka)));
             om_namespace := om_namespace (kc_meta kafka); om_uid := None;
             om_labels := Some {["app.kubernetes.io/managed-by" := "krabka-operator";
                                 "krabka.io/cluster" := name_any (kc_meta kafka);
                                 "krabka.io/auth" := "tls"]};
             om_annotations := Some {[OPERATOR_IDENTITY_ANNOTATION := "true"]};
             om_finalizers := None; om_generation := None; om_deleting := false;
             om_owners := [owner] |};
        sec_data := Some (cert_data cert bundle) |}.

Definition ensure_operator_cert_secret (kafka : KafkaCas) (ca : CaMaterial) (bundle : string)
  : pass UserCertStatus :=
  let name := operator_secret_name (name_any (kc_meta kafka)) in
  existing ←? get_opt name;
  if is_some_and (λ s, negb (is_operator_identity_secret s)) existing
  then Ret (Err (Some (Malformed ("Secret " +:+ debug_str name
              +:+ " already exists and is not an operator identity"))))
  else
    found ←? usable existing DEFAULT_RENEWAL_DAYS (operator_cert_fits ca);
    match found with
    | Some (s, expiry) => keep name s expiry bundle
    | None =>
        cert ←? issue_user_cert ca OPERATOR_IDENTITY DEFAULT_VALIDITY_DAYS;
        match operator_cert_secret kafka cert bundle with
        | Err e => Ret (Err (Some e))
        | Ok s =>
            _ ←? apply_secret name s;
            Ret (Ok {| not_after := uc_not_after cert; issued_new := true |})
        end
    end.

(** ** The certificate of a user, by its metadata *)
Definition user_owner_ref (user : object_meta) : result owner_reference ReconcileError :=
  match om_uid user with
  | None => Err MissingUid
  | Some uid => Ok {| or_kind := "KafkaUser"; or_name := name_any user; or_uid := uid |}
  end.

Definition user_cert_labels (user : object_meta) : gmap string string :=
  let base := {["app.kubernetes.io/name" := "krabka-broker";
                "app.kubernetes.io/managed-by" := "krabka-operator"]} in
  let base := match label user "krabka.io/cluster" with
              | Some cluster => <["krabka.io/cluster" := cluster]> base
              | None => base
              end in
  <["krabka.io/auth" := "tls"]> (<["krabka.io/user" := name_any user]> base).

Definition render_user_cert_secret (user : object_meta) (cert : UserCert) (bundle : string)
  : result secret ReconcileError :=
  let? owner := user_owner_ref user in
  Ok {| sec_meta :=
          {| om_name := Some (name_any user); om_namespace := om_namespace user; om_uid := None;
             om_labels := Some (user_cert_labels user); om_annotations := None;
             om_finalizers := None; om_generation := None; om_deleting := false;
             om_owners := [owner] |};
        sec_data := Some (cert_data cert bundle) |}.

Definition renewal_of (auth : TlsAuth) : Z := default DEFAULT_RENEWAL_DAYS (auth_renewal_days auth).
Definition validity_of (auth : TlsAuth) : Z := default DEFAULT_VALIDITY_DAYS (auth_validity_days auth).

Definition ensure_user_cert_secret (user : object_meta) (ca : CaMaterial) (bundle : string)
    (auth : TlsAuth) : pass UserCertStatus :=
  let name := name_any user in
  existing ←? get_opt name;
  found ←? usable existing (renewal_of auth) (λ _ cert, cert_is_signed_by cert (ca_cert ca));
  match found with
  | Some (s, expiry) => keep name s expiry bundle
  | None =>
      cert ←? issue_user_cert ca name (validity_of auth);
      match render_user_cert_secret user cert bundle with
      | Err e => Ret (Err (Some e))
      | Ok s =>
          _ ←? apply_secret name s;
          Ret (Ok {| not_after := uc_not_after cert; issued_new := true |})
      end
  end.

Definition reconcile_user_cert_secret (user : object_meta) (kafka : KafkaCas) (auth : TlsAuth)
  : pass UserCertStatus :=
  now ← call NowUtc;
  ca ←? lift OnCa (λ _ x, x) (reconcile_ca kafka Clients false false false now);
  ensure_user_cert_secret user (signing_material ca) (trust_bundle_pem ca) auth.

(** A user of the batch: its metadata, with the TLS settings if it is a TLS user. *)
Fixpoint reissue_tls_user_cert_secrets (users : list (object_meta * option TlsAuth))
    (ca : CaMaterial) (bundle : string) (issued : Z) : pass Z :=
  match users with
  | [] => Ret (Ok issued)
  | (user, auth) :: users =>
      match om_deleting user, auth with
      | false, Some auth =>
          st ←? ensure_user_cert_secret user ca bundle auth;
          reissue_tls_user_cert_secrets users ca bundle (issued + (if issued_new st then 1 else 0))
      | _, _ => reissue_tls_user_cert_secrets users ca bundle issued
      end
  end.
End tls.

(** ** Users end up with a certificate of the active CA *)
Section current.
Context `{TimeOps Time} `{X509} `{UserX509}.
Context (ca : CaMaterial) (bundle : string).
Implicit Types (tr : list (event tls_resp)) (user : object_meta).

(** A certificate for the user's name was issued by [ca] and stored with its key
    and the trust bundle. *)
Definition issued_to tr user (auth : TlsAuth) : Prop :=
  ∃ cert s,
    ev (resp := tls_resp) (IssueUserCert (ca_cert ca) (ca_key ca) (name_any user) (validity_of auth))
      (Ok cert) ∈ tr ∧
    ev (resp := tls_resp) (OnCa (ApplySecret (name_any user) s)) (Ok tt) ∈ tr ∧
    sec_data s = Some (cert_data cert bundle).

(** The stored certificate is signed by [ca] and outside the renewal window, and
    the trust bundle beside it is [bundle] or was made so. *)
Definition kept_by tr user (auth : TlsAuth) : Prop :=
  ∃ s pem expiry now,
    ev (resp := tls_resp) (OnCa (GetSecret (name_any user))) (Ok (Some s)) ∈ tr ∧
    read_pem_key s "user.crt" = Some pem ∧ cert_is_signed_by pem (ca_cert ca) = true ∧
    cert_not_after_from_pem pem = Some expiry ∧ ev (resp := tls_resp) NowUtc now ∈ tr ∧
    is_cert_expiring_soon expiry (renewal_of auth) now = Some false ∧
    (read_pem_key s "ca.crt" = Some bundle ∨
     ev (resp := tls_resp) (MergeSecretData (name_any user) "ca.crt" bundle) (Ok tt) ∈ tr).

Definition current_cert tr user auth : Prop := issued_to tr user auth ∨ kept_by tr user auth.

Lemma current_cert_mono tr tr' user auth :
  tr ⊆ tr' → current_cert tr user auth → current_cert tr' user auth.
Proof.
  intros Hsub [(cert & s & Hi & Ha & Hd)|(s & pem & x & now & Hg & Hp & Hs & He & Hn & Hw & Hb)].
  - left. exists cert, s. auto.
  - right. exists s, pem, x, now. destruct Hb; split_and!; auto.
Qed.

(** The Secret a call writes. *)
Definition written_secret (e : event tls_resp) : option string :=
  match projT1 e with
  | OnCa (ApplySecret name _) | OnCa (MergeAnnotation name _ _) | MergeSecretData name _ _ => Some name
  | _ => None
  end.

Definition is_apply (e : event tls_resp) : bool :=
  match projT1 e with OnCa (ApplySecret _ _) => true | _ => false end.
Definition applies tr : Z := Z.of_nat (length (List.filter is_apply tr)).

Lemma applies_app tr1 tr2 : applies (tr1 ++ tr2) = applies tr1 + applies tr2.
Proof. unfold applies. rewrite List.filter_app, length_app. lia. Qed.

Definition writes_of (name : string) (e : event tls_resp) : Prop :=
  ∀ n, written_secret e = Some n → n = name.

(** What [usable] finds. *)
Lemma usable_fits s fits renewal expiry now soon :
  read_user_cert_not_after s = Some expiry →
  is_cert_expiring_soon expiry renewal now = Some soon →
  negb soon && is_some_and fits (read_pem_key s "user.crt") = true →
  ∃ pem, read_pem_key s "user.crt" = Some pem ∧ fits pem = true ∧
    cert_not_after_from_pem pem = Some expiry ∧ is_cert_expiring_soon expiry renewal now = Some false.
Proof.
  unfold read_user_cert_not_after. intros Hexp Hsoon [Hns Hfit]%andb_true_iff.
  destruct (read_pem_key s "user.crt") as [pem|]; [|done]. exists pem.
  apply negb_true_iff in Hns as ->. auto.
Qed.

Lemma render_user_cert_data user cert s :
  render_user_cert_secret user cert bundle = Ok s → sec_data s = Some (cert_data cert bundle).
Proof. unfold render_user_cert_secret. destruct (user_owner_ref user); [|done]. by intros [= <-]. Qed.

Lemma ensure_user_cert_spec user auth :
  all_runs (ensure_user_cert_secret user ca bundle auth) (λ tr res,
    Forall (writes_of (name_any user)) tr ∧
    ∀ st, res = Ok st → current_cert tr user auth ∧ applies tr = if issued_new st then 1 else 0).
Proof.
  unfold all_runs, ensure_user_cert_secret, get_opt, usable, keep, issue_user_cert, apply_secret, kube.
  run_cases; cbn [map_err app] in *; simplify_eq;
    (split; [repeat (constructor; [unfold writes_of; cbn; congruence|]); constructor|]);
    intros st Hst; try discriminate Hst;
    first
      [ destruct (format_rfc3339 _) in Hst; [|discriminate Hst]; injection Hst as <-; split; [|done]; right;
        edestruct usable_fits as (pem & Hpem & Hfit & Hna & Hw); [eassumption..|];
        eexists _, pem, _, _; split_and!; try eassumption; try in_log;
        first [ left; by eapply bool_decide_eq_true, negb_false_iff
              | right; repeat match goal with u : unit |- _ => destruct u end; in_log ]
      | injection Hst as <-; split; [|done]; left; eexists _, _; split_and!;
        [in_log|repeat match goal with u : unit |- _ => destruct u end; in_log|by eapply render_user_cert_data] ].
Qed.
(** The live TLS users of the batch. *)
Definition live_user (users : list (object_meta * option TlsAuth)) (user : object_meta)
    (auth : TlsAuth) : Prop := (user, Some auth) ∈ users ∧ om_deleting user = false.

Definition batch_served users n0 tr (res : result Z (option ReconcileError)) : Prop :=
  Forall (λ e, ∀ name, written_secret e = Some name →
    ∃ user auth, live_user users user auth ∧ name = name_any user) tr ∧
  ∀ n, res = Ok n → (∀ user auth, live_user users user auth → current_cert tr user auth) ∧
    n = n0 + applies tr.

Lemma live_user_cons user auth users u a :
  live_user ((user, auth) :: users) u a ↔
  (user = u ∧ auth = Some a ∧ om_deleting u = false) ∨ live_user users u a.
Proof. unfold live_user. rewrite elem_of_cons. naive_solver. Qed.

(** Users that are passed over do not matter. *)
Lemma batch_served_same users users' n0 tr res :
  (∀ u a, live_user users' u a ↔ live_user users u a) →
  batch_served users n0 tr res → batch_served users' n0 tr res.
Proof.
  intros Heq [Hw Hres]. split.
  - eapply Forall_impl; [exact Hw|]. cbn. intros e Hname name Hn.
    destruct (Hname name Hn) as (u & a & Hl & ->). exists u, a. by rewrite Heq.
  - intros n Hn. destruct (Hres n Hn) as [Hc ->]. split; [|done]. intros u a Hl%Heq. by apply Hc.
Qed.

Lemma batch_served_cons user auth users n0 k tr1 tr2 res :
  om_deleting user = false → Forall (writes_of (name_any user)) tr1 → current_cert tr1 user auth →
  applies tr1 = k → batch_served users (n0 + k) tr2 res →
  batch_served ((user, Some auth) :: users) n0 (tr1 ++ tr2) res.
Proof.
  intros Hdel Hw1 Hc1 Hk [Hw Hres]. split.
  - apply Forall_app. split; (eapply Forall_impl; [eassumption|]); cbn; intros e Hname name Hn.
    + exists user, auth. split; [|by apply Hname]. split; [by left|done].
    + destruct (Hname name Hn) as (u & a & Hl & ->). exists u, a. split; [|done].
      apply live_user_cons. by right.
  - intros n Hn. destruct (Hres n Hn) as [Hc ->]. rewrite applies_app. split; [|lia].
    intros u a [(-> & [= ->] & _)|Hu]%live_user_cons.
    + eapply current_cert_mono; [|done]. by apply list_subseteq_app_l.
    + eapply current_cert_mono; [|by apply Hc]. by apply list_subseteq_app_r.
Qed.

Lemma reissue_batch users n0 :
  all_runs (reissue_tls_user_cert_secrets users ca bundle n0) (batch_served users n0).
Proof.
  revert n0. induction users as [|[user auth] users IH]; intros n0; cbn [reissue_tls_user_cert_secrets].
  { split; [constructor|]. intros n [= <-]. split; [by intros ? ? [[]%not_elem_of_nil _]|].
    unfold applies. cbn. lia. }
  destruct (om_deleting user) eqn:Hdel; [|destruct auth as [auth|]].
  - eapply all_runs_mono; [|apply IH]. intros tr res. apply batch_served_same.
    intros u a. rewrite live_user_cons. naive_solver congruence.
  - apply all_runs_bind. eapply all_runs_mono; [|apply (ensure_user_cert_spec user auth)]. cbn beta.
    intros tr1 [st|e] [Hw1 Hres1].
    + destruct (Hres1 st eq_refl) as [Hc1 Hn1]. eapply all_runs_mono; [|apply IH].
      intros tr2 res. by apply batch_served_cons.
    + split; [|done]. rewrite app_nil_r. eapply Forall_impl; [exact Hw1|]. intros e' Hname name Hn.
      exists user, auth. split; [|by apply Hname]. split; [by left|done].
  - eapply all_runs_mono; [|apply IH]. intros tr res. apply batch_served_same.
    intros u a. rewrite live_user_cons. naive_solver congruence.
Qed.

(** The batch after a key change serves every user.  When the reissue of the
    users' certificates succeeds, each TLS user that is not being deleted has a
    certificate of the active clients CA, either issued for its name and stored
    with its key and the trust bundle, or found in its Secret, signed by that CA,
    outside the renewal window, with the bundle brought up to date; and the
    result counts the certificates that were issued.  No other Secret is written,
    also when the batch fails. *)
Theorem reissue_serves_users users n0 :
  all_runs (reissue_tls_user_cert_secrets users ca bundle n0) (batch_served users n0).
Proof. apply reissue_batch. Qed.

(** Neither a user's certificate nor the operator's merges an annotation. *)
Definition quiet_tls (c : tls_call) : Prop := match c with OnCa c => merges c = false | _ => True end.

Lemma ensure_user_cert_only user auth :
  only quiet_tls (ensure_user_cert_secret user ca bundle auth).
Proof.
  unfold ensure_user_cert_secret, get_opt, usable, keep, issue_user_cert, apply_secret, kube.
  only_calls; done.
Qed.

Lemma reissue_only users n0 : only quiet_tls (reissue_tls_user_cert_secrets users ca bundle n0).
Proof.
  revert n0. induction users as [|[user auth] users IH]; intros n0; cbn [reissue_tls_user_cert_secrets]; [done|].
  destruct (om_deleting user), auth as [auth|]; try apply IH.
  apply only_bind; [apply ensure_user_cert_only|]. intros [st|e]; [apply IH|done].
Qed.

Lemma operator_cert_only (kafka : KafkaCas) :
  only quiet_tls (ensure_operator_cert_secret kafka ca bundle).
Proof.
  unfold ensure_operator_cert_secret, get_opt, usable, keep, issue_user_cert, apply_secret, kube.
  only_calls; done.
Qed.

(** The operator's identity does not take over a Secret of someone else. *)
Lemma operator_identity_protected (kafka : KafkaCas) :
  all_runs (ensure_operator_cert_secret kafka ca bundle) (λ tr _,
    ∀ e, e ∈ tr → is_Some (written_secret e) →
    ∃ existing, ev (resp := tls_resp)
        (OnCa (GetSecret (operator_secret_name (name_any (kc_meta kafka))))) (Ok existing) ∈ tr ∧
      from_option is_operator_identity_secret true existing = true).
Proof.
  unfold all_runs, ensure_operator_cert_secret, get_opt, usable, keep, issue_user_cert, apply_secret, kube.
  run_cases; cbn [map_err app] in *; simplify_eq; intros ev0 Hev [name Hname];
    first [ exfalso; clear -Hev Hname; by (log_mem Hev; subst; cbn in Hname)
          | eexists; split; [in_log|]; cbn in *; by rewrite ?negb_false_iff in * ].
Qed.
End current.

Section active.
Context `{TimeOps Time} `{X509} `{UserX509}.

(** The user's certificate is one of the CA that a run of [reconcile_ca] for the
    clients CA, which does not advance its rotation, gave as active. *)
Definition active_cert (kafka : KafkaCas) (tr : list (event tls_resp)) (user : object_meta)
    (auth : TlsAuth) : Prop :=
  ∃ now tr1 tr2 oc,
    ev (resp := tls_resp) NowUtc now ∈ tr ∧ tr2 ⊆ tr ∧ Forall2 (lifted OnCa (λ _ x, x)) tr1 tr2 ∧
    runs (reconcile_ca (Time := Time) kafka Clients false false false now) tr1 (Ok oc) ∧
    current_cert (signing_material oc) (trust_bundle_pem oc) tr user auth.

Lemma active_cert_mono kafka tr tr' user auth :
  tr ⊆ tr' → active_cert kafka tr user auth → active_cert kafka tr' user auth.
Proof.
  intros Hs (now & tr1 & tr2 & oc & Hn & H2 & Hl & Hr & Hc). exists now, tr1, tr2, oc.
  split_and!; [auto|by etrans|done..|by eapply current_cert_mono].
Qed.

Lemma reconcile_user_cert_spec user kafka auth :
  all_runs (reconcile_user_cert_secret (Time := Time) user kafka auth) (λ tr res,
    ∀ st, res = Ok st → active_cert kafka tr user auth).
Proof.
  unfold reconcile_user_cert_secret. apply all_runs_bind. intros now. cbn [app].
  apply all_runs_bind. eapply all_runs_mono; [|apply all_runs_lift, all_runs_runs].
  cbn beta. intros tr2 [oc|e] (tr1 & Hl & Hr); [|by intros ?].
  eapply all_runs_mono; [|apply ensure_user_cert_spec]. intros tr3 res [_ Hres] st Hst.
  destruct (Hres st Hst) as [Hc _]. exists now, tr1, tr2, oc. split_and!; [by left| |done|done|].
  - intros e He. apply list_elem_of_further, elem_of_app. by left.
  - eapply current_cert_mono; [|exact Hc]. intros e He. apply list_elem_of_further, elem_of_app. by right.
Qed.
End active.
