(* ===== verification/Listeners.v ===== *)
(** * Listeners (src/crd/listener.rs, src/controller/listeners.rs)

    The listener types of a Kafka resource, the protocol and SASL mechanism of a
    listener, the operator's own listener, which must not collide with a listener
    of the user, the name of the inter-broker listener, and the bootstrap address
    a Ready cluster reports for one (src/controller/topic.rs). *)

From S2P Require Import Prelude RustStd Kube.
Local Open Scope Z_scope.

(** ** Data *)
Inductive ListenerType : Type := Internal | Nodeport | Loadbalancer | Ingress | Route.

#[global] Instance ListenerType_eq_dec : EqDecision ListenerType.
Proof. solve_decision. Defined.

Record TlsTrustedCertificate : Type := {
  trusted_secret_name : string;
  trusted_certificate : string;
}.

#[global] Instance TlsTrustedCertificate_eq_dec : EqDecision TlsTrustedCertificate.
Proof. solve_decision. Defined.

(** [OauthClientSecretRef], [KeytabSecretRef]: a key of a Secret. *)
Record SecretKeyRef : Type := { skr_secret_name : string; skr_key : string }.

#[global] Instance SecretKeyRef_eq_dec : EqDecision SecretKeyRef.
Proof. solve_decision. Defined.

Record ListenerAuthenticationOAuth : Type := {
  valid_issuer_uri : string;
  jwks_endpoint_uri : option string;
  valid_audience : option string;
  user_name_claim : option string;
  custom_claim_check : option string;
  jwks_refresh_seconds : option Z;
  max_clock_skew_seconds : option Z;
  enable_oauth_bearer : bool;
  tls_trusted_certificates : list TlsTrustedCertificate;
  access_token_is_jwt : bool;
  introspection_endpoint_uri : option string;
  user_info_endpoint_uri : option string;
  client_id : option string;
  client_secret : option SecretKeyRef;
  introspection_http_timeout_seconds : option Z;
  max_seconds_without_reauthentication : option Z;
  valid_token_type : option string;
  fallback_user_name_claim : option string;
  fallback_user_name_prefix : option string;
  groups_claim : option string;
  groups_claim_delimiter : option string;
  jwks_min_refresh_pause_seconds : option Z;
  jwks_expiry_seconds : option Z;
  jwks_ignore_key_use : option bool;
}.

#[global] Instance ListenerAuthenticationOAuth_eq_dec : EqDecision ListenerAuthenticationOAuth.
Proof. solve_decision. Defined.

Record ListenerAuthenticationGssapi {Time : Type} : Type := {
  keytab_secret_ref : SecretKeyRef;
  service_name : option string;
  principal_to_local_rules : list string;
  realm : option string;
  kdc : option string;
  max_time_skew : option Time;
}.
Arguments ListenerAuthenticationGssapi Time : clear implicits.

Inductive ListenerAuthentication {Time : Type} : Type :=
  | AuthTls
  | AuthScramSha512
  | AuthScramSha256
  | AuthOAuth (cfg : ListenerAuthenticationOAuth)
  | AuthGssapi (cfg : ListenerAuthenticationGssapi Time).
Arguments ListenerAuthentication Time : clear implicits.

Record BootstrapConfig : Type := {
  bc_node_port : option Z;
  bc_load_balancer_ip : option string;
  bc_host : option string;
  bc_annotations : gmap string string;
  bc_labels : gmap string string;
}.

Record BrokerOverride : Type := {
  bo_broker : Z;
  bo_advertised_host : option string;
  bo_advertised_port : option Z;
  bo_node_port : option Z;
  bo_load_balancer_ip : option string;
  bo_host : option string;
}.

Record ListenerConfiguration : Type := {
  lc_bootstrap : option BootstrapConfig;
  lc_brokers : list BrokerOverride;
  lc_ingress_class : option string;
}.

(** A label selector, and a peer of a network policy made of two. *)
Record LabelSelectorRequirement : Type := {
  req_key : string;
  req_operator : string;
  req_values : option (list string);
}.

Record LabelSelector : Type := {
  match_labels : option (gmap string string);
  match_expressions : option (list LabelSelectorRequirement);
}.

Record NetworkPolicyPeer : Type := {
  peer_pod_selector : option LabelSelector;
  peer_namespace_selector : option LabelSelector;
}.

Record Listener {Time : Type} : Type := {
  l_name : string;
  l_port : Z;
  l_type : ListenerType;
  l_tls : bool;
  l_authentication : option (ListenerAuthentication Time);
  l_configuration : option ListenerConfiguration;
  l_network_policy_peers : option (list NetworkPolicyPeer);
}.
Arguments Listener Time : clear implicits.

(** [krabka_security]'s protocols and mechanisms. *)
Inductive ListenerProtocol : Type := Plaintext | Ssl | SaslPlaintext | SaslSsl.
Inductive SaslMechanism : Type := MechScramSha512 | MechScramSha256 | OAuthBearer | MechGssapi.

Definition BROKER_PORT : Z := 9092.
Definition CONTROLLER_PORT : Z := 9093.
Definition OPERATOR_LISTENER_NAME : string := "OPERATOR".
Definition OPERATOR_LISTENER_PORT : Z := 9091.

(** ** Operations *)
Section listeners.
Context {Time : Type}.
#[local] Notation Listener := (Listener Time).

(** [None] is the panic of [unreachable!]. *)
Definition listener_protocol (l : Listener) : option ListenerProtocol :=
  match l_tls l, l_authentication l with
  | false, None => Some Plaintext
  | true, (None | Some AuthTls) => Some Ssl
  | false, Some (AuthScramSha512 | AuthScramSha256 | AuthOAuth _ | AuthGssapi _) =>
      Some SaslPlaintext
  | true, Some (AuthScramSha512 | AuthScramSha256 | AuthOAuth _ | AuthGssapi _) => Some SaslSsl
  | false, Some AuthTls => None
  end.

Definition sasl_mechanism (auth : ListenerAuthentication Time) : option SaslMechanism :=
  match auth with
  | AuthScramSha512 => Some MechScramSha512
  | AuthScramSha256 => Some MechScramSha256
  | AuthOAuth cfg => if enable_oauth_bearer cfg then Some OAuthBearer else None
  | AuthGssapi _ => Some MechGssapi
  | AuthTls => None
  end.

Definition synthesized_default_listener : Listener :=
  {| l_name := "PLAIN"; l_port := 9092; l_type := Internal; l_tls := false;
     l_authentication := None; l_configuration := None; l_network_policy_peers := None |}.

(** [while taken(x) { x = next(x) }], cut after [fuel] steps. *)
Fixpoint first_untaken {A} (taken : A → bool) (next : A → A) (fuel : nat) (x : A) : A :=
  match fuel with
  | O => x
  | S fuel => if taken x then first_untaken taken next fuel (next x) else x
  end.

Definition name_taken (existing : list Listener) (name : string) : bool :=
  existsb (λ l, str_eqb (l_name l) name) existing.

Definition port_taken (existing : list Listener) (port : Z) : bool :=
  (port =? CONTROLLER_PORT) || (port =? BROKER_PORT) || existsb (λ l, l_port l =? port) existing.

(** The loops of [operator_listener] need at most one step for each taken value. *)
Definition operator_listener (existing : list Listener) : Listener :=
  {| l_name := first_untaken (name_taken existing) (λ name, name +:+ "_") (S (length existing))
                 OPERATOR_LISTENER_NAME;
     l_port := first_untaken (port_taken existing) (λ port, port + 1) (3 + length existing)
                 OPERATOR_LISTENER_PORT;
     l_type := Internal;
     l_tls := true;
     l_authentication := Some AuthTls;
     l_configuration := None;
     l_network_policy_peers := None |}.

Definition effective_inter_broker_listener_name (listeners : list Listener)
    (explicit : option string) : string :=
  match explicit with
  | Some s => s
  | None =>
      match find_first (λ l, bool_decide (l_type l = Internal)) listeners with
      | Some l => l_name l
      | None => "PLAIN"
      end
  end.

End listeners.

(** ** A cluster's reported listeners *)
Record ListenerAddress : Type := { la_host : string; la_port : Z }.

Record ListenerStatus : Type := {
  ls_name : string;
  ls_type : ListenerType;
  bootstrap_servers : string;
  ls_addresses : list ListenerAddress;
}.

(** The fields of a [Kafka] that its clients read. *)
Record KafkaView {Time : Type} : Type := {
  kv_listeners : list (Listener Time);
  kv_inter_broker_listener_name : option string;
  kv_status : option (list KafkaCondition * list ListenerStatus);
}.
Arguments KafkaView Time : clear implicits.

Section bootstrap.
Context {Time : Type}.
#[local] Notation KafkaView := (KafkaView Time).

Definition ready_listener_bootstrap (kafka : KafkaView) (predicate : ListenerStatus → bool)
  : option string :=
  let ready_true :=
    is_some_and (λ c, str_eqb (status c) "True")
      (and_then (kv_status kafka) (λ s, find_first (λ c, str_eqb (type_ c) "Ready") s.1)) in
  if negb ready_true then None
  else
    and_then (kv_status kafka) (λ s,
      option_filter (λ b, negb (is_empty b))
        (opt_map bootstrap_servers (find_first predicate s.2))).

Definition operator_listener_bootstrap (kafka : KafkaView) : option string :=
  let existing := match kv_listeners kafka with
                  | [] => [synthesized_default_listener] | l => l end in
  let name := l_name (operator_listener existing) in
  ready_listener_bootstrap kafka (λ l, str_eqb (ls_name l) name).

Definition internal_listener_bootstrap (kafka : KafkaView) : option string :=
  let name := effective_inter_broker_listener_name (kv_listeners kafka)
                (kv_inter_broker_listener_name kafka) in
  ready_listener_bootstrap kafka
    (λ l, bool_decide (ls_type l = Internal) && str_eqb (ls_name l) name).

End bootstrap.

(** ** The search ends on a free value *)
Section first_untaken.
Context {A : Type} `{EqDecision A} (taken : A → bool) (next : A → A).

Lemma first_untaken_iter fuel x :
  ∃ i, (i ≤ fuel)%nat ∧ first_untaken taken next fuel x = Nat.iter i next x ∧
       (∀ j, (j < i)%nat → taken (Nat.iter j next x) = true) ∧
       (taken (Nat.iter i next x) = false ∨ i = fuel).
Proof.
  revert x. induction fuel as [|fuel IH]; intros x; cbn.
  - exists O. split; [lia|]. split; [done|]. split; [lia|by right].
  - destruct (taken x) eqn:Hx.
    + destruct (IH (next x)) as (i & Hi & -> & Hall & Hend). exists (S i).
      split; [lia|]. rewrite Nat.iter_succ_r. split; [done|]. split.
      * intros [|j] Hj; [done|]. rewrite Nat.iter_succ_r. apply Hall. lia.
      * destruct Hend; [by left|right; lia].
    + exists O. split; [lia|]. split; [done|]. split; [lia|by left].
Qed.

(** With more fuel than taken values and no cycle, the search stops. *)
Lemma first_untaken_free (used : list A) fuel x :
  (∀ a, taken a = true → a ∈ used) → (length used < fuel)%nat →
  (∀ i j, Nat.iter i next x = Nat.iter j next x → i = j) →
  ∃ i, (i ≤ length used)%nat ∧ first_untaken taken next fuel x = Nat.iter i next x ∧
       taken (first_untaken taken next fuel x) = false.
Proof.
  intros Hused Hlen Hinj. destruct (first_untaken_iter fuel x) as (i & Hi & -> & Hall & Hend).
  set (l := (λ j, Nat.iter j next x) <$> seq 0 i).
  assert (NoDup l) as Hnd.
  { apply NoDup_fmap_2; [|apply NoDup_seq]. intros a b. apply Hinj. }
  assert (length l ≤ length used)%nat as Hl.
  { apply submseteq_length, NoDup_submseteq; [done|]. intros a Ha.
    apply list_elem_of_fmap in Ha as (j & -> & Hj%elem_of_seq). apply Hused, Hall. lia. }
  unfold l in Hl. rewrite length_fmap, length_seq in Hl.
  exists i. split; [done|]. split; [done|]. destruct Hend; [done|lia].
Qed.
End first_untaken.

Section fresh.
Context {Time : Type}.
Implicit Types existing : list (Listener Time).

Lemma name_taken_used existing a :
  name_taken existing a = true → a ∈ l_name <$> existing.
Proof.
  unfold name_taken. rewrite existsb_exists. intros (l & Hl & Ha%str_eqb_eq).
  apply list_elem_of_fmap. exists l. rewrite list_elem_of_In. done.
Qed.

Lemma port_taken_used existing a :
  port_taken existing a = true → a ∈ CONTROLLER_PORT :: BROKER_PORT :: (l_port <$> existing).
Proof.
  unfold port_taken. rewrite !orb_true_iff, existsb_exists, !elem_of_cons, list_elem_of_fmap.
  intros [[?%Z.eqb_eq|?%Z.eqb_eq]|(l & Hl & Ha%Z.eqb_eq)]; [by auto..|].
  right; right. exists l. rewrite list_elem_of_In. done.
Qed.

Lemma iter_underscores_length i s :
  String.length (Nat.iter i (λ n, n +:+ "_") s) = (i + String.length s)%nat.
Proof. induction i as [|i IH]; [done|]. rewrite Nat.iter_succ, str_length_app, IH. cbn. lia. Qed.

Lemma iter_ports i p : Nat.iter i (λ port, port + 1) p = p + Z.of_nat i.
Proof. induction i as [|i IH]; [cbn; lia|]. rewrite Nat.iter_succ, IH. lia. Qed.

Lemma operator_listener_avoids (existing : list (Listener Time)) :
  let l := operator_listener existing in
  (∀ o, o ∈ existing → l_name o ≠ l_name l ∧ l_port o ≠ l_port l) ∧
  l_port l ≠ BROKER_PORT ∧ l_port l ≠ CONTROLLER_PORT ∧
  OPERATOR_LISTENER_PORT ≤ l_port l ≤ OPERATOR_LISTENER_PORT + 2 + Z.of_nat (length existing).
Proof.
  cbn zeta.
  destruct (first_untaken_free (name_taken existing) (λ name, name +:+ "_") (l_name <$> existing)
    (S (length existing)) OPERATOR_LISTENER_NAME) as (i & _ & _ & Hn).
  { apply name_taken_used. } { rewrite length_fmap. lia. }
  { intros a b Hab. apply (f_equal String.length) in Hab. rewrite !iter_underscores_length in Hab. lia. }
  destruct (first_untaken_free (port_taken existing) (λ port, port + 1)
    (CONTROLLER_PORT :: BROKER_PORT :: (l_port <$> existing)) (3 + length existing)
    OPERATOR_LISTENER_PORT) as (j & Hj & Hp & Ht).
  { apply port_taken_used. } { cbn. rewrite length_fmap. lia. }
  { intros a b. rewrite !iter_ports. lia. }
  cbn in Hj. rewrite length_fmap in Hj. rewrite iter_ports in Hp.
  unfold port_taken in Ht. rewrite !orb_false_iff, !Z.eqb_neq in Ht. destruct Ht as [[Hc Hb] He].
  split; [|split; [exact Hb|split; [exact Hc|cbn [l_port operator_listener]; lia]]].
  intros o Ho. split; intros Heq.
  - apply not_true_iff_false in Hn. apply Hn. apply existsb_exists. exists o.
    rewrite <- list_elem_of_In. split; [done|]. by apply str_eqb_eq.
  - apply not_true_iff_false in He. apply He. apply existsb_exists. exists o.
    rewrite <- list_elem_of_In. split; [done|]. by apply Z.eqb_eq.
Qed.

(** C12. The operator's listener never collides.  Both searches of
    [operator_listener] end, after at most one step for each listener (and two
    more for the reserved ports): its name is the name of no listener of the
    cluster, and its port is neither taken nor one of the two reserved ports. *)
Theorem operator_listener_fresh (existing : list (Listener Time)) :
  let l := operator_listener existing in
  (∀ o, o ∈ existing → l_name o ≠ l_name l ∧ l_port o ≠ l_port l) ∧
  l_port l ≠ BROKER_PORT ∧ l_port l ≠ CONTROLLER_PORT ∧
  OPERATOR_LISTENER_PORT ≤ l_port l ≤ OPERATOR_LISTENER_PORT + 2 + Z.of_nat (length existing).
Proof. apply operator_listener_avoids. Qed.
End fresh.
