(* ===== verification/ListenerCheck.v ===== *)
(** * Validation of the listeners of a cluster (src/controller/listeners.rs)

    [validate_listeners] with its errors, the checks of the operator's principal
    and of inter-broker Kerberos, and the warnings on weak authentication.  The
    specification [listeners_wf] says what the rest of the operator may rely on;
    validation accepts exactly the lists that satisfy it, and an error names a
    real fault. *)

From S2P Require Import Prelude RustStd Kube Listeners.
Local Open Scope Z_scope.

Inductive ValidationError : Type :=
  | DuplicateListenerName (name : string)
  | DuplicateListenerPort (port : Z)
  | ListenerIngressRequiresTls (name : string)
  | ListenerIngressBootstrapHostMissing (name : string)
  | DuplicateBrokerOverride (listener : string) (broker : Z)
  | InterBrokerListenerMissing (name : string)
  | InterBrokerListenerNotInternal (name : string)
  | NoInternalListener
  | ListenerMtlsRequiresTransportTls (name : string)
  | ListenerOauthRequiresTransportTls (name : string)
  | ListenerOauthIssuerUriEmpty (name : string)
  | ListenerOauthJwksUriBadScheme (name : string)
  | ListenerOauthJwksRefreshTooSmall (listener : string) (got : Z)
  | ListenerOauthValidTokenTypeRejectedInIntrospectionMode (msg : string)
  | ListenerOauthJwksFieldsRejectedInIntrospectionMode (msg : string)
  | ConflictingOAuthListenerConfig
  | ListenerOauthAccessTokenIsJwtInvalid (msg : string)
  | ListenerGssapiKeytabSecretMissing (name : string)
  | ListenerGssapiInvalidRule (msg : string)
  | ConflictingGssapiListenerConfig
  | InterBrokerGssapiRequiresKerberosConfig (name : string)
  | OperatorPrincipalMayBeForged (name : string).

Definition validation_reason (e : ValidationError) : string :=
  match e with
  | DuplicateListenerName _ => "DuplicateListenerName"
  | DuplicateListenerPort _ => "DuplicateListenerPort"
  | ListenerIngressRequiresTls _ => "ListenerIngressRequiresTls"
  | ListenerIngressBootstrapHostMissing _ => "ListenerIngressBootstrapHostMissing"
  | DuplicateBrokerOverride _ _ => "DuplicateBrokerOverride"
  | InterBrokerListenerMissing _ => "InterBrokerListenerMissing"
  | InterBrokerListenerNotInternal _ => "InterBrokerListenerNotInternal"
  | NoInternalListener => "NoInternalListener"
  | ListenerMtlsRequiresTransportTls _ => "ListenerMtlsRequiresTransportTls"
  | ListenerOauthRequiresTransportTls _ => "ListenerOauthRequiresTransportTls"
  | ListenerOauthIssuerUriEmpty _ | ListenerOauthJwksUriBadScheme _ => "ListenerOauthInvalidUri"
  | ListenerOauthJwksRefreshTooSmall _ _ => "ListenerOauthInvalidRefresh"
  | ListenerOauthValidTokenTypeRejectedInIntrospectionMode _ =>
      "ListenerOauthValidTokenTypeRejectedInIntrospectionMode"
  | ListenerOauthJwksFieldsRejectedInIntrospectionMode _ =>
      "ListenerOauthJwksFieldsRejectedInIntrospectionMode"
  | ConflictingOAuthListenerConfig => "ConflictingOAuthConfig"
  | ListenerOauthAccessTokenIsJwtInvalid _ => "ListenerOauthAccessTokenIsJwtInvalid"
  | ListenerGssapiKeytabSecretMissing _ => "ListenerGssapiKeytabSecretMissing"
  | ListenerGssapiInvalidRule _ => "ListenerGssapiInvalidRule"
  | ConflictingGssapiListenerConfig => "ListenerGssapiConfigConflict"
  | InterBrokerGssapiRequiresKerberosConfig _ => "InterBrokerGssapiRequiresKerberosConfig"
  | OperatorPrincipalMayBeForged _ => "OperatorPrincipalMayBeForged"
  end.

(** [listener '{n}': ] *)
Definition of_listener (n rest : string) : string := "listener '" +:+ n +:+ "': " +:+ rest.

Definition validation_message (e : ValidationError) : string :=
  match e with
  | DuplicateListenerName n => "listener name '" +:+ n +:+ "' is used more than once"
  | DuplicateListenerPort p => "listener port " +:+ display_Z p +:+ " is used more than once"
  | ListenerIngressRequiresTls n =>
      of_listener n "type=ingress/route requires tls: true (SNI-passthrough routing needs TLS)"
  | ListenerIngressBootstrapHostMissing n =>
      of_listener n "type=ingress/route requires configuration.bootstrap.host"
  | DuplicateBrokerOverride l b =>
      "listener '" +:+ l +:+ "' has duplicate configuration.brokers entries for broker " +:+
      display_Z b
  | InterBrokerListenerMissing n =>
      "spec.interBrokerListenerName='" +:+ n +:+ "' does not match any listener"
  | InterBrokerListenerNotInternal n =>
      "spec.interBrokerListenerName='" +:+ n +:+ "' points to a non-internal listener"
  | NoInternalListener => "spec.listeners is non-empty but contains no internal-type listener"
  | ListenerMtlsRequiresTransportTls n =>
      of_listener n "authentication.type=tls requires tls: true"
  | ListenerOauthRequiresTransportTls n =>
      of_listener n "authentication.type=oauth requires tls: true"
  | ListenerOauthIssuerUriEmpty n =>
      of_listener n "authentication.oauth.validIssuerUri is required"
  | ListenerOauthJwksUriBadScheme n =>
      of_listener n "authentication.oauth.jwksEndpointUri must be http:// or https://"
  | ListenerOauthJwksRefreshTooSmall l got =>
      of_listener l "authentication.oauth.jwksRefreshSeconds must be >= 30 (got " +:+
      display_Z got +:+ ")"
  | ConflictingOAuthListenerConfig =>
      "all OAuth listeners must share identical config (the broker oauthbearer block is broker-global)"
  | ListenerOauthAccessTokenIsJwtInvalid msg
  | ListenerOauthValidTokenTypeRejectedInIntrospectionMode msg
  | ListenerOauthJwksFieldsRejectedInIntrospectionMode msg
  | ListenerGssapiInvalidRule msg => msg
  | ListenerGssapiKeytabSecretMissing n =>
      of_listener n "authentication.type=gssapi requires keytabSecretRef.secretName and .key"
  | ConflictingGssapiListenerConfig =>
      "all GSSAPI listeners must share identical config (the broker [gssapi] block is broker-global)"
  | InterBrokerGssapiRequiresKerberosConfig n =>
      "interBrokerListenerName='" +:+ n +:+
      "' is type=gssapi but spec.interBrokerKerberos is not set"
  | OperatorPrincipalMayBeForged n =>
      of_listener n ("oauth/gssapi cannot be combined with authorization because broker " +:+
                     "super-user principals are not listener-scoped")
  end.

#[local] Notation check := (result unit ValidationError).

(** [if b { return Err(e) }] *)
Definition refuse_if (b : bool) (e : ValidationError) : check := if b then Err e else Ok tt.

(** A [for] loop whose body returns early with an error. *)
Fixpoint try_each {A} (f : A → check) (l : list A) : check :=
  match l with
  | [] => Ok tt
  | x :: l => if? f x in try_each f l
  end.

Section check.
(** [Rule::parse(..).is_ok()] of [krabka_security], and [==] of [krabka_units]. *)
Context {Time : Type} (rule_parses : string → bool) (time_eqb : Time → Time → bool).
#[local] Notation Listener := (Listener Time).
Implicit Types (l : Listener) (ls : list Listener).

Definition is_external_identity (a : option (ListenerAuthentication Time)) : bool :=
  match a with Some (AuthOAuth _ | AuthGssapi _) => true | _ => false end.

Definition validate_operator_principal_isolation ls (authorization_enabled : bool) : check :=
  if negb authorization_enabled then Ok tt
  else match find_first (λ l, is_external_identity (l_authentication l)) ls with
       | Some l => Err (OperatorPrincipalMayBeForged (l_name l))
       | None => Ok tt
       end.

Definition oauth_canonical (c : ListenerAuthenticationOAuth) : ListenerAuthenticationOAuth :=
  {| valid_issuer_uri := valid_issuer_uri c;
     jwks_endpoint_uri := jwks_endpoint_uri c;
     valid_audience := valid_audience c;
     user_name_claim := user_name_claim c;
     custom_claim_check := custom_claim_check c;
     jwks_refresh_seconds := jwks_refresh_seconds c;
     max_clock_skew_seconds := max_clock_skew_seconds c;
     enable_oauth_bearer := true;
     tls_trusted_certificates := tls_trusted_certificates c;
     access_token_is_jwt := access_token_is_jwt c;
     introspection_endpoint_uri := introspection_endpoint_uri c;
     user_info_endpoint_uri := user_info_endpoint_uri c;
     client_id := client_id c;
     client_secret := client_secret c;
     introspection_http_timeout_seconds := introspection_http_timeout_seconds c;
     max_seconds_without_reauthentication := max_seconds_without_reauthentication c;
     valid_token_type := valid_token_type c;
     fallback_user_name_claim := fallback_user_name_claim c;
     fallback_user_name_prefix := fallback_user_name_prefix c;
     groups_claim := groups_claim c;
     groups_claim_delimiter := groups_claim_delimiter c;
     jwks_min_refresh_pause_seconds := jwks_min_refresh_pause_seconds c;
     jwks_expiry_seconds := jwks_expiry_seconds c;
     jwks_ignore_key_use := jwks_ignore_key_use c |}.

(** The derived [PartialEq], with the one of [Time]. *)
Definition gssapi_eqb (a b : ListenerAuthenticationGssapi Time) : bool :=
  bool_decide (keytab_secret_ref a = keytab_secret_ref b) &&
  bool_decide (service_name a = service_name b) &&
  bool_decide (principal_to_local_rules a = principal_to_local_rules b) &&
  bool_decide (realm a = realm b) && bool_decide (kdc a = kdc b) &&
  match max_time_skew a, max_time_skew b with
  | Some s, Some t => time_eqb s t
  | None, None => true
  | _, _ => false
  end.

(** The inner loop of [validate_unique_listeners] over the listeners before [l]. *)
Definition clash (prior : list Listener) l : check :=
  try_each (λ p,
    if? refuse_if (str_eqb (l_name p) (l_name l)) (DuplicateListenerName (l_name l)) in
    refuse_if (l_port p =? l_port l) (DuplicateListenerPort (l_port l))) prior.

Fixpoint unique_from (prior ls : list Listener) : check :=
  match ls with
  | [] => Ok tt
  | l :: ls => if? clash prior l in unique_from (prior ++ [l]) ls
  end.

Definition validate_unique_listeners ls : check := unique_from [] ls.

Definition validate_gssapi_listener l (config : ListenerAuthenticationGssapi Time) : check :=
  if? refuse_if (is_empty (skr_secret_name (keytab_secret_ref config)) ||
                 is_empty (skr_key (keytab_secret_ref config)))
        (ListenerGssapiKeytabSecretMissing (l_name l)) in
  try_each (λ specification,
    refuse_if (negb (rule_parses specification))
      (ListenerGssapiInvalidRule
         (of_listener (l_name l) "invalid principalToLocalRules entry " +:+
          debug_str specification))) (principal_to_local_rules config).

(** The cross-mode block of the OAuth checks. *)
Definition jwks_fields_set (cfg : ListenerAuthenticationOAuth) : list string :=
  (if opt_is_some (jwks_min_refresh_pause_seconds cfg) then ["jwksMinRefreshPauseSeconds"] else []) ++
  (if opt_is_some (jwks_expiry_seconds cfg) then ["jwksExpirySeconds"] else []) ++
  (if opt_is_some (jwks_ignore_key_use cfg) then ["jwksIgnoreKeyUse"] else []).

Definition check_oauth_mode (name : string) (cfg : ListenerAuthenticationOAuth) : check :=
  let invalid rest := ListenerOauthAccessTokenIsJwtInvalid (of_listener name rest) in
  if access_token_is_jwt cfg then
    if? refuse_if (negb (opt_is_some (jwks_endpoint_uri cfg)))
          (invalid "accessTokenIsJwt=true requires jwksEndpointUri") in
    refuse_if (opt_is_some (introspection_endpoint_uri cfg) ||
               opt_is_some (user_info_endpoint_uri cfg) || opt_is_some (client_id cfg) ||
               opt_is_some (client_secret cfg) ||
               opt_is_some (introspection_http_timeout_seconds cfg))
      (invalid ("accessTokenIsJwt=true forbids introspection-mode fields " +:+
                "(introspectionEndpointUri/userInfoEndpointUri/clientId/clientSecret/" +:+
                "introspectionHttpTimeoutSeconds)"))
  else
    if? refuse_if (opt_is_some (jwks_endpoint_uri cfg))
          (invalid "accessTokenIsJwt=false forbids jwksEndpointUri") in
    if? refuse_if (negb (opt_is_some (introspection_endpoint_uri cfg)))
          (invalid "accessTokenIsJwt=false requires introspectionEndpointUri") in
    if? refuse_if (negb (opt_is_some (client_id cfg)))
          (invalid "accessTokenIsJwt=false requires clientId") in
    if? refuse_if (negb (opt_is_some (client_secret cfg)))
          (invalid "accessTokenIsJwt=false requires clientSecret") in
    if? refuse_if (opt_is_some (valid_token_type cfg))
          (ListenerOauthValidTokenTypeRejectedInIntrospectionMode
             (of_listener name ("accessTokenIsJwt=false forbids validTokenType " +:+
                                "(no JWT header in introspection responses)"))) in
    refuse_if (bool_decide (jwks_fields_set cfg ≠ []))
      (ListenerOauthJwksFieldsRejectedInIntrospectionMode
         (of_listener name ("accessTokenIsJwt=false forbids JWKS-only fields (" +:+
                            join ", " (jwks_fields_set cfg) +:+ ")"))).

Definition http_scheme (uri : string) : bool :=
  starts_with "http://" uri || starts_with "https://" uri.

Definition check_oauth l (cfg : ListenerAuthenticationOAuth) : check :=
  if? refuse_if (negb (l_tls l)) (ListenerOauthRequiresTransportTls (l_name l)) in
  if? check_oauth_mode (l_name l) cfg in
  if? refuse_if (is_empty (valid_issuer_uri cfg)) (ListenerOauthIssuerUriEmpty (l_name l)) in
  if? refuse_if (is_some_and (λ uri, negb (http_scheme uri)) (jwks_endpoint_uri cfg))
        (ListenerOauthJwksUriBadScheme (l_name l)) in
  match jwks_refresh_seconds cfg with
  | Some s => refuse_if (s <? 30) (ListenerOauthJwksRefreshTooSmall (l_name l) s)
  | None => Ok tt
  end.

Definition ingress_bootstrap_host l : option string :=
  and_then (and_then (l_configuration l) lc_bootstrap) bc_host.

Definition is_routed l : bool :=
  match l_type l with Ingress | Route => true | _ => false end.

(** [seen.insert(ovr.broker)] of the override loop. *)
Fixpoint check_overrides (name : string) (seen : gset Z) (overrides : list BrokerOverride) : check :=
  match overrides with
  | [] => Ok tt
  | ovr :: overrides =>
      if bool_decide (bo_broker ovr ∈ seen) then Err (DuplicateBrokerOverride name (bo_broker ovr))
      else check_overrides name ({[bo_broker ovr]} ∪ seen) overrides
  end.

(** The body of the loop over the listeners. *)
Definition check_listener l : check :=
  if? refuse_if (match l_authentication l with Some AuthTls => negb (l_tls l) | _ => false end)
        (ListenerMtlsRequiresTransportTls (l_name l)) in
  if? match l_authentication l with Some (AuthOAuth cfg) => check_oauth l cfg | _ => Ok tt end in
  if? match l_authentication l with
      | Some (AuthGssapi cfg) => validate_gssapi_listener l cfg | _ => Ok tt end in
  if? (if is_routed l then
         if? refuse_if (negb (l_tls l)) (ListenerIngressRequiresTls (l_name l)) in
         refuse_if (negb (opt_is_some (ingress_bootstrap_host l)))
           (ListenerIngressBootstrapHostMissing (l_name l))
       else Ok tt) in
  match l_configuration l with
  | Some cfg => check_overrides (l_name l) ∅ (lc_brokers cfg)
  | None => Ok tt
  end.

Definition oauth_configs ls : list ListenerAuthenticationOAuth :=
  filter_map (λ l, match l_authentication l with Some (AuthOAuth cfg) => Some cfg | _ => None end) ls.

Definition gssapi_configs ls : list (ListenerAuthenticationGssapi Time) :=
  filter_map (λ l, match l_authentication l with Some (AuthGssapi cfg) => Some cfg | _ => None end) ls.

(** The quadratic distinct loop. *)
Fixpoint distinct_from {A} `{EqDecision A} (distinct l : list A) : list A :=
  match l with
  | [] => distinct
  | c :: l => distinct_from (if bool_decide (c ∈ distinct) then distinct else distinct ++ [c]) l
  end.

Fixpoint gssapi_agree (canon : option (ListenerAuthenticationGssapi Time))
    (cfgs : list (ListenerAuthenticationGssapi Time)) : check :=
  match cfgs with
  | [] => Ok tt
  | c :: cfgs =>
      match canon with
      | None => gssapi_agree (Some c) cfgs
      | Some prev =>
          if negb (gssapi_eqb prev c) then Err ConflictingGssapiListenerConfig
          else gssapi_agree canon cfgs
      end
  end.

Definition is_internal l : bool := bool_decide (l_type l = Internal).

Definition resolve_inter_broker ls (inter_broker_listener_name : option string) : check :=
  if bool_decide (ls = []) then Ok tt
  else
    if? refuse_if (negb (existsb is_internal ls)) NoInternalListener in
    match inter_broker_listener_name with
    | None => Ok tt
    | Some name =>
        match find_first (λ l, str_eqb (l_name l) name) ls with
        | None => Err (InterBrokerListenerMissing name)
        | Some l => refuse_if (negb (is_internal l)) (InterBrokerListenerNotInternal name)
        end
    end.

Definition validate_listeners ls (inter_broker_listener_name : option string) : check :=
  if? validate_unique_listeners ls in
  if? try_each check_listener ls in
  if? refuse_if (1 <? length (distinct_from []
        (dedup (map oauth_canonical (oauth_configs ls)))))%nat
        ConflictingOAuthListenerConfig in
  if? gssapi_agree None (gssapi_configs ls) in
  resolve_inter_broker ls inter_broker_listener_name.

Definition validate_inter_broker_gssapi ls (inter_broker_listener_name : string)
    (ib_kerberos_present : bool) : check :=
  let ib_is_gssapi := existsb (λ l,
    str_eqb (l_name l) inter_broker_listener_name &&
    match l_authentication l with Some (AuthGssapi _) => true | _ => false end) ls in
  refuse_if (ib_is_gssapi && negb ib_kerberos_present)
    (InterBrokerGssapiRequiresKerberosConfig inter_broker_listener_name).

Definition weak_scram l : bool :=
  negb (l_tls l) &&
  match l_authentication l with Some (AuthScramSha512 | AuthScramSha256) => true | _ => false end.

Definition weak_auth_warnings ls : list string :=
  map (λ l, "listener '" +:+ l_name l +:+ "' has SCRAM auth without transport TLS; credentials " +:+
            "traverse the network in cleartext during the SCRAM exchange. Consider tls: true.")
      (List.filter weak_scram ls) ++
  filter_map (λ l,
    match l_authentication l with
    | Some (AuthOAuth cfg) =>
        if is_some_and (starts_with "http://") (jwks_endpoint_uri cfg)
        then Some ("listener '" +:+ l_name l +:+ "' has http:// JWKS endpoint; key material " +:+
                   "traverses the network in cleartext. Consider https.")
        else None
    | _ => None
    end) ls.

(** The listeners a cluster runs (src/controller/kafka.rs): the declared ones or
    the default, and the operator's. *)
Definition declared_or_default (declared : list Listener) : list Listener :=
  match declared with [] => [synthesized_default_listener] | _ => declared end.

Definition effective_listeners (declared : list Listener) : list Listener :=
  declared_or_default declared ++ [operator_listener (declared_or_default declared)].

Definition validate_declared (declared : list Listener) (inter_broker : option string)
    (authorization_enabled : bool) : check :=
  if? validate_listeners (declared_or_default declared) inter_broker in
  validate_operator_principal_isolation (declared_or_default declared) authorization_enabled.
End check.

(** ** Checks in sequence *)
Lemma refuse_if_Ok b e : refuse_if b e = Ok tt ↔ b = false.
Proof. by destruct b. Qed.

Lemma seq_Ok (a b : result unit ValidationError) : (if? a in b) = Ok tt ↔ a = Ok tt ∧ b = Ok tt.
Proof. destruct a as [[]|]; naive_solver. Qed.

Lemma try_each_Ok {A} (f : A → result unit ValidationError) l :
  try_each f l = Ok tt ↔ ∀ x, x ∈ l → f x = Ok tt.
Proof.
  induction l as [|x l IH]; cbn [try_each].
  - split; [intros _ x Hx; by apply elem_of_nil in Hx|done].
  - rewrite seq_Ok, IH. setoid_rewrite elem_of_cons. naive_solver.
Qed.

(** ** What validation promises *)
Section spec.
Context {Time : Type} (rule_parses : string → bool) (time_eqb : Time → Time → bool).
#[local] Notation Listener := (Listener Time).
Implicit Types (l : Listener) (ls : list Listener).

(** An OAuth configuration is of one mode, with what that mode needs and nothing
    of the other. *)
Definition jwt_mode (c : ListenerAuthenticationOAuth) : Prop :=
  (∃ uri, jwks_endpoint_uri c = Some uri ∧ http_scheme uri = true) ∧
  introspection_endpoint_uri c = None ∧ user_info_endpoint_uri c = None ∧
  client_id c = None ∧ client_secret c = None ∧ introspection_http_timeout_seconds c = None.

Definition introspection_mode (c : ListenerAuthenticationOAuth) : Prop :=
  jwks_endpoint_uri c = None ∧ is_Some (introspection_endpoint_uri c) ∧ is_Some (client_id c) ∧
  is_Some (client_secret c) ∧ valid_token_type c = None ∧
  jwks_min_refresh_pause_seconds c = None ∧ jwks_expiry_seconds c = None ∧
  jwks_ignore_key_use c = None.

Definition oauth_ok (c : ListenerAuthenticationOAuth) : Prop :=
  (if access_token_is_jwt c then jwt_mode c else introspection_mode c) ∧
  valid_issuer_uri c ≠ "" ∧ (∀ s, jwks_refresh_seconds c = Some s → 30 ≤ s).

Definition gssapi_ok (c : ListenerAuthenticationGssapi Time) : Prop :=
  skr_secret_name (keytab_secret_ref c) ≠ "" ∧ skr_key (keytab_secret_ref c) ≠ "" ∧
  ∀ r, r ∈ principal_to_local_rules c → rule_parses r = true.

Definition authentication_ok (tls : bool) (a : option (ListenerAuthentication Time)) : Prop :=
  match a with
  | Some AuthTls => tls = true
  | Some (AuthOAuth c) => tls = true ∧ oauth_ok c
  | Some (AuthGssapi c) => gssapi_ok c
  | _ => True
  end.

Definition overrides l : list BrokerOverride := default [] (lc_brokers <$> l_configuration l).

Record listener_ok l : Prop := {
  auth_ok : authentication_ok (l_tls l) (l_authentication l);
  routed_ok : is_routed l = true → l_tls l = true ∧ is_Some (ingress_bootstrap_host l);
  overrides_ok : NoDup (bo_broker <$> overrides l);
}.

(** Everything the renderers rely on. *)
Record listeners_wf ls (inter_broker : option string) : Prop := {
  names_unique : NoDup (l_name <$> ls);
  ports_unique : NoDup (l_port <$> ls);
  all_ok : ∀ l, l ∈ ls → listener_ok l;
  one_oauth : ∀ c1 c2, c1 ∈ oauth_configs ls → c2 ∈ oauth_configs ls →
    oauth_canonical c1 = oauth_canonical c2;
  one_gssapi : ∀ c cs, gssapi_configs ls = c :: cs → ∀ c', c' ∈ cs → gssapi_eqb time_eqb c c' = true;
  internal_exists : ls ≠ [] → ∃ l, l ∈ ls ∧ l_type l = Internal;
  inter_broker_internal : ls ≠ [] → ∀ n, inter_broker = Some n →
    ∃ l, l ∈ ls ∧ l_name l = n ∧ l_type l = Internal;
}.

(** ** The checks one by one *)
Lemma clash_Ok prior l :
  clash prior l = Ok tt ↔ l_name l ∉ l_name <$> prior ∧ l_port l ∉ l_port <$> prior.
Proof.
  unfold clash. rewrite try_each_Ok. setoid_rewrite seq_Ok. setoid_rewrite refuse_if_Ok.
  setoid_rewrite str_eqb_neq. setoid_rewrite Z.eqb_neq. rewrite !list_elem_of_fmap. split.
  - intros Hall. split; intros (p & Hp & Hin); by destruct (Hall p Hin).
  - intros [Hn Hp] p Hin. split; intros Heq; [apply Hn|apply Hp]; by exists p.
Qed.

Lemma NoDup_fmap_prefix {A B} (f : A → B) xs x ys :
  NoDup (f <$> ((xs ++ [x]) ++ ys)) → NoDup (f <$> (xs ++ [x])) ∧ f x ∉ f <$> xs.
Proof.
  rewrite fmap_app. intros (H & _)%NoDup_app. split; [done|].
  rewrite fmap_app in H. by apply NoDup_snoc in H as [_ ?].
Qed.

Lemma unique_from_Ok ls prior :
  NoDup (l_name <$> prior) → NoDup (l_port <$> prior) →
  unique_from prior ls = Ok tt ↔ NoDup (l_name <$> (prior ++ ls)) ∧ NoDup (l_port <$> (prior ++ ls)).
Proof.
  revert prior. induction ls as [|l ls IH]; intros prior Hn Hp; cbn [unique_from].
  - rewrite app_nil_r. naive_solver.
  - replace (prior ++ l :: ls) with ((prior ++ [l]) ++ ls) by by rewrite <- app_assoc.
    rewrite seq_Ok, clash_Ok. split.
    + intros [[??] Hr]. apply IH; [by rewrite fmap_app; apply NoDup_snoc..|done].
    + intros [Hn' Hp']. pose proof (NoDup_fmap_prefix _ _ _ _ Hn') as [Hn1 Hn2].
      pose proof (NoDup_fmap_prefix _ _ _ _ Hp') as [Hp1 Hp2]. split; [done|]. by apply IH.
Qed.
Lemma check_overrides_Ok name os seen :
  check_overrides name seen os = Ok tt ↔
  NoDup (bo_broker <$> os) ∧ ∀ o, o ∈ os → bo_broker o ∉ seen.
Proof.
  revert seen. induction os as [|o os IH]; intros seen; cbn [check_overrides fmap list_fmap].
  { split; [split; [constructor|set_solver]|done]. }
  rewrite NoDup_cons. case_bool_decide as Hin; [set_solver|]. rewrite IH. split.
  - intros [Hnd Hall]. split; [split; [|done]|set_solver].
    intros (o' & Heq & Ho')%list_elem_of_fmap. apply (Hall o' Ho'). set_solver.
  - intros [[Hni Hnd] Hall]. split; [done|]. intros o' Ho' [Heq%elem_of_singleton|Hs]%elem_of_union.
    + apply Hni. rewrite list_elem_of_fmap. by exists o'.
    + set_solver.
Qed.

Lemma opt_is_some_false {A} (o : option A) : opt_is_some o = false ↔ o = None.
Proof. by destruct o. Qed.

Lemma jwks_fields_set_nil c :
  jwks_fields_set c = [] ↔ jwks_min_refresh_pause_seconds c = None ∧
    jwks_expiry_seconds c = None ∧ jwks_ignore_key_use c = None.
Proof.
  unfold jwks_fields_set.
  destruct (jwks_min_refresh_pause_seconds c), (jwks_expiry_seconds c), (jwks_ignore_key_use c);
    cbn; split; intros; by destruct_and?.
Qed.

Lemma check_oauth_Ok l c :
  check_oauth l c = Ok tt ↔ l_tls l = true ∧ oauth_ok c.
Proof.
  unfold check_oauth, check_oauth_mode, oauth_ok, jwt_mode, introspection_mode.
  rewrite !seq_Ok, !refuse_if_Ok, negb_false_iff, is_empty_false.
  assert (∀ b, (match jwks_refresh_seconds c with
    | Some s => refuse_if (s <? 30) (b s) | None => Ok tt end = Ok tt ↔
    ∀ s, jwks_refresh_seconds c = Some s → 30 ≤ s)) as ->.
  { intros b. destruct (jwks_refresh_seconds c) as [s|]; [|naive_solver].
    rewrite refuse_if_Ok, Z.ltb_ge. naive_solver. }
  destruct (access_token_is_jwt c).
  - rewrite seq_Ok, !refuse_if_Ok, !orb_false_iff, !opt_is_some_false, negb_false_iff, opt_is_some_true.
    destruct (jwks_endpoint_uri c) as [uri|]; cbn; [|unfold is_Some; naive_solver].
    rewrite negb_false_iff. unfold is_Some. naive_solver.
  - rewrite !seq_Ok, !refuse_if_Ok, !opt_is_some_false, !negb_false_iff, !opt_is_some_true.
    assert (bool_decide (jwks_fields_set c ≠ []) = false ↔ jwks_fields_set c = []) as ->.
    { rewrite bool_decide_eq_false. split; [apply dec_stable|naive_solver]. }
    rewrite jwks_fields_set_nil. destruct (jwks_endpoint_uri c) as [uri|]; cbn; naive_solver.
Qed.

Lemma validate_gssapi_listener_Ok l c :
  validate_gssapi_listener rule_parses l c = Ok tt ↔ gssapi_ok c.
Proof.
  unfold validate_gssapi_listener, gssapi_ok.
  rewrite seq_Ok, refuse_if_Ok, orb_false_iff, !is_empty_false, try_each_Ok.
  setoid_rewrite refuse_if_Ok. setoid_rewrite negb_false_iff. naive_solver.
Qed.

Lemma check_listener_Ok l : check_listener rule_parses l = Ok tt ↔ listener_ok l.
Proof.
  unfold check_listener. rewrite !seq_Ok, refuse_if_Ok.
  assert (∀ n, (match l_configuration l with
    | Some cfg => check_overrides n ∅ (lc_brokers cfg) | None => Ok tt end = Ok tt ↔
    NoDup (bo_broker <$> overrides l))) as ->.
  { intros n. unfold overrides. destruct (l_configuration l) as [cfg|]; cbn.
    - rewrite check_overrides_Ok. set_solver.
    - split; [constructor|done]. }
  assert ((if is_routed l then _ else Ok tt) = Ok tt ↔
    (is_routed l = true → l_tls l = true ∧ is_Some (ingress_bootstrap_host l))) as ->.
  { destruct (is_routed l); [|naive_solver].
    rewrite seq_Ok, !refuse_if_Ok, !negb_false_iff, opt_is_some_true. naive_solver. }
  transitivity (authentication_ok (l_tls l) (l_authentication l) ∧
    (is_routed l = true → l_tls l = true ∧ is_Some (ingress_bootstrap_host l)) ∧
    NoDup (bo_broker <$> overrides l)).
  - destruct (l_authentication l) as [[]|]; cbn;
      rewrite ?negb_false_iff, ?check_oauth_Ok, ?validate_gssapi_listener_Ok; tauto.
  - split; [intros (?&?&?); by split|intros []; tauto].
Qed.

(** Removing adjacent duplicates, then distinct values: at most one value is left
    when all are equal. *)
Lemma distinct_from_spec {A} `{EqDecision A} (xs d : list A) :
  NoDup d → NoDup (distinct_from d xs) ∧ ∀ x, x ∈ distinct_from d xs ↔ x ∈ d ∨ x ∈ xs.
Proof.
  revert d. induction xs as [|c xs IH]; intros d Hd; cbn [distinct_from]; [set_solver|].
  case_bool_decide as Hc.
  - destruct (IH d Hd) as [? Hel]. split; [done|]. intros x. rewrite Hel. set_solver.
  - destruct (IH (d ++ [c])) as [? Hel]; [by apply NoDup_snoc|]. split; [done|].
    intros x. rewrite Hel. set_solver.
Qed.

Lemma distinct_le_1 {A} `{EqDecision A} (xs : list A) :
  (1 <? length (distinct_from [] (dedup xs)))%nat = false ↔
  ∀ x y, x ∈ xs → y ∈ xs → x = y.
Proof.
  destruct (distinct_from_spec (dedup xs) []) as [Hnd Hel]; [constructor|].
  setoid_rewrite elem_of_dedup in Hel.
  assert (∀ x, x ∈ xs ↔ x ∈ distinct_from [] (dedup xs)) as Hx by set_solver.
  setoid_rewrite Hx. clear Hel Hx. revert Hnd. generalize (distinct_from [] (dedup xs)).
  intros [|a [|b d]] Hnd; cbn; [set_solver..|]. split; [done|].
  intros Heq. apply NoDup_cons in Hnd as [Hab _]. destruct Hab.
  rewrite (Heq a b); [left| |]; set_solver.
Qed.

Lemma gssapi_agree_Ok canon cs :
  gssapi_agree time_eqb canon cs = Ok tt ↔
  match canon with
  | Some c => ∀ c', c' ∈ cs → gssapi_eqb time_eqb c c' = true
  | None => ∀ c cs', cs = c :: cs' → ∀ c', c' ∈ cs' → gssapi_eqb time_eqb c c' = true
  end.
Proof.
  revert canon. induction cs as [|c cs IH]; intros [p|]; cbn [gssapi_agree]; [set_solver..| |].
  - destruct (gssapi_eqb time_eqb p c) eqn:He; cbn.
    + rewrite IH. setoid_rewrite elem_of_cons. naive_solver.
    + split; [done|]. intros Hall. rewrite Hall in He; [done|left].
  - rewrite IH. naive_solver.
Qed.

Lemma resolve_inter_broker_Ok ls ib :
  NoDup (l_name <$> ls) →
  resolve_inter_broker ls ib = Ok tt ↔
  (ls ≠ [] → ∃ l, l ∈ ls ∧ l_type l = Internal) ∧
  (ls ≠ [] → ∀ n, ib = Some n → ∃ l, l ∈ ls ∧ l_name l = n ∧ l_type l = Internal).
Proof.
  intros Hnd. unfold resolve_inter_broker. case_bool_decide as Hls; [naive_solver|].
  rewrite seq_Ok, refuse_if_Ok, negb_false_iff, existsb_exists.
  assert ((∃ x, In x ls ∧ is_internal x = true) ↔ (ls ≠ [] → ∃ l, l ∈ ls ∧ l_type l = Internal)) as ->.
  { unfold is_internal. setoid_rewrite bool_decide_eq_true. setoid_rewrite list_elem_of_In. tauto. }
  destruct ib as [n|]; [|naive_solver].
  destruct (find_first _ ls) as [l|] eqn:Hf.
  - apply find_first_Some in Hf as [Hl Hn%str_eqb_eq]. rewrite refuse_if_Ok, negb_false_iff.
    unfold is_internal. rewrite bool_decide_eq_true. split; [naive_solver|].
    intros [H Hib]. split; [done|]. destruct (Hib Hls n eq_refl) as (l' & Hl' & Hn' & Ht).
    by rewrite (NoDup_fmap_eq l_name ls l l') by congruence.
  - split; [naive_solver|]. intros [_ Hib]. destruct (Hib Hls n eq_refl) as (l & Hl & Hn & _).
    rewrite find_first_None in Hf. specialize (Hf l Hl). apply str_eqb_neq in Hf. done.
Qed.

(** The reference definition of validity, which validation decides. *)
Lemma validate_listeners_Ok ls ib :
  validate_listeners rule_parses time_eqb ls ib = Ok tt ↔ listeners_wf ls ib.
Proof.
  unfold validate_listeners, validate_unique_listeners.
  rewrite !seq_Ok, unique_from_Ok by constructor.
  rewrite try_each_Ok, refuse_if_Ok, distinct_le_1, gssapi_agree_Ok.
  setoid_rewrite check_listener_Ok. cbn [app]. split.
  - intros ([Hn Hp] & Hok & Ho & Hg & Hr). apply resolve_inter_broker_Ok in Hr as [Hi Hib]; [|done].
    split; try done. intros c1 c2 H1 H2. apply Ho; by apply list_elem_of_fmap_2.
  - intros []. split; [done|]. split; [done|]. split.
    { intros x y (c1 & -> & ?)%list_elem_of_fmap (c2 & -> & ?)%list_elem_of_fmap. eauto. }
    split; [done|]. by apply resolve_inter_broker_Ok.
Qed.

Lemma listener_protocol_some l : authentication_ok (l_tls l) (l_authentication l) →
  is_Some (listener_protocol l).
Proof.
  unfold listener_protocol. destruct (l_tls l), (l_authentication l) as [[]|]; cbn; by eauto.
Qed.
End spec.

(** ** Errors name a real fault *)
Lemma refuse_if_Err b e e' : refuse_if b e = Err e' ↔ b = true ∧ e' = e.
Proof. destruct b; naive_solver. Qed.

Lemma seq_Err (a b : result unit ValidationError) e :
  (if? a in b) = Err e ↔ a = Err e ∨ (a = Ok tt ∧ b = Err e).
Proof. destruct a as [[]|]; naive_solver. Qed.

Lemma try_each_Err {A} (f : A → result unit ValidationError) l e :
  try_each f l = Err e → ∃ x, x ∈ l ∧ f x = Err e.
Proof.
  induction l as [|x l IH]; cbn [try_each]; [done|].
  intros [?|[_ (y & ? & ?)%IH]]%seq_Err; [exists x|exists y]; set_solver.
Qed.

(** A check that failed: the first component that fails gives the error. *)
Ltac refused :=
  repeat match goal with
  | H : (if? _ in _) = Err _ |- _ => apply seq_Err in H as [H|[_ H]]
  | H : refuse_if _ _ = Err _ |- _ => apply refuse_if_Err in H as [H ->]
  | H : try_each _ _ = Err _ |- _ => apply try_each_Err in H as (? & ? & H)
  | H : Ok _ = Err _ |- _ => discriminate H
  end.

Section errors.
Context {Time : Type} (rule_parses : string → bool) (time_eqb : Time → Time → bool).
#[local] Notation Listener := (Listener Time).
Implicit Types (l : Listener).

(** Two positions of a list with the same key. *)
Definition repeated {A B} (f : A → B) (l : list A) (b : B) : Prop :=
  ∃ i j x y, (i < j)%nat ∧ l !! i = Some x ∧ l !! j = Some y ∧ f x = b ∧ f y = b.

(** The mode of an OAuth configuration is broken. *)
Definition mode_broken (c : ListenerAuthenticationOAuth) : Prop :=
  if access_token_is_jwt c
  then jwks_endpoint_uri c = None ∨ is_Some (introspection_endpoint_uri c) ∨
       is_Some (user_info_endpoint_uri c) ∨ is_Some (client_id c) ∨ is_Some (client_secret c) ∨
       is_Some (introspection_http_timeout_seconds c)
  else is_Some (jwks_endpoint_uri c) ∨ introspection_endpoint_uri c = None ∨
       client_id c = None ∨ client_secret c = None.

(** What an error says of one listener. *)
Definition listener_fault l (e : ValidationError) : Prop :=
  match e with
  | ListenerIngressRequiresTls n => n = l_name l ∧ is_routed l = true ∧ l_tls l = false
  | ListenerIngressBootstrapHostMissing n =>
      n = l_name l ∧ is_routed l = true ∧ ingress_bootstrap_host l = None
  | DuplicateBrokerOverride n b => n = l_name l ∧ repeated bo_broker (overrides l) b
  | ListenerMtlsRequiresTransportTls n =>
      n = l_name l ∧ l_authentication l = Some AuthTls ∧ l_tls l = false
  | ListenerGssapiKeytabSecretMissing n =>
      n = l_name l ∧ ∃ c, l_authentication l = Some (AuthGssapi c) ∧
      (skr_secret_name (keytab_secret_ref c) = "" ∨ skr_key (keytab_secret_ref c) = "")
  | ListenerGssapiInvalidRule msg =>
      ∃ c r, l_authentication l = Some (AuthGssapi c) ∧ r ∈ principal_to_local_rules c ∧
      rule_parses r = false ∧
      msg = of_listener (l_name l) "invalid principalToLocalRules entry " +:+ debug_str r
  | _ =>
      ∃ c, l_authentication l = Some (AuthOAuth c) ∧
      match e with
      | ListenerOauthRequiresTransportTls n => n = l_name l ∧ l_tls l = false
      | ListenerOauthIssuerUriEmpty n => n = l_name l ∧ valid_issuer_uri c = ""
      | ListenerOauthJwksUriBadScheme n =>
          n = l_name l ∧ ∃ uri, jwks_endpoint_uri c = Some uri ∧ http_scheme uri = false
      | ListenerOauthJwksRefreshTooSmall n got =>
          n = l_name l ∧ jwks_refresh_seconds c = Some got ∧ got < 30
      | ListenerOauthValidTokenTypeRejectedInIntrospectionMode msg =>
          (∃ rest, msg = of_listener (l_name l) rest) ∧
          access_token_is_jwt c = false ∧ is_Some (valid_token_type c)
      | ListenerOauthJwksFieldsRejectedInIntrospectionMode msg =>
          (∃ rest, msg = of_listener (l_name l) rest) ∧
          access_token_is_jwt c = false ∧ jwks_fields_set c ≠ []
      | ListenerOauthAccessTokenIsJwtInvalid msg =>
          (∃ rest, msg = of_listener (l_name l) rest) ∧ mode_broken c
      | _ => False
      end
  end.

(** What an error says of the list. *)
Definition fault (ls : list Listener) (ib : option string) (e : ValidationError) : Prop :=
  match e with
  | DuplicateListenerName n => repeated l_name ls n
  | DuplicateListenerPort p => repeated l_port ls p
  | ConflictingOAuthListenerConfig =>
      ∃ c1 c2, c1 ∈ oauth_configs ls ∧ c2 ∈ oauth_configs ls ∧ oauth_canonical c1 ≠ oauth_canonical c2
  | ConflictingGssapiListenerConfig =>
      ∃ c1 c2, c1 ∈ gssapi_configs ls ∧ c2 ∈ gssapi_configs ls ∧ gssapi_eqb time_eqb c1 c2 = false
  | NoInternalListener => ls ≠ [] ∧ ∀ l, l ∈ ls → l_type l ≠ Internal
  | InterBrokerListenerMissing n => ib = Some n ∧ n ∉ l_name <$> ls
  | InterBrokerListenerNotInternal n =>
      ib = Some n ∧ ∃ l, l ∈ ls ∧ l_name l = n ∧ l_type l ≠ Internal
  | _ => ∃ l, l ∈ ls ∧ listener_fault l e
  end.

Lemma unique_from_Err (ls prior : list Listener) e :
  unique_from prior ls = Err e →
  (∃ n, e = DuplicateListenerName n ∧ repeated l_name (prior ++ ls) n) ∨
  (∃ p, e = DuplicateListenerPort p ∧ repeated l_port (prior ++ ls) p).
Proof.
  revert prior. induction ls as [|l ls IH]; intros prior; cbn [unique_from]; [done|].
  intros [H|[_ H]]%seq_Err.
  - unfold clash in H. apply try_each_Err in H as (q & [i Hi]%list_elem_of_lookup & H).
    pose proof (lookup_lt_Some _ _ _ Hi) as Hlt.
    assert ((prior ++ l :: ls) !! i = Some q) as Hq by by apply lookup_app_l_Some.
    assert ((prior ++ l :: ls) !! length prior = Some l) as Hl by by apply list_lookup_middle.
    refused; [left; apply str_eqb_eq in H|right; apply Z.eqb_eq in H];
      eexists; (split; [done|]); by exists i, (length prior), q, l.
  - apply IH in H. by rewrite <- app_assoc in H.
Qed.

Lemma check_overrides_Err name os seen e :
  check_overrides name seen os = Err e →
  ∃ b, e = DuplicateBrokerOverride name b ∧
       ((∃ j y, os !! j = Some y ∧ bo_broker y = b ∧ b ∈ seen) ∨ repeated bo_broker os b).
Proof.
  revert seen. induction os as [|o os IH]; intros seen; cbn [check_overrides]; [done|].
  case_bool_decide as Hin.
  - intros [= <-]. exists (bo_broker o). split; [done|]. left. by exists O, o.
  - intros (b & -> & [(j & y & Hj & Hy & [->%elem_of_singleton|Hs]%elem_of_union)|
                       (i & j & x & y & Hij & Hi & Hj & Hx & Hy)])%IH;
      eexists; (split; [done|]).
    + right. exists O, (S j), o, y. split; [lia|done].
    + left. by exists (S j), y.
    + right. exists (S i), (S j), x, y. split; [lia|done].
Qed.

Lemma check_oauth_mode_Err l c e :
  check_oauth_mode (l_name l) c = Err e → l_authentication l = Some (AuthOAuth c) → listener_fault l e.
Proof.
  unfold check_oauth_mode. intros H Ha. destruct (access_token_is_jwt c) eqn:Hj; refused;
    exists c; (split; [done|]); (split; [by eexists|]); unfold mode_broken; rewrite ?Hj;
    rewrite ?negb_true_iff, ?opt_is_some_false, ?orb_true_iff, ?opt_is_some_true, ?bool_decide_eq_true in H;
    tauto.
Qed.

Lemma check_listener_Err l e :
  check_listener rule_parses l = Err e → listener_fault l e.
Proof.
  unfold check_listener. intros H. refused.
  - destruct (l_authentication l) as [[]|] eqn:Ha; try done. by apply negb_true_iff in H.
  - destruct (l_authentication l) as [[| | |c|]|] eqn:Ha; try done. unfold check_oauth in H. refused.
    + apply negb_true_iff in H. by exists c.
    + by eapply check_oauth_mode_Err.
    + exists c. unfold is_empty in H. by apply str_eqb_eq in H.
    + exists c. destruct (jwks_endpoint_uri c) as [uri|] eqn:Hu; [|done].
      apply negb_true_iff in H. cbn. eauto 10.
    + destruct (jwks_refresh_seconds c) as [s|] eqn:Hs; [|done]. refused.
      apply Z.ltb_lt in H. by exists c.
  - destruct (l_authentication l) as [[]|] eqn:Ha; try done. unfold validate_gssapi_listener in H. refused.
    + apply orb_true_iff in H. unfold is_empty in H. rewrite !str_eqb_eq in H. cbn. eauto.
    + apply negb_true_iff in H. cbn. eauto 10.
  - destruct (is_routed l) eqn:Hr; [|done]. refused; apply negb_true_iff in H; cbn; [done|].
    by rewrite opt_is_some_false in H.
  - destruct (l_configuration l) as [cfg|] eqn:Hc; [|done].
    apply check_overrides_Err in H as (b & -> & [(j & y & _ & _ & Hs)|H]); [set_solver|].
    cbn. unfold overrides. by rewrite Hc.
Qed.
Lemma gssapi_agree_Err canon cs e :
  gssapi_agree time_eqb canon cs = Err e →
  e = ConflictingGssapiListenerConfig ∧
  ∃ c1 c2, (canon = Some c1 ∨ c1 ∈ cs) ∧ c2 ∈ cs ∧ gssapi_eqb time_eqb c1 c2 = false.
Proof.
  revert canon. induction cs as [|c cs IH]; intros [q|]; cbn [gssapi_agree]; try done.
  - destruct (gssapi_eqb time_eqb q c) eqn:He; cbn.
    + intros (-> & c1 & c2 & Hc & ? & ?)%IH. split; [done|]. exists c1, c2.
      rewrite !elem_of_cons. tauto.
    + intros [= <-]. split; [done|]. exists q, c. rewrite !elem_of_cons. tauto.
  - intros (-> & c1 & c2 & Hc & ? & ?)%IH. split; [done|]. exists c1, c2.
    rewrite !elem_of_cons. destruct Hc as [[= ->]|?]; tauto.
Qed.

Lemma not_all_equal {A} `{EqDecision A} (xs : list A) :
  ¬ (∀ x y, x ∈ xs → y ∈ xs → x = y) → ∃ x y, x ∈ xs ∧ y ∈ xs ∧ x ≠ y.
Proof.
  destruct xs as [|a xs]; [set_solver|]. intros Hn.
  destruct (decide (Forall (λ y, y = a) xs)) as [Hf|Hf].
  - destruct Hn. rewrite Forall_forall in Hf.
    intros x y [->|Hx]%elem_of_cons [->|Hy]%elem_of_cons; rewrite ?(Hf x), ?(Hf y); done.
  - apply not_Forall_Exists in Hf; [|intros; apply _]. apply Exists_exists in Hf as (y & Hy & Hya).
    exists a, y. set_solver.
Qed.

Lemma resolve_inter_broker_Err (ls : list Listener) ib e :
  resolve_inter_broker ls ib = Err e → fault ls ib e.
Proof.
  unfold resolve_inter_broker. case_bool_decide as Hls; [done|]. intros H. refused.
  - apply negb_true_iff, not_true_iff_false in H. split; [done|]. intros l Hl Ht. apply H.
    apply existsb_exists. exists l. rewrite <- list_elem_of_In. split; [done|].
    by apply bool_decide_eq_true.
  - destruct ib as [n|]; [|done]. destruct (find_first _ ls) as [l|] eqn:Hf.
    + refused. apply find_first_Some in Hf as [Hl Hn%str_eqb_eq].
      apply negb_true_iff in H. unfold is_internal in H. apply bool_decide_eq_false in H. cbn. eauto.
    + injection H as <-. split; [done|]. intros (l & -> & Hl)%list_elem_of_fmap.
      rewrite find_first_None in Hf. specialize (Hf l Hl). by rewrite str_eqb_refl in Hf.
Qed.

Lemma validate_listeners_Err (ls : list Listener) ib e :
  validate_listeners rule_parses time_eqb ls ib = Err e → fault ls ib e.
Proof.
  unfold validate_listeners, validate_unique_listeners. intros H. refused.
  - by apply unique_from_Err in H as [(n & -> & H)|(n & -> & H)].
  - match goal with Hl : ?l ∈ ls |- _ =>
      apply check_listener_Err in H; destruct e; cbn in H |- *; try (exists l; done); naive_solver end.
  - assert (¬ ∀ x y, x ∈ map oauth_canonical (oauth_configs ls) →
              y ∈ map oauth_canonical (oauth_configs ls) → x = y) as Hn.
    { intros Heq%distinct_le_1. congruence. }
    apply not_all_equal in Hn as (x & y & (c1 & -> & ?)%list_elem_of_fmap & (c2 & -> & ?)%list_elem_of_fmap & ?).
    by exists c1, c2.
  - apply gssapi_agree_Err in H as (-> & c1 & c2 & [?|?] & ? & ?); [done|]. by exists c1, c2.
  - by apply resolve_inter_broker_Err.
Qed.

(** C23. Listener validation decides the reference definition of a well-formed
    list, and an error is truthful.  [validate_listeners] accepts exactly the lists
    with unique names and ports, listeners that are consistent each by itself, one
    OAuth and one GSSAPI configuration for the whole broker, and an internal
    inter-broker listener; a rejection names a fault that the list has. *)
Theorem validate_listeners_exact (ls : list Listener) ib :
  (validate_listeners rule_parses time_eqb ls ib = Ok tt ↔ listeners_wf rule_parses time_eqb ls ib) ∧
  ∀ e, validate_listeners rule_parses time_eqb ls ib = Err e → fault ls ib e.
Proof. split; [apply validate_listeners_Ok|apply validate_listeners_Err]. Qed.

Lemma effective_inter_broker_resolves (declared : list Listener) ib :
  listeners_wf rule_parses time_eqb (declared_or_default declared) ib →
  ∃ l, l ∈ declared_or_default declared ∧ l_type l = Internal ∧
       l_name l = effective_inter_broker_listener_name declared ib.
Proof.
  intros Hwf. assert (declared_or_default declared ≠ []) as Hne by by destruct declared.
  destruct ib as [n|]; cbn.
  { destruct (inter_broker_internal _ _ _ _ Hwf Hne n eq_refl) as (l & ? & ? & ?). eauto. }
  destruct (internal_exists _ _ _ _ Hwf Hne) as (l & Hl & Ht).
  destruct declared as [|d ds]; [cbn; exists synthesized_default_listener; set_solver|].
  destruct (find_first_exists (λ l, bool_decide (l_type l = Internal)) (d :: ds) l Hl) as (l' & Hf).
  { by apply bool_decide_eq_true. }
  rewrite Hf. apply find_first_Some in Hf as [Hl' Ht'%bool_decide_eq_true]. eauto.
Qed.

(** Validated listeners are well typed for every later phase.  Of a cluster
    whose listeners pass validation, the effective listeners (with the default and
    the operator's own) have unique names and ports, each has a protocol, so that
    the [unreachable!] of [listener_protocol] cannot run, the inter-broker name
    resolves to an internal listener of the cluster that is not the operator's, and
    with an authorizer no external identity provider can assert the operator's
    principal. *)
Theorem validated_listeners_typed (declared : list Listener) ib authz :
  validate_declared rule_parses time_eqb declared ib authz = Ok tt →
  let ls := effective_listeners declared in
  let ib_name := effective_inter_broker_listener_name declared ib in
  NoDup (l_name <$> ls) ∧ NoDup (l_port <$> ls) ∧
  (∀ l, l ∈ ls → is_Some (listener_protocol l)) ∧
  (∃ l, find_first (λ l, str_eqb (l_name l) ib_name) ls = Some l ∧
        l_type l = Internal ∧ l ∈ declared_or_default declared) ∧
  (authz = true → ∀ l, l ∈ ls → is_external_identity (l_authentication l) = false).
Proof.
  unfold validate_declared. rewrite seq_Ok. intros [Hv Hiso]. apply validate_listeners_Ok in Hv.
  pose proof (operator_listener_avoids (declared_or_default declared)) as (Hfresh & _).
  cbn zeta. unfold effective_listeners. rewrite !fmap_app. cbn [fmap list_fmap].
  pose proof Hv as [Hn Hp Hok _ _ _ _]. split; [|split; [|split; [|split]]].
  - apply NoDup_snoc. split; [done|]. intros (l & Heq & Hl)%list_elem_of_fmap.
    by destruct (Hfresh l Hl).
  - apply NoDup_snoc. split; [done|]. intros (l & Heq & Hl)%list_elem_of_fmap.
    by destruct (Hfresh l Hl).
  - intros l Hl; apply elem_of_app in Hl as [Hl|Hl%list_elem_of_singleton]; [|subst l]; [|by eexists].
    eapply listener_protocol_some, auth_ok, Hok, Hl.
  - destruct (effective_inter_broker_resolves _ _ Hv) as (l & Hl & Ht & Hname).
    destruct (find_first_exists
      (λ l, str_eqb (l_name l) (effective_inter_broker_listener_name declared ib))
      (declared_or_default declared ++ [operator_listener (declared_or_default declared)]) l)
      as (l' & Hf); [set_solver|by apply str_eqb_eq|].
    rewrite Hf. exists l'. split; [done|].
    apply find_first_Some in Hf as [Hl' Hn'%str_eqb_eq].
    apply elem_of_app in Hl' as [Hl'|Hl'%list_elem_of_singleton]; [|subst l'].
    + rewrite (NoDup_fmap_eq l_name _ l' l Hn Hl' Hl) by congruence. done.
    + destruct (Hfresh l Hl). congruence.
  - intros ->. unfold validate_operator_principal_isolation in Hiso. cbn in Hiso.
    destruct (find_first _ _) eqn:Hf in Hiso; [done|]. rewrite find_first_None in Hf.
    intros l Hl; apply elem_of_app in Hl as [Hl|Hl%list_elem_of_singleton]; [|subst l]; [by apply Hf|done].
Qed.
End errors.

(** An internal and an ingress listener, both over TLS. *)
Definition demo_listeners : list (Listener Z) :=
  [{| l_name := "plain"; l_port := 9092; l_type := Internal; l_tls := true;
      l_authentication := Some AuthScramSha512; l_configuration := None;
      l_network_policy_peers := None |};
   {| l_name := "ext"; l_port := 9094; l_type := Ingress; l_tls := true;
      l_authentication := Some AuthTls;
      l_configuration := Some {|
        lc_bootstrap := Some {| bc_node_port := None; bc_load_balancer_ip := None;
                                bc_host := Some "kafka.example"; bc_annotations := ∅;
                                bc_labels := ∅ |};
        lc_brokers := [{| bo_broker := 0; bo_advertised_host := None; bo_advertised_port := None;
                          bo_node_port := None; bo_load_balancer_ip := None;
                          bo_host := Some "b0.example" |}];
        lc_ingress_class := None |};
      l_network_policy_peers := Some [] |}].

Lemma validated_listeners_typed_witness :
  validate_declared (λ _, true) Z.eqb demo_listeners (Some "plain") true = Ok tt ∧
  ∀ l, l ∈ effective_listeners demo_listeners → is_Some (listener_protocol l).
Proof.
  split; [vm_compute; reflexivity|].
  exact (proj1 (proj2 (proj2 (validated_listeners_typed (λ _, true) Z.eqb demo_listeners
    (Some "plain") true ltac:(vm_compute; reflexivity))))).
Defined.

(** A declared listener may sit on the controller port: nothing refuses it. *)
Lemma controller_port_accepted :
  let l := {| l_name := "plain"; l_port := CONTROLLER_PORT; l_type := Internal; l_tls := false;
              l_authentication := None; l_configuration := None;
              l_network_policy_peers := None |} : Listener Z in
  validate_listeners (λ _, true) Z.eqb [l] None = Ok tt.
Proof. vm_compute. reflexivity. Qed.
