(* ===== verification/Topic.v ===== *)
(** * KafkaTopic reconciler (src/controller/topic.rs)

    The whole pass: [prepare_topic] (label, name, cluster readiness, deletion,
    finalizer), then the diff against the live topic.  The admin client
    (krabka-client-admin) is external: its requests are calls, its error type
    has the variants the code matches on.  Connecting ([admin_client_for]) is
    one call that may fail. *)

From S2P Require Import Prelude RustStd Effects Kube Listeners.
Local Open Scope Z_scope.

Definition FINALIZER : string := "krabka.io/topic-finalizer".

Record KafkaTopicSpec : Type := {
  topic_name : option string;
  partitions : Z;
  replicas : Z;
  config : option (gmap string string);
  preserve_topic : bool;
}.

Record KafkaTopicStatus : Type := {
  conditions : list KafkaCondition;
  observed_generation : option Z;
  st_topic_name : option string;
  topic_id : option string;
}.

Record KafkaTopic : Type := {
  kt_meta : object_meta;
  kt_spec : KafkaTopicSpec;
  kt_status : option KafkaTopicStatus;
}.

(** ** The admin client *)
Record TopicMetadata : Type := {
  tm_name : string;
  tm_id : option string;
  partition_count : Z;
  tm_error : option KafkaError;
}.

(** [CreateTopicOutcome] and [CreatePartitionsOutcome]. *)
Record MutationOutcome : Type := { mo_id : option string; mo_error : option KafkaError }.

Inductive TopicReplicationStatus : Type := InSync | ReassignmentInProgress | Submitted.

Inductive AlterConfigOp : Type :=
  | SetConfig (key value : string)
  | DeleteConfig (key : string).

#[global] Instance TopicReplicationStatus_eq_dec : EqDecision TopicReplicationStatus.
Proof. solve_decision. Defined.

(** ** Pure helpers *)
Definition diff_configs (current desired : gmap string string) : list AlterConfigOp :=
  filter_map (λ '(k, v), if bool_decide (current !! k = Some v) then None else Some (SetConfig k v))
    (btree_list desired) ++
  filter_map (λ k, if opt_is_some (desired !! k) then None else Some (DeleteConfig k))
    (btree_keys current).

Definition topic_char (c : ascii) : bool :=
  is_ascii_alphanumeric c || Ascii.eqb c "." || Ascii.eqb c "_" || Ascii.eqb c "-".

(** [chars().all(..)]: a byte of a longer character is not ASCII, so testing
    bytes is testing characters. *)
Definition validate_kafka_topic_name (name : string) : result unit string :=
  if is_empty name then Err "topic name is empty"
  else if 249 <? Z.of_nat (String.length name) then
    Err ("topic name length " +:+ display_Z (Z.of_nat (String.length name)) +:+ " exceeds 249")
  else if str_eqb name "." || str_eqb name ".." then
    Err ("topic name cannot be " +:+ debug_str "." +:+ " or " +:+ debug_str "..")
  else if negb (str_all topic_char name) then
    Err ("topic name " +:+ debug_str name +:+ " contains invalid characters")
  else Ok tt.

Definition has_finalizer (obj : KafkaTopic) : bool :=
  is_some_and (existsb (λ s, str_eqb s FINALIZER)) (om_finalizers (kt_meta obj)).

Section topic.
Context `{TimeOps Time}.
(** [Config::dynamic_overrides] of the admin client. *)
Context {Config : Type} (dynamic_overrides : Config → string → gmap string string).

Record topic_config : Type := {
  controller_error_requeue : Time;
  controller_dependency_requeue : Time;
  controller_drift_requeue : Time;
  controller_invalid_requeue : Time;
}.

(** ** Calls.  Every mutation carries the configured timeout. *)
Inductive topic_call : Type :=
  | GetKafka (cluster : string)
  | AdminClientFor (cluster bootstrap : string)
  | DropAdminClient (cluster : string)
  | Metadata (topic : string)
  | CreateTopics (topic : string) (partitions replicas : Z) (configs : gmap string string)
  | CreatePartitions (topic : string) (new_total_count : Z)
  | ReconcileReplicationFactor (topic : string) (replicas : Z)
  | DescribeConfigs (topic : string)
  | IncrementalAlterConfigs (topic : string) (ops : list AlterConfigOp)
  | DeleteTopics (topic : string)
  | PatchStatus (st : KafkaTopicStatus)
  | PatchFinalizers (finalizers : list string).   (* a merge patch: the whole list *)

Definition topic_resp (c : topic_call) : Type :=
  match c with
  | GetKafka _ => result (option (KafkaView Time)) kube_error
  | AdminClientFor _ _ => result unit AdminError
  | DropAdminClient _ => unit
  | Metadata _ => result (list TopicMetadata) AdminError
  | CreateTopics _ _ _ _ | CreatePartitions _ _ => result (list MutationOutcome) AdminError
  | ReconcileReplicationFactor _ _ => result TopicReplicationStatus AdminError
  | DescribeConfigs _ => result (gmap string (result Config KafkaError)) AdminError
  | IncrementalAlterConfigs _ _ => result (gmap string (result unit KafkaError)) AdminError
  | DeleteTopics _ => result unit AdminError
  | PatchStatus _ | PatchFinalizers _ => result unit kube_error
  end.

(** A pass ends with an action, an error, or a panic ([Err None]). *)
Notation pass R := (prog topic_resp (result R (option ReconcileError))).
Notation call := (perform (resp := topic_resp)).

Section pass.
Context (cfg : topic_config) (ts : string) (obj : KafkaTopic).
Let name : string := name_any (kt_meta obj).
Let spec : KafkaTopicSpec := kt_spec obj.

(** The status body of [patch_status]: a merge patch, so an absent value
    removes the stored one. *)
Definition status_body (condition_state : string * string * string) (id : option string)
    (advance_generation : bool) : KafkaTopicStatus :=
  let '(st, reason, message) := condition_state in
  {| conditions := [condition ts "Ready" st reason message];
     observed_generation :=
       if advance_generation then om_generation (kt_meta obj)
       else and_then (kt_status obj) observed_generation;
     st_topic_name := Some (default name (topic_name spec));
     topic_id := id |}.

Definition patch_status (condition_state : string * string * string) (id : option string)
    (advance_generation : bool) : pass unit :=
  patched ← call (PatchStatus (status_body condition_state id advance_generation));
  Ret (map_err (λ e, Some (Kube e)) patched).

(** Report, then requeue. *)
Definition report (condition_state : string * string * string) (id : option string)
    (advance_generation : bool) (delay : Time) : pass (action Time) :=
  _ ←? patch_status condition_state id advance_generation;
  Ret (Ok (Requeue delay)).

(** The admin client is dropped from the cache after a transport failure. *)
Definition admin_failed (cluster : string) (e : AdminError) : pass (action Time) :=
  if is_transport e then
    _ ← call (DropAdminClient cluster);
    Ret (Ok (Requeue (controller_error_requeue cfg)))
  else Ret (Ok (Requeue (controller_error_requeue cfg))).

Inductive TopicPreparation : Type :=
  | Ready (cluster bootstrap topic : string)
  | Done (a : action Time).

Definition done (p : pass (action Time)) : pass TopicPreparation :=
  a ←? p; Ret (Ok (Done a)).

Definition delete_live_topic (cluster bootstrap topic : string) : prog topic_resp unit :=
  if negb (preserve_topic spec) then
    client ← call (AdminClientFor cluster bootstrap);
    match client with
    | Ok _ => _ ← call (DeleteTopics topic); Ret tt   (* a failure is only logged *)
    | Err _ => Ret tt
    end
  else Ret tt.

Definition add_finalizer : pass unit :=
  patched ← call (PatchFinalizers [FINALIZER]);
  Ret (map_err (λ e, Some (Kube e)) patched).

Definition remove_finalizer : pass unit :=
  patched ← call (PatchFinalizers []);
  Ret (map_err (λ e, Some (Kube e)) patched).

Definition prepare_topic : pass TopicPreparation :=
  match label (kt_meta obj) "krabka.io/cluster" with
  | None =>
      done (report ("False", "MissingClusterLabel",
                    "metadata.labels[" +:+ debug_str "krabka.io/cluster" +:+ "] is required")
              None false (controller_drift_requeue cfg))
  | Some cluster =>
      let topic := default name (topic_name spec) in
      match validate_kafka_topic_name topic with
      | Err message =>
          done (report ("False", "InvalidTopicName", message) None false
                  (controller_invalid_requeue cfg))
      | Ok _ =>
          kafka ← call (GetKafka cluster);
          match kafka with
          | Err e => Ret (Err (Some (Kube e)))
          | Ok kafka =>
              match and_then kafka operator_listener_bootstrap with
              | None =>
                  done (report ("False", "ClusterNotReady",
                          "Kafka/" +:+ cluster +:+ " not Ready or no internal listener")
                          None false (controller_dependency_requeue cfg))
              | Some bootstrap =>
                  if om_deleting (kt_meta obj) then
                    _ ← delete_live_topic cluster bootstrap topic;
                    _ ←? remove_finalizer;
                    Ret (Ok (Done AwaitChange))
                  else if negb (has_finalizer obj) then
                    _ ←? add_finalizer;
                    Ret (Ok (Done RequeueNow))
                  else Ret (Ok (Ready cluster bootstrap topic))
              end
          end
      end
  end.

Definition broker_error (api : string) (e : KafkaError) : string * string * string :=
  ("False", "BrokerError",
   api +:+ ": " +:+ ke_name e +:+ " (" +:+ display_Z (ke_code e) +:+ ")").

Definition create_topic (cluster topic : string) : pass (action Time) :=
  created ← call (CreateTopics topic (partitions spec) (replicas spec)
                    (default ∅ (config spec)));
  match created with
  | Err e => admin_failed cluster e
  | Ok outcomes =>
      match last outcomes with
      | None => Ret (Err None)
      | Some outcome =>
          match mo_error outcome with
          | Some e =>
              report (broker_error "CreateTopics" e) None false (controller_error_requeue cfg)
          | None =>
              report ("True", "Ready", "topic created") (mo_id outcome) true
                (controller_drift_requeue cfg)
          end
      end
  end.

Definition reconcile_replication_factor (cluster topic : string) (id : option string)
  : pass (option (action Time)) :=
  r ← call (ReconcileReplicationFactor topic (replicas spec));
  match r with
  | Ok InSync => Ret (Ok None)
  | Ok st =>
      let message := if bool_decide (st = ReassignmentInProgress)
                     then "partition reassignment in progress"
                     else "partition reassignment submitted" in
      a ←? report ("False", "Reassigning", message) id false (controller_dependency_requeue cfg);
      Ret (Ok (Some a))
  | Err (Broker api code error_name message) =>
      let detail := match message with Some d => ": " +:+ d | None => "" end in
      a ←? report ("False", "BrokerError",
             api +:+ ": " +:+ error_name +:+ " (" +:+ display_Z code +:+ ")" +:+ detail)
             id false (controller_error_requeue cfg);
      Ret (Ok (Some a))
  | Err e => a ←? admin_failed cluster e; Ret (Ok (Some a))
  end.

Definition topic_config_overrides (results : gmap string (result Config KafkaError))
    (resource : string) : result (gmap string string) AdminError :=
  match results !! resource with
  | None => Err (Protocol "DescribeConfigs omitted the topic")
  | Some (Ok config) => Ok (dynamic_overrides config resource)
  | Some (Err e) => Err (Broker "DescribeConfigs" (ke_code e) (ke_name e) (ke_message e))
  end.

(** The partition increase: [None] goes on. *)
Definition grow_partitions (cluster topic : string) (cur : TopicMetadata)
  : pass (option (action Time)) :=
  if partition_count cur <? partitions spec then
    r ← call (CreatePartitions topic (partitions spec));
    match r with
    | Err e => a ←? admin_failed cluster e; Ret (Ok (Some a))
    | Ok outcomes =>
        match last outcomes with
        | None => Ret (Err None)
        | Some o =>
            match mo_error o with
            | None => Ret (Ok None)
            | Some e =>
                a ←? report (broker_error "CreatePartitions" e) (tm_id cur) false
                       (controller_error_requeue cfg);
                Ret (Ok (Some a))
            end
        end
    end
  else Ret (Ok None).

Definition reconcile_configs (cluster topic : string) (cur : TopicMetadata)
  : pass (option (action Time)) :=
  described ← call (DescribeConfigs topic);
  match (let? results := described in topic_config_overrides results topic) with
  | Err e => a ←? admin_failed cluster e; Ret (Ok (Some a))
  | Ok overrides =>
      match diff_configs overrides (default ∅ (config spec)) with
      | [] => Ret (Ok None)
      | ops =>
          altered ← call (IncrementalAlterConfigs topic ops);
          match altered with
          | Err e => a ←? admin_failed cluster e; Ret (Ok (Some a))
          | Ok outcomes =>
              match head (filter_map (λ '(_, r), match r with Err e => Some e | Ok _ => None end)
                            (btree_list outcomes)) with
              | Some e =>
                  a ←? report (broker_error "IncrementalAlterConfigs" e) (tm_id cur) false
                         (controller_error_requeue cfg);
                  Ret (Ok (Some a))
              | None => Ret (Ok None)
              end
          end
      end
  end.

Definition update_topic (cluster topic : string) (cur : TopicMetadata) : pass (action Time) :=
  if partitions spec <? partition_count cur then
    report ("False", "ImmutableFieldChanged",
            "spec.partitions decrease is not supported by Kafka")
      (tm_id cur) false (controller_invalid_requeue cfg)
  else
    grown ←? grow_partitions cluster topic cur;
    match grown with
    | Some a => Ret (Ok a)
    | None =>
        replicated ←? reconcile_replication_factor cluster topic (tm_id cur);
        match replicated with
        | Some a => Ret (Ok a)
        | None =>
            configured ←? reconcile_configs cluster topic cur;
            match configured with
            | Some a => Ret (Ok a)
            | None =>
                report ("True", "Ready", "topic in sync") (tm_id cur) true
                  (controller_drift_requeue cfg)
            end
        end
    end.

(** The live topic the pass works on: reported by name and without an error. *)
Definition current_topic (topics : list TopicMetadata) (topic : string) : option TopicMetadata :=
  option_filter (λ t, negb (opt_is_some (tm_error t)))
    (find_first (λ t, str_eqb (tm_name t) topic) topics).

Definition reconcile_inner : pass (action Time) :=
  prepared ←? prepare_topic;
  match prepared with
  | Done a => Ret (Ok a)
  | Ready cluster bootstrap topic =>
      client ← call (AdminClientFor cluster bootstrap);
      match client with
      | Err _ => Ret (Ok (Requeue (controller_error_requeue cfg)))
      | Ok _ =>
          md ← call (Metadata topic);
          match md with
          | Err e => admin_failed cluster e
          | Ok topics =>
              match current_topic topics topic with
              | None => create_topic cluster topic
              | Some cur => update_topic cluster topic cur
              end
          end
      end
  end.
End pass.
End topic.

(** ** Config diffs *)

(** [IncrementalAlterConfigs] on the topic's overrides. *)
Definition apply_op (m : gmap string string) (op : AlterConfigOp) : gmap string string :=
  match op with
  | SetConfig k v => <[k := v]> m
  | DeleteConfig k => delete k m
  end.

Lemma fold_sets (current : gmap string string) l m :
  NoDup (l.*1) → (∀ k v, (k, v) ∈ l → m !! k = current !! k) →
  fold_left apply_op
    (filter_map (λ '(k, v), if bool_decide (current !! k = Some v) then None else Some (SetConfig k v)) l) m
  = list_to_map l ∪ m.
Proof.
  revert m. induction l as [|[k v] l IH]; intros m Hnd Hm; cbn; [by rewrite map_empty_union|].
  cbn in Hnd. apply NoDup_cons in Hnd as [Hk Hnd].
  assert (∀ v', (k, v') ∉ l) as Hkl.
  { intros v' Hin. apply Hk. apply list_elem_of_fmap. by exists (k, v'). }
  assert (m !! k = current !! k) as Hmk by (apply (Hm k v); set_solver).
  case_bool_decide as Hc; cbn.
  - rewrite IH by (set_solver || done). apply map_eq. intros i. rewrite !lookup_union.
    destruct (decide (i = k)) as [->|Hne]; [|by rewrite lookup_insert_ne].
    rewrite lookup_insert_eq, not_elem_of_list_to_map_1 by done. rewrite Hmk, Hc. done.
  - rewrite IH; [|done|].
    + rewrite <- insert_union_l, insert_union_r; [done|]. by apply not_elem_of_list_to_map_1.
    + intros i w Hi. rewrite lookup_insert_ne by (intros ->; by apply (Hkl w)). set_solver.
Qed.

Lemma fold_deletes (desired m : gmap string string) ks i :
  fold_left apply_op
    (filter_map (λ k, if opt_is_some (desired !! k) then None else Some (DeleteConfig k)) ks) m !! i
  = if decide (i ∈ ks ∧ desired !! i = None) then None else m !! i.
Proof.
  revert m. induction ks as [|k ks IH]; intros m; cbn.
  - rewrite decide_False; [done|]. set_solver.
  - destruct (desired !! k) as [v|] eqn:Hk; cbn; rewrite IH.
    + destruct (decide (i = k)) as [->|Hne].
      * rewrite !decide_False; [done|naive_solver..].
      * apply decide_ext. set_solver.
    + destruct (decide (i = k)) as [->|Hne].
      * rewrite (decide_True (P := k ∈ k :: ks ∧ _)) by set_solver.
        rewrite lookup_delete_eq. by case_decide.
      * rewrite lookup_delete_ne by done. apply decide_ext. set_solver.
Qed.

Lemma list_to_map_btree_list {A} (m : gmap string A) : list_to_map (btree_list m) = m.
Proof.
  rewrite <- (list_to_map_to_list m) at 2. apply list_to_map_proper; [|apply sort_by_perm].
  unfold btree_list. eapply NoDup_Permutation_proper;
    [apply fmap_Permutation, sort_by_perm|apply NoDup_fst_map_to_list].
Qed.

Lemma diff_configs_apply current desired :
  fold_left apply_op (diff_configs current desired) current = desired.
Proof.
  unfold diff_configs. rewrite fold_left_app.
  rewrite fold_sets; [|apply (NoDup_btree_keys desired)|done].
  rewrite list_to_map_btree_list. apply map_eq. intros i. rewrite fold_deletes, lookup_union.
  pose proof (elem_of_btree_keys current i) as Hkeys. destruct (desired !! i) as [v|] eqn:Hd.
  - case_decide; [naive_solver|]. by destruct (current !! i).
  - case_decide as Hcase; [done|]. destruct (current !! i) as [w|] eqn:Hc; [|done].
    exfalso. apply Hcase. split; [apply Hkeys; eauto|done].
Qed.

(** [ops] bring the overrides [current] to [desired] and touch nothing else: a key
    is set exactly if it is declared with another value or not there, and removed
    exactly if it is there and not declared. *)
Definition alters (current desired : gmap string string) (ops : list AlterConfigOp) : Prop :=
  fold_left apply_op ops current = desired ∧
  (∀ k v, SetConfig k v ∈ ops ↔ desired !! k = Some v ∧ current !! k ≠ Some v) ∧
  (∀ k, DeleteConfig k ∈ ops ↔ is_Some (current !! k) ∧ desired !! k = None).

Lemma diff_configs_alters current desired : alters current desired (diff_configs current desired).
Proof.
  split; [apply diff_configs_apply|]. unfold diff_configs. split.
  - intros k v. rewrite elem_of_app, !elem_of_filter_map. split.
    + intros [([k' v'] & Hin & Hs)|(k' & _ & Hs)]; [|by destruct (opt_is_some _)].
      apply elem_of_btree_list in Hin. revert Hs. case_bool_decide; [done|]. intros [= -> ->]. by split.
    + intros [Hd Hc]. left. exists (k, v). split; [by apply elem_of_btree_list|].
      by rewrite bool_decide_eq_false_2.
  - intros k. rewrite elem_of_app, !elem_of_filter_map. split.
    + intros [([k' v'] & _ & Hs)|(k' & Hin%elem_of_btree_keys & Hs)]; [by destruct (bool_decide _)|].
      destruct (desired !! k') eqn:Hd; [done|]. injection Hs as <-. by split.
    + intros [Hc Hd]. right. exists k. split; [by apply elem_of_btree_keys|]. by rewrite Hd.
Qed.

(** The config diff converges and is minimal: applied to the live
    overrides, the operations of [diff_configs] leave exactly the desired
    configuration, and there are none exactly when it is already there. *)
Theorem diff_configs_converges current desired :
  fold_left apply_op (diff_configs current desired) current = desired ∧
  (diff_configs current desired = [] ↔ current = desired).
Proof.
  split; [apply diff_configs_apply|]. split.
  - intros Hd. pose proof (diff_configs_apply current desired) as Ha. by rewrite Hd in Ha.
  - intros ->. unfold diff_configs. apply app_nil. split; apply filter_map_nil.
    + intros [k v] Hin. apply elem_of_btree_list in Hin. by rewrite bool_decide_eq_true_2.
    + intros k Hk. apply elem_of_btree_keys in Hk as [v Hk]. by rewrite Hk.
Qed.

(** ** What a pass may do *)
Section claims.
Context `{TimeOps Time} {Config : Type} (dynamic_overrides : Config → string → gmap string string).
Context (cfg : topic_config (Time := Time)) (ts : string) (obj : KafkaTopic).
Notation resp := (topic_resp (Time := Time) (Config := Config)).
Implicit Types (tr : list (event resp)).

Definition effective_name : string := default (name_any (kt_meta obj)) (topic_name (kt_spec obj)).
Definition desired_config : gmap string string := default ∅ (config (kt_spec obj)).

(** The resource is live and carries the finalizer. *)
Definition managed : Prop := om_deleting (kt_meta obj) = false ∧ has_finalizer obj = true.

Definition not_ready (st : KafkaTopicStatus) : Prop :=
  ∃ reason message id, st = status_body ts obj ("False", reason, message) id false.

(** The topic was created as declared. *)
Definition created tr : Prop :=
  ∃ outcomes o, ev (resp := resp)
      (CreateTopics effective_name (partitions (kt_spec obj)) (replicas (kt_spec obj)) desired_config)
      (Ok outcomes) ∈ tr ∧ last outcomes = Some o ∧ mo_error o = None.

(** The live topic [cur] has the declared partitions, replication factor and
    configuration, by what the brokers answered. *)
Definition in_sync tr (cur : TopicMetadata) : Prop :=
  (∃ topics, ev (resp := resp) (Metadata effective_name) (Ok topics) ∈ tr ∧
     current_topic topics effective_name = Some cur) ∧
  (partition_count cur = partitions (kt_spec obj) ∨
   partition_count cur < partitions (kt_spec obj) ∧
   ∃ outcomes o,
     ev (resp := resp) (CreatePartitions effective_name (partitions (kt_spec obj))) (Ok outcomes) ∈ tr ∧
     last outcomes = Some o ∧ mo_error o = None) ∧
  ev (resp := resp) (ReconcileReplicationFactor effective_name (replicas (kt_spec obj))) (Ok InSync) ∈ tr ∧
  (∃ results overrides, ev (resp := resp) (DescribeConfigs effective_name) (Ok results) ∈ tr ∧
     topic_config_overrides dynamic_overrides results effective_name = Ok overrides ∧
     (overrides = desired_config ∨
      ∃ outcomes, ev (resp := resp)
        (IncrementalAlterConfigs effective_name (diff_configs overrides desired_config)) (Ok outcomes) ∈ tr ∧
        ∀ k e, outcomes !! k ≠ Some (Err e))).

(** What a status patch may say. *)
Definition truthful tr (st : KafkaTopicStatus) : Prop :=
  not_ready st ∨
  (created tr ∧ ∃ id, st = status_body ts obj ("True", "Ready", "topic created") id true) ∨
  (∃ cur, in_sync tr cur ∧
     st = status_body ts obj ("True", "Ready", "topic in sync") (tm_id cur) true).

(** When a call is permitted, given the log it appears in. *)
Definition permitted tr (c : topic_call) : Prop :=
  match c with
  | DeleteTopics t =>
      t = effective_name ∧ om_deleting (kt_meta obj) = true ∧ preserve_topic (kt_spec obj) = false
  | PatchFinalizers l =>
      if om_deleting (kt_meta obj) then l = [] else l = [FINALIZER] ∧ has_finalizer obj = false
  | CreateTopics t p r configs =>
      managed ∧ t = effective_name ∧ p = partitions (kt_spec obj) ∧ r = replicas (kt_spec obj) ∧
      configs = desired_config ∧
      ∃ topics, ev (resp := resp) (Metadata t) (Ok topics) ∈ tr ∧ current_topic topics t = None
  | CreatePartitions t n =>
      managed ∧ t = effective_name ∧ n = partitions (kt_spec obj) ∧
      ∃ topics cur, ev (resp := resp) (Metadata t) (Ok topics) ∈ tr ∧
        current_topic topics t = Some cur ∧ partition_count cur < n
  | ReconcileReplicationFactor t r =>
      managed ∧ t = effective_name ∧ r = replicas (kt_spec obj) ∧
      ∃ topics cur, ev (resp := resp) (Metadata t) (Ok topics) ∈ tr ∧
        current_topic topics t = Some cur ∧ partition_count cur ≤ partitions (kt_spec obj)
  | IncrementalAlterConfigs t ops =>
      managed ∧ t = effective_name ∧ ops ≠ [] ∧
      ∃ results overrides, ev (resp := resp) (DescribeConfigs t) (Ok results) ∈ tr ∧
        topic_config_overrides dynamic_overrides results t = Ok overrides ∧
        alters overrides desired_config ops
  | PatchStatus st => truthful tr st
  | _ => True
  end.

Ltac member := first [ in_log; reflexivity | in_log ].

(** The facts about one call of a finished log. *)
Ltac permit :=
  repeat match goal with
    | H : negb _ = true |- _ => apply negb_true_iff in H
    | H : negb _ = false |- _ => apply negb_false_iff in H
    | H : (_ <? _) = true |- _ => apply Z.ltb_lt in H
    | H : (_ <? _) = false |- _ => apply Z.ltb_ge in H
    | H : om_deleting _ = _ |- context [om_deleting _] => rewrite H
    end;
  repeat match goal with
    | |- managed => split; done
    | |- _ ∧ _ => split
    end; try done.

Lemma no_failed_outcome (outcomes : gmap string (result unit KafkaError)) :
  head (filter_map (λ '(_, r), match r with Err e => Some e | Ok _ => None end)
          (btree_list outcomes)) = None →
  ∀ k e, outcomes !! k ≠ Some (Err e).
Proof.
  intros Hn k e Hk. apply elem_of_btree_list in Hk.
  assert (filter_map (λ '(_, r), match r with Err e => Some e | Ok _ => None end)
    (btree_list outcomes) = []) as Hf by (by destruct (filter_map _ _)).
  rewrite filter_map_nil in Hf. by specialize (Hf _ Hk).
Qed.

Lemma diff_configs_nil current : diff_configs current desired_config = [] → current = desired_config.
Proof. intros Hd. pose proof (diff_configs_apply current desired_config) as Ha. by rewrite Hd in Ha. Qed.

(** The operations of a diff that is not empty. *)
Ltac altered :=
  cbn [app]; eexists _, _; split; [in_log|]; split; [eassumption|];
  match goal with H : diff_configs _ _ = _ :: _ |- _ => rewrite <- H end; apply diff_configs_alters.
Ltac answered := cbn [app]; eexists; split; [in_log|eassumption].
Ltac answered2 :=
  cbn [app]; eexists _, _; split; [in_log|]; split; [eassumption|]; first [done | lia | by symmetry].

Ltac show_in_sync :=
  split; [answered|]; split;
  [ first [ left; lia | right; split; [lia|answered2] ]
  | split; [cbn [app]; in_log|];
    cbn [app]; eexists _, _; split; [in_log|]; split; [eassumption|];
    first [ left; by apply diff_configs_nil
          | right; match goal with H : diff_configs _ _ = _ :: _ |- _ => unfold desired_config; rewrite H end;
            eexists; split; [in_log|by apply no_failed_outcome] ] ].

Ltac show_truthful :=
  first [ left; eexists _, _, _; reflexivity
        | right; left; split; [answered2|eexists; reflexivity]
        | right; right; eexists; split; [show_in_sync|reflexivity] ].

Lemma reconcile_permitted : all_runs (reconcile_inner dynamic_overrides cfg ts obj)
    (λ tr _, ∀ c, c ∈ calls tr → permitted tr c).
Proof.
  unfold all_runs, reconcile_inner, prepare_topic, done, report, patch_status, delete_live_topic,
    add_finalizer, remove_finalizer, update_topic, create_topic, grow_partitions,
    reconcile_replication_factor, reconcile_configs, admin_failed, report, patch_status.
  run_cases.
  all: intros c Hc; log_mem Hc; subst c; cbn [permitted]; permit.
  all: first [answered | answered2 | altered | show_truthful].
Qed.

(** C13. The live cluster is changed only as declared.  A topic is deleted only
    for a resource under deletion that does not preserve it, and its finalizer
    list is cleared only then; nothing is created or altered before the
    finalizer is on the resource, nor once it is being deleted.  A topic is
    created only if the brokers did not report it, with the declared partitions,
    replication factor and configuration; partitions are only ever increased,
    to the declared count; the replication factor asked for is the declared one, of
    a topic that the brokers reported; and a config change takes the overrides read
    in this pass to the declared configuration: it sets exactly the keys whose
    declared value is not there, removes exactly the keys that are not declared, and
    is not sent when there are none. *)
Theorem topic_changes_as_declared :
  all_runs (reconcile_inner dynamic_overrides cfg ts obj)
    (λ tr _,
      (∀ t, DeleteTopics t ∈ calls tr → t = effective_name ∧
         om_deleting (kt_meta obj) = true ∧ preserve_topic (kt_spec obj) = false) ∧
      (∀ l, PatchFinalizers l ∈ calls tr →
         if om_deleting (kt_meta obj) then l = [] else l = [FINALIZER] ∧ has_finalizer obj = false) ∧
      (∀ t p r configs, CreateTopics t p r configs ∈ calls tr →
         managed ∧ t = effective_name ∧ p = partitions (kt_spec obj) ∧ r = replicas (kt_spec obj) ∧
         configs = desired_config ∧
         ∃ topics, ev (resp := resp) (Metadata t) (Ok topics) ∈ tr ∧ current_topic topics t = None) ∧
      (∀ t n, CreatePartitions t n ∈ calls tr →
         managed ∧ t = effective_name ∧ n = partitions (kt_spec obj) ∧
         ∃ topics cur, ev (resp := resp) (Metadata t) (Ok topics) ∈ tr ∧
           current_topic topics t = Some cur ∧ partition_count cur < n) ∧
      (∀ t r, ReconcileReplicationFactor t r ∈ calls tr →
         managed ∧ t = effective_name ∧ r = replicas (kt_spec obj) ∧
         ∃ topics cur, ev (resp := resp) (Metadata t) (Ok topics) ∈ tr ∧
           current_topic topics t = Some cur ∧ partition_count cur ≤ partitions (kt_spec obj)) ∧
      (∀ t ops, IncrementalAlterConfigs t ops ∈ calls tr →
         managed ∧ t = effective_name ∧ ops ≠ [] ∧
         ∃ results overrides, ev (resp := resp) (DescribeConfigs t) (Ok results) ∈ tr ∧
           topic_config_overrides dynamic_overrides results t = Ok overrides ∧
           alters overrides desired_config ops)).
Proof.
  eapply all_runs_mono; [|apply reconcile_permitted]. intros tr r Hp.
  split_and!; intros * Hc; exact (Hp _ Hc).
Qed.

(** The status tells the truth.  [Ready=True] is written, and
    [observedGeneration] advanced to the generation of the spec, only after the
    brokers answered in this pass that the topic was created as declared, or
    that it has the declared partitions (or was grown to them), its replicas are
    in sync and its overrides are the declared ones (or were altered to them
    without a failed entry).  Every other status says [Ready=False] and keeps
    the old [observedGeneration]. *)
Theorem topic_status_truthful :
  all_runs (reconcile_inner dynamic_overrides cfg ts obj)
    (λ tr _, ∀ st, PatchStatus st ∈ calls tr → truthful tr st).
Proof.
  eapply all_runs_mono; [|apply reconcile_permitted]. intros tr r Hp st Hst. by apply Hp in Hst.
Qed.
End claims.
