(* ===== verification/Quantity.v ===== *)
(** * Storage quantities (src/controller/common.rs, [parse_quantity])

    The parser of Kubernetes [Quantity] strings that compares storage sizes.
    All arithmetic is checked [i128] arithmetic. *)

From S2P Require Import Prelude RustStd.
Local Open Scope Z_scope.

(** The suffixes in the order they are tried. *)
Definition suffixes : list (string * Z) :=
  [("Ki", 1024); ("Mi", 1024 ^ 2); ("Gi", 1024 ^ 3); ("Ti", 1024 ^ 4); ("Pi", 1024 ^ 5);
   ("Ei", 1024 ^ 6); ("K", 10 ^ 3); ("M", 10 ^ 6); ("G", 10 ^ 9); ("T", 10 ^ 12);
   ("P", 10 ^ 15); ("E", 10 ^ 18)].

Definition split_suffix (s : string) : string * Z :=
  default (s, 1)
    (first_some (λ '(suffix, m), opt_map (λ rest, (rest, m)) (strip_suffix suffix s)) suffixes).

Definition OVERFLOW : string := "quantity overflows i128".
Definition checked_i128 (z : Z) : result Z string := ok_or (checked i128_min i128_max z) OVERFLOW.

(** A run of digits, [0] when empty. *)
Definition parse_part (s : string) : result Z string :=
  if is_empty s then Ok 0 else ok_or (parse_i128 s) OVERFLOW.

Definition parse_quantity (s : string) : result Z string :=
  if is_empty s then Err "empty quantity string"
  else
    let '(mantissa_str, multiplier) := split_suffix s in
    if is_empty mantissa_str then Err "missing numeric mantissa before suffix"
    else if str_exists (λ c, Ascii.eqb c "e" || Ascii.eqb c "E") mantissa_str then
      Err "scientific notation not supported"
    else if starts_with "-" mantissa_str then Err "negative quantity rejected"
    else
      let '(whole, fraction) := default (mantissa_str, "") (split_once "." mantissa_str) in
      if is_empty whole && is_empty fraction then Err "mantissa is not a valid number"
      else if negb (str_all is_ascii_digit whole) || negb (str_all is_ascii_digit fraction) then
        Err "mantissa is not a valid number"
      else
        let? whole := parse_part whole in
        let? len := ok_or (checked 0 u32_max (Z.of_nat (String.length fraction))) OVERFLOW in
        let? scale := checked_i128 (10 ^ len) in
        let? fraction := parse_part fraction in
        let? scaled := checked_i128 (whole * scale) in
        let? scaled := checked_i128 (scaled + fraction) in
        if scaled =? 0 then Err "quantity must be strictly positive"
        else
          let? value := checked_i128 (scaled * multiplier) in
          Ok (Z.quot value scale).

(** ** Lemmas *)
Lemma checked_i128_Ok z v : checked_i128 z = Ok v ↔ v = z ∧ i128_min ≤ z ≤ i128_max.
Proof.
  unfold checked_i128, ok_or. destruct (checked i128_min i128_max z) as [w|] eqn:E.
  - apply checked_Some in E as [-> ?]. naive_solver.
  - split; [done|]. intros [_ Hz]. exfalso. unfold checked, in_range in E.
    destruct (Z.leb_spec i128_min z), (Z.leb_spec z i128_max); cbn in E; (done || lia).
Qed.

Lemma digits_none (p : ascii → bool) s :
  (∀ c, is_ascii_digit c = true → p c = false) → str_all is_ascii_digit s = true →
  str_exists p s = false.
Proof.
  intros Hp Hs. unfold str_exists. apply negb_false_iff. revert Hs. apply str_all_impl.
  intros c Hc. by rewrite Hp.
Qed.

Lemma digit_neq c d : is_ascii_digit c = true → is_ascii_digit d = false → Ascii.eqb c d = false.
Proof. intros Hc Hd. apply Ascii.eqb_neq. intros ->. congruence. Qed.

(** A mantissa of digits and a point carries no suffix of its own. *)
Definition mantissa_char (c : ascii) : bool := is_ascii_digit c || Ascii.eqb c ".".

Lemma strip_suffix_mantissa c w s :
  str_all mantissa_char s = true → s ≠ "" →
  is_some_and mantissa_char (last_char (String c w)) = false →
  strip_suffix (String c w) s = None.
Proof.
  intros Hs Hne Hw. apply strip_suffix_last. intros Heq.
  destruct (last_char s) as [d|] eqn:E.
  - rewrite Heq in Hw. cbn in Hw. by rewrite (last_char_str_all _ _ _ Hs E) in Hw.
  - destruct s as [|a s]; [done|]. revert E. clear. revert a.
    induction s as [|b s IH]; intros a; [done|]. apply IH.
Qed.

Lemma split_suffix_app s suffix m :
  (suffix, m) ∈ ("", 1) :: suffixes → str_all mantissa_char s = true → s ≠ "" →
  split_suffix (s +:+ suffix) = (s, m).
Proof.
  intros Hin Hs Hne. unfold split_suffix.
  apply elem_of_cons in Hin as [[= -> ->]|Hin].
  - rewrite str_app_nil_r. cbn [first_some suffixes].
    by repeat (rewrite strip_suffix_mantissa by done; cbn [opt_map]).
  - unfold suffixes in Hin. repeat (apply elem_of_cons in Hin as [[= -> ->]|Hin];
      [cbn [first_some suffixes];
       repeat (first [rewrite strip_suffix_app
                     |rewrite strip_suffix_other by done
                     |rewrite strip_suffix_last by (rewrite last_char_app; vm_compute; congruence)];
               cbn [opt_map]); reflexivity|]).
    by apply elem_of_nil in Hin.
Qed.

Lemma parse_digits_all acc s z : parse_digits acc s = Some z → str_all is_ascii_digit s = true.
Proof.
  revert acc. induction s as [|c s IH]; intros acc; [done|]. cbn.
  destruct (is_ascii_digit c); [apply IH|done].
Qed.

Lemma parse_digits_nonneg acc s z : 0 ≤ acc → parse_digits acc s = Some z → 0 ≤ z.
Proof.
  revert acc. induction s as [|c s IH]; intros acc Ha; cbn; [by intros [= <-]|].
  destruct (is_ascii_digit c) eqn:Hc; [|done]. apply IH.
  unfold is_ascii_digit in Hc. lia.
Qed.

Lemma strip_prefix_digits c s :
  is_ascii_digit c = false → str_all is_ascii_digit s = true → strip_prefix (String c "") s = None.
Proof.
  intros Hc. destruct s as [|a s]; [done|]. cbn. intros [Ha _]%andb_true_iff.
  destruct (Ascii.eqb_spec c a); [congruence|done].
Qed.

Lemma parse_part_digits s z :
  parse_digits 0 s = Some z → z ≤ i128_max → parse_part s = Ok z.
Proof.
  intros Hp Hz. unfold parse_part. destruct (is_empty s) eqn:He.
  - apply str_eqb_eq in He as ->. cbn in Hp. by injection Hp as <-.
  - unfold parse_i128, parse_signed, parse_nonempty_digits.
    pose proof (parse_digits_all _ _ _ Hp) as Hall. pose proof (parse_digits_nonneg 0 _ _ (Z.le_refl 0) Hp).
    rewrite !strip_prefix_digits by done. cbn [default]. rewrite He, Hp.
    assert (checked i128_min i128_max z = Some z) as ->; [|done].
    apply checked_Some. split; [done|]. split; [|done]. unfold i128_min. lia.
Qed.

(** A quantity is read exactly: [<whole>.<fraction><suffix>] is the number
    of bytes it denotes, rounded down, with the suffix as a power of 1024 or of
    1000, whenever the intermediate products fit [i128]. *)
Theorem parse_quantity_exact whole fraction suffix m w f :
  (suffix, m) ∈ ("", 1) :: suffixes →
  parse_digits 0 whole = Some w → parse_digits 0 fraction = Some f →
  whole ≠ "" ∨ fraction ≠ "" →
  let scale := 10 ^ Z.of_nat (String.length fraction) in
  let scaled := w * scale + f in
  0 < scaled → scale ≤ i128_max → scaled * m ≤ i128_max →
  parse_quantity ((whole +:+ "." +:+ fraction) +:+ suffix) = Ok (scaled * m / scale).
Proof.
  intros Hsuf Hw Hf Hne scale scaled Hpos Hscale Hmax.
  pose proof (parse_digits_all _ _ _ Hw) as Haw. pose proof (parse_digits_all _ _ _ Hf) as Haf.
  pose proof (parse_digits_nonneg 0 _ _ (Z.le_refl 0) Hw) as Hw0.
  pose proof (parse_digits_nonneg 0 _ _ (Z.le_refl 0) Hf) as Hf0.
  assert (1 ≤ scale) as Hs1 by (unfold scale; lia).
  assert (1 ≤ m) as Hm.
  { unfold suffixes in Hsuf. repeat (apply elem_of_cons in Hsuf as [[= _ ->]|Hsuf]; [by vm_compute|]).
    by apply elem_of_nil in Hsuf. }
  assert (w ≤ w * scale ∧ w * scale ≤ scaled ∧ f ≤ scaled ∧ scaled ≤ scaled * m) as (?&?&?&?)
    by (unfold scaled; nia).
  set (mant := whole +:+ "." +:+ fraction).
  assert (mant = whole +:+ String "." fraction) as Hmant by done.
  assert (str_all mantissa_char mant = true) as Hmc.
  { rewrite Hmant, str_all_app. cbn. rewrite !(str_all_impl is_ascii_digit mantissa_char); try done.
    all: intros c Hc; unfold mantissa_char; by rewrite Hc. }
  assert (mant ≠ "") as Hmn by (rewrite Hmant; by destruct whole).
  unfold parse_quantity. rewrite (split_suffix_app mant suffix m) by done.
  assert (is_empty (mant +:+ suffix) = false) as -> by (apply is_empty_false; by destruct mant).
  assert (is_empty mant = false) as -> by (by apply is_empty_false).
  assert (str_exists (λ c, Ascii.eqb c "e" || Ascii.eqb c "E") mant = false) as ->.
  { unfold str_exists. apply negb_false_iff. revert Hmc. apply str_all_impl. intros c Hc.
    destruct (Ascii.eqb_spec c "e") as [->|]; [done|]. by destruct (Ascii.eqb_spec c "E") as [->|]. }
  assert (starts_with "-" mant = false) as ->.
  { rewrite Hmant. destruct whole as [|a whole]; [done|]. rewrite str_app_cons. cbn in Haw.
    apply andb_true_iff in Haw as [Ha _]. unfold starts_with. cbn [strip_prefix].
    by destruct (Ascii.eqb_spec "-" a) as [<-|]. }
  rewrite Hmant, split_once_app.
  2:{ revert Haw. apply str_all_impl. intros c Hc. by destruct (Ascii.eqb_spec "." c) as [<-|]. }
  cbn [from_option id]. rewrite Haw, Haf. cbn [negb orb].
  assert (is_empty whole && is_empty fraction = false) as ->.
  { apply andb_false_iff. rewrite !is_empty_false. done. }
  rewrite (parse_part_digits whole w), (parse_part_digits fraction f) by (done || lia).
  set (len := Z.of_nat (String.length fraction)) in *.
  assert (checked 0 u32_max len = Some len) as ->.
  { apply checked_Some. split; [done|]. split; [unfold len; lia|].
    assert (10 ^ 39 > i128_max) by (by vm_compute).
    destruct (Z.le_gt_cases len 39); [unfold u32_max; lia|].
    assert (10 ^ 39 ≤ 10 ^ len) by (apply Z.pow_le_mono_r; lia). unfold scale in *. lia. }
  cbn [ok_or]. fold scale.
  assert (∀ z, 0 ≤ z ≤ i128_max → checked_i128 z = Ok z) as Hck.
  { intros z Hz. apply checked_i128_Ok. split; [done|]. unfold i128_min. lia. }
  rewrite (Hck scale), (Hck (w * scale)) by lia. fold scaled. rewrite (Hck scaled) by lia.
  destruct (Z.eqb_spec scaled 0); [lia|]. rewrite Hck by lia. by rewrite Z.quot_div_nonneg by lia.
Qed.

Lemma parse_quantity_exact_witness :
  parse_quantity ("1.5" +:+ "Gi") = Ok 1610612736.
Proof.
  change 1610612736 with ((1 * 10 ^ Z.of_nat (String.length "5") + 5) * 1024 ^ 3 /
                          10 ^ Z.of_nat (String.length "5")).
  apply (parse_quantity_exact "1" "5" "Gi" (1024 ^ 3) 1 5).
  - right. do 2 right. by left.
  - reflexivity.
  - reflexivity.
  - by left.
  - vm_compute. reflexivity.
  - vm_compute. discriminate.
  - vm_compute. discriminate.
Defined.

(** Less than one byte is accepted and read as zero bytes. *)
Lemma half_byte_is_zero : parse_quantity "0.5" = Ok 0.
Proof. vm_compute. reflexivity. Qed.
