(* ===== verification/NodePool.v ===== *)
(** * Node pools: validation, topology, storage changes
    (src/controller/kafka_node_pool.rs, src/controller/kafka.rs)

    The static validation of a pool, the cluster-wide validation of node ids
    against the live StatefulSets and pods, the enumeration of nodes, the choice
    of the quorum bootstrap controller, and the check of storage changes.  The
    Kubernetes objects they read are those of Workload.v. *)

From S2P Require Import Prelude RustStd Kube Workload Quantity.
Local Open Scope Z_scope.

Definition MAX_NODE_ID : Z := 999999.
Definition NODE_ID_START_ANNOTATION : string := "krabka.io/node-id-start".
Definition PROCESS_ROLES_ANNOTATION : string := "krabka.io/process-roles".

(** ** Resources *)
Inductive NodeRole : Type := Controller | Broker.

#[global] Instance NodeRole_eq_dec : EqDecision NodeRole.
Proof. solve_decision. Defined.

Record PersistentClaimSpec : Type := {
  pc_size : string;
  pc_class : option string;
  pc_delete_claim : bool;
}.
Record JbodVolume : Type := { jv_id : Z; jv_size : string; jv_class : option string }.

Inductive Storage : Type :=
  | Ephemeral
  | PersistentClaim (pc : PersistentClaimSpec)
  | Jbod (volumes : list JbodVolume) (delete_claim : bool).

Record MetadataTemplate : Type := {
  mt_labels : gmap string string;
  mt_annotations : gmap string string;
}.

(** Affinity and tolerations are copied to the pod as they are. *)
Record PodTemplate : Type := {
  pt_metadata : option MetadataTemplate;
  pt_affinity : option json;
  pt_tolerations : list json;
  pt_node_selector : option (gmap string string);
  pt_seccomp_profile : option SeccompProfile;
}.

(** [client_frame_max] is the size in bytes. *)
Record KafkaNodePoolSpec : Type := {
  roles : list NodeRole;
  replicas : Z;
  node_id_start : Z;
  image : option string;
  resources : option ResourceRequirements;
  client_dispatch_queue_capacity : option Z;
  client_frame_max : option Z;
  template : option PodTemplate;
  storage : option Storage;
}.

Definition seccomp_profile (spec : KafkaNodePoolSpec) : option SeccompProfile :=
  and_then (template spec) pt_seccomp_profile.

Record KafkaNodePoolStatus : Type := {
  ps_conditions : list KafkaCondition;
  ps_replicas : option Z;
  ps_ready_replicas : option Z;
}.

Record KafkaNodePool : Type := {
  kp_meta : object_meta;
  kp_spec : KafkaNodePoolSpec;
  kp_status : option KafkaNodePoolStatus;
}.

Definition pool_name (p : KafkaNodePool) : string := name_any (kp_meta p).

(** ** Validation of one pool *)
Inductive PoolValidationError : Type :=
  | RolesEmpty
  | DuplicateRole (r : NodeRole)
  | ReplicasInvalid (n : Z)
  | NodeIdOutOfRange (n : Z)
  | NodeIdRangeOutOfRange (pool : string) (start replicas : Z)
  | NodeIdRangeOverlap (first second : string)
  | NodeIdStartChanged (pool : string) (observed desired : Z)
  | RolesChanged (pool observed desired : string)
  | NoControllerNodes
  | MissingClusterLabel
  | StorageSizeInvalid (size why : string)
  | StorageTypeChanged (from to : string)
  | StorageClassChanged (from to : option string)
  | StorageShrinkNotAllowed (current desired : string)
  | JbodNeedsTwoVolumes (n : nat)
  | JbodDuplicateVolumeId (id : Z)
  | JbodVolumesImmutable
  | SeccompLocalhostProfileMissing
  | SeccompLocalhostProfileUnexpected
  | SeccompLocalhostProfileInvalid (path : string).

Definition debug_role (r : NodeRole) : string :=
  match r with Controller => "Controller" | Broker => "Broker" end.

Definition debug_opt_str (o : option string) : string :=
  match o with Some s => "Some(" +:+ debug_str s +:+ ")" | None => "None" end.

(** The error's [Display]. *)
Definition pool_error_message (e : PoolValidationError) : string :=
  match e with
  | RolesEmpty => "spec.roles must contain at least one role"
  | DuplicateRole r => "spec.roles contains duplicate role " +:+ debug_role r
  | ReplicasInvalid n => "spec.replicas=" +:+ display_Z n +:+ " must be at least 1"
  | NodeIdOutOfRange n => "spec.nodeIdStart=" +:+ display_Z n +:+ " is out of range 0..=999999"
  | NodeIdRangeOutOfRange pool start replicas =>
      "node-id range for pool " +:+ debug_str pool +:+ " exceeds 0..=999999 (start="
      +:+ display_Z start +:+ ", replicas=" +:+ display_Z replicas +:+ ")"
  | NodeIdRangeOverlap first second =>
      "node-id ranges overlap between pools " +:+ debug_str first +:+ " and " +:+ debug_str second
  | NodeIdStartChanged pool observed desired =>
      "spec.nodeIdStart changed for pool " +:+ debug_str pool +:+ " from observed "
      +:+ display_Z observed +:+ " to desired " +:+ display_Z desired +:+ ": immutable"
  | RolesChanged pool observed desired =>
      "spec.roles changed for pool " +:+ debug_str pool +:+ " from observed "
      +:+ observed +:+ " to desired " +:+ desired +:+ ": immutable"
  | NoControllerNodes => "the cluster has no Controller-role node"
  | MissingClusterLabel => "metadata.labels." +:+ quote +:+ "krabka.io/cluster" +:+ quote +:+ " missing"
  | StorageSizeInvalid size why =>
      "spec.storage.size=" +:+ debug_str size +:+ " is not a valid positive Quantity (" +:+ why +:+ ")"
  | StorageTypeChanged from to =>
      "spec.storage.type changed from " +:+ from +:+ " to " +:+ to +:+ ": immutable"
  | StorageClassChanged from to =>
      "spec.storage.class changed from " +:+ debug_opt_str from +:+ " to " +:+ debug_opt_str to
      +:+ ": immutable"
  | StorageShrinkNotAllowed current desired =>
      "spec.storage.size decrease from " +:+ current +:+ " to " +:+ desired +:+ ": shrink not allowed"
  | JbodNeedsTwoVolumes _ =>
      "spec.storage.volumes must list at least 2 disks for Jbod (use PersistentClaim for one disk)"
  | JbodDuplicateVolumeId id => "spec.storage.volumes has a duplicate id " +:+ display_Z id
  | JbodVolumesImmutable => "spec.storage.volumes is immutable after the StatefulSet is created"
  | SeccompLocalhostProfileMissing =>
      "spec.template.seccompProfile.localhostProfile is required when type is Localhost"
  | SeccompLocalhostProfileUnexpected =>
      "spec.template.seccompProfile.localhostProfile is set, but type is RuntimeDefault"
  | SeccompLocalhostProfileInvalid path =>
      "spec.template.seccompProfile.localhostProfile=" +:+ debug_str path
      +:+ " must be a relative path without `..`"
  end.

(** The first role that was seen before. *)
Fixpoint check_roles (seen : list NodeRole) (l : list NodeRole) : result unit PoolValidationError :=
  match l with
  | [] => Ok tt
  | r :: l => if bool_decide (r ∈ seen) then Err (DuplicateRole r) else check_roles (r :: seen) l
  end.

Fixpoint check_volumes (seen : list Z) (l : list JbodVolume) : result unit PoolValidationError :=
  match l with
  | [] => Ok tt
  | v :: l =>
      if bool_decide (jv_id v ∈ seen) then Err (JbodDuplicateVolumeId (jv_id v))
      else
        if? map_err (StorageSizeInvalid (jv_size v)) (parse_quantity (jv_size v)) in
        check_volumes (jv_id v :: seen) l
  end.

Definition validate_seccomp_profile (p : SeccompProfile) : result unit PoolValidationError :=
  match profile_type p, localhost_profile p with
  | RuntimeDefault, None => Ok tt
  | RuntimeDefault, Some _ => Err SeccompLocalhostProfileUnexpected
  | Localhost, None => Err SeccompLocalhostProfileMissing
  | Localhost, Some path =>
      if is_empty path || starts_with "/" path || existsb (str_eqb "..") (split_char "/" path)
      then Err (SeccompLocalhostProfileInvalid path) else Ok tt
  end.

Definition node_id_end_for_replicas (p : KafkaNodePool) (replicas : Z)
  : result Z PoolValidationError :=
  ok_or
    (option_filter (λ e, e <=? MAX_NODE_ID)
       (and_then (checked_sub_i32 replicas 1) (checked_add_i32 (node_id_start (kp_spec p)))))
    (NodeIdRangeOutOfRange (pool_name p) (node_id_start (kp_spec p)) replicas).

Definition node_id_end (p : KafkaNodePool) : result Z PoolValidationError :=
  node_id_end_for_replicas p (replicas (kp_spec p)).

Definition validate_storage (s : option Storage) : result unit PoolValidationError :=
  match s with
  | Some (PersistentClaim pc) =>
      if? map_err (StorageSizeInvalid (pc_size pc)) (parse_quantity (pc_size pc)) in Ok tt
  | Some (Jbod volumes _) =>
      if (length volumes <? 2)%nat then Err (JbodNeedsTwoVolumes (length volumes))
      else check_volumes [] volumes
  | None | Some Ephemeral => Ok tt
  end.

Definition validate (p : KafkaNodePool) : result unit PoolValidationError :=
  let spec := kp_spec p in
  match roles spec with
  | [] => Err RolesEmpty
  | rs =>
      if? check_roles [] rs in
      if replicas spec <? 1 then Err (ReplicasInvalid (replicas spec))
      else if negb ((0 <=? node_id_start spec) && (node_id_start spec <=? MAX_NODE_ID)) then
        Err (NodeIdOutOfRange (node_id_start spec))
      else
        if? node_id_end p in
        if? validate_storage (storage spec) in
        match seccomp_profile spec with
        | Some profile => validate_seccomp_profile profile
        | None => Ok tt
        end
  end.

(** ** What is observed of a pool *)

(** [iter().max().unwrap_or_default()] *)
Definition max_or_zero (l : list Z) : Z :=
  match l with [] => 0 | x :: l => foldr Z.max x l end.

Definition observed_statefulset_replicas (s : StatefulSet) : Z :=
  let declared := default 0 (and_then (ss_spec s) ss_replicas) in
  let seen :=
    match ss_status s with
    | None => declared
    | Some st =>
        Z.max (Z.max (Z.max (Z.max (Z.max declared (sst_replicas st))
          (default 0 (sst_available_replicas st))) (default 0 (sst_current_replicas st)))
          (default 0 (sst_ready_replicas st))) (default 0 (sst_updated_replicas st))
    end in
  Z.max seen 0.

Definition pool_labels_match (m : object_meta) (name : string) : bool :=
  is_some_and (λ v, str_eqb v name) (label m "krabka.io/pool").

Definition observed_pool_replicas (p : KafkaNodePool) (statefulsets : list StatefulSet) : Z :=
  max_or_zero (map observed_statefulset_replicas
    (List.filter (λ s, pool_labels_match (ss_meta s) (pool_name p)) statefulsets)).

Definition ordinal_count (ordinal : string) : option Z :=
  and_then (parse_i32 ordinal) (λ o, checked_add_i32 o 1).

Definition observed_pool_pod_replicas (pods : list Pod) (statefulset_name : string) : Z :=
  max_or_zero (filter_map (λ pod,
    and_then (om_name (pod_meta pod)) (λ name,
    and_then (strip_prefix (statefulset_name +:+ "-") name) ordinal_count)) pods).

Definition observed_pool_pods_replicas (p : KafkaNodePool) (pods : list Pod) : Z :=
  max_or_zero (filter_map (λ pod,
    and_then (om_name (pod_meta pod)) (λ name,
    and_then (rsplit_once "-" name) (λ '(_, ordinal), ordinal_count ordinal)))
    (List.filter (λ pod, pool_labels_match (pod_meta pod) (pool_name p)) pods)).

(** ** Observed identity: first node id and roles *)
Definition all_env (cs : list Container) : list EnvVar := concat (map (λ c, default [] (c_env c)) cs).

Definition find_env (name : string) (cs : list Container) : option (option string) :=
  opt_map env_value (find_first (λ e, str_eqb (env_name e) name) (all_env cs)).

Definition node_id_start_from_pod_spec (spec : option PodSpec) : option Z :=
  and_then spec (λ s, and_then (init_containers s) (λ cs,
  and_then (find_env "NODE_ID_START" cs) (λ v, and_then v parse_i32))).

(** Bit 0 for the broker role, bit 1 for the controller role. *)
Definition role_mask (rs : list NodeRole) : Z :=
  Z.lor (Z.b2z (bool_decide (Broker ∈ rs))) (Z.shiftl (Z.b2z (bool_decide (Controller ∈ rs))) 1).

Definition role_mask_name (mask : Z) : string :=
  if mask =? 1 then "broker"
  else if mask =? 2 then "controller"
  else if mask =? 3 then "broker,controller"
  else "none".

Definition parse_role_mask (value : string) : option Z :=
  let mask := fold_left (λ mask role,
    let r := trim role in
    if str_eqb r "broker" then Z.lor mask 1
    else if str_eqb r "controller" then Z.lor mask 2
    else mask) (split_char "," value) 0 in
  if mask =? 0 then None else Some mask.

Definition role_mask_from_labels (labels : option (gmap string string)) : option Z :=
  and_then labels (λ l,
    let broker := is_some_and (λ v, str_eqb v "true") (l !! "krabka.io/broker-role") in
    let controller := is_some_and (λ v, str_eqb v "true") (l !! "krabka.io/controller-role") in
    if broker || controller
    then Some (Z.lor (Z.b2z broker) (Z.shiftl (Z.b2z controller) 1)) else None).

Definition role_mask_from_pod_spec (spec : option PodSpec) : option Z :=
  and_then spec (λ s,
    match and_then (find_env "KRABKA_PROCESS_ROLES" (containers s)) id with
    | Some value => parse_role_mask value
    | None => Some 3
    end).

Definition observed_statefulset_identity (s : StatefulSet) : option Z * option Z :=
  let template := opt_map ss_template (ss_spec s) in
  let template_annotation k := and_then template (λ t, and_then (tpl_meta t) (λ m, annotation m k)) in
  let start :=
    or_else
      (and_then (or_else (annotation (ss_meta s) NODE_ID_START_ANNOTATION)
                   (template_annotation NODE_ID_START_ANNOTATION)) parse_i32)
      (node_id_start_from_pod_spec (and_then template tpl_spec)) in
  let rs :=
    or_else
      (or_else
         (and_then (or_else (annotation (ss_meta s) PROCESS_ROLES_ANNOTATION)
                      (template_annotation PROCESS_ROLES_ANNOTATION)) parse_role_mask)
         (and_then template (λ t, role_mask_from_labels (and_then (tpl_meta t) om_labels))))
      (and_then template (λ t, role_mask_from_pod_spec (tpl_spec t))) in
  (start, rs).

Definition observed_pod_identity (pod : Pod) : option Z * option Z :=
  (or_else (and_then (annotation (pod_meta pod) NODE_ID_START_ANNOTATION) parse_i32)
     (node_id_start_from_pod_spec (pod_spec pod)),
   or_else
     (or_else (and_then (annotation (pod_meta pod) PROCESS_ROLES_ANNOTATION) parse_role_mask)
        (role_mask_from_labels (om_labels (pod_meta pod))))
     (role_mask_from_pod_spec (pod_spec pod))).

Definition observed_pool_identity (p : KafkaNodePool) (statefulsets : list StatefulSet)
    (pods : list Pod) : option Z * option Z :=
  let from_statefulset := default (None, None)
    (opt_map observed_statefulset_identity
       (find_first (λ s, pool_labels_match (ss_meta s) (pool_name p)) statefulsets)) in
  let from_pod := default (None, None)
    (opt_map observed_pod_identity
       (find_first (λ pod, pool_labels_match (pod_meta pod) (pool_name p)) pods)) in
  (or_else from_statefulset.1 from_pod.1, or_else from_statefulset.2 from_pod.2).

(** ** The topology of a cluster *)
Record node_range : Type := { nr_start : Z; nr_end : Z; nr_pool : string }.

(** The replicas a pool occupies: declared or still alive. *)
Definition occupied (p : KafkaNodePool) (statefulsets : list StatefulSet) (pods : list Pod) : Z :=
  Z.max (Z.max (replicas (kp_spec p)) (observed_pool_replicas p statefulsets))
    (observed_pool_pods_replicas p pods).

Definition pool_range (p : KafkaNodePool) (statefulsets : list StatefulSet) (pods : list Pod)
  : result node_range PoolValidationError :=
  if? validate p in
  let '(observed_start, observed_roles) := observed_pool_identity p statefulsets pods in
  let desired_start := node_id_start (kp_spec p) in
  let desired_roles := role_mask (roles (kp_spec p)) in
  match option_filter (λ o, negb (o =? desired_start)) observed_start with
  | Some observed => Err (NodeIdStartChanged (pool_name p) observed desired_start)
  | None =>
      match option_filter (λ o, negb (o =? desired_roles)) observed_roles with
      | Some observed =>
          Err (RolesChanged (pool_name p) (role_mask_name observed) (role_mask_name desired_roles))
      | None =>
          let? e := node_id_end_for_replicas p (occupied p statefulsets pods) in
          Ok {| nr_start := desired_start; nr_end := e; nr_pool := pool_name p |}
      end
  end.

Fixpoint pool_ranges (ps : list KafkaNodePool) (statefulsets : list StatefulSet) (pods : list Pod)
  : result (list node_range) PoolValidationError :=
  match ps with
  | [] => Ok []
  | p :: ps =>
      let? r := pool_range p statefulsets pods in
      let? rs := pool_ranges ps statefulsets pods in
      Ok (r :: rs)
  end.

Definition range_leb (a b : node_range) : bool :=
  (nr_start a <? nr_start b) || ((nr_start a =? nr_start b) && str_leb (nr_pool a) (nr_pool b)).

Definition validate_topology (ps : list KafkaNodePool) (statefulsets : list StatefulSet)
    (pods : list Pod) : result unit PoolValidationError :=
  match ps with
  | [] => Ok tt
  | _ =>
      let? ranges := pool_ranges ps statefulsets pods in
      if negb (existsb (λ p, bool_decide (Controller ∈ roles (kp_spec p))) ps) then
        Err NoControllerNodes
      else
        match find_first (λ '(a, b), nr_start b <=? nr_end a)
                (windows2 (sort_by range_leb ranges)) with
        | Some (a, b) => Err (NodeIdRangeOverlap (nr_pool a) (nr_pool b))
        | None => Ok tt
        end
  end.

Definition pool_key_leb (a b : KafkaNodePool) : bool :=
  (node_id_start (kp_spec a) <? node_id_start (kp_spec b))
  || ((node_id_start (kp_spec a) =? node_id_start (kp_spec b)) && str_leb (pool_name a) (pool_name b)).

(** The first minimum: [min_by_key]. *)
Definition select_quorum_bootstrap (ps : list KafkaNodePool) : option (Z * string) :=
  opt_map (λ p, (node_id_start (kp_spec p), pool_name p))
    (head (sort_by pool_key_leb
       (List.filter (λ p, is_ok (validate p) && bool_decide (Controller ∈ roles (kp_spec p))) ps))).

Definition pool_is_available (p : KafkaNodePool) : bool :=
  is_some_and (λ st,
    (replicas (kp_spec p) <=? default 0 (ps_ready_replicas st))
    && existsb (λ c, str_eqb (type_ c) "Ready" && str_eqb (status c) "True") (ps_conditions st))
    (kp_status p).

(** ** Nodes *)
Record NodeInfo : Type := {
  broker_id : Z;
  pod_name : string;
  pod_fqdn : string;
  ni_roles : list NodeRole;
}.

Definition node_replicas (p : KafkaNodePool) : Z :=
  Z.max (default 0 (and_then (kp_status p) ps_replicas)) (replicas (kp_spec p)).

Definition pool_nodes (cluster_name namespace : string) (p : KafkaNodePool) : list NodeInfo :=
  let svc := cluster_name +:+ "-broker-headless" in
  filter_map (λ ordinal,
    opt_map (λ id,
      let pod := cluster_name +:+ "-" +:+ pool_name p +:+ "-" +:+ display_Z ordinal in
      {| broker_id := id; pod_name := pod;
         pod_fqdn := pod +:+ "." +:+ svc +:+ "." +:+ namespace +:+ ".svc.cluster.local";
         ni_roles := roles (kp_spec p) |})
      (checked_add_i32 (node_id_start (kp_spec p)) ordinal))
    (seqZ 0 (node_replicas p)).

Definition enumerate_nodes (cluster_name namespace : string) (ps : list KafkaNodePool)
  : list NodeInfo :=
  concat (map (pool_nodes cluster_name namespace)
    (sort_by (λ a b, str_leb (pool_name a) (pool_name b)) ps)).

(** ** Lemmas *)
Lemma check_roles_NoDup seen l : check_roles seen l = Ok tt → NoDup l ∧ ∀ r, r ∈ l → r ∉ seen.
Proof.
  revert seen. induction l as [|r l IH]; intros seen; cbn; [split; [constructor|set_solver]|].
  case_bool_decide as Hr; [done|]. intros [Hnd Hl]%IH. split.
  - constructor; [|done]. intros Hin. apply Hl in Hin. set_solver.
  - set_solver.
Qed.

Lemma node_id_end_Ok p n e :
  node_id_end_for_replicas p n = Ok e ↔
  e = node_id_start (kp_spec p) + n - 1 ∧ i32_min ≤ n - 1 ≤ i32_max ∧ i32_min ≤ e ∧ e ≤ MAX_NODE_ID.
Proof.
  unfold node_id_end_for_replicas, checked_sub_i32, checked_add_i32.
  assert (MAX_NODE_ID ≤ i32_max) as HM by (by vm_compute).
  destruct (checked i32_min i32_max (n - 1)) as [m|] eqn:Hm; cbn.
  - apply checked_Some in Hm as [-> Hm].
    destruct (checked i32_min i32_max (node_id_start (kp_spec p) + (n - 1))) as [k|] eqn:Hk; cbn.
    + apply checked_Some in Hk as [-> Hk]. destruct (Z.leb_spec (node_id_start (kp_spec p) + (n - 1)) MAX_NODE_ID); cbn.
      * split; [intros [= <-]; lia|]. intros (-> & _). f_equal. lia.
      * split; [done|]. intros. lia.
    + split; [done|]. intros (-> & _ & ? & ?). exfalso.
      unfold checked, in_range in Hk.
      destruct (Z.leb_spec i32_min (node_id_start (kp_spec p) + (n - 1))),
        (Z.leb_spec (node_id_start (kp_spec p) + (n - 1)) i32_max); cbn in Hk; (done || lia).
  - split; [done|]. intros (_ & Hn & _). exfalso. unfold checked, in_range in Hm.
    destruct (Z.leb_spec i32_min (n - 1)), (Z.leb_spec (n - 1) i32_max); cbn in Hm; (done || lia).
Qed.

(** What a valid pool looks like. *)
Lemma validate_Ok p : validate p = Ok tt →
  roles (kp_spec p) ≠ [] ∧ NoDup (roles (kp_spec p)) ∧ 1 ≤ replicas (kp_spec p) ∧
  0 ≤ node_id_start (kp_spec p) ∧
  node_id_start (kp_spec p) + replicas (kp_spec p) - 1 ≤ MAX_NODE_ID ∧
  validate_storage (storage (kp_spec p)) = Ok tt.
Proof.
  unfold validate. destruct (roles (kp_spec p)) as [|r rs] eqn:Hr; [done|].
  destruct (check_roles [] (r :: rs)) as [[]|] eqn:Hc; [|done].
  destruct (Z.ltb_spec (replicas (kp_spec p)) 1); [done|].
  destruct (Z.leb_spec 0 (node_id_start (kp_spec p))),
    (Z.leb_spec (node_id_start (kp_spec p)) MAX_NODE_ID); cbn [andb negb]; try done.
  destruct (node_id_end p) as [e|] eqn:He; [|done]. apply node_id_end_Ok in He.
  destruct (validate_storage (storage (kp_spec p))) as [[]|]; [|done]. intros _.
  apply check_roles_NoDup in Hc as [Hc _]. split_and!; (done || lia).
Qed.

Section topology.
Context (statefulsets : list StatefulSet) (pods : list Pod).

Lemma occupied_replicas p : replicas (kp_spec p) ≤ occupied p statefulsets pods.
Proof. unfold occupied. lia. Qed.

Lemma pool_range_Ok p r : pool_range p statefulsets pods = Ok r →
  validate p = Ok tt ∧
  r = {| nr_start := node_id_start (kp_spec p);
         nr_end := node_id_start (kp_spec p) + occupied p statefulsets pods - 1;
         nr_pool := pool_name p |} ∧
  nr_start r ≤ nr_end r ∧ 0 ≤ nr_start r ∧ nr_end r ≤ MAX_NODE_ID ∧
  (∀ o, (observed_pool_identity p statefulsets pods).1 = Some o → o = node_id_start (kp_spec p)) ∧
  (∀ o, (observed_pool_identity p statefulsets pods).2 = Some o → o = role_mask (roles (kp_spec p))).
Proof.
  unfold pool_range. destruct (validate p) as [[]|] eqn:Hv; [|done].
  destruct (observed_pool_identity p statefulsets pods) as [os ors].
  destruct (option_filter _ os) eqn:Hs; [done|]. destruct (option_filter _ ors) eqn:Hrs; [done|].
  destruct (node_id_end_for_replicas p _) as [e|] eqn:He; [|done]. intros [= <-].
  apply node_id_end_Ok in He as (-> & _ & _ & He). apply validate_Ok in Hv as (_ & _ & Hrep & Hst & _).
  pose proof (occupied_replicas p). cbn. split; [done|]. split; [done|]. split; [lia|].
  split; [done|]. split; [done|]. split.
  - intros o ->. cbn in Hs. by destruct (Z.eqb_spec o (node_id_start (kp_spec p))).
  - intros o ->. cbn in Hrs. by destruct (Z.eqb_spec o (role_mask (roles (kp_spec p)))).
Qed.

Lemma pool_ranges_Ok ps rs :
  pool_ranges ps statefulsets pods = Ok rs →
  Forall2 (λ p r, pool_range p statefulsets pods = Ok r) ps rs.
Proof.
  revert rs. induction ps as [|p ps IH]; intros rs; cbn; [by intros [= <-]|].
  destruct (pool_range p statefulsets pods) as [r|] eqn:Hr; [|done].
  destruct (pool_ranges ps statefulsets pods) as [rs'|]; [|done]. intros [= <-].
  constructor; [done|by apply IH].
Qed.

Definition before (a b : node_range) : Prop := nr_end a < nr_start b.
Definition apart (a b : node_range) : Prop := before a b ∨ before b a.

Lemma ranges_apart rs :
  Forall (λ r, nr_start r ≤ nr_end r) rs →
  find_first (λ '(a, b), nr_start b <=? nr_end a) (windows2 (sort_by range_leb rs)) = None →
  StronglySorted apart rs.
Proof.
  intros Hrs Hw. rewrite find_first_None in Hw.
  apply (StronglySorted_symmetric_perm apart (sort_by range_leb rs));
    [unfold apart; tauto|apply sort_by_perm|].
  apply (StronglySorted_impl before); [by left|].
  apply (windows2_StronglySorted before (λ r, nr_start r ≤ nr_end r)).
  - unfold before. lia.
  - by rewrite sort_by_perm.
  - intros a b Hab. apply Hw in Hab. cbn in Hab. apply Z.leb_gt in Hab. exact Hab.
Qed.
End topology.

(** ** Nodes of a pool *)
Lemma pool_nodes_ids cluster ns p :
  0 ≤ node_id_start (kp_spec p) → node_id_start (kp_spec p) + node_replicas p - 1 ≤ MAX_NODE_ID →
  map broker_id (pool_nodes cluster ns p) = seqZ (node_id_start (kp_spec p)) (node_replicas p).
Proof.
  intros H0 Hmax. unfold pool_nodes. cbv zeta.
  set (n := node_replicas p) in *. set (st := node_id_start (kp_spec p)) in *.
  assert (∀ l, Forall (λ o, 0 ≤ o < n) l →
    map broker_id (filter_map (λ ordinal, opt_map (λ id,
      {| broker_id := id;
         pod_name := cluster +:+ "-" +:+ pool_name p +:+ "-" +:+ display_Z ordinal;
         pod_fqdn := (cluster +:+ "-" +:+ pool_name p +:+ "-" +:+ display_Z ordinal) +:+ "." +:+
           (cluster +:+ "-broker-headless") +:+ "." +:+ ns +:+ ".svc.cluster.local";
         ni_roles := roles (kp_spec p) |}) (checked_add_i32 st ordinal)) l) = (λ o, st + o) <$> l) as Hl.
  { induction 1 as [|o l Ho Hl IH]; [done|]. cbn [filter_map].
    assert (checked_add_i32 st o = Some (st + o)) as ->.
    { apply checked_Some. split; [done|].
      unfold MAX_NODE_ID, i32_min, i32_max in *. lia. }
    cbn. by rewrite IH. }
  rewrite Hl.
  - etrans; [apply (fmap_add_seqZ st 0 n)|by rewrite Z.add_0_r].
  - rewrite Forall_forall. intros o Ho%elem_of_seqZ. lia.
Qed.

Lemma max_or_zero_ge l z : z ∈ l → z ≤ max_or_zero l.
Proof.
  assert (∀ l x, x ≤ foldr Z.max x l ∧ ∀ z, z ∈ l → z ≤ foldr Z.max x l) as Hf.
  { induction l0 as [|y l0 IH]; intros x; cbn; [split; [lia|by intros z0 ?%not_elem_of_nil]|].
    destruct (IH x) as [? Hz]. split; [lia|]. intros z0 [->|Hin]%elem_of_cons; [lia|].
    specialize (Hz z0 Hin). lia. }
  destruct l as [|x l]; [by intros ?%not_elem_of_nil|]. cbn. destruct (Hf l x) as [? Hz].
  intros [->|Hin]%elem_of_cons; auto.
Qed.

Section claims.
Context (statefulsets : list StatefulSet) (pods : list Pod).

(** The node ids a pool may be using: declared, or still running. *)
Definition occupies (p : KafkaNodePool) (id : Z) : Prop :=
  node_id_start (kp_spec p) ≤ id < node_id_start (kp_spec p) + occupied p statefulsets pods.

Lemma validate_topology_ranges ps :
  validate_topology ps statefulsets pods = Ok tt →
  ∃ rs, Forall2 (λ p r, pool_range p statefulsets pods = Ok r) ps rs ∧ StronglySorted apart rs ∧
        (ps ≠ [] → ∃ p, p ∈ ps ∧ Controller ∈ roles (kp_spec p)).
Proof.
  unfold validate_topology. destruct ps as [|p0 ps]; [intros _; exists []; split_and!; [constructor|constructor|done]|].
  destruct (pool_ranges (p0 :: ps) statefulsets pods) as [rs|] eqn:Hr; [|done].
  destruct (existsb _ _) eqn:Hc; cbn [negb]; [|done].
  destruct (find_first _ _) as [[a b]|] eqn:Hf; [done|]. intros _.
  apply pool_ranges_Ok in Hr. exists rs. split; [done|]. split.
  - apply ranges_apart; [|done]. clear Hf Hc. induction Hr as [|p r ps' rs' Hp Hr IH]; [constructor|].
    constructor; [|done]. by apply pool_range_Ok in Hp as (_ & _ & ? & _).
  - intros _. apply existsb_exists in Hc as (p & Hp & Hcp). exists p.
    rewrite list_elem_of_In. apply bool_decide_eq_true in Hcp. done.
Qed.

Lemma topology_pool ps p :
  validate_topology ps statefulsets pods = Ok tt → p ∈ ps →
  ∃ r, pool_range p statefulsets pods = Ok r.
Proof.
  intros (rs & Hrs & _)%validate_topology_ranges Hp. apply list_elem_of_lookup in Hp as [i Hi].
  by destruct (Forall2_lookup_l _ _ _ _ _ Hrs Hi) as (r & _ & Hr); eauto.
Qed.

Lemma topology_disjoint_pools ps :
  validate_topology ps statefulsets pods = Ok tt →
  StronglySorted (λ p q, ∀ id, occupies p id → ¬ occupies q id) ps.
Proof.
  intros (rs & Hrs & Hs & _)%validate_topology_ranges.
  eapply (StronglySorted_Forall2 apart); [|exact Hrs|exact Hs].
  intros p q a b Ha Hb Hab id. apply pool_range_Ok in Ha as (_ & -> & _). apply pool_range_Ok in Hb as (_ & -> & _).
  unfold occupies, apart, before in *. cbn in Hab. lia.
Qed.

(** Node [id] of the pool is declared, or counted by a StatefulSet of the pool,
    or not above one of its pods. *)
Definition in_use (p : KafkaNodePool) (id : Z) : Prop :=
  let start := node_id_start (kp_spec p) in
  start ≤ id ∧
  (id < start + replicas (kp_spec p) ∨
   (∃ s, s ∈ statefulsets ∧ label (ss_meta s) "krabka.io/pool" = Some (pool_name p) ∧
         id < start + observed_statefulset_replicas s) ∨
   (∃ pod name base ordinal n,
      pod ∈ pods ∧ label (pod_meta pod) "krabka.io/pool" = Some (pool_name p) ∧
      om_name (pod_meta pod) = Some name ∧ rsplit_once "-" name = Some (base, ordinal) ∧
      parse_i32 ordinal = Some n ∧ n < i32_max ∧ id ≤ start + n)).

Lemma in_use_occupies p id : in_use p id → occupies p id.
Proof.
  intros [Hlo Hid]. split; [done|]. unfold occupied.
  destruct Hid as [?|[(s & Hs & Hl & Hlt)|(pod & name & base & ordinal & n & Hpod & Hl & Hn & Hr & Hp & Hmax & Hle)]];
    [lia| |].
  - assert (observed_statefulset_replicas s ≤ observed_pool_replicas p statefulsets) by
      (apply max_or_zero_ge, list_elem_of_fmap; exists s; split; [done|];
       apply elem_of_List_filter; split; [done|]; unfold pool_labels_match; rewrite Hl; apply str_eqb_refl).
    lia.
  - assert (n + 1 ≤ observed_pool_pods_replicas p pods); [|lia].
    apply max_or_zero_ge, elem_of_filter_map. exists pod. split.
    + apply elem_of_List_filter. split; [done|]. unfold pool_labels_match. rewrite Hl. apply str_eqb_refl.
    + rewrite Hn. cbn. rewrite Hr. cbn. unfold ordinal_count. rewrite Hp. cbn.
      apply checked_Some. split; [done|]. apply parse_i32_range in Hp. unfold i32_min, i32_max in *. lia.
Qed.

(** C14. Node ids are never shared.  A topology that passes validation gives
    every pool its own node ids, all between 0 and 999999: two pools have no id
    in common, counting not only the declared replicas but every replica still
    seen in a StatefulSet or as a pod, so that a shrinking pool's ids are not
    handed to another.  The first id and the roles of a pool are the ones its
    live objects carry, and some pool has the controller role. *)
Theorem topology_node_ids_disjoint ps :
  validate_topology ps statefulsets pods = Ok tt →
  (∀ i j p q id, ps !! i = Some p → ps !! j = Some q → i ≠ j → in_use p id → ¬ in_use q id) ∧
  (∀ p id, p ∈ ps → in_use p id → 0 ≤ id ≤ MAX_NODE_ID) ∧
  (∀ p, p ∈ ps →
     (∀ o, (observed_pool_identity p statefulsets pods).1 = Some o → o = node_id_start (kp_spec p)) ∧
     (∀ o, (observed_pool_identity p statefulsets pods).2 = Some o → o = role_mask (roles (kp_spec p)))) ∧
  (ps ≠ [] → ∃ p, p ∈ ps ∧ Controller ∈ roles (kp_spec p)).
Proof.
  intros Hv. split_and!.
  - intros i j p q id Hi Hj Hne Hid%in_use_occupies Hid'%in_use_occupies. revert Hid'.
    pose proof (topology_disjoint_pools ps Hv) as Hs.
    apply (StronglySorted_symmetric_lookup _ ps i j p q) in Hs; [by apply Hs| |done..].
    intros x y Hxy z Hz Hz'. by apply (Hxy z).
  - intros p id Hp Hid%in_use_occupies. destruct (topology_pool ps p Hv Hp) as [r Hr].
    apply pool_range_Ok in Hr as (_ & -> & ? & ? & ? & _). unfold occupies in Hid. cbn in *. lia.
  - intros p Hp. destruct (topology_pool ps p Hv Hp) as [r Hr].
    by apply pool_range_Ok in Hr as (_ & _ & _ & _ & _ & ? & ?).
  - by destruct (validate_topology_ranges ps Hv) as (rs & _ & _ & ?).
Qed.

(** Every node has its own id.  For a validated topology, the nodes the
    cluster reconciler enumerates have pairwise different broker ids, as long as
    the replicas a pool reports in its status are counted in its live objects. *)
Theorem enumerate_nodes_unique cluster ns ps :
  validate_topology ps statefulsets pods = Ok tt →
  (∀ p, p ∈ ps → node_replicas p ≤ occupied p statefulsets pods) →
  NoDup (map broker_id (enumerate_nodes cluster ns ps)) ∧
  ∀ n, n ∈ enumerate_nodes cluster ns ps → 0 ≤ broker_id n ≤ MAX_NODE_ID.
Proof.
  intros Hv Hocc.
  assert (∀ p, p ∈ ps → map broker_id (pool_nodes cluster ns p) =
            seqZ (node_id_start (kp_spec p)) (node_replicas p) ∧
          ∀ id, id ∈ seqZ (node_id_start (kp_spec p)) (node_replicas p) →
            occupies p id ∧ 0 ≤ id ≤ MAX_NODE_ID) as Hids.
  { intros p Hp. destruct (topology_pool ps p Hv Hp) as [r Hr].
    apply pool_range_Ok in Hr as (_ & -> & _ & ? & ? & _). cbn in *. specialize (Hocc p Hp).
    split; [apply pool_nodes_ids; lia|]. intros id Hid%elem_of_seqZ. unfold occupies. lia. }
  unfold enumerate_nodes. set (sorted := sort_by _ ps).
  assert (∀ p, p ∈ sorted → p ∈ ps) as Hin by (intros p; apply elem_of_sort_by).
  split.
  - rewrite concat_map, map_map. apply NoDup_concat_map.
    + intros p Hp. destruct (Hids p (Hin p Hp)) as [-> _]. apply NoDup_seqZ.
    + apply (StronglySorted_symmetric_perm _ ps);
        [intros x y Hxy z Hz Hz'; by apply (Hxy z)|symmetry; apply sort_by_perm|].
      pose proof (topology_disjoint_pools ps Hv) as Hs. revert Hs. clear Hv Hocc Hin. revert Hids.
      generalize ps. clear ps sorted. intros ps Hids Hs.
      induction Hs as [|p ps Hs IH Hp]; [constructor|]. constructor; [apply IH; intros q Hq; apply Hids; by right|].
      rewrite Forall_forall in *. intros q Hq z. destruct (Hids p) as [-> Hz1]; [by left|].
      destruct (Hids q) as [-> Hz2]; [by right|]. intros Hz Hz'.
      by apply (Hp q Hq z); [apply Hz1|apply Hz2].
  - intros n Hn. apply elem_of_concat_map in Hn as (p & Hp & Hn). destruct (Hids p (Hin p Hp)) as [Heq Hz].
    apply Hz. rewrite <- Heq. apply list_elem_of_fmap. eauto.
Qed.
End claims.

(** ** Witnesses: a controller pool next to a broker pool that is shrinking *)
Definition demo_pool (name : string) (rs : list NodeRole) (n start : Z) (live : Z) : KafkaNodePool :=
  {| kp_meta := ObjectMeta (Some name) (Some "kafka") None (Some {["krabka.io/cluster" := "prod"]})
                  None None None false [];
     kp_spec := {| roles := rs; replicas := n; node_id_start := start; image := None;
                   resources := None; client_dispatch_queue_capacity := None;
                   client_frame_max := None; template := None; storage := None |};
     kp_status := Some {| ps_conditions := []; ps_replicas := Some live; ps_ready_replicas := Some live |} |}.

Definition demo_statefulset (name : string) (n : Z) (start mask : string) : StatefulSet :=
  {| ss_meta := ObjectMeta (Some ("prod-" +:+ name)) (Some "kafka") None
       (Some {["krabka.io/pool" := name]})
       (Some {[NODE_ID_START_ANNOTATION := start; PROCESS_ROLES_ANNOTATION := mask]}) None None false [];
     ss_spec := Some {| ss_service_name := "prod-broker-headless"; ss_replicas := Some n;
                        ss_pod_management_policy := None; ss_update_strategy := None;
                        ss_selector := {["krabka.io/pool" := name]};
                        ss_template := {| tpl_meta := None; tpl_spec := None |};
                        ss_claims := None; ss_retention := None |};
     ss_status := None |}.

Definition demo_pools : list KafkaNodePool :=
  [demo_pool "controllers" [Controller] 3 100 3; demo_pool "brokers" [Broker] 2 0 5].
Definition demo_statefulsets : list StatefulSet :=
  [demo_statefulset "controllers" 3 "100" "controller"; demo_statefulset "brokers" 5 "0" "broker"].

Lemma topology_node_ids_disjoint_witness :
  validate_topology demo_pools demo_statefulsets [] = Ok tt ∧
  (∀ i j p q id, demo_pools !! i = Some p → demo_pools !! j = Some q → i ≠ j →
     in_use demo_statefulsets [] p id → ¬ in_use demo_statefulsets [] q id).
Proof.
  assert (validate_topology demo_pools demo_statefulsets [] = Ok tt) as Hv by (vm_compute; reflexivity).
  split; [exact Hv|]. exact (proj1 (topology_node_ids_disjoint demo_statefulsets [] demo_pools Hv)).
Defined.

Lemma enumerate_nodes_unique_witness :
  NoDup (map broker_id (enumerate_nodes "prod" "kafka" demo_pools)) ∧
  ∀ n, n ∈ enumerate_nodes "prod" "kafka" demo_pools → 0 ≤ broker_id n ≤ MAX_NODE_ID.
Proof.
  apply (enumerate_nodes_unique demo_statefulsets [] "prod" "kafka" demo_pools).
  - vm_compute. reflexivity.
  - intros p Hp. repeat (apply elem_of_cons in Hp as [->|Hp]; [vm_compute; discriminate|]).
    by apply elem_of_nil in Hp.
Defined.
