(* ===== verification/ListenerObjects.v ===== *)
(** * Kubernetes objects of external listeners (src/controller/listeners.rs)

    The Services, Ingresses and Routes of an external listener, the cluster's own
    headless and controller Services (src/controller/common.rs), and the step of
    the Kafka controller that applies them (src/controller/kafka.rs).  A builder
    fails only for an owner that is not admitted yet; [Err None] is a panic. *)

From S2P Require Import Prelude RustStd Effects Kube Workload Listeners ListenerCheck NodePool.
Local Open Scope Z_scope.

(** ** Objects *)
Record ServicePort : Type := {
  sp_name : string;
  sp_port : Z;
  sp_target_port : Z;
  sp_protocol : string;
  sp_node_port : option Z;
}.

Record ServiceSpec : Type := {
  svc_type : option string;
  svc_cluster_ip : option string;
  svc_publish_not_ready_addresses : option bool;
  svc_selector : gmap string string;
  svc_ports : option (list ServicePort);
  svc_load_balancer_ip : option string;
}.

Record LoadBalancerIngress : Type := { lb_hostname : option string; lb_ip : option string }.

(** [svc_ingress] is [status.loadBalancer.ingress]. *)
Record Service : Type := {
  svc_meta : object_meta;
  svc_spec : option ServiceSpec;
  svc_ingress : option (list LoadBalancerIngress);
}.

Record IngressRule : Type := {
  rule_host : string;
  rule_path : string;
  rule_path_type : string;
  rule_service : string;
  rule_port : Z;
}.

Record IngressObject : Type := {
  ing_meta : object_meta;
  ing_tls_hosts : list (list string);
  ing_rules : list IngressRule;
  ing_class_name : option string;
}.

Record RouteObject : Type := {
  rt_api_version : string;
  rt_kind : string;
  rt_meta : object_meta;
  rt_host : string;
  rt_target_port : Z;
  rt_termination : string;
  rt_to_kind : string;
  rt_to_name : string;
  rt_to_weight : Z;
}.

(** ** Metadata shared by the builders *)
(** [metadata] of an object owned by the resource [owner]. *)
Definition owned_meta (owner : object_meta) (name : string) (namespace : option string)
    (labels : gmap string string) (annotations : option (gmap string string))
  : result object_meta ReconcileError :=
  let? o := owner_ref "Kafka" owner in
  Ok {| om_name := Some name; om_namespace := namespace; om_uid := None;
        om_labels := Some labels; om_annotations := annotations; om_finalizers := None;
        om_generation := None; om_deleting := false; om_owners := [o] |}.

Definition tcp_port (name : string) (port : Z) (node_port : option Z) : ServicePort :=
  {| sp_name := name; sp_port := port; sp_target_port := port; sp_protocol := "TCP";
     sp_node_port := node_port |}.

Section objects.
Context {Time : Type}.
#[local] Notation Listener := (Listener Time).
Implicit Types (owner : object_meta) (l : Listener).

(** ** The cluster's own Services *)
Definition svc_name (kafka : string) : string := kafka +:+ "-broker-headless".
Definition controller_bootstrap_name (kafka : string) : string := kafka +:+ "-controller-bootstrap".

Definition render_service owner (kafka_version : string) (declared : list Listener)
  : result Service ReconcileError :=
  let name := name_any owner in
  let labels := common_labels name kafka_version None in
  let selector : gmap string string :=
    <["app.kubernetes.io/instance" := name]> (<["app.kubernetes.io/name" := APP_LABEL]> ∅) in
  let operator := operator_listener (declared_or_default declared) in
  let? meta := owned_meta owner (name +:+ "-broker-headless") (om_namespace owner) labels None in
  Ok {| svc_meta := meta;
        svc_spec := Some {|
          svc_type := None;
          svc_cluster_ip := Some "None";
          svc_publish_not_ready_addresses := Some true;
          svc_selector := selector;
          svc_ports := Some [tcp_port "operator-admin" (l_port operator) None;
                             tcp_port "kafka-internal" BROKER_PORT None;
                             tcp_port "controller" CONTROLLER_PORT None];
          svc_load_balancer_ip := None |};
        svc_ingress := None |}.

Definition render_controller_bootstrap_service owner (kafka_version : string)
  : result Service ReconcileError :=
  let name := name_any owner in
  let labels := common_labels name kafka_version None in
  let selector : gmap string string :=
    list_to_map [("app.kubernetes.io/name", APP_LABEL); ("app.kubernetes.io/instance", name);
                 ("krabka.io/controller-role", "true")] in
  let? meta := owned_meta owner (name +:+ "-controller-bootstrap") (om_namespace owner) labels None in
  Ok {| svc_meta := meta;
        svc_spec := Some {|
          svc_type := None; svc_cluster_ip := None; svc_publish_not_ready_addresses := None;
          svc_selector := selector;
          svc_ports := Some [tcp_port "controller" CONTROLLER_PORT None];
          svc_load_balancer_ip := None |};
        svc_ingress := None |}.

(** ** Services of an external listener *)
Definition broker_object_name (cluster_name : string) l (broker : Z) : string :=
  cluster_name +:+ "-" +:+ l_name l +:+ "-" +:+ display_Z broker.
Definition bootstrap_object_name (cluster_name : string) l : string :=
  cluster_name +:+ "-" +:+ l_name l +:+ "-bootstrap".

(** [None]: the builders panic for an internal listener. *)
Definition external_service_type l : option string :=
  match l_type l with
  | Nodeport => Some "NodePort"
  | Loadbalancer => Some "LoadBalancer"
  | Ingress | Route => Some "ClusterIP"
  | Internal => None
  end.

Definition broker_override l (broker : Z) : option BrokerOverride :=
  and_then (l_configuration l) (λ c, find_first (λ b, bo_broker b =? broker) (lc_brokers c)).

Definition bootstrap_config l : option BootstrapConfig := and_then (l_configuration l) lc_bootstrap.

Definition listener_labels (cluster_name : string) l : gmap string string :=
  <["krabka.io/listener" := l_name l]>
  (<["app.kubernetes.io/instance" := cluster_name]>
  (<["app.kubernetes.io/name" := APP_LABEL]> ∅)).

Definition render_broker_service owner l (broker : Z) (pod_name : string)
  : result Service (option ReconcileError) :=
  let cluster_name := name_any owner in
  let labels := <["krabka.io/broker" := display_Z broker]> (listener_labels cluster_name l) in
  let? service_type := ok_or (external_service_type l) None in
  let override_ := broker_override l broker in
  let? meta := map_err Some (owned_meta owner (broker_object_name cluster_name l broker)
                               (om_namespace owner) labels None) in
  Ok {| svc_meta := meta;
        svc_spec := Some {|
          svc_type := Some service_type;
          svc_cluster_ip := None;
          svc_publish_not_ready_addresses := None;
          svc_selector := {["statefulset.kubernetes.io/pod-name" := pod_name]};
          svc_ports := Some [tcp_port (l_name l) (l_port l) (and_then override_ bo_node_port)];
          svc_load_balancer_ip := and_then override_ bo_load_balancer_ip |};
        svc_ingress := None |}.

Definition render_bootstrap_service owner l : result Service (option ReconcileError) :=
  let cluster_name := name_any owner in
  let bootstrap := bootstrap_config l in
  let own := <["krabka.io/role" := "bootstrap"]> (listener_labels cluster_name l) in
  (* entry(k).or_insert(v): the operator's labels win *)
  let labels := own ∪ default ∅ (opt_map bc_labels bootstrap) in
  let annotations := default ∅ (opt_map bc_annotations bootstrap) in
  let selector : gmap string string :=
    <["krabka.io/broker-role" := "true"]>
    (<["app.kubernetes.io/instance" := cluster_name]>
    (<["app.kubernetes.io/name" := APP_LABEL]> ∅)) in
  let? service_type := ok_or (external_service_type l) None in
  let? meta := map_err Some (owned_meta owner (bootstrap_object_name cluster_name l)
                 (om_namespace owner) labels
                 (if bool_decide (annotations = ∅) then None else Some annotations)) in
  Ok {| svc_meta := meta;
        svc_spec := Some {|
          svc_type := Some service_type;
          svc_cluster_ip := None;
          svc_publish_not_ready_addresses := None;
          svc_selector := selector;
          svc_ports := Some [tcp_port (l_name l) (l_port l) (and_then bootstrap bc_node_port)];
          svc_load_balancer_ip := and_then bootstrap bc_load_balancer_ip |};
        svc_ingress := None |}.

(** ** Ingresses and Routes *)
Definition SSL_PASSTHROUGH_ANNOTATION : string := "nginx.ingress.kubernetes.io/ssl-passthrough".
Definition INGRESS_PORT : Z := 443.

Definition ingress_broker_host l (broker : Z) : option string :=
  and_then (broker_override l broker) (λ o, or_else (bo_advertised_host o) (bo_host o)).

Definition ingress_labels (cluster_name : string) l : gmap string string :=
  listener_labels cluster_name l.

(** [labels.entry("app.kubernetes.io/name").or_insert(APP_LABEL)] *)
Definition with_app_label (labels : gmap string string) : gmap string string :=
  labels ∪ {["app.kubernetes.io/name" := APP_LABEL]}.

Definition build_ingress owner l (object_name host service_name : string)
    (labels extra_annotations : gmap string string) : result IngressObject ReconcileError :=
  let? meta := owned_meta owner object_name (om_namespace owner) (with_app_label labels)
                 (Some (extra_annotations ∪ {[SSL_PASSTHROUGH_ANNOTATION := "true"]})) in
  Ok {| ing_meta := meta;
        ing_tls_hosts := [[host]];
        ing_rules := [{| rule_host := host; rule_path := "/"; rule_path_type := "Prefix";
                         rule_service := service_name; rule_port := l_port l |}];
        ing_class_name := and_then (l_configuration l) lc_ingress_class |}.

Definition render_broker_ingress owner l (broker : Z) (host : string)
  : result IngressObject ReconcileError :=
  let cluster_name := name_any owner in
  let object_name := broker_object_name cluster_name l broker in
  build_ingress owner l object_name host object_name
    (<["krabka.io/broker" := display_Z broker]> (ingress_labels cluster_name l)) ∅.

Definition render_bootstrap_ingress owner l (host : string) : result IngressObject ReconcileError :=
  let cluster_name := name_any owner in
  let object_name := bootstrap_object_name cluster_name l in
  build_ingress owner l object_name host object_name
    (<["krabka.io/role" := "bootstrap"]> (ingress_labels cluster_name l))
    (default ∅ (opt_map bc_annotations (bootstrap_config l))).

Definition build_route owner l (object_name host service_name : string)
    (labels : gmap string string) : result RouteObject ReconcileError :=
  let? meta := owned_meta owner object_name (Some (default "" (om_namespace owner)))
                 (with_app_label labels) None in
  Ok {| rt_api_version := "route.openshift.io/v1"; rt_kind := "Route"; rt_meta := meta;
        rt_host := host; rt_target_port := l_port l; rt_termination := "passthrough";
        rt_to_kind := "Service"; rt_to_name := service_name; rt_to_weight := 100 |}.

Definition render_broker_route owner l (broker : Z) (host : string)
  : result RouteObject ReconcileError :=
  let cluster_name := name_any owner in
  let object_name := broker_object_name cluster_name l broker in
  build_route owner l object_name host object_name
    (<["krabka.io/broker" := display_Z broker]> (ingress_labels cluster_name l)).

Definition render_bootstrap_route owner l (host : string) : result RouteObject ReconcileError :=
  let cluster_name := name_any owner in
  let object_name := bootstrap_object_name cluster_name l in
  build_route owner l object_name host object_name
    (<["krabka.io/role" := "bootstrap"]> (ingress_labels cluster_name l)).
End objects.

(** ** Applying them *)
Record NodeAddr : Type := { na_type : string; na_address : string }.
(** [nd_addresses] is [status.addresses]. *)
Record Node : Type := { nd_name : option string; nd_addresses : option (list NodeAddr) }.

Inductive ext_call : Type :=
  | ApplyService (name : string) (s : Service)
  | ApplyIngress (name : string) (i : IngressObject)
  | ApplyRoute (name : string) (r : RouteObject)
  | ListNodes
  | ListClusterPods (selector : string)
  | GetServiceOpt (name : string)
  | GetService (name : string).

Definition ext_resp (c : ext_call) : Type :=
  match c with
  | ApplyService _ _ | ApplyIngress _ _ | ApplyRoute _ _ => result unit kube_error
  | ListNodes => result (list Node) kube_error
  | ListClusterPods _ => result (list Pod) kube_error
  | GetServiceOpt _ => result (option Service) kube_error
  | GetService _ => result Service kube_error
  end.

(** A pass ends with a value, an error, or a panic ([Err None]). *)
#[local] Notation pass R := (prog ext_resp (result R (option ReconcileError))).
#[local] Notation call := (perform (resp := ext_resp)).

Definition api {A} (p : prog ext_resp (result A kube_error)) : pass A :=
  r ← p; Ret (map_err (λ e, Some (Kube e)) r).

(** [let obj = build?; apply(obj).await?] *)
Definition build_and_apply {A} (built : result A (option ReconcileError))
    (apply : A → prog ext_resp (result unit kube_error)) : pass unit :=
  match built with Ok a => api (apply a) | Err e => Ret (Err e) end.

Section apply.
Context {Time : Type} (owner : object_meta) (cluster_name : string).
#[local] Notation Listener := (Listener Time).
Implicit Types (l : Listener).

Definition apply_backends l (brokers : list NodeInfo) : pass unit :=
  _ ←? build_and_apply (render_bootstrap_service owner l)
         (λ s, call (ApplyService (bootstrap_object_name cluster_name l) s));
  try_for_each brokers (λ b,
    build_and_apply (render_broker_service owner l (broker_id b) (pod_name b))
      (λ s, call (ApplyService (broker_object_name cluster_name l (broker_id b)) s))).

(** The Ingress or Route objects on top: [boot] and [per] build and apply one. *)
Definition apply_routed l (brokers : list NodeInfo) (boot : string → pass unit)
    (per : NodeInfo → string → pass unit) : pass unit :=
  _ ←? match ingress_bootstrap_host l with Some host => boot host | None => Ret (Ok tt) end;
  try_for_each brokers (λ b,
    match ingress_broker_host l (broker_id b) with
    | Some host => per b host
    | None => Ret (Ok tt)
    end).

Definition apply_frontends l (brokers : list NodeInfo) : pass unit :=
  match l_type l with
  | Ingress =>
      apply_routed l brokers
        (λ host, build_and_apply (map_err Some (render_bootstrap_ingress owner l host))
                   (λ i, call (ApplyIngress (bootstrap_object_name cluster_name l) i)))
        (λ b host, build_and_apply (map_err Some (render_broker_ingress owner l (broker_id b) host))
                   (λ i, call (ApplyIngress (broker_object_name cluster_name l (broker_id b)) i)))
  | Route =>
      apply_routed l brokers
        (λ host, build_and_apply (map_err Some (render_bootstrap_route owner l host))
                   (λ r, call (ApplyRoute (bootstrap_object_name cluster_name l) r)))
        (λ b host, build_and_apply (map_err Some (render_broker_route owner l (broker_id b) host))
                   (λ r, call (ApplyRoute (broker_object_name cluster_name l (broker_id b)) r)))
  | _ => Ret (Ok tt)
  end.

Definition apply_external_services (ls : list Listener) (brokers : list NodeInfo) : pass unit :=
  try_for_each (List.filter (λ l, negb (is_internal l)) ls) (λ l,
    _ ←? apply_backends l brokers;
    apply_frontends l brokers).
End apply.

(** ** Every object is applied once and under a name of its own *)
Inductive object_kind : Type := KService | KIngress | KRoute.

#[global] Instance object_kind_eq_dec : EqDecision object_kind.
Proof. solve_decision. Defined.

Definition applied_object (c : ext_call) : option (object_kind * string) :=
  match c with
  | ApplyService n _ => Some (KService, n)
  | ApplyIngress n _ => Some (KIngress, n)
  | ApplyRoute n _ => Some (KRoute, n)
  | _ => None
  end.

(** The objects a run applied, in order. *)
Definition applied (tr : list (event ext_resp)) : list (object_kind * string) :=
  filter_map applied_object (calls tr).

Section distinct.
Context {Time : Type} (owner : object_meta) (cluster_name : string).
#[local] Notation Listener := (Listener Time).
Implicit Types (l : Listener) (brokers : list NodeInfo).

(** What a cluster with these listeners and brokers needs: a Service for the
    bootstrap and for each broker of an external listener, and on top an Ingress or
    Route for each of them that has a host. *)
Definition suffix_name l (suffix : string) : string :=
  cluster_name +:+ "-" +:+ l_name l +:+ "-" +:+ suffix.

Definition planned_suffixes brokers : list string :=
  "bootstrap" :: map (λ b, display_Z (broker_id b)) brokers.

Definition routed_suffixes l brokers : list string :=
  (if ingress_bootstrap_host l then ["bootstrap"] else []) ++
  concat (map (λ b, if ingress_broker_host l (broker_id b)
                    then [display_Z (broker_id b)] else []) brokers).

Definition planned_objects brokers l : list (object_kind * string) :=
  map (λ s, (KService, suffix_name l s)) (planned_suffixes brokers) ++
  match l_type l with
  | Ingress => map (λ s, (KIngress, suffix_name l s)) (routed_suffixes l brokers)
  | Route => map (λ s, (KRoute, suffix_name l s)) (routed_suffixes l brokers)
  | _ => []
  end.

Definition planned (ls : list Listener) brokers : list (object_kind * string) :=
  concat (map (planned_objects brokers) (List.filter (λ l, negb (is_internal l)) ls)).

Lemma applied_nil : applied [] = [].
Proof. done. Qed.
Lemma applied_app tr1 tr2 : applied (tr1 ++ tr2) = applied tr1 ++ applied tr2.
Proof. unfold applied, calls. by rewrite map_app, filter_map_app. Qed.

(** One built object is applied, or its builder fails. *)
Ltac applies_one :=
  match goal with |- follows _ _ (build_and_apply ?b _) => destruct b end;
  [by unfold follows, all_runs; cbn; intros []|by apply follows_err].

Lemma apply_service_follows built n :
  follows applied [(KService, n)] (build_and_apply built (λ s, call (ApplyService n s))).
Proof. applies_one. Qed.
Lemma apply_ingress_follows built n :
  follows applied [(KIngress, n)] (build_and_apply built (λ i, call (ApplyIngress n i))).
Proof. applies_one. Qed.
Lemma apply_route_follows built n :
  follows applied [(KRoute, n)] (build_and_apply built (λ r, call (ApplyRoute n r))).
Proof. applies_one. Qed.

Lemma apply_backends_follows l brokers :
  follows applied (map (λ s, (KService, suffix_name l s)) (planned_suffixes brokers))
    (apply_backends owner cluster_name l brokers).
Proof.
  unfold apply_backends, planned_suffixes. cbn [map].
  apply (follows_seq _ applied_app [_]); [apply apply_service_follows|].
  rewrite map_map.
  replace (map _ brokers) with
    (concat (map (λ b, [(KService, suffix_name l (display_Z (broker_id b)))]) brokers))
    by (induction brokers; cbn; congruence).
  apply follows_try_for_each; [done|exact applied_app|]. intros b _. apply apply_service_follows.
Qed.

Lemma apply_routed_follows k l brokers boot per :
  (∀ host, follows applied [(k, suffix_name l "bootstrap")] (boot host)) →
  (∀ b host, follows applied [(k, suffix_name l (display_Z (broker_id b)))] (per b host)) →
  follows applied (map (λ s, (k, suffix_name l s)) (routed_suffixes l brokers))
    (apply_routed l brokers boot per).
Proof.
  intros Hboot Hper. unfold apply_routed, routed_suffixes. rewrite map_app.
  apply follows_seq; [exact applied_app| |].
  - destruct (ingress_bootstrap_host l); [apply Hboot|by apply follows_ret].
  - rewrite concat_map, map_map. apply follows_try_for_each; [done|exact applied_app|].
    intros b _. destruct (ingress_broker_host l (broker_id b)); [apply Hper|by apply follows_ret].
Qed.

Lemma apply_external_follows (ls : list Listener) brokers :
  follows applied (planned ls brokers) (apply_external_services owner cluster_name ls brokers).
Proof.
  apply follows_try_for_each; [done|exact applied_app|]. intros l _. unfold planned_objects.
  apply follows_seq; [exact applied_app|apply apply_backends_follows|].
  unfold apply_frontends. destruct (l_type l); try (by apply follows_ret);
    apply apply_routed_follows; intros;
    [apply apply_ingress_follows..|apply apply_route_follows|apply apply_route_follows].
Qed.

(** ** Names *)
Definition no_dash (s : string) : bool := str_all (λ x, negb (Ascii.eqb "-" x)) s.

Lemma suffix_name_inj l l' s s' :
  no_dash s = true → no_dash s' = true → suffix_name l s = suffix_name l' s' →
  l_name l = l_name l' ∧ s = s'.
Proof.
  intros Hs Hs' Heq. unfold suffix_name in Heq.
  assert (∀ n t, cluster_name +:+ "-" +:+ n +:+ "-" +:+ t =
                 (cluster_name +:+ "-" +:+ n) +:+ String "-" t) as Hassoc.
  { intros n t. by rewrite <- !str_app_assoc. }
  rewrite !Hassoc in Heq. apply (f_equal (rsplit_once "-")) in Heq.
  rewrite !rsplit_once_app in Heq by done. injection Heq as Hn ->. split; [|done].
  apply str_app_inj_l in Hn. by apply (str_app_inj_l "-") in Hn.
Qed.

Lemma display_no_dash z : 0 ≤ z → no_dash (display_Z z) = true.
Proof.
  intros Hz. eapply str_all_impl; [|by apply display_Z_digits]. intros c Hc.
  destruct (Ascii.eqb_spec "-" c) as [<-|]; [by vm_compute in Hc|done].
Qed.

Lemma display_Z_inj a b : 0 ≤ a → 0 ≤ b → display_Z a = display_Z b → a = b.
Proof. intros Ha Hb Heq. apply (inj pretty) in Heq. done. Qed.
(** Brokers have distinct ids that are not negative. *)
Definition ids_ok brokers : Prop :=
  NoDup (broker_id <$> brokers) ∧ ∀ b, b ∈ brokers → 0 ≤ broker_id b.

Lemma planned_suffixes_ok brokers : ids_ok brokers →
  NoDup (planned_suffixes brokers) ∧ ∀ s, s ∈ planned_suffixes brokers → no_dash s = true.
Proof.
  intros [Hnd Hpos]. unfold planned_suffixes. split.
  - apply NoDup_cons. split.
    + intros (b & Heq & Hb)%list_elem_of_fmap.
      destruct (display_Z_nonempty (broker_id b)) as (c & t & Hd & Hc); [by apply Hpos|].
      rewrite Hd in Heq. injection Heq as <- _. by vm_compute in Hc.
    + induction brokers as [|b bs IH]; [constructor|].
      rewrite fmap_cons in Hnd. apply NoDup_cons in Hnd as [Hb Hnd]. cbn [map].
      apply NoDup_cons. split; [|apply IH; [done|intros; apply Hpos; by right]].
      intros (b' & Heq & Hb')%list_elem_of_fmap. apply display_Z_inj in Heq;
        [|apply Hpos; by left|apply Hpos; by right].
      apply Hb. rewrite Heq. by apply list_elem_of_fmap_2.
  - intros s [->|(b & -> & Hb)%list_elem_of_fmap]%elem_of_cons; [done|].
    by apply display_no_dash, Hpos.
Qed.

Lemma routed_suffixes_sublist l brokers :
  routed_suffixes l brokers `sublist_of` planned_suffixes brokers.
Proof.
  unfold routed_suffixes, planned_suffixes.
  assert (concat (map (λ b, if ingress_broker_host l (broker_id b)
            then [display_Z (broker_id b)] else []) brokers)
          `sublist_of` map (λ b, display_Z (broker_id b)) brokers) as Hbs.
  { induction brokers as [|b bs IH]; cbn; [constructor|].
    destruct (ingress_broker_host l (broker_id b)); cbn; by constructor. }
  destruct (ingress_bootstrap_host l); cbn; by constructor.
Qed.

Lemma planned_objects_spec brokers l (k : object_kind) (n : string) : ids_ok brokers →
  (k, n) ∈ planned_objects brokers l → ∃ s, n = suffix_name l s ∧ s ∈ planned_suffixes brokers.
Proof.
  intros Hok. unfold planned_objects. intros [H|H]%elem_of_app.
  - apply list_elem_of_fmap in H as (s & [= -> ->] & Hs). eauto.
  - assert (∃ s, n = suffix_name l s ∧ s ∈ routed_suffixes l brokers) as (s & -> & Hs).
    { destruct (l_type l); try (by apply elem_of_nil in H);
        apply list_elem_of_fmap in H as (s & [= -> ->] & Hs); eauto. }
    exists s. split; [done|]. eapply elem_of_sublist; [exact Hs|]. apply routed_suffixes_sublist.
Qed.

Lemma suffix_objects_NoDup (k : object_kind) l suffixes :
  NoDup suffixes → (∀ s, s ∈ suffixes → no_dash s = true) →
  NoDup (map (λ s, (k, suffix_name l s)) suffixes).
Proof.
  induction suffixes as [|s ss IH]; intros Hnd Hd; cbn; [constructor|].
  apply NoDup_cons in Hnd as [Hs Hnd]. apply NoDup_cons. split.
  - intros (s' & [= Heq] & Hs')%list_elem_of_fmap.
    apply suffix_name_inj in Heq as [_ ->]; [done|apply Hd; by left|apply Hd; by right].
  - apply IH; [done|]. intros; apply Hd; by right.
Qed.

Lemma planned_objects_NoDup brokers l : ids_ok brokers → NoDup (planned_objects brokers l).
Proof.
  intros Hok. pose proof (planned_suffixes_ok _ Hok) as [Hnd Hd].
  pose proof (routed_suffixes_sublist l brokers) as Hsub.
  assert (NoDup (routed_suffixes l brokers)) as Hndr by by eapply sublist_NoDup.
  assert (∀ s, s ∈ routed_suffixes l brokers → no_dash s = true) as Hdr.
  { intros s Hs. apply Hd. by eapply elem_of_sublist. }
  unfold planned_objects. apply NoDup_app. split; [by apply suffix_objects_NoDup|].
  split; [|destruct (l_type l); try constructor; by apply suffix_objects_NoDup].
  intros x (s & -> & _)%list_elem_of_fmap Hx.
  destruct (l_type l); try (by apply elem_of_nil in Hx);
    by apply list_elem_of_fmap in Hx as (s' & [=] & _).
Qed.

Lemma planned_NoDup (ls : list Listener) brokers :
  NoDup (l_name <$> ls) → ids_ok brokers → NoDup (planned ls brokers).
Proof.
  intros Hnd Hok. unfold planned. pose proof (planned_suffixes_ok _ Hok) as [_ Hd].
  induction ls as [|l ls IH]; cbn [List.filter]; [constructor|].
  rewrite fmap_cons in Hnd. apply NoDup_cons in Hnd as [Hl Hnd].
  destruct (negb (is_internal l)); cbn [map concat]; [|by apply IH].
  apply NoDup_app. split; [by apply planned_objects_NoDup|]. split; [|by apply IH].
  intros [k n] H1 H2. apply planned_objects_spec in H1 as (s & -> & Hs); [|done].
  apply list_elem_of_In, in_concat in H2 as (os & (l' & <- & Hl')%in_map_iff & Hin).
  apply filter_In in Hl' as [Hl' _]. apply list_elem_of_In in Hin, Hl'.
  apply planned_objects_spec in Hin as (s' & Heq & Hs'); [|done].
  apply suffix_name_inj in Heq as [Hn _]; [|by apply Hd..].
  apply Hl. rewrite Hn. by apply list_elem_of_fmap_2.
Qed.

Lemma planned_own_names (ls : list Listener) brokers (k : object_kind) (n : string) :
  ids_ok brokers → (k, n) ∈ planned ls brokers →
  n ≠ svc_name cluster_name ∧
  (n = controller_bootstrap_name cluster_name →
   ∃ l, l ∈ ls ∧ l_name l = "controller" ∧ l_type l ≠ Internal).
Proof.
  intros Hok H. pose proof (planned_suffixes_ok _ Hok) as [_ Hd].
  apply list_elem_of_In, in_concat in H as (os & (l & <- & Hl)%in_map_iff & Hin).
  apply filter_In in Hl as [Hl Hint]. apply list_elem_of_In in Hin, Hl.
  apply planned_objects_spec in Hin as (s & -> & Hs); [|done].
  set (own nm := {| l_name := nm; l_port := 0; l_type := Internal; l_tls := false;
    l_authentication := None; l_configuration := None; l_network_policy_peers := None |} : Listener).
  split.
  - intros Heq. assert (suffix_name l s = suffix_name (own "broker") "headless") as Heq' by done.
    apply suffix_name_inj in Heq' as [_ ->]; [|by apply Hd|done].
    apply elem_of_cons in Hs as [Hs|(b & Hs & Hb)%list_elem_of_fmap]; [done|].
    destruct (display_Z_nonempty (broker_id b)) as (c & t & Hdz & Hc); [by apply Hok|].
    rewrite Hdz in Hs. injection Hs as <- _. by vm_compute in Hc.
  - intros Heq. assert (suffix_name l s = suffix_name (own "controller") "bootstrap") as Heq' by done.
    apply suffix_name_inj in Heq' as [Hn _]; [|by apply Hd|done]. exists l. split; [done|].
    split; [done|]. unfold is_internal in Hint. by apply negb_true_iff, bool_decide_eq_false in Hint.
Qed.

(** No external object overwrites another.  For listeners with unique names and
    brokers with distinct ids, whatever the API server answers, a pass applies each
    Service, Ingress and Route under a name that no other object of its kind has,
    never under the name of the headless Service, and under that of the controller
    bootstrap Service only for an external listener called controller; a pass that
    ends well has applied all that the listeners need. *)
Theorem external_objects_distinct (ls : list Listener) brokers :
  NoDup (l_name <$> ls) → ids_ok brokers →
  all_runs (apply_external_services owner cluster_name ls brokers) (λ tr r,
    NoDup (applied tr) ∧ (r = Ok tt → applied tr = planned ls brokers) ∧
    ∀ (k : object_kind) (n : string), (k, n) ∈ applied tr →
      n ≠ svc_name cluster_name ∧
      (n = controller_bootstrap_name cluster_name →
       ∃ l, l ∈ ls ∧ l_name l = "controller" ∧ l_type l ≠ Internal)).
Proof.
  intros Hnd Hok. eapply all_runs_mono; [|apply apply_external_follows]. intros tr r [Hpre Hr].
  split; [|split; [done|]].
  - pose proof (planned_NoDup ls brokers Hnd Hok) as HN. destruct Hpre as [k Hk].
    rewrite Hk in HN. by apply NoDup_app in HN as [? _].
  - intros k n Hkn. eapply planned_own_names; [done|]. by eapply elem_of_prefix.
Qed.
End distinct.

Definition demo_owner : object_meta :=
  {| om_name := Some "prod"; om_namespace := Some "kafka"; om_uid := Some "u1";
     om_labels := None; om_annotations := None; om_finalizers := None; om_generation := None;
     om_deleting := false; om_owners := [] |}.

Definition demo_nodes : list NodeInfo :=
  [{| broker_id := 0; pod_name := "prod-a-0"; pod_fqdn := "prod-a-0.prod-broker-headless";
      ni_roles := [Broker] |};
   {| broker_id := 1; pod_name := "prod-a-1"; pod_fqdn := "prod-a-1.prod-broker-headless";
      ni_roles := [Broker] |}].

(** An API server that accepts everything. *)
Definition accepting (_ : unit) (c : ext_call) : unit * ext_resp c :=
  (tt, match c return ext_resp c with
       | ApplyService _ _ | ApplyIngress _ _ | ApplyRoute _ _ => Ok tt
       | ListNodes | ListClusterPods _ => Ok []
       | GetServiceOpt _ => Ok None
       | GetService _ => Err (KubeApi 404)
       end).

Lemma external_objects_distinct_witness :
  ids_ok demo_nodes ∧
  NoDup (applied (exec accepting
    (apply_external_services demo_owner "prod" demo_listeners demo_nodes) tt).1.2).
Proof.
  assert (ids_ok demo_nodes) as Hids.
  { split; [apply (bool_decide_unpack _); vm_compute; exact I|].
    intros b [->|[->|[]%elem_of_nil]%elem_of_cons]%elem_of_cons; by vm_compute. }
  split; [exact Hids|].
  assert (NoDup (l_name <$> demo_listeners)) as Hn
    by (apply (bool_decide_unpack _); vm_compute; exact I).
  exact (proj1 (all_runs_exec accepting _ tt _
    (external_objects_distinct demo_owner "prod" demo_listeners demo_nodes Hn Hids))).
Defined.

(** An external listener called [controller] passes validation, and its bootstrap
    Service replaces the one that controllers use to find the quorum. *)
Lemma controller_listener_overwrites :
  let ls := [{| l_name := "plain"; l_port := 9092; l_type := Internal; l_tls := false;
                l_authentication := None; l_configuration := None;
                l_network_policy_peers := None |};
             {| l_name := "controller"; l_port := 9094; l_type := Nodeport; l_tls := false;
                l_authentication := None; l_configuration := None;
                l_network_policy_peers := None |}] : list (Listener Z) in
  validate_declared (λ _, true) Z.eqb ls None false = Ok tt ∧
  (KService, controller_bootstrap_name "prod") ∈
    applied (exec accepting (apply_external_services demo_owner "prod" ls demo_nodes) tt).1.2.
Proof.
  split; [vm_compute; reflexivity|]. apply (bool_decide_unpack _). vm_compute. exact I.
Qed.
