(* ===== verification/Quorum.v ===== *)
(** * The identity of a cluster (src/controller/common.rs)

    The cluster-id Secret: the id of the cluster, the controller that formats the
    first quorum, and the directory id of each node.  Operations that run one after the
    other implement a store in which each of them is chosen once.  Operations of
    concurrent passes interleave call by call: then a value that is stored stays, for
    the operations that begin after it was stored, and the cluster id is chosen once in
    any case; but two operations that both read before one of them writes can both
    choose the first controller ([bootstrap_race]). *)

From S2P Require Import Prelude RustStd Effects Kube Utf8 ListenerObjects.
Local Open Scope Z_scope.

Definition QUORUM_BOOTSTRAP_NODE_ID_KEY : string := "quorumBootstrapNodeId".
Definition QUORUM_BOOTSTRAP_POOL_KEY : string := "quorumBootstrapPool".
Definition QUORUM_BOOTSTRAP_INITIALIZED_KEY : string := "quorumBootstrapInitialized".

(** [uuid::Uuid]: the hyphenated form reads back. *)
Class UuidOps (Uuid : Type) : Type := {
  uuid_str : Uuid → string;
  parse_uuid : string → result Uuid string;
}.
Class UuidLaws (Uuid : Type) `{UuidOps Uuid} : Prop := {
  parse_uuid_str u : parse_uuid (uuid_str u) = Ok u;
  uuid_str_utf8 u : valid_utf8 (uuid_str u);
}.

Record QuorumBootstrapController : Type := { qb_node_id : Z; qb_pool : string }.
Record QuorumBootstrapState : Type := {
  qb_controller : QuorumBootstrapController;
  qb_initialized : bool;
}.

Section quorum.
Context `{UuidOps Uuid}.
(** The [Display] of the error of [str::parse::<i32>]. *)
Context (parse_i32_error : string → string).

(** ** The calls *)
Inductive quorum_call : Type :=
  | GetSecretOpt (name : string)
  | GetSecret (name : string)
  | CreateSecret (s : secret)
  | PatchSecretStrings (name : string) (string_data : gmap string string)
  | NewUuid.
Definition quorum_resp (c : quorum_call) : Type :=
  match c with
  | GetSecretOpt _ => result (option secret) kube_error
  | GetSecret _ => result secret kube_error
  | CreateSecret _ | PatchSecretStrings _ _ => result unit kube_error
  | NewUuid => Uuid
  end.
#[local] Notation pass R := (prog quorum_resp (result R ReconcileError)).
#[local] Notation call c := (perform (resp := quorum_resp) c).

Definition cluster_id_secret_name (kafka_name : string) : string := kafka_name +:+ "-cluster-id".

(** ** The cluster id *)
Definition render_secret (owner : object_meta) (kafka_version : string) (cluster_id : Uuid)
  : result secret ReconcileError :=
  let name := name_any owner in
  let? meta := owned_meta owner (cluster_id_secret_name name) (om_namespace owner)
                 (common_labels name kafka_version None) None in
  Ok (Secret meta (Some {["clusterId" := uuid_str cluster_id]})).

Definition uuid_from_secret (s : secret) : result Uuid ReconcileError :=
  let? data := ok_or (sec_data s) (MalformedSecret "Secret.data is empty") in
  let? bytes := ok_or (data !! "clusterId") (MalformedSecret "missing clusterId key") in
  let? str := map_err (λ e, MalformedSecret ("clusterId not UTF-8: " +:+ e)) (from_utf8 bytes) in
  map_err (λ e, MalformedSecret ("clusterId not a UUID: " +:+ e)) (parse_uuid str).

Definition ensure_cluster_id_secret (parent : object_meta) (kafka_version : string) : pass Uuid :=
  let secret_name := cluster_id_secret_name (name_any parent) in
  r ← call (GetSecretOpt secret_name);
  match r with
  | Err e => Ret (Err (Kube e))
  | Ok (Some existing) => Ret (uuid_from_secret existing)
  | Ok None =>
      id ← call NewUuid;
      match render_secret parent kafka_version id with
      | Err e => Ret (Err e)
      | Ok s =>
          c ← call (CreateSecret s);
          Ret (match c with Ok _ => Ok id | Err e => Err (Kube e) end)
      end
  end.

(** ** The controller that formats the first quorum *)
Definition quorum_bootstrap_state_from_secret (s : secret)
  : result (option QuorumBootstrapState) ReconcileError :=
  match sec_data s with
  | None => Ok None
  | Some data =>
      match data !! QUORUM_BOOTSTRAP_NODE_ID_KEY, data !! QUORUM_BOOTSTRAP_POOL_KEY with
      | None, None => Ok None
      | Some node_id, Some pool =>
          let? text := map_err (λ e, MalformedSecret (QUORUM_BOOTSTRAP_NODE_ID_KEY +:+ " not UTF-8: " +:+ e))
                         (from_utf8 node_id) in
          let? id := ok_or (parse_i32 text)
                       (MalformedSecret (QUORUM_BOOTSTRAP_NODE_ID_KEY +:+ " not an i32: "
                                         +:+ parse_i32_error text)) in
          if negb ((0 <=? id) && (id <=? 999999)) then
            Err (MalformedSecret (QUORUM_BOOTSTRAP_NODE_ID_KEY +:+ " is out of range 0..=999999"))
          else
            let? pool := map_err (λ e, MalformedSecret (QUORUM_BOOTSTRAP_POOL_KEY +:+ " not UTF-8: " +:+ e))
                           (from_utf8 pool) in
            if is_empty pool then Err (MalformedSecret (QUORUM_BOOTSTRAP_POOL_KEY +:+ " is empty"))
            else
              let? initialized :=
                match data !! QUORUM_BOOTSTRAP_INITIALIZED_KEY with
                | None => Ok false
                | Some v =>
                    if str_eqb v "true" then Ok true
                    else if str_eqb v "false" then Ok false
                    else Err (MalformedSecret (QUORUM_BOOTSTRAP_INITIALIZED_KEY +:+ " must be true or false"))
                end in
              Ok (Some {| qb_controller := {| qb_node_id := id; qb_pool := pool |};
                          qb_initialized := initialized |})
      | _, _ =>
          Err (MalformedSecret (QUORUM_BOOTSTRAP_NODE_ID_KEY +:+ " and " +:+ QUORUM_BOOTSTRAP_POOL_KEY
                                +:+ " must both be present"))
      end
  end.

Definition bootstrap_strings (c : QuorumBootstrapController) : gmap string string :=
  <[QUORUM_BOOTSTRAP_NODE_ID_KEY := display_Z (qb_node_id c)]>
  (<[QUORUM_BOOTSTRAP_POOL_KEY := qb_pool c]> {[QUORUM_BOOTSTRAP_INITIALIZED_KEY := "false"]}).

Definition ensure_quorum_bootstrap_state (kafka_name : string) (candidate : QuorumBootstrapController)
  : pass QuorumBootstrapState :=
  let secret_name := cluster_id_secret_name kafka_name in
  r ← call (GetSecret secret_name);
  match r with
  | Err e => Ret (Err (Kube e))
  | Ok s =>
      match quorum_bootstrap_state_from_secret s with
      | Err e => Ret (Err e)
      | Ok (Some state) => Ret (Ok state)
      | Ok None =>
          p ← call (PatchSecretStrings secret_name (bootstrap_strings candidate));
          Ret (match p with
               | Err e => Err (Kube e)
               | Ok _ => Ok {| qb_controller := candidate; qb_initialized := false |}
               end)
      end
  end.

Definition mark_quorum_bootstrap_initialized (kafka_name : string) : pass unit :=
  p ← call (PatchSecretStrings (cluster_id_secret_name kafka_name)
              {[QUORUM_BOOTSTRAP_INITIALIZED_KEY := "true"]});
  Ret (map_err Kube p).

(** ** Directory ids *)
Definition quorum_directory_id_key (node_id : Z) : string := "quorumDirectoryId-" +:+ display_Z node_id.

Definition quorum_directory_id_from_secret (s : secret) (node_id : Z)
  : result (option Uuid) ReconcileError :=
  let key := quorum_directory_id_key node_id in
  match and_then (sec_data s) (λ data, data !! key) with
  | None => Ok None
  | Some value =>
      let? text := map_err (λ e, MalformedSecret (key +:+ " not UTF-8: " +:+ e)) (from_utf8 value) in
      let? id := map_err (λ e, MalformedSecret (key +:+ ": " +:+ e)) (parse_uuid text) in
      Ok (Some id)
  end.

Definition ensure_quorum_directory_id (kafka_name : string) (node_id : Z) : pass Uuid :=
  let secret_name := cluster_id_secret_name kafka_name in
  r ← call (GetSecret secret_name);
  match r with
  | Err e => Ret (Err (Kube e))
  | Ok s =>
      match quorum_directory_id_from_secret s node_id with
      | Err e => Ret (Err e)
      | Ok (Some id) => Ret (Ok id)
      | Ok None =>
          id ← call NewUuid;
          p ← call (PatchSecretStrings secret_name {[quorum_directory_id_key node_id := uuid_str id]});
          Ret (match p with Err e => Err (Kube e) | Ok _ => Ok id end)
      end
  end.

(** ** The Secrets on the server

    The Secrets of a namespace, by name.  A create is refused when the object exists;
    a merge patch of [stringData] sets its keys and leaves the others.  [fresh] is the
    stream of new ids. *)
Record server : Type := { srv_secrets : gmap string secret; srv_next : nat }.

Context (fresh : nat → Uuid).

Definition patch_data (s : secret) (m : gmap string string) : secret :=
  Secret (sec_meta s) (Some (m ∪ default ∅ (sec_data s))).

Definition put (st : server) (n : string) (s : secret) : server :=
  {| srv_secrets := <[n := s]> (srv_secrets st); srv_next := srv_next st |}.

Definition server_step (st : server) (c : quorum_call) : server * quorum_resp c :=
  match c with
  | GetSecretOpt n => (st, Ok (srv_secrets st !! n))
  | GetSecret n =>
      (st, match srv_secrets st !! n with Some s => Ok s | None => Err (KubeApi 404) end)
  | CreateSecret s =>
      match srv_secrets st !! name_any (sec_meta s) with
      | Some _ => (st, Err (KubeApi 409))
      | None => (put st (name_any (sec_meta s)) s, Ok tt)
      end
  | PatchSecretStrings n m =>
      match srv_secrets st !! n with
      | None => (st, Err (KubeApi 404))
      | Some s => (put st n (patch_data s m), Ok tt)
      end
  | NewUuid => ({| srv_secrets := srv_secrets st; srv_next := S (srv_next st) |}, fresh (srv_next st))
  end.

(** The answer to a call that failed, for the calls that can fail. *)
Definition failure (c : quorum_call) (e : kube_error) : option (quorum_resp c) :=
  match c with
  | NewUuid => None
  | GetSecretOpt _ | GetSecret _ | CreateSecret _ | PatchSecretStrings _ _ => Some (Err e)
  end.

(** A call is served, or it fails, and then it has taken effect or not. *)
Definition answered (st : server) (c : quorum_call) (st' : server) (x : quorum_resp c) : Prop :=
  (st', x) = server_step st c ∨
  (∃ e, failure c e = Some x) ∧ (st' = st ∨ st' = (server_step st c).1).

(** ** The abstract store: values that are chosen once *)
Record identity : Type := {
  id_cluster : option Uuid;
  id_bootstrap : option QuorumBootstrapState;
  id_directory : Z → option Uuid;
}.

Inductive quorum_op : Type :=
  | EnsureClusterId
  | EnsureBootstrap (candidate : QuorumBootstrapController)
  | MarkInitialized
  | EnsureDirectory (node_id : Z).

Inductive op_answer : Type :=
  | AnsId (u : Uuid)
  | AnsBootstrap (b : QuorumBootstrapState)
  | AnsUnit.

Definition answer_with {A} (f : A → op_answer) (p : pass A) : pass op_answer :=
  p ≫= λ r, Ret (match r with Ok x => Ok (f x) | Err e => Err e end).

(** An operation on the Secret of the cluster [parent]. *)
Definition op_prog (parent : object_meta) (version : string) (op : quorum_op) : pass op_answer :=
  let name := name_any parent in
  match op with
  | EnsureClusterId => answer_with AnsId (ensure_cluster_id_secret parent version)
  | EnsureBootstrap c => answer_with AnsBootstrap (ensure_quorum_bootstrap_state name c)
  | MarkInitialized => answer_with (λ _, AnsUnit) (mark_quorum_bootstrap_initialized name)
  | EnsureDirectory n => answer_with AnsId (ensure_quorum_directory_id name n)
  end.

Definition set_initialized (b : QuorumBootstrapState) : QuorumBootstrapState :=
  {| qb_controller := qb_controller b; qb_initialized := true |}.

Definition choose {A} (old : option A) (new : A) : A := default new old.

(** What an operation does to the store, and what it answers; [u] is a new id. *)
Definition spec_step (u : Uuid) (op : quorum_op) (a : identity)
  : identity * result op_answer ReconcileError :=
  match op, id_cluster a with
  | EnsureClusterId, old =>
      ({| id_cluster := Some (choose old u); id_bootstrap := id_bootstrap a;
          id_directory := id_directory a |}, Ok (AnsId (choose old u)))
  | _, None => (a, Err (Kube (KubeApi 404)))
  | EnsureBootstrap c, Some _ =>
      let b := choose (id_bootstrap a) {| qb_controller := c; qb_initialized := false |} in
      ({| id_cluster := id_cluster a; id_bootstrap := Some b; id_directory := id_directory a |},
       Ok (AnsBootstrap b))
  | MarkInitialized, Some _ =>
      ({| id_cluster := id_cluster a; id_bootstrap := set_initialized <$> id_bootstrap a;
          id_directory := id_directory a |}, Ok AnsUnit)
  | EnsureDirectory n, Some _ =>
      let d := choose (id_directory a n) u in
      ({| id_cluster := id_cluster a; id_bootstrap := id_bootstrap a;
          id_directory := λ m, if m =? n then Some d else id_directory a m |}, Ok (AnsId d))
  end.

(** The Secret of the cluster [name] reads as the abstract store. *)
Definition represents (name : string) (st : server) (a : identity) : Prop :=
  match srv_secrets st !! cluster_id_secret_name name with
  | None => id_cluster a = None ∧ id_bootstrap a = None ∧ ∀ n, id_directory a n = None
  | Some s =>
      (∃ u, uuid_from_secret s = Ok u ∧ id_cluster a = Some u) ∧
      quorum_bootstrap_state_from_secret s = Ok (id_bootstrap a) ∧
      ∀ n, quorum_directory_id_from_secret s n = Ok (id_directory a n)
  end.

(** A candidate that reads back. *)
Definition op_ok (op : quorum_op) : Prop :=
  match op with
  | EnsureBootstrap c => 0 ≤ qb_node_id c ≤ 999999 ∧ qb_pool c ≠ "" ∧ valid_utf8 (qb_pool c)
  | _ => True
  end.

Definition run_op (parent : object_meta) (version : string) (op : quorum_op) (st : server)
  : server * result op_answer ReconcileError :=
  let '(st', _, r) := exec server_step (op_prog parent version op) st in (st', r).

(** ** Concurrent passes

    Operations in flight, each with what is left of it; [pr_cluster] is the cluster it
    is for. A step starts an operation, lets the server answer one call of one of them,
    ends one with its answer, or drops one (a pass that is cancelled, a crash). *)
Record process : Type := {
  pr_cluster : string;
  pr_op : quorum_op;
  pr_rest : pass op_answer;
}.
Definition with_rest (p : process) (rest : pass op_answer) : process :=
  {| pr_cluster := pr_cluster p; pr_op := pr_op p; pr_rest := rest |}.

Definition world : Type := server * list process.
Definition answer : Type := string * quorum_op * result op_answer ReconcileError.

Inductive world_step : world → list answer → world → Prop :=
  | ws_start st ps parent version op :
      world_step (st, ps) []
        (st, {| pr_cluster := name_any parent; pr_op := op; pr_rest := op_prog parent version op |} :: ps)
  | ws_call st l1 p l2 c k st' x :
      pr_rest p = Do c k → answered st c st' x →
      world_step (st, l1 ++ p :: l2) [] (st', l1 ++ with_rest p (k x) :: l2)
  | ws_answer st l1 p l2 r :
      pr_rest p = Ret r → world_step (st, l1 ++ p :: l2) [(pr_cluster p, pr_op p, r)] (st, l1 ++ l2)
  | ws_drop st l1 p l2 : world_step (st, l1 ++ p :: l2) [] (st, l1 ++ l2).

(** A run, with the answers that were given. *)
Inductive world_steps : world → list answer → world → Prop :=
  | wss_refl w : world_steps w [] w
  | wss_step w1 tr1 w2 tr2 w3 :
      world_steps w1 tr1 w2 → world_step w2 tr2 w3 → world_steps w1 (tr1 ++ tr2) w3.

(** ** What a Secret can have settled *)
Inductive choice : Type :=
  | ClusterIs (u : Uuid)
  | FirstControllerIs (c : QuorumBootstrapController)
  | IsInitialized
  | DirectoryIs (node_id : Z) (u : Uuid).

Definition shows (s : secret) (f : choice) : Prop :=
  match f with
  | ClusterIs u => uuid_from_secret s = Ok u
  | FirstControllerIs c =>
      ∃ b, quorum_bootstrap_state_from_secret s = Ok (Some b) ∧ qb_controller b = c
  | IsInitialized =>
      ∃ b, quorum_bootstrap_state_from_secret s = Ok (Some b) ∧ qb_initialized b = true
  | DirectoryIs n u => quorum_directory_id_from_secret s n = Ok (Some u)
  end.

Definition stored (st : server) (name : string) (f : choice) : Prop :=
  ∃ s, srv_secrets st !! cluster_id_secret_name name = Some s ∧ shows s f.

(** An answer to an operation of the cluster [name] that agrees with a choice. *)
Definition agrees (name : string) (f : choice) (a : answer) : Prop :=
  let '(cluster, op, r) := a in
  cluster = name →
  match f, op, r with
  | ClusterIs u, EnsureClusterId, Ok (AnsId v) => v = u
  | FirstControllerIs c, EnsureBootstrap _, Ok (AnsBootstrap b) => qb_controller b = c
  | IsInitialized, EnsureBootstrap _, Ok (AnsBootstrap b) => qb_initialized b = true
  | DirectoryIs n u, EnsureDirectory m, Ok (AnsId v) => m = n → v = u
  | _, _, _ => True
  end.
End quorum.

(** ** Reading a patched Secret *)
Section proofs.
Context `{UuidLaws Uuid} (parse_i32_error : string → string) (fresh : nat → Uuid).
#[local] Notation bootstrap_of := (quorum_bootstrap_state_from_secret parse_i32_error).
Implicit Types (s : secret) (m : gmap string string).

Lemma directory_key_inj a b : quorum_directory_id_key a = quorum_directory_id_key b → a = b.
Proof. unfold quorum_directory_id_key. intros Hk%str_app_inj_l. by apply (inj (pretty (A := Z))). Qed.

Lemma directory_key_other n k :
  k ∈ ["clusterId"; QUORUM_BOOTSTRAP_NODE_ID_KEY; QUORUM_BOOTSTRAP_POOL_KEY;
       QUORUM_BOOTSTRAP_INITIALIZED_KEY] → quorum_directory_id_key n ≠ k.
Proof.
  unfold quorum_directory_id_key. rewrite !str_app_cons. intros Hk Heq. subst k.
  repeat (apply elem_of_cons in Hk as [Hk|Hk]; [discriminate Hk|]). by apply elem_of_nil in Hk.
Qed.

Lemma patched_lookup s m k :
  default ∅ (sec_data (patch_data s m)) !! k =
  match m !! k with Some v => Some v | None => default ∅ (sec_data s) !! k end.
Proof. cbn. rewrite lookup_union. by destruct (m !! k), (default ∅ (sec_data s) !! k). Qed.

(** A patch that does not touch a value's keys does not change it. *)
Lemma uuid_patched s m u :
  m !! "clusterId" = None → uuid_from_secret s = Ok u → uuid_from_secret (patch_data s m) = Ok u.
Proof.
  unfold uuid_from_secret. intros Hm. destruct (sec_data s) as [d|] eqn:Ed; [|done]. cbn.
  rewrite Ed, lookup_union_r by done. cbn. done.
Qed.

Lemma bootstrap_patched s m :
  m !! QUORUM_BOOTSTRAP_NODE_ID_KEY = None → m !! QUORUM_BOOTSTRAP_POOL_KEY = None →
  m !! QUORUM_BOOTSTRAP_INITIALIZED_KEY = None → bootstrap_of (patch_data s m) = bootstrap_of s.
Proof.
  intros H1 H2 H3. unfold quorum_bootstrap_state_from_secret. cbn. rewrite !lookup_union_r by done.
  destruct (sec_data s) as [d|]; cbn; [done|]. by rewrite !lookup_empty.
Qed.

Lemma directory_patched s m n :
  m !! quorum_directory_id_key n = None →
  quorum_directory_id_from_secret (patch_data s m) n = quorum_directory_id_from_secret s n.
Proof.
  intros Hm. unfold quorum_directory_id_from_secret. cbn. rewrite lookup_union_r by done.
  destruct (sec_data s); cbn; [done|]. by rewrite lookup_empty.
Qed.

(** What was written reads back. *)
Lemma bootstrap_written s c :
  op_ok (EnsureBootstrap c) →
  bootstrap_of (patch_data s (bootstrap_strings c)) =
  Ok (Some {| qb_controller := c; qb_initialized := false |}).
Proof.
  intros (Hid & Hpool & Hutf).
  assert (bootstrap_strings c !! QUORUM_BOOTSTRAP_NODE_ID_KEY = Some (display_Z (qb_node_id c))) as E1
    by apply lookup_insert_eq.
  assert (bootstrap_strings c !! QUORUM_BOOTSTRAP_POOL_KEY = Some (qb_pool c)) as E2
    by (unfold bootstrap_strings; rewrite lookup_insert_ne by done; apply lookup_insert_eq).
  assert (bootstrap_strings c !! QUORUM_BOOTSTRAP_INITIALIZED_KEY = Some "false") as E3
    by (unfold bootstrap_strings; rewrite !lookup_insert_ne by done; apply lookup_singleton_eq).
  unfold quorum_bootstrap_state_from_secret, patch_data. cbn [sec_data].
  rewrite (lookup_union_Some_l _ _ _ _ E1), (lookup_union_Some_l _ _ _ _ E2), (lookup_union_Some_l _ _ _ _ E3).
  rewrite from_utf8_valid by (apply display_Z_utf8; lia). cbn [map_err].
  unfold parse_i32. rewrite parse_signed_display by (unfold i32_min, i32_max; lia). cbn [ok_or].
  destruct (Z.leb_spec 0 (qb_node_id c)); [|lia]. destruct (Z.leb_spec (qb_node_id c) 999999); [|lia].
  cbn [andb negb]. rewrite from_utf8_valid by done. cbn [map_err].
  destruct c as [id pool]. cbn in *. by destruct pool.
Qed.

Lemma initialized_written s b :
  bootstrap_of s = Ok b →
  bootstrap_of (patch_data s {[QUORUM_BOOTSTRAP_INITIALIZED_KEY := "true"]}) = Ok (set_initialized <$> b).
Proof.
  unfold quorum_bootstrap_state_from_secret, patch_data. cbn [sec_data]. rewrite !lookup_union.
  rewrite !(lookup_singleton_ne QUORUM_BOOTSTRAP_INITIALIZED_KEY) by done. rewrite lookup_singleton_eq.
  rewrite !(left_id_L None _), union_Some_l. destruct (sec_data s) as [d|].
  2:{ cbn. rewrite !lookup_empty. by intros [= <-]. }
  change (default ∅ (Some d)) with d.
  destruct (d !! QUORUM_BOOTSTRAP_NODE_ID_KEY), (d !! QUORUM_BOOTSTRAP_POOL_KEY); try done;
    [|by intros [= <-]].
  destruct (map_err _ (from_utf8 _)); [|done]. destruct (ok_or _ _); [|done]. destruct (negb _); [done|].
  destruct (map_err _ (from_utf8 _)) as [pool|]; [|done]. destruct (is_empty pool); [done|].
  destruct (match d !! _ with Some _ => _ | None => _ end); [|done]. by intros [= <-].
Qed.

Lemma directory_written s n u :
  quorum_directory_id_from_secret (patch_data s {[quorum_directory_id_key n := uuid_str u]}) n = Ok (Some u).
Proof.
  unfold quorum_directory_id_from_secret, patch_data. cbn [sec_data and_then].
  rewrite (lookup_union_Some_l _ _ _ (uuid_str u)) by apply lookup_singleton_eq.
  rewrite from_utf8_valid by apply uuid_str_utf8. cbn. by rewrite parse_uuid_str.
Qed.

(** The parts of a Secret that a patch leaves alone. *)
Lemma strings_no_cluster c : bootstrap_strings c !! "clusterId" = None.
Proof. unfold bootstrap_strings. by rewrite !lookup_insert_ne, lookup_singleton_ne. Qed.

Lemma strings_no_directory c n : bootstrap_strings c !! quorum_directory_id_key n = None.
Proof.
  unfold bootstrap_strings.
  rewrite !lookup_insert_ne, lookup_singleton_ne; [done|..];
    apply not_eq_sym, directory_key_other; set_solver.
Qed.

Lemma directory_no_cluster n v : ({[quorum_directory_id_key n := v]} : gmap string string) !! "clusterId" = None.
Proof. apply lookup_singleton_ne, directory_key_other. set_solver. Qed.

Lemma bootstrap_after_directory s n v :
  bootstrap_of (patch_data s {[quorum_directory_id_key n := v]}) = bootstrap_of s.
Proof. apply bootstrap_patched; apply lookup_singleton_ne, directory_key_other; set_solver. Qed.

Lemma created_reads u meta :
  let s := Secret meta (Some {["clusterId" := uuid_str u]}) in
  uuid_from_secret s = Ok u ∧ bootstrap_of s = Ok None ∧ ∀ n, quorum_directory_id_from_secret s n = Ok None.
Proof.
  cbn zeta. split_and!.
  - unfold uuid_from_secret. cbn [sec_data ok_or]. rewrite lookup_singleton_eq. cbn [ok_or].
    rewrite from_utf8_valid by apply uuid_str_utf8. cbn. by rewrite parse_uuid_str.
  - unfold quorum_bootstrap_state_from_secret. cbn [sec_data]. by rewrite !lookup_singleton_ne.
  - intros n. unfold quorum_directory_id_from_secret. cbn [sec_data and_then].
    rewrite lookup_singleton_ne; [done|]. apply not_eq_sym, directory_key_other. set_solver.
Qed.

(** ** One operation *)
Section one.
Context (parent : object_meta) (version uid : string).
Hypothesis admitted : om_uid parent = Some uid.
#[local] Notation name := (name_any parent).
#[local] Notation run_op := (run_op parse_i32_error fresh parent version).

(** An operation on a Secret that stands for a store does what the store does, and
    leaves the other Secrets alone. *)
Lemma op_refines op st a :
  represents parse_i32_error name st a → op_ok op →
  (run_op op st).2 = (spec_step (fresh (srv_next st)) op a).2 ∧
  represents parse_i32_error name (run_op op st).1 (spec_step (fresh (srv_next st)) op a).1 ∧
  ∀ n, n ≠ cluster_id_secret_name name → srv_secrets (run_op op st).1 !! n = srv_secrets st !! n.
Proof.
  unfold represents, run_op. intros Hr Hop.
  destruct (srv_secrets st !! cluster_id_secret_name name) as [s|] eqn:Hs.
  - destruct Hr as ((u & Hu & Ha) & Hb & Hd).
    destruct op as [|c| |n]; cbn -[cluster_id_secret_name]; rewrite ?Hs, ?Ha; cbn -[cluster_id_secret_name].
    + rewrite Hs, Hu. cbn. split_and!; [done|by exists u|done|done|done].
    + rewrite Hb. destruct (id_bootstrap a) as [b|] eqn:Eb; cbn -[cluster_id_secret_name]; rewrite Hs;
        cbn -[cluster_id_secret_name].
      * split_and!; [done|by exists u|done|done|done].
      * rewrite lookup_insert_eq. split_and!; [done| | | |intros k Hk; by rewrite lookup_insert_ne].
        -- exists u. split; [|done]. apply uuid_patched; [apply strings_no_cluster|done].
        -- by apply bootstrap_written.
        -- intros n. rewrite directory_patched; [done|apply strings_no_directory].
    + rewrite lookup_insert_eq. split_and!; [done| | | |intros k Hk; by rewrite lookup_insert_ne].
      * exists u. split; [|done]. by apply uuid_patched.
      * by apply initialized_written.
      * intros n. rewrite directory_patched; [done|]. rewrite lookup_insert_ne; [apply lookup_empty|].
        apply not_eq_sym, directory_key_other. set_solver.
    + rewrite Hd. destruct (id_directory a n) as [d|] eqn:Ed; cbn -[cluster_id_secret_name]; rewrite Hs;
        cbn -[cluster_id_secret_name].
      * split_and!; [done|by exists u|done| |done]. intros m. rewrite Hd. destruct (Z.eqb_spec m n) as [->|]; congruence.
      * rewrite lookup_insert_eq.
        split_and!; [done| |etrans; [apply bootstrap_after_directory|done]| |intros k Hk; by rewrite lookup_insert_ne].
        -- exists u. split; [|done]. apply uuid_patched; [apply directory_no_cluster|done].
        -- intros m. destruct (Z.eqb_spec m n) as [->|Hne]; [apply directory_written|].
           rewrite directory_patched; [done|].
           apply lookup_singleton_ne. intros Hk%directory_key_inj. by subst.
  - destruct Hr as (Ha & Hb & Hd).
    destruct op as [|c| |n]; cbn -[cluster_id_secret_name]; rewrite ?Hs, ?Ha; cbn -[cluster_id_secret_name];
      try (by rewrite Hs).
    unfold render_secret, owned_meta, owner_ref. rewrite admitted. cbn -[cluster_id_secret_name].
    rewrite Hs. cbn -[cluster_id_secret_name]. rewrite lookup_insert_eq.
    split; [done|]. rewrite Hb. destruct a as [ic ib idir]. cbn in Ha, Hb, Hd. subst ic ib.
    match goal with |- context [Secret ?m _] =>
      destruct (created_reads (fresh (srv_next st)) m) as (Hu' & Hb' & Hd') end.
    split; [|intros k Hk; by rewrite lookup_insert_ne].
    split_and!; [by eexists|done|]. intros n. by rewrite Hd.
Qed.

End one.

(** A store that keeps every choice of [a]; the initialized flag only goes up. *)
Definition keeps (a b : identity (Uuid := Uuid)) : Prop :=
  (∀ u, id_cluster a = Some u → id_cluster b = Some u) ∧
  (∀ n u, id_directory a n = Some u → id_directory b n = Some u) ∧
  (∀ q, id_bootstrap a = Some q → ∃ q', id_bootstrap b = Some q' ∧
     qb_controller q' = qb_controller q ∧ (qb_initialized q = true → qb_initialized q' = true)).

Lemma spec_keeps u op a : keeps a (spec_step u op a).1.
Proof.
  destruct a as [ic ib idir]. destruct op as [|c| |n]; destruct ic as [cu|]; cbn;
    try (split_and!; [done|done|by eexists]); split_and!; cbn; try done; try by eexists.
  - intros q ->. by exists q.
  - intros q ->. by eexists.
  - intros m w Hm. destruct (Z.eqb_spec m n) as [->|]; [by rewrite Hm|done].
Qed.

(** ** Interleaved operations

    [safe f good p]: whatever the server answers while the Secret of the cluster [name]
    shows [f], the program [p] makes no call that would change that, and ends well. *)
Section concurrent.
Context (name : string).
#[local] Notation sn := (cluster_id_secret_name name).
#[local] Notation resp := (quorum_resp (Uuid := Uuid)).
#[local] Notation op_rest := (prog resp (result (op_answer (Uuid := Uuid)) ReconcileError)).
#[local] Notation choice := (choice (Uuid := Uuid)).
#[local] Notation process := (process (Uuid := Uuid)).
#[local] Notation shows := (shows parse_i32_error).
#[local] Notation stored := (stored parse_i32_error).
#[local] Notation op_prog := (op_prog (Uuid := Uuid) parse_i32_error).
#[local] Notation answered := (answered fresh).
Implicit Types (f : choice) (p : op_rest) (st : server).

Definition keeps_call f (c : quorum_call) : Prop :=
  match c with
  | PatchSecretStrings n m => n = sn → ∀ s, shows s f → shows (patch_data s m) f
  | _ => True
  end.

Definition possible f (c : quorum_call) : resp c → Prop :=
  match c with
  | GetSecretOpt n => λ x, n = sn → ∀ o, x = Ok o → ∃ s, o = Some s ∧ shows s f
  | GetSecret n => λ x, n = sn → ∀ s, x = Ok s → shows s f
  | CreateSecret s => λ x, name_any (sec_meta s) = sn → x ≠ Ok tt
  | PatchSecretStrings _ _ | NewUuid => λ _, True
  end.

Fixpoint safe f (good : result op_answer ReconcileError → Prop) p : Prop :=
  match p with
  | Ret r => good r
  | Do c k => keeps_call f c ∧ ∀ x, possible f c x → safe f good (k x)
  end.

Definition process_safe f (pr : process) : Prop :=
  safe f (λ r, agrees name f (pr_cluster pr, pr_op pr, r)) (pr_rest pr).

Lemma answered_settled f st c st' x :
  stored st name f → keeps_call f c → answered st c st' x → stored st' name f ∧ possible f c x.
Proof.
  intros (s & Hs & Hf) Hk Ha.
  assert (stored (server_step fresh st c).1 name f) as Hst.
  { unfold stored. destruct c as [n|n|s0|n m|]; cbn; try by exists s.
    - destruct (srv_secrets st !! name_any (sec_meta s0)) eqn:E; cbn; [by exists s|].
      exists s. split; [|done]. rewrite lookup_insert_ne; [done|]. intros Hn. congruence.
    - destruct (srv_secrets st !! n) as [s0|] eqn:E; cbn; [|by exists s].
      destruct (decide (n = sn)) as [->|Hn]; [|exists s; by rewrite lookup_insert_ne].
      exists (patch_data s0 m). rewrite lookup_insert_eq. split; [done|]. apply Hk; congruence. }
  destruct Ha as [Ha|[[e He] Hor]].
  - assert (st' = (server_step fresh st c).1) as -> by (by rewrite <- Ha). split; [done|].
    assert (x = (server_step fresh st c).2) as -> by (by rewrite <- Ha).
    destruct c as [n|n|s0|n m|]; cbn; try done.
    + intros -> o [= <-]. by exists s.
    + intros -> s' Heq. rewrite Hs in Heq. by injection Heq as <-.
    + intros ->. by rewrite Hs.
  - split; [destruct Hor as [-> | ->]; [by exists s|done]|].
    by destruct c; cbn in *; simplify_eq.
Qed.

(** *** Every operation is safe from its beginning *)
Lemma secret_name_inj a b : cluster_id_secret_name a = cluster_id_secret_name b → a = b.
Proof.
  unfold cluster_id_secret_name. intros Heq%(f_equal (strip_suffix "-cluster-id")).
  rewrite !strip_suffix_app in Heq. by injection Heq.
Qed.

(** Which choices a patch leaves alone. *)
Lemma patch_keeps f s m :
  m !! "clusterId" = None →
  (∀ n u, f = DirectoryIs n u → m !! quorum_directory_id_key n = None) →
  (∀ b, bootstrap_of s = Ok (Some b) → ∃ b', bootstrap_of (patch_data s m) = Ok (Some b') ∧
     qb_controller b' = qb_controller b ∧ (qb_initialized b = true → qb_initialized b' = true)) →
  shows s f → shows (patch_data s m) f.
Proof.
  intros Hc Hd Hb. destruct f as [u|c| |n u]; cbn.
  - by apply uuid_patched.
  - intros (b & Hs & <-). destruct (Hb b Hs) as (b' & ? & ? & _). eauto.
  - intros (b & Hs & Hi). destruct (Hb b Hs) as (b' & ? & _ & ?). eauto.
  - by rewrite directory_patched by eauto.
Qed.

Lemma mark_keeps f s :
  shows s f → shows (patch_data s {[QUORUM_BOOTSTRAP_INITIALIZED_KEY := "true"]}) f.
Proof.
  apply patch_keeps; [done|..].
  - intros n u _. apply lookup_singleton_ne, not_eq_sym, directory_key_other. set_solver.
  - intros b Hb%initialized_written. by eexists.
Qed.

Lemma directory_keeps f s0 s n v :
  shows s0 f → quorum_directory_id_from_secret (Uuid := Uuid) s0 n = Ok None →
  shows s f → shows (patch_data s {[quorum_directory_id_key n := v]}) f.
Proof.
  intros Hs0 Hn. apply patch_keeps; [apply directory_no_cluster|..].
  - intros n' u ->. apply lookup_singleton_ne. intros ->%directory_key_inj. cbn in Hs0. congruence.
  - intros b Hb. exists b. by rewrite bootstrap_after_directory.
Qed.

Lemma candidate_keeps f s0 s c :
  shows s0 f → bootstrap_of s0 = Ok None → shows s f → shows (patch_data s (bootstrap_strings c)) f.
Proof.
  intros Hs0 Hn. destruct f as [u|c'| |n u]; cbn.
  - apply uuid_patched, strings_no_cluster.
  - destruct Hs0 as (b & Hb & _). congruence.
  - destruct Hs0 as (b & Hb & _). congruence.
  - by rewrite directory_patched by apply strings_no_directory.
Qed.

(** A program that does not touch the Secret. *)
Definition call_name (c : quorum_call) : option string :=
  match c with
  | GetSecretOpt n | GetSecret n | PatchSecretStrings n _ => Some n
  | CreateSecret s => Some (name_any (sec_meta s))
  | NewUuid => None
  end.

Fixpoint avoids p : Prop :=
  match p with
  | Ret _ => True
  | Do c k => call_name c ≠ Some sn ∧ ∀ x, avoids (k x)
  end.

Lemma avoids_safe f good p : (∀ r, good r) → avoids p → safe f good p.
Proof.
  intros Hg. induction p as [r|c k IH]; cbn; [done|]. intros [Hc Hk].
  split; [|intros x _; by apply IH]. destruct c; cbn in *; try done. by intros ->.
Qed.

Lemma rendered_name parent version id s :
  render_secret parent version id = Ok s → name_any (sec_meta s) = cluster_id_secret_name (name_any parent).
Proof. unfold render_secret, owned_meta. destruct (owner_ref _ _); [|done]. by intros [= <-]. Qed.

Lemma other_avoids parent version op : name_any parent ≠ name → avoids (op_prog parent version op).
Proof.
  intros Hne. assert (Some (cluster_id_secret_name (name_any parent)) ≠ Some sn) as Hsn.
  { intros [= ?%secret_name_inj]. done. }
  destruct op as [|c| |n]; cbn -[cluster_id_secret_name]; (split; [exact Hsn|]); [| |done|].
  - intros [[s|]|e]; cbn -[cluster_id_secret_name]; try done. split; [done|]. intros id.
    destruct (render_secret parent version id) as [s|] eqn:Hr; cbn; [|done].
    split; [|done]. by rewrite (rendered_name _ _ _ _ Hr).
  - intros [s|e]; cbn -[cluster_id_secret_name]; [|done].
    destruct (bootstrap_of s) as [[b|]|e]; cbn -[cluster_id_secret_name]; done.
  - intros [s|e]; cbn -[cluster_id_secret_name]; [|done].
    destruct (quorum_directory_id_from_secret s n) as [[b|]|e]; cbn -[cluster_id_secret_name]; done.
Qed.

Lemma own_safe f op parent version :
  name_any parent = name → safe f (λ r, agrees name f (name, op, r)) (op_prog parent version op).
Proof.
  intros Hname. pose proof (f_equal cluster_id_secret_name Hname) as Hsn.
  destruct op as [|c| |n]; cbn -[cluster_id_secret_name agrees]; (split; [try done|]).
  - intros x Hx. destruct x as [[s|]|e]; cbn -[cluster_id_secret_name agrees].
    + destruct (Hx Hsn _ eq_refl) as (s' & [= <-] & Hs). intros _.
      destruct f; cbn in Hs |- *; try done. by rewrite Hs.
    + by destruct (Hx Hsn _ eq_refl) as (s' & ? & _).
    + by intros _; destruct f.
  - intros x Hx. destruct x as [s|e]; cbn -[cluster_id_secret_name agrees]; [|by intros _; destruct f].
    pose proof (Hx Hsn s eq_refl) as Hs.
    destruct (bootstrap_of s) as [[b|]|e] eqn:Hb; cbn -[cluster_id_secret_name agrees].
    + intros _. destruct f as [u|c'| |m u]; cbn in Hs |- *; try done; destruct Hs as (b' & Hb' & ?); congruence.
    + split; [intros _ s' Hs'; exact (candidate_keeps f s s' c Hs Hb Hs')|]. intros [[]|e] _; cbn -[agrees].
      * intros _. destruct f as [u|c'| |m u]; cbn in Hs |- *; try done; destruct Hs as (b' & Hb' & ?); congruence.
      * by intros _; destruct f.
    + by intros _; destruct f.
  - intros _ s Hs. by apply mark_keeps.
  - intros [[]|e] _; by intros _; destruct f.
  - intros x Hx. destruct x as [s|e]; cbn -[cluster_id_secret_name agrees]; [|by intros _; destruct f].
    pose proof (Hx Hsn s eq_refl) as Hs.
    destruct (quorum_directory_id_from_secret s n) as [[d|]|e] eqn:Hd; cbn -[cluster_id_secret_name agrees].
    + intros _. destruct f as [u|c'| |m u]; cbn in Hs |- *; try done. intros <-. congruence.
    + split; [done|]. intros id _. split; [intros _ s' Hs'; exact (directory_keeps f s s' n _ Hs Hd Hs')|].
      intros [[]|e] _; cbn -[agrees]; intros _; destruct f as [u|c'| |m u]; cbn in Hs |- *; try done.
      intros <-. congruence.
    + by intros _; destruct f.
Qed.

Lemma op_safe f op parent version :
  safe f (λ r, agrees name f (name_any parent, op, r)) (op_prog parent version op).
Proof.
  destruct (decide (name_any parent = name)) as [Heq|Hne]; [rewrite Heq; exact (own_safe f op parent version Heq)|].
  apply avoids_safe; [by intros r Hn|by apply other_avoids].
Qed.

(** *** A settled choice stays *)
Definition settled f (w : world (Uuid := Uuid)) : Prop := stored w.1 name f ∧ Forall (process_safe f) w.2.

Lemma settled_step f w tr w' :
  settled f w → world_step parse_i32_error fresh w tr w' → settled f w' ∧ Forall (agrees name f) tr.
Proof.
  intros [Hst Hps] Hw. destruct Hw as [st ps parent version op|st l1 p l2 c k st' x Hp Ha|st l1 p l2 r Hp|st l1 p l2];
    cbn [fst snd] in *.
  - split; [|done]. split; [done|]. constructor; [apply op_safe|done].
  - apply Forall_app in Hps as [H1 [H2 H3]%Forall_cons]. unfold process_safe in H2. rewrite Hp in H2.
    destruct H2 as [Hk Hx]. destruct (answered_settled f st c st' x Hst Hk Ha) as [Hst' Hpos].
    split; [|done]. split; [done|]. apply Forall_app. split; [done|]. constructor; [by apply Hx|done].
  - apply Forall_app in Hps as [H1 [H2 H3]%Forall_cons]. unfold process_safe in H2. rewrite Hp in H2.
    split; [|by constructor]. split; [done|]. by apply Forall_app.
  - apply Forall_app in Hps as [H1 [H2 H3]%Forall_cons]. split; [|done]. split; [done|]. by apply Forall_app.
Qed.

Lemma settled_steps f w tr w' :
  settled f w → world_steps parse_i32_error fresh w tr w' → settled f w' ∧ Forall (agrees name f) tr.
Proof.
  intros Hw Hrun. induction Hrun as [w|w1 tr1 w2 tr2 w3 _ IH Hstep]; [done|].
  destruct (IH Hw) as [H2 Htr]. destruct (settled_step f w2 tr2 w3 H2 Hstep) as [H3 Htr2].
  split; [done|]. by apply Forall_app.
Qed.

(** *** The cluster id, from no Secret *)

(** No id of the cluster was answered. *)
Definition unanswered (a : answer (Uuid := Uuid)) : Prop :=
  let '(cluster, op, r) := a in cluster = name → op = EnsureClusterId → ∀ u, r ≠ Ok (AnsId u).

(** [choosing]: while there is no Secret, a process is safe for whatever another one
    chooses, it answers no id, and if it creates the Secret it goes on with the id that
    the Secret shows. *)
Section choosing.
Context (to_answer : result (op_answer (Uuid := Uuid)) ReconcileError → answer (Uuid := Uuid)).
#[local] Notation safe_for u := (safe (ClusterIs u) (λ r, agrees name (ClusterIs u) (to_answer r))).

Definition created_safe (c : quorum_call) : (resp c → op_rest) → Prop :=
  match c with
  | CreateSecret s => λ k, name_any (sec_meta s) = sn →
      ∃ u, uuid_from_secret s = Ok u ∧ ∀ x, safe_for u (k x)
  | _ => λ _, True
  end.

Definition absent (c : quorum_call) : resp c → Prop :=
  match c with
  | GetSecretOpt n => λ x, n = sn → ∀ o, x = Ok o → o = None
  | GetSecret n => λ x, n = sn → ∀ s, x ≠ Ok s
  | CreateSecret s => λ x, name_any (sec_meta s) = sn → x ≠ Ok tt
  | PatchSecretStrings _ _ | NewUuid => λ _, True
  end.

Fixpoint choosing p : Prop :=
  (∀ u, safe_for u p) ∧
  match p with
  | Ret r => unanswered (to_answer r)
  | Do c k => created_safe c k ∧ ∀ x, absent c x → choosing (k x)
  end.

Lemma choosing_safe u p : choosing p → safe_for u p.
Proof. by destruct p; intros [? _]. Qed.

Lemma avoids_choosing p :
  (∀ u r, agrees name (ClusterIs u) (to_answer r)) → (∀ r, unanswered (to_answer r)) → avoids p → choosing p.
Proof.
  intros Hag Hun. induction p as [r|c k IH]; intros Hav; (split; [intros u; by apply avoids_safe|]); [done|].
  destruct Hav as [Hc Hk]. split; [|intros x _; by apply IH].
  destruct c; cbn in *; try done. intros Heq. by destruct Hc; f_equal.
Qed.

(** What a call leaves where there was no Secret. *)
Lemma answered_absent st c st' x k :
  srv_secrets st !! sn = None → answered st c st' x → created_safe c k →
  srv_secrets st' !! sn = None ∧ absent c x ∨
  ∃ u, stored st' name (ClusterIs u) ∧ safe_for u (k x).
Proof.
  intros Hs Ha Hc.
  assert (srv_secrets (server_step fresh st c).1 !! sn = None ∧ absent c (server_step fresh st c).2 ∨
    ∃ u, stored (server_step fresh st c).1 name (ClusterIs u) ∧ ∀ x, safe_for u (k x)) as Hstep.
  { destruct c as [n|n|s0|n m|]; cbn.
    - left. split; [done|]. intros -> o [= <-]. done.
    - left. split; [done|]. intros -> s. by rewrite Hs.
    - destruct (decide (name_any (sec_meta s0) = sn)) as [Hn|Hn].
      + right. destruct (Hc Hn) as (u & Hu & Hk). exists u. split; [|done]. exists s0.
        rewrite Hn, Hs. cbn. by rewrite lookup_insert_eq.
      + left. destruct (srv_secrets st !! name_any (sec_meta s0)); cbn; [by split|].
        rewrite lookup_insert_ne by done. by split.
    - left. split; [|done]. destruct (srv_secrets st !! n) as [s|] eqn:Hn; cbn; [|done].
      rewrite lookup_insert_ne; [done|]. congruence.
    - by left. }
  destruct Ha as [Ha|[[e He] Hor]].
  - rewrite <- Ha in Hstep. destruct Hstep as [?|(u & ? & ?)]; [by left|right; eauto].
  - assert (absent c x) as Hx by (by destruct c; cbn in *; simplify_eq).
    destruct Hor as [-> | ->]; [by left|]. destruct Hstep as [[? _]|(u & ? & ?)]; [by left|right; eauto].
Qed.
End choosing.

Definition process_choosing (pr : process) : Prop :=
  choosing (λ r, (pr_cluster pr, pr_op pr, r)) (pr_rest pr).

(** An operation has chosen nothing when it begins. *)
Lemma ensure_id_choosing parent version :
  name_any parent = name →
  choosing (λ r, (name_any parent, EnsureClusterId, r)) (op_prog parent version EnsureClusterId).
Proof.
  intros Hn. pose proof (f_equal cluster_id_secret_name Hn) as Hsn.
  split; [exact (λ u, op_safe (ClusterIs u) EnsureClusterId parent version)|]. cbn -[cluster_id_secret_name agrees]. split; [done|].
  intros [[s|]|e] Hx; cbn -[cluster_id_secret_name agrees]; [by specialize (Hx Hsn _ eq_refl)| |by split; intros ?].
  assert (∀ u id, safe (ClusterIs u) (λ r, agrees name (ClusterIs u) (name_any parent, EnsureClusterId, r))
    (match render_secret parent version id with
     | Ok s => Do (resp := resp) (CreateSecret s) (λ x,
         Ret (match match x with Ok _ => Ok id | Err e => Err (Kube e) end with Ok x => Ok (AnsId x) | Err e => Err e end))
     | Err e => Ret (Err e)
     end)) as Hsafe.
  { intros u id. destruct (render_secret parent version id) as [s|] eqn:Hr; cbn; [|by intros ?].
    split; [done|]. intros [[]|e] Hc; [|by intros ?]. destruct Hc; [by rewrite (rendered_name _ _ _ _ Hr)|done]. }
  split; [|split; [done|]].
  - intros u. split; [done|]. intros id _. specialize (Hsafe u id). by destruct (render_secret parent version id).
  - intros id _. destruct (render_secret parent version id) as [s|] eqn:Hr; cbn -[agrees]; [|by split; intros ?].
    split; [intros u; specialize (Hsafe u id); by rewrite Hr in Hsafe|]. split.
    + intros _. exists id. split; [|by intros [[]|e]; intros ?].
      unfold render_secret, owned_meta in Hr. destruct (owner_ref _ _); [|done]. injection Hr as <-. by apply created_reads.
    + intros [[]|e] Hc; cbn -[agrees]; [|by split; intros ?].
      destruct Hc; [by rewrite (rendered_name _ _ _ _ Hr)|done].
Qed.

Lemma op_choosing parent version op :
  choosing (λ r, (name_any parent, op, r)) (op_prog parent version op).
Proof.
  destruct (decide (name_any parent = name)) as [Hn|Hn].
  2:{ apply avoids_choosing; [by intros u r ?|by intros r ?|by apply other_avoids]. }
  pose proof (f_equal cluster_id_secret_name Hn) as Hsn.
  destruct op as [|c| |n]; [by apply ensure_id_choosing|..];
    (split; [exact (λ u, op_safe (ClusterIs u) _ parent version)|]); cbn -[cluster_id_secret_name agrees]; (split; [done|]); intros x Hx.
  - destruct x as [s|e]; [by destruct (Hx Hsn s)|]. by split; intros ?.
  - by split; [intros u ?|intros ? ?].
  - destruct x as [s|e]; [by destruct (Hx Hsn s)|]. by split; intros ?.
Qed.

(** The run of a cluster id: nothing was chosen, or one id was, for good. *)
Definition id_run (w : world (Uuid := Uuid)) (tr : list (answer (Uuid := Uuid))) : Prop :=
  (srv_secrets w.1 !! sn = None ∧ Forall process_choosing w.2 ∧ Forall unanswered tr) ∨
  ∃ u, settled (ClusterIs u) w ∧ Forall (agrees name (ClusterIs u)) tr.

Lemma unanswered_agrees u a : unanswered a → agrees name (ClusterIs u) a.
Proof.
  destruct a as [[cluster op] r]. intros Ha Hn. destruct op; try done. destruct r as [[v| |]|]; try done.
  by destruct (Ha Hn eq_refl v).
Qed.

Lemma choosing_processes u ps : Forall process_choosing ps → Forall (process_safe (ClusterIs u)) ps.
Proof. intros Hps. eapply Forall_impl; [exact Hps|]. intros p. apply choosing_safe. Qed.

Lemma id_run_step w tr w2 tr2 :
  id_run w tr → world_step parse_i32_error fresh w tr2 w2 → id_run w2 (tr ++ tr2).
Proof.
  intros [(Hs & Hps & Htr)|(u & Hw & Htr)] Hstep.
  2:{ right. exists u. destruct (settled_step _ _ _ _ Hw Hstep). split; [done|]. by apply Forall_app. }
  destruct Hstep as [st ps parent version op|st l1 p l2 c k st' x Hp Ha|st l1 p l2 r Hp|st l1 p l2];
    cbn [fst snd] in *; rewrite ?app_nil_r; try apply Forall_app in Hps as [H1 [H2 H3]%Forall_cons].
  - left. split_and!; [done| |done]. constructor; [apply op_choosing|done].
  - unfold process_choosing in H2. rewrite Hp in H2. destruct H2 as (_ & Hc & Hx).
    destruct (answered_absent _ st c st' x k Hs Ha Hc) as [[Hs' Hab]|(u & Hst & Hsafe)].
    + left. split_and!; [done| |done]. apply Forall_app. split; [done|]. constructor; [by apply Hx|done].
    + right. exists u. split; [|eapply Forall_impl; [exact Htr|apply unanswered_agrees]].
      split; [done|]. apply Forall_app. split; [by apply choosing_processes|].
      constructor; [done|by apply choosing_processes].
  - unfold process_choosing in H2. rewrite Hp in H2. destruct H2 as [_ Hr]. left.
    split_and!; [done|by apply Forall_app|]. apply Forall_app. by split; [|constructor].
  - left. split_and!; [done|by apply Forall_app|done].
Qed.

Lemma id_run_steps w tr w' :
  srv_secrets w.1 !! sn = None → w.2 = [] → world_steps parse_i32_error fresh w tr w' → id_run w' tr.
Proof.
  intros Hs Hq Hrun. induction Hrun as [w|w1 tr1 w2 tr2 w3 _ IH Hstep].
  - left. rewrite Hq. by split_and!.
  - eapply id_run_step; [by apply IH|done].
Qed.

(** An operation in flight that has made no call yet, or has only its answer left, which
    agrees with the choice. *)
Definition undisturbed f (pr : process) : Prop :=
  (∃ parent version, pr_cluster pr = name_any parent ∧ pr_rest pr = op_prog parent version (pr_op pr)) ∨
  ∃ r, pr_rest pr = Ret r ∧ agrees name f (pr_cluster pr, pr_op pr, r).

Lemma undisturbed_safe f pr : undisturbed f pr → process_safe f pr.
Proof.
  unfold process_safe. intros [(parent & version & Hc & ->)|(r & -> & Hr)]; [rewrite Hc; apply op_safe|done].
Qed.
End concurrent.
End proofs.

(** C28. The identity of a cluster is chosen once: the cluster id, the controller that
    formats the first quorum, and the directory id of each node, in the Secret of the
    cluster.  An operation that runs alone does what a store of write-once values does
    (it answers the value that the store held, or writes the new one where it held none;
    what it wrote reads back; the initialized flag never falls back), and touches no other
    Secret.  Operations of concurrent passes, for any clusters, interleave call by call,
    their calls fail with or without effect, and passes are cut anywhere: then a value
    that the Secret shows stays there, and every answer agrees with it, if each operation
    in flight at that time has made no call yet or has only an agreeing answer left (one
    that read the Secret before the choice may still overwrite it, [bootstrap_race]); and
    for the cluster id, whose Secret is created and not patched, all answers agree with each other and with the Secret,
    from no Secret on, in any interleaving. *)
Theorem identity_chosen_once `{UuidLaws Uuid} parse_i32_error (fresh : nat → Uuid) parent version uid :
  om_uid parent = Some uid →
  let name := name_any parent in
  let secret_name := cluster_id_secret_name name in
  let run := run_op parse_i32_error fresh parent version in
  (∀ op st a, represents parse_i32_error name st a → op_ok op →
     let next := spec_step (fresh (srv_next st)) op a in
     (run op st).2 = next.2 ∧ represents parse_i32_error name (run op st).1 next.1 ∧ keeps a next.1 ∧
     ∀ n, n ≠ secret_name → srv_secrets (run op st).1 !! n = srv_secrets st !! n) ∧
  (∀ f st ps tr st' ps',
     stored parse_i32_error st name f → Forall (undisturbed parse_i32_error name f) ps →
     world_steps parse_i32_error fresh (st, ps) tr (st', ps') →
     stored parse_i32_error st' name f ∧ Forall (agrees name f) tr) ∧
  (∀ st tr st' ps' u,
     srv_secrets st !! secret_name = None → world_steps parse_i32_error fresh (st, []) tr (st', ps') →
     (name, EnsureClusterId, Ok (AnsId u)) ∈ tr →
     stored parse_i32_error st' name (ClusterIs u) ∧ Forall (agrees name (ClusterIs u)) tr).
Proof.
  intros Huid name secret_name run. split_and!.
  - intros op st a Hr Hop next.
    destruct (op_refines parse_i32_error fresh parent version uid Huid op st a Hr Hop) as (Ha & Hs & Ho).
    split_and!; [done|done|apply spec_keeps|done].
  - intros f st ps tr st' ps' Hf Hps Hrun.
    destruct (settled_steps parse_i32_error fresh name f (st, ps) tr (st', ps')) as [[Hst _] Htr]; [|done|done].
    split; [done|]. eapply Forall_impl; [exact Hps|apply undisturbed_safe].
  - intros st tr st' ps' u Hnone Hrun Hin.
    destruct (id_run_steps parse_i32_error fresh name (st, []) tr (st', ps')) as [(_ & _ & Htr)|(v & [Hst _] & Htr)];
      [done|done|done|..]; rewrite Forall_forall in Htr; specialize (Htr _ Hin) as Hv.
    + by destruct (Hv eq_refl eq_refl u).
    + cbn in Hv. rewrite (Hv eq_refl). split; [done|by apply Forall_forall].
Qed.

(** Ids that are decimal numbers. *)
Module QuorumDemo.
#[export] Instance uuid_nat : UuidOps nat :=
  {| uuid_str := λ n, display_Z (Z.of_nat n);
     parse_uuid := λ s, match parse_nonempty_digits s with
                        | Some z => Ok (Z.to_nat z) | None => Err "not a number" end |}.
#[export] Instance uuid_nat_laws : UuidLaws nat.
Proof.
  split; cbn; intros u; [rewrite parse_nonempty_display by lia; by rewrite Nat2Z.id|].
  apply display_Z_utf8. lia.
Qed.
Definition meta : object_meta :=
  {| om_name := Some "demo"; om_namespace := Some "kafka"; om_uid := Some "u1";
     om_labels := None; om_annotations := None; om_finalizers := None;
     om_generation := None; om_deleting := false; om_owners := [] |}.

(** The Secret of the cluster [demo], with its id only. *)
Definition created : server := {|
  srv_secrets := {["demo-cluster-id" := Secret meta (Some {["clusterId" := "7"]})]}; srv_next := 8 |}.
Definition first : QuorumBootstrapController := {| qb_node_id := 100; qb_pool := "b" |}.
Definition second : QuorumBootstrapController := {| qb_node_id := 0; qb_pool := "a" |}.
(** The same with the first controller stored. *)
Definition chosen : server := (run_op (λ _, "") id meta "4.0.0" (EnsureBootstrap first) created).1.
End QuorumDemo.
#[local] Existing Instance QuorumDemo.uuid_nat.
#[local] Existing Instance QuorumDemo.uuid_nat_laws.

Lemma world_steps_l `{UuidOps Uuid} pe (fresh : nat → Uuid) w1 tr1 w2 tr2 w3 :
  world_step pe fresh w1 tr1 w2 → world_steps pe fresh w2 tr2 w3 → world_steps pe fresh w1 (tr1 ++ tr2) w3.
Proof.
  intros Hstep Hrun. induction Hrun as [w|w2 tra w4 trb w5 _ IH Hs].
  - rewrite <- (app_nil_l (tr1 ++ [])), app_nil_r. eapply wss_step; [apply wss_refl|done].
  - rewrite app_assoc. eapply wss_step; [by apply IH|done].
Qed.

(** The next call, or the answer, of the process after [l1] of those in flight. *)
Ltac one_call l1 :=
  eapply world_steps_l; [apply (ws_call _ _ _ l1); [reflexivity|left; vm_compute; reflexivity]|cbn [app with_rest]].
Ltac one_answer l1 :=
  eapply world_steps_l; [apply (ws_answer _ _ _ l1); vm_compute; reflexivity|cbn [app]].
Ltac one_start op :=
  eapply world_steps_l; [apply (ws_start _ _ _ _ QuorumDemo.meta "4.0.0" op)|].

(** A second candidate that comes later is answered with the first. *)
Lemma identity_chosen_once_witness :
  stored (Uuid := nat) (λ _, "") QuorumDemo.chosen "demo" (FirstControllerIs QuorumDemo.first) ∧
  ∃ tr st', world_steps (Uuid := nat) (λ _, "") id (QuorumDemo.chosen, []) tr (st', []) ∧
    length tr = 1%nat ∧ Forall (agrees "demo" (FirstControllerIs QuorumDemo.first)) tr.
Proof.
  assert (stored (Uuid := nat) (λ _, "") QuorumDemo.chosen "demo" (FirstControllerIs QuorumDemo.first)) as Hst.
  { eexists. split; [vm_compute; reflexivity|]. eexists. split; [vm_compute; reflexivity|reflexivity]. }
  split; [exact Hst|].
  assert (∃ tr st', world_steps (Uuid := nat) (λ _, "") id (QuorumDemo.chosen, []) tr (st', []) ∧ length tr = 1%nat)
    as (tr & st' & Hrun & Hlen).
  { eexists _, _. split.
    - one_start (EnsureBootstrap QuorumDemo.second). one_call (@nil (process (Uuid := nat))).
      one_answer (@nil (process (Uuid := nat))). apply wss_refl.
    - reflexivity. }
  exists tr, st'. split; [exact Hrun|]. split; [exact Hlen|].
  destruct (identity_chosen_once (Uuid := nat) (λ _, "") id QuorumDemo.meta "4.0.0" "u1" eq_refl) as (_ & Hkeep & _).
  eapply (Hkeep (FirstControllerIs QuorumDemo.first) QuorumDemo.chosen [] tr st' []);
    [exact Hst|constructor|exact Hrun].
Defined.

(** The first controller is read and then patched, without a check of the version.  Two
    passes that both read before one of them writes are answered different controllers,
    and the later write wins: the Secret names the second one, and says that the quorum is
    not initialized although it was marked so in between. *)
Lemma bootstrap_race :
  ∃ tr st', world_steps (Uuid := nat) (λ _, "") id (QuorumDemo.created, []) tr (st', []) ∧
    tr = [("demo", EnsureBootstrap QuorumDemo.first,
           Ok (AnsBootstrap {| qb_controller := QuorumDemo.first; qb_initialized := false |}));
          ("demo", MarkInitialized, Ok AnsUnit);
          ("demo", EnsureBootstrap QuorumDemo.second,
           Ok (AnsBootstrap {| qb_controller := QuorumDemo.second; qb_initialized := false |}))] ∧
    ∃ s, srv_secrets st' !! "demo-cluster-id" = Some s ∧
      quorum_bootstrap_state_from_secret (λ _, "") s =
        Ok (Some {| qb_controller := QuorumDemo.second; qb_initialized := false |}).
Proof.
  eexists _, _. split; [|split].
  - one_start (EnsureBootstrap QuorumDemo.second). one_start (EnsureBootstrap QuorumDemo.first).
    one_call (@nil (process (Uuid := nat))).
    match goal with |- world_steps _ _ (_, [?p; _]) _ _ => one_call [p] end.
    one_call (@nil (process (Uuid := nat))). one_answer (@nil (process (Uuid := nat))).
    one_start (MarkInitialized). one_call (@nil (process (Uuid := nat))). one_answer (@nil (process (Uuid := nat))).
    one_call (@nil (process (Uuid := nat))). one_answer (@nil (process (Uuid := nat))). apply wss_refl.
  - reflexivity.
  - eexists. split; [vm_compute; reflexivity|vm_compute; reflexivity].
Qed.
