(* ===== verification/Advertised.v ===== *)
(** * Advertised addresses and certificate names of a broker

    What a broker advertises for each listener (src/controller/listeners.rs), the
    addresses of external listeners that the operator observes, the subject
    alternative names it puts into the broker's certificate for them, and the
    listener status of the cluster (src/controller/kafka.rs). *)

From S2P Require Import Prelude RustStd Effects Kube Workload CaBundle ClusterCa BrokerKeystore Listeners.
From S2P Require Import ListenerCheck NodePool ListenerObjects.
Local Open Scope Z_scope.

(** ** Advertised addresses *)
Record AdvertisedAddress : Type := { adv_host : string; adv_port : Z }.

Inductive AdvertisedError : Type :=
  | PodNotScheduled (broker : Z)
  | NodeNotFound (broker : Z) (node : string)
  | NodeHasNoAddress (broker : Z) (node : string)
  | ServiceMissing (broker : Z) (service : string)
  | NodePortNotAllocated (broker : Z)
  | LoadBalancerPending (broker : Z) (service : string)
  | IngressBrokerHostMissing (broker : Z) (listener : string).

Definition advertised_message (e : AdvertisedError) : string :=
  match e with
  | PodNotScheduled b => "pod for broker " +:+ display_Z b +:+ " not yet scheduled"
  | NodeNotFound b n => "node " +:+ n +:+ " for broker " +:+ display_Z b +:+ " not visible"
  | NodeHasNoAddress b n => "node " +:+ n +:+ " for broker " +:+ display_Z b +:+ " has no addresses"
  | ServiceMissing b s => "service " +:+ s +:+ " for broker " +:+ display_Z b +:+ " missing"
  | NodePortNotAllocated b => "nodePort for broker " +:+ display_Z b +:+ " not allocated yet"
  | LoadBalancerPending b s =>
      "loadBalancer for service " +:+ s +:+ " (broker " +:+ display_Z b +:+ ") not provisioned"
  | IngressBrokerHostMissing b l =>
      "listener '" +:+ l +:+ "' broker " +:+ display_Z b +:+ " has no configuration.brokers[].host " +:+
      "(or advertisedHost); ingress/route listeners require a hostname per broker"
  end.

(** The first address of a type. *)
Definition address_of (ty : string) (addrs : list NodeAddr) : option NodeAddr :=
  find_first (λ a, str_eqb (na_type a) ty) addrs.

Definition preferred_address (n : Node) : option string :=
  and_then (nd_addresses n) (λ a,
    opt_map na_address (or_else (address_of "ExternalIP" a) (address_of "InternalIP" a))).

(** [spec.ports[0].nodePort] and [status.loadBalancer.ingress[0]] *)
Definition first_node_port (s : Service) : option Z :=
  and_then (and_then (svc_spec s) svc_ports) (λ ps, and_then (head ps) sp_node_port).
Definition first_ingress (s : Service) : option LoadBalancerIngress :=
  and_then (svc_ingress s) head.
Definition ingress_host (i : LoadBalancerIngress) : option string :=
  or_else (lb_hostname i) (lb_ip i).

Section advertised.
Context {Time : Type}.
#[local] Notation Listener := (Listener Time).
Implicit Types (l : Listener) (ls : list Listener).

Definition node_host (broker : Z) (pod_node_name : option string) (nodes_by_name : gmap string Node)
  : result string AdvertisedError :=
  let? node_name := ok_or pod_node_name (PodNotScheduled broker) in
  let? node := ok_or (nodes_by_name !! node_name) (NodeNotFound broker node_name) in
  ok_or (preferred_address node) (NodeHasNoAddress broker node_name).

Definition nodeport_port (broker : Z) (override_ : option BrokerOverride)
    (per_broker_service : option Service) : result Z AdvertisedError :=
  match and_then override_ bo_advertised_port with
  | Some p => Ok p
  | None =>
      match and_then override_ bo_node_port with
      | Some p => Ok p
      | None =>
          let? svc := ok_or per_broker_service (ServiceMissing broker "") in
          ok_or (first_node_port svc) (NodePortNotAllocated broker)
      end
  end.

Definition compute_advertised l (broker : Z) (pod_fqdn : string) (pod_node_name : option string)
    (nodes_by_name : gmap string Node) (per_broker_service : option Service)
  : result AdvertisedAddress AdvertisedError :=
  let override_ := broker_override l broker in
  match l_type l with
  | Internal => Ok {| adv_host := pod_fqdn; adv_port := l_port l |}
  | Nodeport =>
      let? host := match and_then override_ bo_advertised_host with
                   | Some h => Ok h
                   | None => node_host broker pod_node_name nodes_by_name
                   end in
      let? port := nodeport_port broker override_ per_broker_service in
      Ok {| adv_host := host; adv_port := port |}
  | Loadbalancer =>
      let name := default "" (and_then per_broker_service (λ s, om_name (svc_meta s))) in
      let? host := match and_then override_ bo_advertised_host with
                   | Some h => Ok h
                   | None =>
                       let? svc := ok_or per_broker_service (ServiceMissing broker "") in
                       let? ingress := ok_or (first_ingress svc) (LoadBalancerPending broker name) in
                       ok_or (ingress_host ingress) (LoadBalancerPending broker name)
                   end in
      Ok {| adv_host := host;
            adv_port := default (l_port l) (and_then override_ bo_advertised_port) |}
  | Ingress | Route =>
      let? host := ok_or (ingress_broker_host l broker)
                     (IngressBrokerHostMissing broker (l_name l)) in
      Ok {| adv_host := host;
            adv_port := default INGRESS_PORT (and_then override_ bo_advertised_port) |}
  end.

(** ** The state that was applied, read back *)
Record ExternalState : Type := {
  ext_nodes : gmap string Node;
  ext_node_order : list Node;       (* the values, in the order the HashMap yields them *)
  ext_pods : gmap string Pod;
  ext_bootstrap_services : gmap string Service;
  ext_broker_services : gmap (string * Z) Service;
}.

(** [for n in items { if let Some(name) = n.name { map.insert(name, n) } }] *)
Definition index_by_name {A} (name : A → option string) (items : list A) : gmap string A :=
  fold_left (λ m a, match name a with Some n => <[n := a]> m | None => m end) items ∅.

#[local] Notation pass R := (prog ext_resp (result R (option ReconcileError))).
#[local] Notation call := (perform (resp := ext_resp)).

Definition has_service l : bool :=
  match l_type l with Nodeport | Loadbalancer => true | _ => false end.

(** The Services of one listener, added to the two maps. *)
Fixpoint read_broker_services (cluster_name : string) l (brokers : list NodeInfo)
    (m : gmap (string * Z) Service) : pass (gmap (string * Z) Service) :=
  match brokers with
  | [] => Ret (Ok m)
  | b :: brokers =>
      s ←? api (call (GetServiceOpt (broker_object_name cluster_name l (broker_id b))));
      read_broker_services cluster_name l brokers
        (match s with Some s => <[(l_name l, broker_id b) := s]> m | None => m end)
  end.

Fixpoint read_services (cluster_name : string) ls (brokers : list NodeInfo)
    (boot : gmap string Service) (per : gmap (string * Z) Service)
  : pass (gmap string Service * gmap (string * Z) Service) :=
  match ls with
  | [] => Ret (Ok (boot, per))
  | l :: ls =>
      let bs_name := bootstrap_object_name cluster_name l in
      bs ←? api (call (GetServiceOpt bs_name));
      per ←? read_broker_services cluster_name l brokers per;
      read_services cluster_name ls brokers
        (match bs with Some bs => <[bs_name := bs]> boot | None => boot end) per
  end.

(** [map_order] is the iteration order of the HashMap of nodes. *)
Definition read_external_state (map_order : gmap string Node → list Node) (cluster_name : string) ls
    (brokers : list NodeInfo) : pass ExternalState :=
  objects ←? (if existsb has_service ls then
                nodes ←? api (call ListNodes);
                pods ←? api (call (ListClusterPods ("app.kubernetes.io/instance=" +:+ cluster_name)));
                Ret (Ok (index_by_name nd_name nodes, index_by_name (λ p, om_name (pod_meta p)) pods))
              else Ret (Ok (∅, ∅)));
  services ←? read_services cluster_name (List.filter has_service ls) brokers ∅ ∅;
  Ret (Ok {| ext_nodes := objects.1; ext_node_order := map_order objects.1;
             ext_pods := objects.2; ext_bootstrap_services := services.1;
             ext_broker_services := services.2 |}).

Definition is_broker (n : NodeInfo) : bool := existsb (λ r, bool_decide (r = Broker)) (ni_roles n).

(** One node: its listeners in order, stopping at the first error. *)
Fixpoint node_addresses ls (st : ExternalState) (b : NodeInfo) (m : gmap string AdvertisedAddress)
  : result (gmap string AdvertisedAddress) AdvertisedError :=
  match ls with
  | [] => Ok m
  | l :: ls =>
      let pod_node := and_then (and_then (ext_pods st !! pod_name b) pod_spec) node_name in
      let? addr := compute_advertised l (broker_id b) (pod_fqdn b) pod_node (ext_nodes st)
                     (ext_broker_services st !! (l_name l, broker_id b)) in
      node_addresses ls st b (<[l_name l := addr]> m)
  end.

Fixpoint resolve_addresses_per_broker ls (inter_broker operator : string) (nodes : list NodeInfo)
    (st : ExternalState) (out : gmap Z (gmap string AdvertisedAddress))
  : result (gmap Z (gmap string AdvertisedAddress)) AdvertisedError :=
  match nodes with
  | [] => Ok out
  | b :: nodes =>
      let mine := List.filter (λ l, is_broker b || str_eqb (l_name l) inter_broker
                                    || str_eqb (l_name l) operator) ls in
      let? m := node_addresses mine st b ∅ in
      resolve_addresses_per_broker ls inter_broker operator nodes st (<[broker_id b := m]> out)
  end.

(** ** Listener status *)
Definition resolve_bootstrap_servers l (st : ExternalState) (cluster_name namespace : string)
  : option string :=
  let service := ext_bootstrap_services st !! bootstrap_object_name cluster_name l in
  match l_type l with
  | Internal =>
      Some (cluster_name +:+ "-broker-headless." +:+ namespace +:+ ".svc.cluster.local:" +:+
            display_Z (l_port l))
  | Nodeport =>
      and_then (and_then service first_node_port) (λ port,
        opt_map (λ host, host +:+ ":" +:+ display_Z port)
          (first_some preferred_address (ext_node_order st)))
  | Loadbalancer =>
      opt_map (λ host, host +:+ ":" +:+ display_Z (l_port l))
        (and_then (and_then service first_ingress) ingress_host)
  | Ingress | Route =>
      opt_map (λ host, host +:+ ":" +:+ display_Z INGRESS_PORT) (ingress_bootstrap_host l)
  end.

Definition address_leb (a b : ListenerAddress) : bool :=
  if str_eqb (la_host a) (la_host b) then la_port a <=? la_port b
  else str_leb (la_host a) (la_host b).

Definition build_listener_status ls (addresses : gmap Z (gmap string AdvertisedAddress))
    (st : ExternalState) (cluster_name namespace : string) : list ListenerStatus :=
  filter_map (λ l,
    opt_map (λ servers,
      {| ls_name := l_name l; ls_type := l_type l; bootstrap_servers := servers;
         ls_addresses := sort_by address_leb
           (filter_map (λ '(_, m), opt_map (λ a, {| la_host := adv_host a; la_port := adv_port a |})
                                     (m !! l_name l)) (btree_list_Z addresses)) |})
      (resolve_bootstrap_servers l st cluster_name namespace)) ls.
End advertised.

(** ** Observed addresses and certificate names *)
Section sans.
Context {Time IpAddr : Type} `{EqDecision IpAddr}.
(** [str::parse::<IpAddr>] and the order of [SubjectAltName]. *)
Context (parse_ip : string → option IpAddr).
#[local] Notation Listener := (Listener Time).
#[local] Notation San := (SubjectAltName IpAddr).
Context (san_leb : San → San → bool).
Implicit Types (l : Listener) (ls : list Listener).

Inductive NodeAddress : Type := ExternalIp (ip : IpAddr) | ExternalDns (d : string).
Inductive LbIngress : Type := LbIp (ip : IpAddr) | LbHostname (h : string).

Record ListenerObservedAddresses : Type := {
  nodeport_node_addresses : list NodeAddress;
  lb_per_broker : gmap Z (list LbIngress);
  lb_bootstrap : list LbIngress;
}.

Inductive SanComputationError : Type := SansNotReady (broker : Z) (listener : string).

Definition node_address_san (a : NodeAddress) : San :=
  match a with ExternalIp ip => Ip ip | ExternalDns d => Dns d end.
Definition lb_ingress_san (i : LbIngress) : San :=
  match i with LbIp ip => Ip ip | LbHostname h => Dns h end.

(** The names one listener adds. *)
Definition listener_sans (broker : Z) l (observed : ListenerObservedAddresses)
  : result (list San) SanComputationError :=
  if negb (l_tls l) then Ok []
  else
    match l_type l with
    | Internal => Ok []
    | Ingress | Route =>
        Ok (from_option (λ h, [Dns h]) [] (ingress_broker_host l broker) ++
            from_option (λ h, [Dns h]) [] (ingress_bootstrap_host l))
    | Nodeport =>
        Ok (map node_address_san (nodeport_node_addresses observed) ++
            from_option (λ cfg,
              filter_map (λ ovr, if bo_broker ovr =? broker
                                 then opt_map Dns (bo_advertised_host ovr) else None)
                (lc_brokers cfg)) [] (l_configuration l))
    | Loadbalancer =>
        match lb_per_broker observed !! broker with
        | None | Some [] => Err (SansNotReady broker (l_name l))
        | Some entries => Ok (map lb_ingress_san (entries ++ lb_bootstrap observed))
        end
    end.

Fixpoint collect_sans (broker : Z) ls (observed : ListenerObservedAddresses) (sans : list San)
  : result (list San) SanComputationError :=
  match ls with
  | [] => Ok sans
  | l :: ls =>
      let? more := listener_sans broker l observed in
      collect_sans broker ls observed (sans ++ more)
  end.

Definition compute_extra_sans (broker : Z) ls (observed : ListenerObservedAddresses)
  : result (list San) SanComputationError :=
  let? sans := collect_sans broker ls observed [] in
  Ok (dedup (sort_by san_leb sans)).

(** *** Observation *)
#[local] Notation pass R := (prog ext_resp (result R (option ReconcileError))).
#[local] Notation call := (perform (resp := ext_resp)).

Definition observed_node_address (a : NodeAddr) : option NodeAddress :=
  if str_eqb (na_type a) "ExternalIP" then opt_map ExternalIp (parse_ip (na_address a))
  else if str_eqb (na_type a) "ExternalDNS" || str_eqb (na_type a) "Hostname"
  then Some (ExternalDns (na_address a))
  else None.

Definition observed_node (n : Node) : list NodeAddress :=
  filter_map observed_node_address (default [] (nd_addresses n)).

Definition observed_ingress (i : LoadBalancerIngress) : list LbIngress :=
  from_option (λ ip, [LbIp ip]) [] (and_then (lb_ip i) parse_ip) ++
  from_option (λ h, [LbHostname h]) [] (lb_hostname i).

(** The entries of a Service that was fetched; an error counts as none. *)
Definition observed_service (r : result Service kube_error) : list LbIngress :=
  match r with
  | Ok s => concat (map observed_ingress (default [] (svc_ingress s)))
  | Err _ => []
  end.

(** [entry(broker).or_default().push(..)] for each entry: no entry, no key. *)
Definition push_entries (broker : Z) (entries : list LbIngress) (m : gmap Z (list LbIngress))
  : gmap Z (list LbIngress) :=
  match entries with
  | [] => m
  | _ => <[broker := default [] (m !! broker) ++ entries]> m
  end.

Fixpoint observe_brokers (cluster_name : string) l (broker_ids : list Z) (m : gmap Z (list LbIngress))
  : prog ext_resp (gmap Z (list LbIngress)) :=
  match broker_ids with
  | [] => Ret m
  | id :: broker_ids =>
      r ← call (GetService (broker_object_name cluster_name l id));
      observe_brokers cluster_name l broker_ids (push_entries id (observed_service r) m)
  end.

Definition needs_lb l : bool := bool_decide (l_type l = Loadbalancer) && l_tls l.

Fixpoint observe_listeners (cluster_name : string) ls (broker_ids : list Z)
    (out : ListenerObservedAddresses) : prog ext_resp ListenerObservedAddresses :=
  match ls with
  | [] => Ret out
  | l :: ls =>
      if needs_lb l then
        per ← observe_brokers cluster_name l broker_ids (lb_per_broker out);
        r ← call (GetService (bootstrap_object_name cluster_name l));
        observe_listeners cluster_name ls broker_ids
          {| nodeport_node_addresses := nodeport_node_addresses out;
             lb_per_broker := per;
             lb_bootstrap := lb_bootstrap out ++ observed_service r |}
      else observe_listeners cluster_name ls broker_ids out
  end.

Definition observe_listener_addresses (cluster_name : string) ls (broker_ids : list Z)
  : pass ListenerObservedAddresses :=
  nodes ←? (if existsb (λ l, bool_decide (l_type l = Nodeport) && l_tls l) ls
            then api (call ListNodes) else Ret (Ok []));
  out ← observe_listeners cluster_name ls broker_ids
          {| nodeport_node_addresses := concat (map observed_node nodes);
             lb_per_broker := ∅; lb_bootstrap := [] |};
  Ret (Ok out).

(** *** The certificate request of a node (src/controller/kafka.rs) *)
Definition cert_request (localhost : IpAddr) (cluster_name namespace : string) (node : NodeInfo)
    (extra : list San) : BrokerCertRequest IpAddr :=
  {| BrokerKeystore.broker_id := broker_id node;
     req_cn := pod_name node;
     sans := [Dns (pod_fqdn node); Dns (pod_name node);
              Dns (cluster_name +:+ "-broker-headless." +:+ namespace +:+ ".svc.cluster.local");
              Ip localhost];
     extra_sans := extra |}.

(** The extra names per broker; a broker that waits for its load balancer is put
    on the pending list instead. *)
Fixpoint extra_sans_of ls (observed : ListenerObservedAddresses) (brokers : list NodeInfo)
    (m : gmap Z (list San)) (pending : list (Z * string)) : gmap Z (list San) * list (Z * string) :=
  match brokers with
  | [] => (m, pending)
  | b :: brokers =>
      match compute_extra_sans (broker_id b) ls observed with
      | Ok s => extra_sans_of ls observed brokers (<[broker_id b := s]> m) pending
      | Err (SansNotReady id l) => extra_sans_of ls observed brokers m (pending ++ [(id, l)])
      end
  end.
End sans.

(** A broker on the pending list has a load-balancer listener over TLS whose Service has
    no address yet. *)
Section pending.
Context {Time IpAddr : Type} `{EqDecision IpAddr}.
#[local] Notation San := (SubjectAltName IpAddr).
Context (san_leb : San → San → bool) (ls : list (Listener Time)).
Context (obs : ListenerObservedAddresses (IpAddr := IpAddr)).

Definition awaits_address (id : Z) (name : string) : Prop :=
  ∃ l, l ∈ ls ∧ l_name l = name ∧ l_type l = Loadbalancer ∧ l_tls l = true ∧
    default [] (lb_per_broker obs !! id) = [].

Lemma sans_pending broker (ls' : list (Listener Time)) acc id name :
  ls' ⊆ ls → collect_sans broker ls' obs acc = Err (SansNotReady id name) → id = broker ∧ awaits_address id name.
Proof.
  revert acc. induction ls' as [|l ls' IH]; intros acc Hsub; cbn [collect_sans]; [done|].
  destruct (listener_sans broker l obs) as [more|e] eqn:Hl; [apply IH; set_solver|].
  intros [= ->]. unfold listener_sans in Hl. destruct (l_tls l) eqn:Ht; cbn in Hl; [|done].
  destruct (l_type l) eqn:Hty; try done.
  destruct (lb_per_broker obs !! broker) as [[|e es]|] eqn:Hm; try done; injection Hl as <- <-;
    (split; [done|]); exists l; rewrite Hm; (split_and!; [set_solver|done..]).
Qed.

Lemma pending_awaits (brokers : list NodeInfo) m pending id name :
  (∀ id name, (id, name) ∈ pending → awaits_address id name) →
  (id, name) ∈ (extra_sans_of san_leb ls obs brokers m pending).2 → awaits_address id name.
Proof.
  revert m pending. induction brokers as [|b brokers IH]; intros m pending Hp; cbn [extra_sans_of]; [by apply Hp|].
  unfold compute_extra_sans. destruct (collect_sans (NodePool.broker_id b) ls obs []) as [s|[id' l]] eqn:Hc; [by apply IH|].
  apply IH. intros id1 n1 [Hin|[= -> ->]%list_elem_of_singleton]%elem_of_app; [by apply Hp|].
  by apply sans_pending in Hc as [_ ?].
Qed.
End pending.

(** ** The certificate covers what is advertised *)
Section certified.
Context {Time IpAddr : Type} `{EqDecision IpAddr}.
Context (parse_ip : string → option IpAddr).
#[local] Notation Listener := (Listener Time).
#[local] Notation San := (SubjectAltName IpAddr).
Context (san_leb : San → San → bool) (localhost : IpAddr).
Context (cluster_name namespace : string) (ls : list Listener) (broker_ids : list Z).
Implicit Types (l : Listener) (b : NodeInfo) (obs : ListenerObservedAddresses (IpAddr := IpAddr)).

(** The cluster as the API server shows it during a pass. *)
Record snapshot : Type := { sn_nodes : list Node; sn_services : gmap string Service }.
Context (sn : snapshot).


(** A client that dials [host] accepts a certificate with these names: it looks for an
    address among the addresses, and for a name among the names. *)
Definition certifies (names : list San) (host : string) : Prop :=
  match parse_ip host with Some ip => Ip ip ∈ names | None => Dns host ∈ names end.
















End certified.

(** A cluster with one node and a load-balancer listener over TLS. *)
Module Demo.
(** Addresses are texts that start with a digit. *)
Definition parse (s : string) : option string :=
  match s with String c _ => if is_ascii_digit c then Some s else None | "" => None end.
Definition san_leb (a b : SubjectAltName string) : bool :=
  match a, b with
  | Dns a, Dns b | Ip a, Ip b => str_leb a b
  | Dns _, Ip _ => true
  | Ip _, Dns _ => false
  end.

Definition external (type_ : ListenerType) (host : option string) : Listener Z :=
  {| l_name := "ext"; l_port := 9094; l_type := type_; l_tls := true;
     l_authentication := None;
     l_configuration := Some {| lc_bootstrap := None;
       lc_brokers := [{| bo_broker := 0; bo_advertised_host := host; bo_advertised_port := None;
                         bo_node_port := Some 30000; bo_load_balancer_ip := None;
                         bo_host := None |}];
       lc_ingress_class := None |};
     l_network_policy_peers := None |}.

Definition lb_service : Service :=
  {| svc_meta := empty_meta; svc_spec := None;
     svc_ingress := Some [{| lb_hostname := None; lb_ip := Some "203.0.113.7" |}] |}.

Definition cluster (address_type : string) : snapshot :=
  {| sn_nodes := [{| nd_name := Some "n1";
                     nd_addresses := Some [{| na_type := address_type; na_address := "10.0.0.5" |}] |}];
     sn_services := {["prod-ext-0" := lb_service]} |}.

Definition answer (sn : snapshot) (_ : unit) (c : ext_call) : unit * ext_resp c :=
  (tt, match c return ext_resp c with
       | ApplyService _ _ | ApplyIngress _ _ | ApplyRoute _ _ => Ok tt
       | ListNodes => Ok (sn_nodes sn)
       | ListClusterPods _ => Ok []
       | GetServiceOpt n => Ok (sn_services sn !! n)
       | GetService n => match sn_services sn !! n with Some s => Ok s | None => Err (KubeApi 404) end
       end).

Definition node : NodeInfo :=
  {| broker_id := 0; pod_name := "prod-a-0"; pod_fqdn := "prod-a-0.prod-broker-headless";
     ni_roles := [Broker] |}.

(** The names of the certificate that a pass requests. *)
Definition requested (sn : snapshot) (l : Listener Z) : option (list (SubjectAltName string)) :=
  match (exec (answer sn) (observe_listener_addresses parse "prod" [l] [0]) tt).2 with
  | Ok obs =>
      match compute_extra_sans san_leb 0 [l] obs with
      | Ok extra =>
          let req := cert_request "127.0.0.1" "prod" "kafka" node extra in
          Some (sans req ++ extra_sans req)
      | Err _ => None
      end
  | Err _ => None
  end.

Definition advertised (sn : snapshot) (l : Listener Z) : option string :=
  opt_map adv_host (result_ok (compute_advertised l 0 (pod_fqdn node) (Some "n1")
    (index_by_name nd_name (sn_nodes sn)) (sn_services sn !! "prod-ext-0"))).
End Demo.


(** The host of a load-balancer listener may be overridden, but the override is not
    among the names. *)
Lemma lb_override_not_certified :
  let sn := Demo.cluster "ExternalIP" in
  let l := Demo.external Loadbalancer (Some "kafka.example") in
  Demo.advertised sn l = Some "kafka.example" ∧
  ∃ names, Demo.requested sn l = Some names ∧ ¬ certifies Demo.parse names "kafka.example".
Proof.
  split; [vm_compute; reflexivity|]. eexists. split; [vm_compute; reflexivity|].
  unfold certifies. cbn [Demo.parse]. apply (bool_decide_unpack _). vm_compute. exact I.
Qed.

(** A node port is advertised on the internal address of a node without an external
    one, which is not among the names either. *)
Lemma internal_ip_not_certified :
  let sn := Demo.cluster "InternalIP" in let l := Demo.external Nodeport None in
  Demo.advertised sn l = Some "10.0.0.5" ∧
  ∃ names, Demo.requested sn l = Some names ∧ ¬ certifies Demo.parse names "10.0.0.5".
Proof.
  split; [vm_compute; reflexivity|]. eexists. split; [vm_compute; reflexivity|].
  unfold certifies. cbn [Demo.parse]. apply (bool_decide_unpack _). vm_compute. exact I.
Qed.

(** An override of the host of a node port may be an address: it is asked for as a name,
    which no client looks for when it dials an address. *)
Lemma override_address_not_certified :
  let sn := Demo.cluster "ExternalIP" in
  let l := Demo.external Nodeport (Some "10.9.9.9") in
  Demo.advertised sn l = Some "10.9.9.9" ∧
  ∃ names, Demo.requested sn l = Some names ∧ ¬ certifies Demo.parse names "10.9.9.9".
Proof.
  split; [vm_compute; reflexivity|]. eexists. split; [vm_compute; reflexivity|].
  unfold certifies. cbn [Demo.parse]. apply (bool_decide_unpack _). vm_compute. exact I.
Qed.
