(* ===== verification/NetworkPolicy.v ===== *)
(** * The network policy of a cluster (src/controller/network_policy.rs)

    The policy that fences the pods of a cluster, and the step that applies or
    removes it.  The meaning of a policy is the one that Kubernetes documents: the pods
    that an ingress policy selects in its namespace take a connection only when a rule
    names its protocol, its port and its source. *)

From S2P Require Import Prelude RustStd Effects Kube Workload Listeners ListenerCheck NodePool.
From S2P Require Import ListenerObjects.
Local Open Scope Z_scope.

Definition METRICS_PORT : Z := 9404.
Definition OPERATOR_COMPONENT_LABEL : string := "operator".

(** ** Objects.  [K8sPeer] never has an IP block here. *)
Record K8sPeer : Type := {
  k_pod_selector : option LabelSelector;
  k_namespace_selector : option LabelSelector;
}.

Record NetworkPolicyPort : Type := { np_protocol : option string; np_port : option Z }.

Record IngressPolicyRule : Type := {
  pr_from : option (list K8sPeer);
  pr_ports : option (list NetworkPolicyPort);
}.

Record NetworkPolicyObject : Type := {
  pol_meta : object_meta;
  pol_pod_selector : LabelSelector;
  pol_policy_types : list string;
  pol_ingress : list IngressPolicyRule;
}.

Definition labels_selector (m : gmap string string) : LabelSelector :=
  {| match_labels := Some m; match_expressions := None |}.

Definition to_k8s_peer (p : NetworkPolicyPeer) : K8sPeer :=
  {| k_pod_selector := peer_pod_selector p; k_namespace_selector := peer_namespace_selector p |}.

Definition port_rule (from : list K8sPeer) (port : Z) : IngressPolicyRule :=
  {| pr_from := Some from;
     pr_ports := Some [{| np_protocol := Some "TCP"; np_port := Some port |}] |}.

Section policy.
Context {Time : Type}.
#[local] Notation Listener := (Listener Time).
Implicit Types (l : Listener) (ls : list Listener).

Definition cluster_selector (name : string) : LabelSelector :=
  labels_selector (<["app.kubernetes.io/instance" := name]> {["app.kubernetes.io/name" := APP_LABEL]}).

Definition operator_peer (operator_namespace : string) : K8sPeer :=
  {| k_pod_selector :=
       Some (labels_selector {["app.kubernetes.io/component" := OPERATOR_COMPONENT_LABEL]});
     k_namespace_selector :=
       Some (labels_selector {["kubernetes.io/metadata.name" := operator_namespace]}) |}.

Definition self_peer (name : string) : K8sPeer :=
  {| k_pod_selector := Some (cluster_selector name); k_namespace_selector := None |}.

(** The rule of one listener for its peers; none for the operator's listener and
    for an empty list. *)
Definition peer_rule (operator_name : string) l : option IngressPolicyRule :=
  if str_eqb (l_name l) operator_name then None
  else match l_network_policy_peers l with
       | None => Some (port_rule [] (l_port l))
       | Some [] => None
       | Some peers => Some (port_rule (map to_k8s_peer peers) (l_port l))
       end.

Definition policy_rules (name : string) (declared ls : list Listener) (inter_broker_port : Z)
    (operator_namespace : string) (metrics_enabled : bool) : list IngressPolicyRule :=
  port_rule [self_peer name] inter_broker_port ::
  map (λ l, port_rule [operator_peer operator_namespace] (l_port l)) ls ++
  filter_map (peer_rule (l_name (operator_listener (declared_or_default declared)))) ls ++
  (if metrics_enabled then [port_rule [] METRICS_PORT] else []).

Definition render_network_policy (owner : object_meta) (kafka_version : string)
    (declared ls : list Listener) (inter_broker_port : Z) (operator_namespace : string)
    (metrics_enabled : bool) : result NetworkPolicyObject ReconcileError :=
  let name := name_any owner in
  let? meta := owned_meta owner (name +:+ "-broker-policy") (om_namespace owner)
                 (common_labels name kafka_version None) None in
  Ok {| pol_meta := meta;
        pol_pod_selector := cluster_selector name;
        pol_policy_types := ["Ingress"];
        pol_ingress := policy_rules name declared ls inter_broker_port operator_namespace
                         metrics_enabled |}.
End policy.

(** ** The step of a pass *)
Inductive policy_call : Type :=
  | DeletePolicy (name : string)
  | ApplyPolicy (name : string) (p : NetworkPolicyObject).
Definition policy_resp (c : policy_call) : Type := result unit kube_error.

(** [None] when the policy is not asked for. *)
Definition reconcile_network_policy {Time} (owner : object_meta) (kafka_version : string)
    (declared : list (Listener Time)) (conditions : list KafkaCondition)
    (network_policy metrics_config : bool) (operator_namespace name : string)
    (ls : list (Listener Time)) (inter_broker_port : Z)
  : prog policy_resp (option (result unit ReconcileError)) :=
  let np_name := name +:+ "-broker-policy" in
  if negb network_policy then
    let was_rendered := existsb (λ c, str_eqb (type_ c) "NetworkPolicyReady" &&
                                      str_eqb (reason c) "Available") conditions in
    if was_rendered then _ ← perform (resp := policy_resp) (DeletePolicy np_name); Ret None
    else Ret None
  else
    match render_network_policy owner kafka_version declared ls inter_broker_port
            operator_namespace metrics_config with
    | Err e => Ret (Some (Err e))
    | Ok np =>
        r ← perform (resp := policy_resp) (ApplyPolicy np_name np);
        Ret (Some (map_err Kube r))
    end.

(** ** What a policy lets in

    Both ends of a connection are pods: a pod has its labels, in a namespace with
    its labels. *)
Record pod : Type := {
  pod_namespace : string;
  pod_namespace_labels : gmap string string;
  pod_labels_of : gmap string string;
}.

Definition requirement_holds (labels : gmap string string) (r : LabelSelectorRequirement) : Prop :=
  let values := default [] (req_values r) in
  if str_eqb (req_operator r) "In" then ∃ v, labels !! req_key r = Some v ∧ v ∈ values
  else if str_eqb (req_operator r) "NotIn" then ∀ v, labels !! req_key r = Some v → v ∉ values
  else if str_eqb (req_operator r) "Exists" then is_Some (labels !! req_key r)
  else if str_eqb (req_operator r) "DoesNotExist" then labels !! req_key r = None
  else False.

Definition selects (s : LabelSelector) (labels : gmap string string) : Prop :=
  (∀ k v, default ∅ (match_labels s) !! k = Some v → labels !! k = Some v) ∧
  ∀ r, r ∈ default [] (match_expressions s) → requirement_holds labels r.

(** A peer without any selector is refused by the API server and lets nothing in. *)
Definition peer_matches (policy_namespace : string) (p : K8sPeer) (s : pod) : Prop :=
  match k_namespace_selector p, k_pod_selector p with
  | None, None => False
  | None, Some pods => pod_namespace s = policy_namespace ∧ selects pods (pod_labels_of s)
  | Some ns, None => selects ns (pod_namespace_labels s)
  | Some ns, Some pods => selects ns (pod_namespace_labels s) ∧ selects pods (pod_labels_of s)
  end.

(** An empty list of sources or of ports stands for all of them; a port without a
    protocol is a TCP port. *)
Definition rule_allows (policy_namespace : string) (r : IngressPolicyRule) (s : pod)
    (protocol : string) (port : Z) : Prop :=
  (default [] (pr_from r) = [] ∨
   ∃ p, p ∈ default [] (pr_from r) ∧ peer_matches policy_namespace p s) ∧
  (default [] (pr_ports r) = [] ∨
   ∃ q, q ∈ default [] (pr_ports r) ∧ default "TCP" (np_protocol q) = protocol ∧
        (np_port q = None ∨ np_port q = Some port)).

Definition pol_namespace (p : NetworkPolicyObject) : string :=
  default "default" (om_namespace (pol_meta p)).

(** The pods whose incoming connections the policy restricts. *)
Definition isolates (p : NetworkPolicyObject) (t : pod) : Prop :=
  "Ingress" ∈ pol_policy_types p ∧ pod_namespace t = pol_namespace p ∧
  selects (pol_pod_selector p) (pod_labels_of t).

(** As far as this policy goes, the pod [t] takes a connection from [s]. *)
Definition lets_in (p : NetworkPolicyObject) (s t : pod) (protocol : string) (port : Z) : Prop :=
  isolates p t → ∃ r, r ∈ pol_ingress p ∧ rule_allows (pol_namespace p) r s protocol port.

(** ** The pods a cluster names *)
Definition is_cluster_pod (namespace name : string) (s : pod) : Prop :=
  pod_namespace s = namespace ∧
  pod_labels_of s !! "app.kubernetes.io/name" = Some APP_LABEL ∧
  pod_labels_of s !! "app.kubernetes.io/instance" = Some name.

Definition is_operator_pod (operator_namespace : string) (s : pod) : Prop :=
  pod_namespace_labels s !! "kubernetes.io/metadata.name" = Some operator_namespace ∧
  pod_labels_of s !! "app.kubernetes.io/component" = Some OPERATOR_COMPONENT_LABEL.

(** The peers that a listener admits: everybody, or a list. *)
Definition admits {Time} (namespace : string) (l : Listener Time) (s : pod) : Prop :=
  match l_network_policy_peers l with
  | None => True
  | Some peers => ∃ p, p ∈ peers ∧ peer_matches namespace (to_k8s_peer p) s
  end.

Lemma port_rule_allows ns from port s proto p :
  rule_allows ns (port_rule from port) s proto p ↔
  proto = "TCP" ∧ p = port ∧ (from = [] ∨ ∃ q, q ∈ from ∧ peer_matches ns q s).
Proof.
  unfold rule_allows. cbn. split.
  - intros [Hfrom [?|(q & Hq%list_elem_of_singleton & Hproto & Hp)]]; [done|]. subst q. cbn in Hproto, Hp.
    destruct Hp as [?|[= ->]]; [done|]. by split_and!.
  - intros (-> & -> & Hfrom). split; [tauto|]. right. eexists. split; [left|]. split; [done|]. by right.
Qed.

Lemma cluster_selector_selects name labels :
  selects (cluster_selector name) labels ↔
  labels !! "app.kubernetes.io/name" = Some APP_LABEL ∧ labels !! "app.kubernetes.io/instance" = Some name.
Proof.
  unfold cluster_selector, labels_selector, selects. cbn. split.
  - intros (Hl & _). split; apply Hl.
    + rewrite lookup_insert_ne by done. by rewrite lookup_singleton_eq.
    + by rewrite lookup_insert_eq.
  - intros (Hn & Hi). split; [|intros r Hr; by apply elem_of_nil in Hr].
    intros k v [[<- <-]|[_ [<- <-]%lookup_singleton_Some]]%lookup_insert_Some; done.
Qed.

Lemma self_peer_matches ns name s :
  peer_matches ns (self_peer name) s ↔ is_cluster_pod ns name s.
Proof. unfold peer_matches, is_cluster_pod. cbn. by rewrite cluster_selector_selects. Qed.

Lemma operator_peer_matches ns ons s :
  peer_matches ns (operator_peer ons) s ↔ is_operator_pod ons s.
Proof.
  unfold peer_matches, is_operator_pod, operator_peer, labels_selector, selects. cbn. split.
  - intros [[Hn _] [Hp _]]. split; [apply Hn|apply Hp]; by rewrite lookup_singleton_eq.
  - intros [Hn Hp]. split; (split; [|intros r Hr; by apply elem_of_nil in Hr]);
      intros k v [<- <-]%lookup_singleton_Some; done.
Qed.

Section exact.
Context {Time : Type} (owner : object_meta) (kafka_version : string).
Context (declared : list (Listener Time)) (inter_broker_port : Z) (operator_namespace : string) (metrics : bool).
Let name := name_any owner.
Let namespace := default "default" (om_namespace owner).
Let operator_name := l_name (operator_listener (declared_or_default declared)).

Lemma peer_rule_allows (l : Listener Time) s proto port :
  (∃ r, peer_rule operator_name l = Some r ∧ rule_allows namespace r s proto port) ↔
  proto = "TCP" ∧ l_name l ≠ operator_name ∧ port = l_port l ∧ admits namespace l s.
Proof.
  unfold peer_rule, admits. destruct (str_eqb (l_name l) operator_name) eqn:Hn.
  { apply str_eqb_eq in Hn. naive_solver. }
  apply str_eqb_neq in Hn. destruct (l_network_policy_peers l) as [[|p ps]|].
  - split; [naive_solver|]. intros (_ & _ & _ & p & Hp & _). by apply elem_of_nil in Hp.
  - split.
    + intros (r & [= <-] & (-> & -> & [?|(q & Hq & Hm)])%port_rule_allows); [done|].
      apply (list_elem_of_fmap_1 to_k8s_peer (p :: ps)) in Hq as (p' & -> & Hp'). eauto 8.
    + intros (-> & _ & -> & p' & Hp' & Hm). eexists. split; [done|]. apply port_rule_allows.
      split; [done|]. split; [done|]. right. exists (to_k8s_peer p'). split; [|done].
      by apply (list_elem_of_fmap_2 to_k8s_peer (p :: ps)).
  - split.
    + intros (r & [= <-] & (-> & -> & _)%port_rule_allows). done.
    + intros (-> & _ & -> & _). eexists. split; [done|]. apply port_rule_allows. tauto.
Qed.

(** What the cluster declares. *)
Definition declared_connection (ls : list (Listener Time)) (s : pod) (port : Z) : Prop :=
  (port = inter_broker_port ∧ is_cluster_pod namespace name s) ∨
  (∃ l, l ∈ ls ∧ port = l_port l ∧
     (is_operator_pod operator_namespace s ∨ (l_name l ≠ operator_name ∧ admits namespace l s))) ∨
  (metrics = true ∧ port = METRICS_PORT).

Lemma rules_allow_iff (ls : list (Listener Time)) s proto port :
  (∃ r, r ∈ policy_rules name declared ls inter_broker_port operator_namespace metrics ∧
        rule_allows namespace r s proto port) ↔
  proto = "TCP" ∧ declared_connection ls s port.
Proof.
  unfold policy_rules. fold operator_name. split.
  - intros (r & [->|[Hr|[Hr|Hr]%elem_of_app]%elem_of_app]%elem_of_cons & Ha).
    + apply port_rule_allows in Ha as (-> & -> & [?|(q & ->%list_elem_of_singleton & Hq)]); [done|].
      split; [done|]. left. split; [done|]. by apply self_peer_matches.
    + apply list_elem_of_fmap in Hr as (l & -> & Hl).
      apply port_rule_allows in Ha as (-> & -> & [?|(q & ->%list_elem_of_singleton & Hq)]); [done|].
      split; [done|]. right; left. exists l. split; [done|]. split; [done|]. left. by eapply operator_peer_matches.
    + apply elem_of_filter_map in Hr as (l & Hl & Hr).
      destruct (proj1 (peer_rule_allows l s proto port)) as (-> & ? & -> & ?); [eauto|].
      split; [done|]. right; left. exists l. eauto.
    + destruct metrics eqn:Hm; [|by apply elem_of_nil in Hr].
      apply list_elem_of_singleton in Hr as ->. apply port_rule_allows in Ha as (-> & -> & _).
      split; [done|]. by right; right.
  - intros [-> [[-> Hc]|[(l & Hl & -> & [Ho|[Hn Ha]])|[Hm ->]]]].
    + eexists. split; [left|]. apply port_rule_allows. split_and!; [done..|]. right.
      exists (self_peer name). split; [left|]. by apply self_peer_matches.
    + exists (port_rule [operator_peer operator_namespace] (l_port l)). split.
      { right. apply elem_of_app. left. by apply (list_elem_of_fmap_2 (λ l, port_rule _ (l_port l))). }
      apply port_rule_allows. split_and!; [done..|]. right. eexists. split; [left|]. by apply operator_peer_matches.
    + destruct (proj2 (peer_rule_allows l s "TCP" (l_port l))) as (r & Hr & Hrule); [done|].
      exists r. split; [|done]. right. apply elem_of_app. right. apply elem_of_app. left.
      apply elem_of_filter_map. eauto.
    + exists (port_rule [] METRICS_PORT). split.
      { right. rewrite Hm. apply elem_of_app. right. apply elem_of_app. right. left. }
      apply port_rule_allows. tauto.
Qed.

Lemma lets_in_iff (ls : list (Listener Time)) p s t proto port :
  render_network_policy owner kafka_version declared ls inter_broker_port operator_namespace metrics = Ok p →
  (lets_in p s t proto port ↔
   (is_cluster_pod namespace name t → proto = "TCP" ∧ declared_connection ls s port)).
Proof.
  unfold render_network_policy, owned_meta. destruct (owner_ref _ _) as [o|]; [|done].
  intros [= <-]. unfold lets_in, isolates, pol_namespace. cbn [pol_meta om_namespace pol_ingress
    pol_policy_types pol_pod_selector]. fold namespace name.
  rewrite rules_allow_iff, cluster_selector_selects. unfold is_cluster_pod.
  split; intros Ha; [intros Ht; apply Ha|intros (_ & Ht); by apply Ha].
  split; [left|done].
Qed.

(** C25. The network policy lets in exactly what the cluster declares.  As far as the
    rendered policy goes, a pod takes a connection over a protocol on a port if and
    only if it is not a pod of the cluster (by namespace and labels), or the protocol
    is TCP and the connection comes from a pod of the same cluster to the inter-broker
    port, or goes to the port of a listener and comes from the operator or, for a
    listener other than the operator's, from a peer that the listener admits, or goes
    to the metrics port of a cluster that serves metrics. *)
Theorem network_policy_exact (ls : list (Listener Time)) p :
  render_network_policy owner kafka_version declared ls inter_broker_port operator_namespace metrics = Ok p →
  ∀ s t proto port, lets_in p s t proto port ↔
    (is_cluster_pod namespace name t →
     proto = "TCP" ∧
     ((port = inter_broker_port ∧ is_cluster_pod namespace name s) ∨
      (∃ l, l ∈ ls ∧ port = l_port l ∧
         (is_operator_pod operator_namespace s ∨ (l_name l ≠ operator_name ∧ admits namespace l s))) ∨
      (metrics = true ∧ port = METRICS_PORT))).
Proof. intros Hp s t proto port. by apply lets_in_iff. Qed.
End exact.

Lemma network_policy_exact_witness :
  ∃ p, render_network_policy demo_owner "4.0" demo_listeners (effective_listeners demo_listeners)
         9092 "operators" false = Ok p ∧
  ∀ s t proto port, lets_in p s t proto port ↔
    (is_cluster_pod "kafka" "prod" t →
     proto = "TCP" ∧
     ((port = 9092 ∧ is_cluster_pod "kafka" "prod" s) ∨
      (∃ l, l ∈ effective_listeners demo_listeners ∧ port = l_port l ∧
         (is_operator_pod "operators" s ∨
          (l_name l ≠ l_name (operator_listener demo_listeners) ∧ admits "kafka" l s))) ∨
      (false = true ∧ port = METRICS_PORT))).
Proof.
  eexists. split; [vm_compute; reflexivity|].
  exact (network_policy_exact demo_owner "4.0" demo_listeners 9092 "operators" false
    (effective_listeners demo_listeners) _ ltac:(vm_compute; reflexivity)).
Defined.

(** Nothing lets pods of the cluster reach each other on the controller port, which
    the quorum runs on. *)
Lemma controller_port_blocked {Time} owner kafka_version (declared ls : list (Listener Time))
    inter_broker_port operator_namespace metrics p s t proto :
  render_network_policy owner kafka_version declared ls inter_broker_port operator_namespace metrics = Ok p →
  inter_broker_port ≠ CONTROLLER_PORT → (∀ l, l ∈ ls → l_port l ≠ CONTROLLER_PORT) →
  is_cluster_pod (default "default" (om_namespace owner)) (name_any owner) t →
  ¬ lets_in p s t proto CONTROLLER_PORT.
Proof.
  intros Hp Hib Hls Ht Ha. eapply lets_in_iff in Ha as [_ Ha]; [|exact Hp|exact Ht].
  destruct Ha as [[? _]|[(l & Hl & Heq & _)|[_ Hm]]]; [congruence|by eapply Hls|by vm_compute in Hm].
Qed.
