(* ===== verification/KafkaSpec.v ===== *)
(** * The Kafka resource (src/crd/kafka.rs, metrics.rs, logging.rs)

    The spec of a [Kafka] object and the checks that its tagged unions get before a
    pass renders anything: tiered storage and tracing.  Fields that no modelled
    operation reads are kept, so that the hash and the renderers see the same
    object as the code. *)

From S2P Require Import Prelude RustStd Kube CaBundle ClusterCa Toml Tuning Listeners.
Local Open Scope Z_scope.

(** ** Authorization and Kerberos *)
Record OpaAuthorization : Type := {
  opa_url : string;
  opa_allow_on_error : option bool;
  opa_initial_cache_capacity : option Z;
  opa_maximum_cache_size : option Z;
  opa_expire_after_ms : option Z;
  opa_super_users : list string;
}.
Inductive Authorization : Type :=
  | Simple (super_users : list string)
  | Opa (o : OpaAuthorization).

Record InterBrokerKerberos : Type := {
  ibk_client_principal : string;
  ibk_service_name : option string;
  ibk_kdc_url : string;
}.

Record Krb5ConfSecretRef : Type := { krb5_secret_name : string; krb5_key : string }.

(** [SecretKeyRef] of src/crd/kafka.rs: the key has a default. *)
Record CredentialRef : Type := { cred_name : string; cred_key : option string }.

(** ** Tiered storage *)
Inductive TieredStorageType : Type := TsLocal | TsS3 | TsGcs.

#[global] Instance TieredStorageType_eq_dec : EqDecision TieredStorageType.
Proof. solve_decision. Defined.

Record S3StorageSpec : Type := {
  s3_bucket : string;
  s3_region : string;
  s3_prefix : option string;
  s3_endpoint : option string;
  s3_credentials : option (CredentialRef * CredentialRef);
  s3_allow_http : bool;
  s3_multipart_threshold : option Z;
  s3_multipart_chunk_size : option Z;
}.

Record GcsStorageSpec : Type := {
  gcs_bucket : string;
  gcs_prefix : option string;
  gcs_endpoint : option string;
  gcs_credentials : option CredentialRef;
  gcs_allow_http : bool;
  gcs_multipart_threshold : option Z;
  gcs_multipart_chunk_size : option Z;
}.

Inductive MetadataManagerType : Type := InMemory | TopicBacked.

Record TopicMetadataManagerSpec {Time ByteSize : Type} : Type := {
  tm_bootstrap : string;
  tm_num_partitions : option Z;
  tm_replication : option Z;
  tm_topic_create_timeout : option Time;
  tm_fetch_max_wait : option Time;
  tm_fetch_max_bytes : option ByteSize;
  tm_fetch_retry_backoff : option Time;
  tm_event_queue_capacity : option Z;
  tm_snapshot_interval : option Time;
}.
Arguments TopicMetadataManagerSpec Time ByteSize : clear implicits.

Record MetadataManagerSpec {Time ByteSize : Type} : Type := {
  mm_kind : MetadataManagerType;
  mm_topic : option (TopicMetadataManagerSpec Time ByteSize);
}.
Arguments MetadataManagerSpec Time ByteSize : clear implicits.

Record TieredStoragePersistence : Type := {
  tsp_size : string;
  tsp_class : option string;
  tsp_delete_claim : bool;
}.

Record TieredStorage {Time ByteSize : Type} : Type := {
  ts_kind : TieredStorageType;
  ts_s3 : option S3StorageSpec;
  ts_gcs : option GcsStorageSpec;
  ts_metadata_manager : option (MetadataManagerSpec Time ByteSize);
  ts_persistence : option TieredStoragePersistence;
}.
Arguments TieredStorage Time ByteSize : clear implicits.

(** ** Tracing; there is one backend, [Otlp] *)
Inductive OtlpProtocol : Type := Grpc | HttpProtobuf.

Definition as_env_value (p : OtlpProtocol) : string :=
  match p with Grpc => "grpc" | HttpProtobuf => "http/protobuf" end.

Record OtlpTracing {Time F64 : Type} : Type := {
  otlp_endpoint : string;
  otlp_protocol : option OtlpProtocol;
  otlp_sample_ratio : option F64;
  otlp_service_name : option string;
  otlp_timeout : option Time;
}.
Arguments OtlpTracing Time F64 : clear implicits.

Record Tracing {Time F64 : Type} : Type := { tr_otlp : option (OtlpTracing Time F64) }.
Arguments Tracing Time F64 : clear implicits.

(** ** Metrics and logging *)
Record MonitorSpec : Type := {
  mon_interval : option string;
  mon_scrape_timeout : option string;
  mon_labels : gmap string string;
}.

Record MetricsConfig : Type := {
  pod_monitor : option MonitorSpec;
  service_monitor : option MonitorSpec;
}.

Inductive LoggingType : Type := Inline | External.

Record ConfigMapKeyRef : Type := { ckr_name : string; ckr_key : string }.

Record Logging : Type := {
  log_type : LoggingType;
  log_loggers : gmap string string;
  log_value_from : option ConfigMapKeyRef;
}.

(** ** The resource *)
Record CertificateAuthorityStatus : Type := {
  cas_not_after : string;
  cas_generated : bool;
  cas_cert_generation : Z;
  cas_key_generation : Z;
  cas_rotation_phase : option string;
  cas_trust_anchors : option Z;
}.

Record KafkaStatus : Type := {
  kst_conditions : list KafkaCondition;
  kst_replicas : option Z;
  kst_ready_replicas : option Z;
  kst_listeners : list ListenerStatus;
  kst_cluster_ca : option CertificateAuthorityStatus;
  kst_clients_ca : option CertificateAuthorityStatus;
  kst_kafka_version : option string;
  kst_target_metadata_version : option string;
  kst_metadata_version : option string;
}.

Definition KafkaStatus_default : KafkaStatus :=
  {| kst_conditions := []; kst_replicas := None; kst_ready_replicas := None; kst_listeners := [];
     kst_cluster_ca := None; kst_clients_ca := None; kst_kafka_version := None;
     kst_target_metadata_version := None; kst_metadata_version := None |}.

Record KafkaSpec {Time ByteSize Ratio F64 : Type} : Type := {
  k_version : string;
  k_metadata_version : option string;
  k_config : option (gmap string string);
  k_listeners : list (Listener Time);
  k_inter_broker_listener_name : option string;
  k_metrics_config : option MetricsConfig;
  k_network_policy : bool;  (* NetworkPolicySpec has no field *)
  k_cluster_ca : option CertificateAuthority;
  k_clients_ca : option CertificateAuthority;
  k_logging : option Logging;
  k_delegation_token : option CredentialRef;
  k_authorization : option Authorization;
  k_tiered_storage : option (TieredStorage Time ByteSize);
  k_inter_broker_kerberos : option InterBrokerKerberos;
  k_krb5_conf_secret_ref : option Krb5ConfSecretRef;
  k_tracing : option (Tracing Time F64);
  k_broker_tuning : option (gmap string (tuning_value Time ByteSize Ratio));
}.
Arguments KafkaSpec Time ByteSize Ratio F64 : clear implicits.

Record Kafka {Time ByteSize Ratio F64 : Type} : Type := {
  k_meta : object_meta;
  k_spec : KafkaSpec Time ByteSize Ratio F64;
  k_status : option KafkaStatus;
}.
Arguments Kafka Time ByteSize Ratio F64 : clear implicits.

(** What the CA reconcilers and the clients of a cluster read of it. *)
Definition kafka_cas {Time ByteSize Ratio F64} (k : Kafka Time ByteSize Ratio F64) : KafkaCas :=
  {| kc_meta := k_meta k; cluster_ca := k_cluster_ca (k_spec k); clients_ca := k_clients_ca (k_spec k) |}.

Definition kafka_view {Time ByteSize Ratio F64} (k : Kafka Time ByteSize Ratio F64) : KafkaView Time :=
  {| kv_listeners := k_listeners (k_spec k);
     kv_inter_broker_listener_name := k_inter_broker_listener_name (k_spec k);
     kv_status := opt_map (λ s, (kst_conditions s, kst_listeners s)) (k_status k) |}.

(** ** Checks *)
Section validate.
Context {Time ByteSize F64 : Type}.
(** [KafkaRlmmConfig::validate] of the broker crate on the merged policy, and the
    error of [refined_type]'s [GreaterUsize<0>]. *)
Context (rlmm_validate : TopicMetadataManagerSpec Time ByteSize → result unit string)
  (refined_usize_error : Z → string).

Definition blank (s : string) : bool := is_empty (trim s).

Definition validate_topic_manager (t : TopicMetadataManagerSpec Time ByteSize) : result unit string :=
  if blank (tm_bootstrap t) then
    Err "metadataManager.topic.bootstrap is required and must be non-empty"
  else if is_some_and (λ p, p <=? 0) (tm_num_partitions t) then
    Err ("metadataManager.topic.numPartitions must be > 0 (got "
         +:+ display_Z (default 0 (tm_num_partitions t)) +:+ ")")
  else if is_some_and (λ r, r <=? 0) (tm_replication t) then
    Err ("metadataManager.topic.replication must be > 0 (got "
         +:+ display_Z (default 0 (tm_replication t)) +:+ ")")
  else if is_some_and (λ c, negb (0 <? c)) (tm_event_queue_capacity t) then
    Err ("metadataManager.topic.event_queue_capacity: "
         +:+ refined_usize_error (default 0 (tm_event_queue_capacity t)))
  else map_err (λ e, "metadataManager.topic: " +:+ e) (rlmm_validate t).

Definition validate_metadata_manager (m : MetadataManagerSpec Time ByteSize) : result unit string :=
  match mm_kind m, mm_topic m with
  | InMemory, Some _ => Err "metadataManager.type=InMemory must not set `topic`"
  | _, None => Ok tt
  | TopicBacked, Some t => validate_topic_manager t
  end.

Definition validate_backend (t : TieredStorage Time ByteSize) : result unit string :=
  match ts_kind t with
  | TsLocal =>
      if opt_is_some (ts_s3 t) then Err "type=Local must not set `s3`"
      else if opt_is_some (ts_gcs t) then Err "type=Local must not set `gcs`"
      else Ok tt
  | TsS3 =>
      if opt_is_some (ts_gcs t) then Err "type=S3 must not set `gcs`"
      else match ts_s3 t with
           | None => Err "type=S3 requires `s3` (bucket + region at minimum)"
           | Some s3 =>
               if blank (s3_bucket s3) then Err "s3.bucket is required and must be non-empty"
               else if blank (s3_region s3) then Err "s3.region is required and must be non-empty"
               else Ok tt
           end
  | TsGcs =>
      if opt_is_some (ts_s3 t) then Err "type=Gcs must not set `s3`"
      else match ts_gcs t with
           | None => Err "type=Gcs requires `gcs` (bucket at minimum)"
           | Some gcs =>
               if blank (gcs_bucket gcs) then Err "gcs.bucket is required and must be non-empty"
               else Ok tt
           end
  end.

Definition validate_tiered_storage (t : TieredStorage Time ByteSize) : result unit string :=
  let? _ := validate_backend t in
  let? _ := from_option validate_metadata_manager (Ok tt) (ts_metadata_manager t) in
  match ts_persistence t with
  | None => Ok tt
  | Some p =>
      if negb (bool_decide (ts_kind t = TsLocal)) then
        Err "persistence is only valid with type=Local"
      else if blank (tsp_size p) then Err "persistence.size is required and must be non-empty"
      else Ok tt
  end.

(** [in_unit] is [(0.0..=1.0).contains], [display] the [Display] of an [f64], and
    [representable] the positivity and [Duration] check of a timeout. *)
Definition validate_tracing (in_unit : F64 → bool) (display : F64 → string)
    (representable : Time → bool) (t : Tracing Time F64) : result unit string :=
  match tr_otlp t with
  | None => Err "type=Otlp requires `otlp` (endpoint at minimum)"
  | Some o =>
      if blank (otlp_endpoint o) then Err "otlp.endpoint is required and must be non-empty"
      else match option_filter (λ r, negb (in_unit r)) (otlp_sample_ratio o) with
           | Some r => Err ("otlp.sampleRatio must be in [0.0, 1.0] (got " +:+ display r +:+ ")")
           | None =>
               if is_some_and blank (otlp_service_name o) then
                 Err "otlp.serviceName, when set, must be non-empty"
               else if is_some_and (λ x, negb (representable x)) (otlp_timeout o) then
                 Err "otlp.timeout, when set, must be positive and representable"
               else Ok tt
           end
  end.

(** A checked tiered storage has the part that its renderer takes. *)
Lemma validate_backend_shape t :
  validate_backend t = Ok tt →
  match ts_kind t with
  | TsLocal => ts_s3 t = None ∧ ts_gcs t = None
  | TsS3 => ∃ s3, ts_s3 t = Some s3 ∧ ts_gcs t = None
  | TsGcs => ∃ gcs, ts_gcs t = Some gcs ∧ ts_s3 t = None
  end.
Proof. unfold validate_backend. destruct t as [[] [|] [|] mm p]; cbn; naive_solver. Qed.

Lemma validate_tiered_storage_backend t :
  validate_tiered_storage t = Ok tt → validate_backend t = Ok tt.
Proof. unfold validate_tiered_storage. by destruct (validate_backend t) as [[]|]. Qed.
End validate.

(** ** The version verdict that dependents wait for (src/controller/common.rs) *)
Inductive ParentVersionGate : Type :=
  | Cleared
  | VersionInvalid (c : KafkaCondition)
  | VersionWaiting.

Definition parent_version_gate (s : option KafkaStatus) : ParentVersionGate :=
  let version_cond :=
    and_then s (λ s, find_first (λ c, str_eqb (type_ c) "KafkaVersionValid") (kst_conditions s)) in
  let finalized := and_then s kst_metadata_version in
  if opt_is_some finalized || is_some_and (λ c, str_eqb (status c) "True") version_cond then Cleared
  else match version_cond with Some c => VersionInvalid c | None => VersionWaiting end.
