(* ===== verification/ListenerSecrets.v ===== *)
(** * Secrets that the listeners need (src/controller/kafka.rs)

    OAuth trust certificates and client secrets, Kerberos keytabs and [krb5.conf]:
    the names that the pool's pod template mounts, and the checks of the Kafka pass
    that the Secrets behind them exist.  The Secret calls are those of the CA pass. *)

From S2P Require Import Prelude RustStd Effects Kube CaBundle ClusterCa Toml Tuning Listeners.
From S2P Require Import ListenerCheck NodePool ListenerObjects KafkaSpec.
Local Open Scope Z_scope.

(** ** What the pods mount *)
Section mounts.
Context {Time ByteSize Ratio F64 : Type}.
#[local] Notation Kafka := (Kafka Time ByteSize Ratio F64).
#[local] Notation Listener := (Listener Time).
Implicit Types (k : Kafka) (ls : list Listener).

Definition canonical_oauth_config ls : option ListenerAuthenticationOAuth := head (oauth_configs ls).

Definition oauth_trust_name (kafka_name : string) : string := kafka_name +:+ "-oauth-jwks-trust".

Definition oauth_jwks_trust_secret_name k : option string :=
  and_then (canonical_oauth_config (k_listeners (k_spec k))) (λ c,
    match tls_trusted_certificates c with
    | [] => None
    | _ => Some (oauth_trust_name (name_any (k_meta k)))
    end).

(** A Secret and a key of it: [OauthIntrospectionMount], [GssapiKeytabMount]. *)
Definition oauth_introspection_secret_mount k : option SecretKeyRef :=
  and_then (canonical_oauth_config (k_listeners (k_spec k))) (λ c,
    if access_token_is_jwt c then None else client_secret c).

Definition gssapi_keytab_mount k : option SecretKeyRef :=
  opt_map keytab_secret_ref (head (gssapi_configs (k_listeners (k_spec k)))).

Definition krb5_conf_mount k : option SecretKeyRef :=
  opt_map (λ r, {| skr_secret_name := krb5_secret_name r; skr_key := krb5_key r |})
    (k_krb5_conf_secret_ref (k_spec k)).

(** ** The checks *)
#[local] Notation pass R := (prog ca_resp (result R ReconcileError)).
#[local] Notation call := (perform (resp := ca_resp)).

Definition get_opt (name : string) : pass (option secret) :=
  r ← call (GetSecret name); Ret (map_err Kube r).

(** A value of a Secret, with the errors for no Secret, no key, an empty value. *)
Definition secret_value (name key : string) (missing no_key empty : ReconcileError) : pass string :=
  src ←? get_opt name;
  Ret (let? s := ok_or src missing in
       let? v := ok_or (and_then (sec_data s) (λ d, d !! key)) no_key in
       if is_empty v then Err empty else Ok v).

Definition add_certificate (bundle cert : string) : string :=
  if negb (is_empty bundle) && negb (ends_with (of_char Toml.nl) bundle)
  then bundle +:+ of_char Toml.nl +:+ cert else bundle +:+ cert.

Fixpoint trust_bundle (certs : list TlsTrustedCertificate) (bundle : string) : pass string :=
  match certs with
  | [] => Ret (Ok bundle)
  | c :: certs =>
      v ←? secret_value (trusted_secret_name c) (trusted_certificate c)
             (MissingOauthTrustSecret (trusted_secret_name c))
             (MissingOauthTrustKey (trusted_secret_name c) (trusted_certificate c))
             (EmptyOauthTrustValue (trusted_secret_name c) (trusted_certificate c));
      trust_bundle certs (add_certificate bundle v)
  end.

Definition trust_secret k (managed_name bundle : string) : result secret ReconcileError :=
  let? meta := owned_meta (k_meta k) managed_name (om_namespace (k_meta k))
                 (common_labels (name_any (k_meta k)) (k_version (k_spec k)) None) None in
  Ok (Secret meta (Some {["ca.crt" := bundle]})).

Definition upsert_oauth_trust_secret k (managed_name bundle : string) : pass unit :=
  match trust_secret k managed_name bundle with
  | Err e => Ret (Err e)
  | Ok s => r ← call (ApplySecret managed_name s); Ret (map_err Kube r)
  end.

Definition reconcile_oauth_jwks_trust k (canonical : option ListenerAuthenticationOAuth)
  : pass (option string) :=
  match canonical with
  | None => Ret (Ok None)
  | Some c =>
      match tls_trusted_certificates c with
      | [] => Ret (Ok None)
      | certs =>
          bundle ←? trust_bundle certs "";
          let managed_name := oauth_trust_name (name_any (k_meta k)) in
          _ ←? upsert_oauth_trust_secret k managed_name bundle;
          Ret (Ok (Some managed_name))
      end
  end.

Definition reconcile_oauth_introspection_secret (canonical : option ListenerAuthenticationOAuth)
  : pass (option SecretKeyRef) :=
  match canonical with
  | None => Ret (Ok None)
  | Some c =>
      if access_token_is_jwt c then Ret (Ok None)
      else match client_secret c with
           | None => Ret (Err (InvalidListenerOauthAccessTokenIsJwt
                                 "introspection mode requires clientSecret"))
           | Some cs =>
               _ ←? secret_value (skr_secret_name cs) (skr_key cs)
                      (MissingOauthIntrospectionSecret (skr_secret_name cs))
                      (MissingOauthIntrospectionKey (skr_secret_name cs) (skr_key cs))
                      (EmptyOauthIntrospectionValue (skr_secret_name cs) (skr_key cs));
               Ret (Ok (Some cs))
           end
  end.

(** The Secret has the key; [stringData] is never returned by the API server. *)
Definition require_key (m : SecretKeyRef) (missing : string → ReconcileError)
    (no_key : string → string → ReconcileError) : pass unit :=
  src ←? get_opt (skr_secret_name m);
  Ret (let? s := ok_or src (missing (skr_secret_name m)) in
       if opt_is_some (and_then (sec_data s) (λ d, d !! skr_key m)) then Ok tt
       else Err (no_key (skr_secret_name m) (skr_key m))).

Definition gssapi_secret_check k : pass unit :=
  _ ←? match gssapi_keytab_mount k with
       | Some m => require_key m MissingGssapiKeytabSecret MissingGssapiKeytabKey
       | None => Ret (Ok tt)
       end;
  match krb5_conf_mount k with
  | Some m => require_key m MissingKrb5ConfSecret MissingKrb5ConfKey
  | None => Ret (Ok tt)
  end.

(** The checks only read Secrets and apply the trust bundle. *)
Lemma oauth_trust_only k canonical :
  only (λ c, merges c = false) (reconcile_oauth_jwks_trust k canonical).
Proof.
  unfold reconcile_oauth_jwks_trust. destruct canonical as [c|]; [|done].
  destruct (tls_trusted_certificates c) as [|cert certs]; [done|].
  assert (∀ certs bundle, only (λ c, merges c = false) (trust_bundle certs bundle)) as Hb.
  { intros l. induction l as [|x l IH]; intros b; [done|]. cbn [trust_bundle].
    unfold secret_value, get_opt. apply only_bind; [by only_calls|]. intros [v|e]; [apply IH|done]. }
  apply only_bind; [apply Hb|]. intros [b|e]; [|done].
  unfold upsert_oauth_trust_secret. only_calls; done.
Qed.

Lemma introspection_only canonical :
  only (λ c, merges c = false) (reconcile_oauth_introspection_secret canonical).
Proof.
  unfold reconcile_oauth_introspection_secret, secret_value, get_opt. only_calls; done.
Qed.

Lemma gssapi_check_only k : only (λ c, merges c = false) (gssapi_secret_check k).
Proof. unfold gssapi_secret_check, require_key, get_opt. only_calls; done. Qed.
End mounts.

(** ** Errors that are reported and not retried: their reason and their text *)
Definition secret_error (e : ReconcileError) : option (string * string) :=
  match e with
  | MissingOauthTrustSecret s =>
      Some ("MissingOauthTrustSecret", "oauth trust Secret '" +:+ s +:+ "' not found")
  | MissingOauthTrustKey s k =>
      Some ("MissingOauthTrustKey", "oauth trust Secret '" +:+ s +:+ "' has no key '" +:+ k +:+ "'")
  | EmptyOauthTrustValue s k =>
      Some ("EmptyOauthTrustValue", "oauth trust Secret '" +:+ s +:+ "' key '" +:+ k +:+ "' is empty")
  | InvalidListenerOauthAccessTokenIsJwt m =>
      Some ("InvalidListenerOauthAccessTokenIsJwt", "listener OAuth: " +:+ m)
  | MissingOauthIntrospectionSecret s =>
      Some ("MissingOauthIntrospectionSecret", "oauth introspection Secret '" +:+ s +:+ "' not found")
  | MissingOauthIntrospectionKey s k =>
      Some ("MissingOauthIntrospectionKey",
            "oauth introspection Secret '" +:+ s +:+ "' has no key '" +:+ k +:+ "'")
  | EmptyOauthIntrospectionValue s k =>
      Some ("EmptyOauthIntrospectionValue",
            "oauth introspection Secret '" +:+ s +:+ "' key '" +:+ k +:+ "' is empty")
  | MissingGssapiKeytabSecret s =>
      Some ("MissingGssapiKeytabSecret", "gssapi keytab Secret '" +:+ s +:+ "' not found")
  | MissingGssapiKeytabKey s k =>
      Some ("MissingGssapiKeytabKey", "gssapi keytab Secret '" +:+ s +:+ "' has no key '" +:+ k +:+ "'")
  | MissingKrb5ConfSecret s =>
      Some ("MissingKrb5ConfSecret", "krb5.conf Secret '" +:+ s +:+ "' not found")
  | MissingKrb5ConfKey s k =>
      Some ("MissingKrb5ConfKey",
            "krb5.conf Secret " +:+ debug_str s +:+ " is missing key " +:+ debug_str k)
  | _ => None
  end.
