(* ===== verification/Logging.v ===== *)
(** * The log filter of the brokers (src/controller/logging.rs)

    The [RUST_LOG] filter that is composed from [spec.logging], or read from a
    ConfigMap, with the condition that reports it. *)

From S2P Require Import Prelude RustStd Effects Kube CaBundle ClusterCa Toml Tuning Listeners.
From S2P Require Import KafkaSpec.
Local Open Scope Z_scope.

Definition levels : list string := ["trace"; "debug"; "info"; "warn"; "error"; "off"].

Definition normalize_level (level : string) : option string :=
  let l := to_ascii_lowercase (trim level) in
  if bool_decide (l ∈ levels) then Some l
  else if str_eqb l "warning" then Some "warn"
  else if str_eqb l "fatal" then Some "error"
  else if str_eqb l "none" then Some "off"
  else None.

Inductive LoggingError : Type :=
  | EmptyLoggers
  | EmptyLoggerName
  | InvalidLevel (logger level : string)
  | ExternalMissingRef
  | ExternalConfigMapNotFound (name : string)
  | ExternalKeyNotFound (config_map key : string).

Definition logging_reason (e : LoggingError) : string :=
  match e with
  | EmptyLoggers => "EmptyLoggers"
  | EmptyLoggerName => "EmptyLoggerName"
  | InvalidLevel _ _ => "InvalidLogLevel"
  | ExternalMissingRef => "ExternalRefMissing"
  | ExternalConfigMapNotFound _ => "LoggingConfigMapNotFound"
  | ExternalKeyNotFound _ _ => "LoggingConfigMapKeyNotFound"
  end.

Definition logging_message (e : LoggingError) : string :=
  match e with
  | EmptyLoggers => "logging.type=inline requires a non-empty loggers map"
  | EmptyLoggerName => "logging.loggers contains a blank key"
  | InvalidLevel logger level =>
      "logger '" +:+ logger +:+ "' has invalid level '" +:+ level
      +:+ "' (want trace|debug|info|warn|error|off)"
  | ExternalMissingRef => "logging.type=external requires valueFrom.configMapKeyRef"
  | ExternalConfigMapNotFound name => "logging ConfigMap '" +:+ name +:+ "' not found"
  | ExternalKeyNotFound cm key =>
      "logging ConfigMap '" +:+ cm +:+ "' has no non-empty key '" +:+ key +:+ "'"
  end.

Definition directive (logger level : string) : string :=
  if eq_ignore_ascii_case logger "root" then level else logger +:+ "=" +:+ level.

(** The loop over the loggers. *)
Fixpoint directives (loggers : list (string * string)) : result (list string) LoggingError :=
  match loggers with
  | [] => Ok []
  | (logger, level) :: loggers =>
      let logger := trim logger in
      if is_empty logger then Err EmptyLoggerName
      else match normalize_level level with
           | None => Err (InvalidLevel logger level)
           | Some lvl => let? ds := directives loggers in Ok (directive logger lvl :: ds)
           end
  end.

Definition compose_inline_filter (loggers : gmap string string) : result string LoggingError :=
  if bool_decide (loggers = ∅) then Err EmptyLoggers
  else let? ds := directives (btree_list loggers) in Ok (join "," (sort_by str_leb ds)).

Inductive LoggingOutcome : Type :=
  | LoggingDisabled
  | Resolved (filter : string)
  | LoggingInvalid (e : LoggingError).

Definition logging_filter (o : LoggingOutcome) : option string :=
  match o with Resolved f => Some f | _ => None end.

(** [get_opt] of a ConfigMap, of which the data is read. *)
Inductive logging_call : Type := GetConfigMap (name : string).
Definition logging_resp (c : logging_call) : Type :=
  result (option (option (gmap string string))) kube_error.

Definition resolve_logging (logging : option Logging)
  : prog logging_resp (result LoggingOutcome ReconcileError) :=
  match logging with
  | None => Ret (Ok LoggingDisabled)
  | Some logging =>
      match log_type logging with
      | Inline =>
          Ret (Ok (match compose_inline_filter (log_loggers logging) with
                   | Ok f => Resolved f
                   | Err e => LoggingInvalid e
                   end))
      | External =>
          match log_value_from logging with
          | None => Ret (Ok (LoggingInvalid ExternalMissingRef))
          | Some src =>
              r ← perform (resp := logging_resp) (GetConfigMap (ckr_name src));
              Ret (match r with
                   | Err e => Err (Kube e)
                   | Ok None => Ok (LoggingInvalid (ExternalConfigMapNotFound (ckr_name src)))
                   | Ok (Some data) =>
                       match option_filter (λ v, negb (is_empty v))
                               (opt_map trim (and_then data (λ d, d !! ckr_key src))) with
                       | Some v => Ok (Resolved v)
                       | None => Ok (LoggingInvalid (ExternalKeyNotFound (ckr_name src) (ckr_key src)))
                       end
                   end)
          end
      end
  end.

Definition logging_condition (ts : string) (o : LoggingOutcome) : KafkaCondition :=
  match o with
  | LoggingDisabled => condition ts "LoggingReady" "False" "Disabled" "spec.logging is not set"
  | Resolved f => condition ts "LoggingReady" "True" "Available" ("RUST_LOG filter resolved: " +:+ f)
  | LoggingInvalid e => condition ts "LoggingReady" "False" (logging_reason e) (logging_message e)
  end.

(** ** How a subscriber reads the filter

    Directives separated by commas; one with an equals sign is for a target, one
    without sets the level of everything else. *)
Definition read_directive (d : string) : option string * string :=
  match split_once "=" d with Some (target, level) => (Some target, level) | None => (None, d) end.
Definition read_filter (f : string) : list (option string * string) :=
  map read_directive (split_char "," f).

Definition entry_ok (e : string * string) : Prop :=
  trim (fst e) ≠ "" ∧ is_Some (normalize_level (snd e)).
Definition entry_meaning (e : string * string) : option string * string :=
  (if eq_ignore_ascii_case (trim (fst e)) "root" then None else Some (trim (fst e)),
   default "" (normalize_level (snd e))).
Definition target_clean (e : string * string) : Prop :=
  free_of "," (trim (fst e)) = true ∧ free_of "=" (trim (fst e)) = true.

Lemma normalize_level_levels v l : normalize_level v = Some l → l ∈ levels.
Proof.
  unfold normalize_level. case_bool_decide; [by intros; simplify_eq|].
  repeat (case_match; [intros; simplify_eq; unfold levels; set_solver|]). done.
Qed.

Lemma level_free c l : l ∈ levels → c = ","%char ∨ c = "="%char → free_of c l = true.
Proof.
  unfold levels. intros Hl Hc.
  repeat (apply elem_of_cons in Hl as [->|Hl]; [by destruct Hc as [-> | ->]|]). by apply elem_of_nil in Hl.
Qed.

Lemma split_once_free c a b :
  free_of c a = true → split_once c (a +:+ String c b) = Some (a, b).
Proof.
  unfold free_of. induction a as [|x a IH].
  - intros _. rewrite str_app_nil_l. cbn. by rewrite Ascii.eqb_refl.
  - rewrite str_app_cons. cbn. intros [Hx Ha]%andb_true_iff. apply negb_true_iff in Hx.
    rewrite Ascii.eqb_sym in Hx. rewrite ?Hx, Ascii.eqb_sym, ?Hx, IH by done. done.
Qed.

Lemma read_directive_spec e :
  entry_ok e → target_clean e →
  read_directive (directive (trim (fst e)) (default "" (normalize_level (snd e)))) = entry_meaning e ∧
  free_of "," (directive (trim (fst e)) (default "" (normalize_level (snd e)))) = true ∧
  (entry_meaning e).2 ∈ levels.
Proof.
  destruct e as [k v]. unfold entry_ok, target_clean, entry_meaning. cbn [fst snd].
  intros (Hk & l & Hl) [Hc He]. rewrite Hl. change (default "" (Some l)) with l.
  apply normalize_level_levels in Hl.
  unfold read_directive, directive. destruct (eq_ignore_ascii_case _ _).
  - rewrite split_once_none by (apply level_free; tauto). split_and!; [done|apply level_free; tauto|done].
  - rewrite (str_app_cons "=" "" l), str_app_nil_l, split_once_free by done. split_and!; [done| |done].
    unfold free_of in *. rewrite str_all_app, Hc. apply (level_free ","); tauto.
Qed.

Lemma directives_spec es :
  (∃ ds, directives es = Ok ds) ↔ Forall entry_ok es.
Proof.
  induction es as [|[k v] es IH]; cbn [directives].
  { split; [done|by eexists]. }
  rewrite Forall_cons, <- IH. unfold entry_ok at 1. cbn [fst snd].
  destruct (trim k) eqn:Ek; cbn [is_empty]; [split; [by intros []|by intros [[] _]]|].
  destruct (normalize_level v) as [l|] eqn:El; [|split; [by intros []|by intros [[_ []] _]]].
  assert (is_Some (Some l)) by by eexists. destruct (directives es) as [ds|e]; naive_solver.
Qed.

Lemma directives_eq es ds :
  directives es = Ok ds → ds = map (λ e, directive (trim (fst e)) (default "" (normalize_level (snd e)))) es.
Proof.
  revert ds. induction es as [|[k v] es IH]; intros ds; cbn [directives]; [by intros [= <-]|].
  destruct (is_empty (trim k)); [done|]. destruct (normalize_level v) as [l|] eqn:El; [|done].
  destruct (directives es) as [ds'|]; [|done]. intros [= <-]. cbn. rewrite El. f_equal. by apply IH.
Qed.

Lemma join_segments sep x l : join sep (x :: l) = x +:+ concat_str (map (λ y, sep +:+ y) l).
Proof.
  revert x. induction l as [|y l IH]; intros x; [by rewrite str_app_nil_r|].
  rewrite join_cons2, IH. cbn [map concat_str foldr]. by rewrite <- !str_app_assoc.
Qed.

Lemma split_join c ds :
  ds ≠ [] → Forall (λ d, free_of c d = true) ds → split_char c (join (of_char c) ds) = ds.
Proof.
  intros Hne Hf. destruct ds as [|d ds]; [done|]. rewrite join_segments.
  apply Forall_cons in Hf as [Hd Hf]. apply split_segments; [done|]. by apply Forall_forall.
Qed.

Theorem log_filter_exact m :
  ((∃ f, compose_inline_filter m = Ok f) ↔ m ≠ ∅ ∧ Forall entry_ok (btree_list m)) ∧
  ∀ f, compose_inline_filter m = Ok f → Forall target_clean (btree_list m) →
    read_filter f ≡ₚ map entry_meaning (btree_list m) ∧ Forall (λ d, d.2 ∈ levels) (read_filter f).
Proof.
  unfold compose_inline_filter. case_bool_decide as Hm.
  { split; [split; [by intros []|by intros []]|done]. }
  split.
  { rewrite <- directives_spec. destruct (directives (btree_list m)) as [ds|].
    - split; [intros; split; [done|by eexists]|by eexists].
    - split; [by intros []|by intros [_ []]]. }
  intros f. destruct (directives (btree_list m)) as [ds|] eqn:Hds; [|done]. intros [= <-] Hclean.
  assert (Forall entry_ok (btree_list m)) as Hok by (apply directives_spec; by eexists).
  assert (btree_list m ≠ []) as Hne.
  { intros E. apply Hm. apply map_empty. intros k. destruct (m !! k) as [v|] eqn:Ek; [|done].
    apply elem_of_btree_list in Ek. rewrite E in Ek. by apply elem_of_nil in Ek. }
  apply directives_eq in Hds. pose proof (sort_by_perm str_leb ds) as Hp. unfold read_filter.
  change (join "," (sort_by str_leb ds)) with (join (of_char ",") (sort_by str_leb ds)).
  assert (∀ e, e ∈ btree_list m → entry_ok e ∧ target_clean e) as Hall.
  { intros e He. split; [by apply (proj1 (Forall_forall _ _) Hok)|by apply (proj1 (Forall_forall _ _) Hclean)]. }
  rewrite split_join.
  - assert (map read_directive (sort_by str_leb ds) ≡ₚ map entry_meaning (btree_list m)) as Hperm.
    { rewrite Hp, Hds, map_map. clear -Hall. induction (btree_list m) as [|e es IH]; [done|]. cbn.
      destruct (Hall e) as [Ho Hc]; [left|]. rewrite (proj1 (read_directive_spec e Ho Hc)).
      constructor. apply IH. intros e' He'. apply Hall. by right. }
    split; [done|]. rewrite Hperm. apply Forall_forall. intros d (e & -> & He)%list_elem_of_fmap.
    destruct (Hall e He) as [??]. by apply read_directive_spec.
  - intros E. rewrite E in Hp. apply Permutation_nil_l in Hp. subst. destruct (btree_list m); done.
  - rewrite Hp, Hds. apply Forall_forall. intros d (e & -> & He)%list_elem_of_fmap.
    destruct (Hall e He) as [??]. by apply read_directive_spec.
Qed.

(** A comma in the name of a target adds a directive of its own. *)
Lemma comma_adds_directive :
  compose_inline_filter {["krabka,off" := "debug"]} = Ok "krabka,off=debug" ∧
  read_filter "krabka,off=debug" = [(None, "krabka"); (Some "off", "debug")].
Proof. split; vm_compute; reflexivity. Qed.
