(* ===== verification/Metrics.v ===== *)
(** * The metrics objects of a cluster (src/controller/metrics.rs)

    The PodMonitor, or the ServiceMonitor with its Service, and the step that applies
    the one that is asked for and removes the other. *)

From S2P Require Import Prelude RustStd Effects Kube Workload CaBundle ClusterCa Toml Tuning Listeners.
From S2P Require Import NodePool ListenerObjects NetworkPolicy KafkaSpec.
Local Open Scope Z_scope.

Inductive MonitorKind : Type := PodMonitor | ServiceMonitor.

#[global] Instance MonitorKind_eq_dec : EqDecision MonitorKind.
Proof. solve_decision. Defined.

Record MonitorObject : Type := {
  mo_kind : MonitorKind;
  mo_name : string;
  mo_namespace : string;
  mo_labels : gmap string string;
  mo_owner : owner_reference;
  mo_selector : gmap string string;
  mo_interval : string;
  mo_scrape_timeout : string;
}.

(** [entry(k).or_insert(v)] for each label of the user: the operator's win. *)
Definition monitor_labels (name kafka_version : string) (user : gmap string string) : gmap string string :=
  common_labels name kafka_version None ∪ user.

Definition broker_selector (name : string) : gmap string string :=
  <["app.kubernetes.io/instance" := name]> {["app.kubernetes.io/name" := APP_LABEL]}.

Definition render_monitor (kind : MonitorKind) (owner : object_meta) (kafka_version : string)
    (cfg : MonitorSpec) : result MonitorObject ReconcileError :=
  let name := name_any owner in
  let? o := owner_ref "Kafka" owner in
  Ok {| mo_kind := kind;
        mo_name := name +:+ "-broker";
        mo_namespace := default "" (om_namespace owner);
        mo_labels := monitor_labels name kafka_version (mon_labels cfg);
        mo_owner := o;
        mo_selector := broker_selector name;
        mo_interval := default "30s" (mon_interval cfg);
        mo_scrape_timeout := default "10s" (mon_scrape_timeout cfg) |}.

Definition render_pod_monitor := render_monitor PodMonitor.
Definition render_service_monitor := render_monitor ServiceMonitor.

Record MetricsService : Type := {
  ms_meta : object_meta;
  ms_cluster_ip : string;
  ms_selector : gmap string string;
  ms_port : Z;
  ms_target_port : string;
}.

Definition render_metrics_service (owner : object_meta) (kafka_version : string) (cfg : MonitorSpec)
  : result MetricsService ReconcileError :=
  let name := name_any owner in
  let? meta := owned_meta owner (name +:+ "-broker-metrics") (om_namespace owner)
                 (monitor_labels name kafka_version (mon_labels cfg)) None in
  Ok {| ms_meta := meta; ms_cluster_ip := "None"; ms_selector := broker_selector name;
        ms_port := METRICS_PORT; ms_target_port := "metrics" |}.

Inductive metrics_call : Type :=
  | ApplyMonitor (name : string) (m : MonitorObject)
  | DeleteMonitor (kind : MonitorKind) (name : string)
  | ApplyMetricsService (name : string) (s : MetricsService)
  | DeleteMetricsService (name : string).
Definition metrics_resp (c : metrics_call) : Type := result unit kube_error.

Definition api_code (code : Z) (e : kube_error) : bool :=
  match e with KubeApi c => c =? code | KubeOther _ => false end.

(** [apply_dynamic]: a 404 means that the API server does not know the kind. *)
Definition apply_monitor (name : string) (m : MonitorObject)
  : prog metrics_resp (result unit ReconcileError) :=
  r ← perform (resp := metrics_resp) (ApplyMonitor name m);
  Ret (match r with
       | Ok _ => Ok tt
       | Err e => if api_code 404 e then Err PrometheusOperatorCrdsMissing else Err (Kube e)
       end).

(** [None] when metrics are not configured. *)
Definition reconcile_metrics (owner : object_meta) (kafka_version : string)
    (metrics : option MetricsConfig) (name : string)
  : prog metrics_resp (option (result unit ReconcileError)) :=
  match metrics with
  | None => Ret None
  | Some cfg =>
      match pod_monitor cfg, service_monitor cfg with
      | Some _, Some _ => Ret (Some (Err MetricsMutuallyExclusive))
      | Some pm, None =>
          match render_pod_monitor owner kafka_version pm with
          | Err e => Ret (Some (Err e))
          | Ok body =>
              r ← apply_monitor (name +:+ "-broker") body;
              match r with
              | Err e => Ret (Some (Err e))
              | Ok _ =>
                  _ ← perform (resp := metrics_resp) (DeleteMonitor ServiceMonitor (name +:+ "-broker"));
                  _ ← perform (resp := metrics_resp) (DeleteMetricsService (name +:+ "-broker-metrics"));
                  Ret (Some (Ok tt))
              end
          end
      | None, Some sm =>
          match render_metrics_service owner kafka_version sm with
          | Err e => Ret (Some (Err e))
          | Ok svc =>
              s ← perform (resp := metrics_resp) (ApplyMetricsService (name +:+ "-broker-metrics") svc);
              match s with
              | Err e => Ret (Some (Err (Kube e)))
              | Ok _ =>
                  match render_service_monitor owner kafka_version sm with
                  | Err e => Ret (Some (Err e))
                  | Ok body =>
                      r ← apply_monitor (name +:+ "-broker") body;
                      match r with
                      | Err e => Ret (Some (Err e))
                      | Ok _ =>
                          _ ← perform (resp := metrics_resp) (DeleteMonitor PodMonitor (name +:+ "-broker"));
                          Ret (Some (Ok tt))
                      end
                  end
              end
          end
      | None, None => Ret (Some (Ok tt))
      end
  end.

Definition metrics_ready_condition (ts : string) (o : option (result unit ReconcileError))
  : KafkaCondition :=
  match o with
  | None => condition ts "MetricsReady" "False" "Disabled" "spec.metricsConfig is not set"
  | Some (Ok _) => condition ts "MetricsReady" "True" "Available" "metrics resources reconciled"
  | Some (Err MetricsMutuallyExclusive) =>
      condition ts "MetricsReady" "False" "MutuallyExclusive"
        "podMonitor and serviceMonitor are mutually exclusive"
  | Some (Err PrometheusOperatorCrdsMissing) =>
      condition ts "MetricsReady" "False" "PrometheusOperatorCrdsMissing"
        "monitoring.coreos.com/v1 is not served by the API server"
  | Some (Err _) => condition ts "MetricsReady" "False" "Error" "metrics reconcile failed"
  end.

(** The other kind is removed only after the one asked for is in place, and a pass
    applies monitors of one kind only. *)
Definition applied_kinds (tr : list (event metrics_resp)) : list MonitorKind :=
  filter_map (λ e, match projT1 e with ApplyMonitor _ m => Some (mo_kind m) | _ => None end) tr.

Theorem one_monitor_kind owner version cfg name :
  all_runs (reconcile_metrics owner version (Some cfg) name) (λ tr out,
    justified (λ h e, ∀ k n, projT1 e = DeleteMonitor k n →
      ∃ k', k' ≠ k ∧ k' ∈ applied_kinds h) tr ∧
    (∀ k1 k2, k1 ∈ applied_kinds tr → k2 ∈ applied_kinds tr → k1 = k2) ∧
    (out = Some (Ok tt) → (∀ pm, pod_monitor cfg = Some pm → applied_kinds tr = [PodMonitor]) ∧
       (∀ sm, service_monitor cfg = Some sm → applied_kinds tr = [ServiceMonitor]))).
Proof.
  unfold all_runs, reconcile_metrics, render_pod_monitor, render_service_monitor, render_monitor, apply_monitor.
  run_cases; rewrite ?justified_snoc; split_and!; try apply justified_nil;
    try (intros k n Hk; cbn in Hk; simplify_eq); cbn; try set_solver.
  all: eexists; split; [|apply list_elem_of_here]; discriminate.
Qed.
