(* ===== verification/BrokerToml.v ===== *)
(** * The configuration file of a broker (src/controller/listeners.rs, common.rs)

    The [broker-N.toml] that the operator renders for each node: the header, a
    table per listener, the server properties, tiered storage, authorization, OAuth,
    Kerberos and TLS, and the ConfigMap that holds the files.  Each [writeln!] is one
    item of a document (Toml.v).  [None] is a panic of the renderer. *)

From S2P Require Import Prelude RustStd Kube CaBundle ClusterCa UserTls Toml Tuning Listeners.
From S2P Require Import ListenerCheck NodePool ListenerObjects Advertised KafkaSpec.
Local Open Scope Z_scope.

(** The TLS paths of a node. *)
Record BrokerTlsRender : Type := {
  controller_listener_protocol : string;
  cert_path : string;
  key_path : string;
  client_ca_path : string;
  client_auth : string;
  trust_roots_path : string;
}.

Definition TIER_STORAGE_PATH : string := "/var/lib/krabka/remote".
Definition GSSAPI_KEYTAB_PATH : string := "/etc/krabka/gssapi-keytab/keytab".
Definition GCS_CREDENTIALS_DIR : string := "/etc/krabka/gcs-credentials".
Definition GCS_CREDENTIALS_FILE : string := "key.json".
Definition OPERATOR_PRINCIPAL : string := tls_principal OPERATOR_IDENTITY.

(** [if let Some(x) = o { writeln!(out, "key = {}", ..) }] *)
Definition opt_kv {A} (key : string) (f : A → value) (o : option A) : list item :=
  from_option (λ x, [Kv key (f x)]) [] o.

(** ** Authorization *)
Record AuthorizationRender : Type := {
  ar_kind : string;
  ar_super_users : list string;
  ar_opa : option OpaAuthorization;
}.

Definition merge_operator_principals (base : list string) (include_anonymous : bool) : list string :=
  let out := if include_anonymous && negb (bool_decide ("ANONYMOUS" ∈ base))
             then base ++ ["ANONYMOUS"] else base in
  if bool_decide (OPERATOR_PRINCIPAL ∈ out) then out else out ++ [OPERATOR_PRINCIPAL].

Definition authorization_from_spec (a : Authorization) (include_anonymous : bool) : AuthorizationRender :=
  match a with
  | Simple super_users =>
      {| ar_kind := "simple"; ar_super_users := merge_operator_principals super_users include_anonymous;
         ar_opa := None |}
  | Opa o =>
      {| ar_kind := "opa"; ar_super_users := merge_operator_principals (opa_super_users o) include_anonymous;
         ar_opa := Some o |}
  end.

Definition operator_simple : AuthorizationRender :=
  {| ar_kind := "simple"; ar_super_users := ["ANONYMOUS"; OPERATOR_PRINCIPAL]; ar_opa := None |}.

Definition authorization_render (a : option Authorization) (delegation_token_enabled : bool)
    (anonymous_inter_broker : bool) : option AuthorizationRender :=
  match a, delegation_token_enabled with
  | Some a, _ => Some (authorization_from_spec a anonymous_inter_broker)
  | None, true => Some operator_simple
  | None, false => None
  end.

Definition authorization_items (r : option AuthorizationRender) : list item :=
  from_option (λ r,
    [Table "authorization"; Kv "type" (VRaw (ar_kind r));
     Kv "super_users" (VStrs (ar_super_users r)); Blank] ++
    from_option (λ opa,
      [Table "authorization.opa"; Kv "url" (VRaw (opa_url opa))] ++
      opt_kv "allow_on_error" VBool (opa_allow_on_error opa) ++
      opt_kv "maximum_cache_size" VInt (opa_maximum_cache_size opa) ++
      opt_kv "expire_after_ms" VInt (opa_expire_after_ms opa) ++ [Blank]) [] (ar_opa r)) [] r.

(** ** Tiered storage *)
Section render.
Context {Time ByteSize : Type}.
(** The human forms of [krabka_units], and the wire names of [krabka_security]. *)
Context (human_time : Time → string) (human_size : ByteSize → string)
  (wire_name : SaslMechanism → string).
#[local] Notation Listener := (Listener Time).
#[local] Notation TieredStorage := (TieredStorage Time ByteSize).
Implicit Types (l : Listener) (ls : list Listener).

Definition backend_items (ts : TieredStorage) : option (list item) :=
  match ts_kind ts with
  | TsLocal => Some [Table "remote_storage"; Kv "storage_dir" (VRaw TIER_STORAGE_PATH); Blank]
  | TsS3 =>
      opt_map (λ s3,
        [Table "remote_storage"; Blank; Table "remote_storage.s3";
         Kv "bucket" (VEsc (s3_bucket s3)); Kv "region" (VEsc (s3_region s3))] ++
        opt_kv "prefix" VEsc (s3_prefix s3) ++ opt_kv "endpoint" VEsc (s3_endpoint s3) ++
        (if s3_allow_http s3 then [Kv "allow_http" (VBool true)] else []) ++
        opt_kv "multipart_threshold" VInt (s3_multipart_threshold s3) ++
        opt_kv "multipart_chunk_size" VInt (s3_multipart_chunk_size s3) ++ [Blank]) (ts_s3 ts)
  | TsGcs =>
      opt_map (λ gcs,
        [Table "remote_storage"; Blank; Table "remote_storage.gcs";
         Kv "bucket" (VEsc (gcs_bucket gcs))] ++
        opt_kv "prefix" VEsc (gcs_prefix gcs) ++ opt_kv "endpoint" VEsc (gcs_endpoint gcs) ++
        (if gcs_allow_http gcs then [Kv "allow_http" (VBool true)] else []) ++
        (if opt_is_some (gcs_credentials gcs)
         then [Kv "service_account_path" (VRaw (GCS_CREDENTIALS_DIR +:+ "/" +:+ GCS_CREDENTIALS_FILE))]
         else []) ++
        opt_kv "multipart_threshold" VInt (gcs_multipart_threshold gcs) ++
        opt_kv "multipart_chunk_size" VInt (gcs_multipart_chunk_size gcs) ++ [Blank]) (ts_gcs ts)
  end.

Definition is_in_memory (ts : TieredStorage) : bool :=
  is_some_and (λ mm, match mm_kind mm with InMemory => true | TopicBacked => false end)
    (ts_metadata_manager ts).

Definition metadata_items (ts : TieredStorage) : list item :=
  [Table "remote_storage.kafka_metadata"] ++
  (if is_in_memory ts then [Kv "in_memory" (VBool true)]
   else from_option (λ t,
     [Kv "bootstrap" (VEsc (tm_bootstrap t))] ++
     opt_kv "num_partitions" VInt (tm_num_partitions t) ++
     opt_kv "replication" VInt (tm_replication t) ++
     opt_kv "topic_create_timeout" (λ v, VRaw (human_time v)) (tm_topic_create_timeout t) ++
     opt_kv "fetch_max_wait" (λ v, VRaw (human_time v)) (tm_fetch_max_wait t) ++
     opt_kv "fetch_max_bytes" (λ v, VRaw (human_size v)) (tm_fetch_max_bytes t) ++
     opt_kv "fetch_retry_backoff" (λ v, VRaw (human_time v)) (tm_fetch_retry_backoff t) ++
     opt_kv "event_queue_capacity" VInt (tm_event_queue_capacity t) ++
     opt_kv "snapshot_interval" (λ v, VRaw (human_time v)) (tm_snapshot_interval t))
     [] (and_then (ts_metadata_manager ts) mm_topic)) ++
  [Blank].

Definition render_remote_storage (ts : option TieredStorage) : option (list item) :=
  match ts with
  | None => Some []
  | Some ts => opt_map (λ b, b ++ metadata_items ts) (backend_items ts)
  end.

(** ** Listeners *)
Definition protocol_str (p : ListenerProtocol) : string :=
  match p with
  | Plaintext => "Plaintext" | Ssl => "Ssl"
  | SaslPlaintext => "SaslPlaintext" | SaslSsl => "SaslSsl"
  end.

Definition tls_items (broker : Z) l (clients_ca operator_name : option string) : list item :=
  if negb (l_tls l) then []
  else
    let cert := "/etc/krabka/broker-tls/" +:+ display_Z broker +:+ ".crt" in
    let key := "/etc/krabka/broker-tls/" +:+ display_Z broker +:+ ".key" in
    match l_authentication l with
    | Some AuthTls =>
        let client_ca := if bool_decide (operator_name = Some (l_name l))
                         then "/etc/krabka/cluster-ca/ca.crt"
                         else default "/etc/krabka/clients-ca/ca.crt" clients_ca in
        [Kv "tls_config" (VInline [("cert_path", IStr cert); ("key_path", IStr key);
           ("client_ca_path", IStr client_ca); ("client_auth", IStr "Required")])]
    | _ =>
        [Kv "tls_config" (VInline [("cert_path", IStr cert); ("key_path", IStr key);
           ("client_auth", IStr "Disabled")])]
    end.

Definition sasl_items l : list item :=
  from_option (λ mech, [Kv "sasl_config" (VInline [("enabled_mechanisms", IStrs [wire_name mech])])])
    [] (and_then (l_authentication l) sasl_mechanism).

Definition listener_items (broker : Z) (addresses : gmap string AdvertisedAddress)
    (clients_ca operator_name : option string) l : option (list item) :=
  opt_map (λ proto,
    [ArrayTable "listeners";
     Kv "name" (VRaw (l_name l));
     Kv "bind_addr" (VRaw ("0.0.0.0:" +:+ display_Z (l_port l)));
     Kv "advertised" (VRaw (from_option (λ a, adv_host a +:+ ":" +:+ display_Z (adv_port a)) ""
                              (addresses !! l_name l)));
     Kv "protocol" (VRaw (protocol_str proto))] ++
    tls_items broker l clients_ca operator_name ++ sasl_items l ++ [Blank]) (listener_protocol l).

Fixpoint render_listener_sections (broker : Z) ls (addresses : gmap string AdvertisedAddress)
    (clients_ca operator_name : option string) : option (list item) :=
  match ls with
  | [] => Some []
  | l :: ls =>
      match listener_items broker addresses clients_ca operator_name l with
      | Some is_ => opt_map (app is_) (render_listener_sections broker ls addresses clients_ca operator_name)
      | None => None
      end
  end.

Definition render_broker_header (broker : Z) (inter_broker : string) (tls : option BrokerTlsRender)
    (voters : list string) (server_name : string) : list item :=
  [Kv "broker_id" (VInt broker);
   Kv "log_dir" (VRaw "/var/lib/krabka/data");
   Kv "heartbeat_interval" (VRaw "500ms");
   Kv "heartbeat_timeout" (VRaw "3s");
   Kv "replica_lag_time_max" (VRaw "2s");
   Kv "controller_election_timeout" (VRaw "500ms");
   Kv "controller_heartbeat_interval" (VRaw "100ms");
   Kv "inter_broker_listener_name" (VRaw inter_broker)] ++
  opt_kv "controller_listener_protocol" (λ t, VRaw (controller_listener_protocol t)) tls ++
  (if bool_decide (voters = []) then [] else [Kv "controller_quorum_voters" (VStrs voters)]) ++
  (if is_empty server_name then [] else [Kv "controller_server_name" (VRaw server_name)]) ++
  [Blank].

(** ** OAuth and Kerberos *)
Definition oauth_items (c : ListenerAuthenticationOAuth) : list item :=
  [Table "oauthbearer"] ++
  (if access_token_is_jwt c then opt_kv "jwks_endpoint_uri" VRaw (jwks_endpoint_uri c)
   else
     opt_kv "introspection_endpoint_uri" VRaw (introspection_endpoint_uri c) ++
     opt_kv "userinfo_endpoint_uri" VRaw (user_info_endpoint_uri c) ++
     opt_kv "introspection_client_id" VRaw (client_id c) ++
     [Kv "introspection_client_secret_path" (VRaw "/etc/krabka/oauth-introspection/client-secret")] ++
     opt_kv "introspection_http_timeout_ms" (λ s, VInt (s * 1000)) (introspection_http_timeout_seconds c)) ++
  [Kv "valid_issuer_uri" (VRaw (valid_issuer_uri c))] ++
  opt_kv "expected_audience" VRaw (valid_audience c) ++
  opt_kv "principal_claim_name" VRaw (user_name_claim c) ++
  opt_kv "jwks_refresh_interval_ms" (λ s, VInt (s * 1000)) (jwks_refresh_seconds c) ++
  opt_kv "allowable_clock_skew_ms" (λ s, VInt (s * 1000)) (max_clock_skew_seconds c) ++
  (if bool_decide (tls_trusted_certificates c = []) then []
   else [Kv "idp_tls_trust" (VRaw "/etc/krabka/oauth-jwks-trust/ca.crt")]) ++
  opt_kv "max_session_lifetime_seconds" VInt (max_seconds_without_reauthentication c) ++
  opt_kv "custom_claim_check" VLit (custom_claim_check c) ++
  opt_kv "valid_token_type" VRaw (valid_token_type c) ++
  opt_kv "fallback_user_name_claim" VRaw (fallback_user_name_claim c) ++
  opt_kv "fallback_user_name_prefix" VRaw (fallback_user_name_prefix c) ++
  opt_kv "groups_claim" VLit (groups_claim c) ++
  opt_kv "groups_claim_delimiter" VRaw (groups_claim_delimiter c) ++
  opt_kv "jwks_min_refresh_pause_seconds" VInt (jwks_min_refresh_pause_seconds c) ++
  opt_kv "jwks_expiry_seconds" VInt (jwks_expiry_seconds c) ++
  opt_kv "jwks_ignore_key_use" VBool (jwks_ignore_key_use c) ++
  [Blank].

Definition gssapi_items (g : ListenerAuthenticationGssapi Time) : list item :=
  [Table "gssapi"; Kv "keytab_path" (VRaw GSSAPI_KEYTAB_PATH);
   Kv "service_name" (VEsc (default "kafka" (service_name g)));
   Kv "principal_to_local_rules" (VStrs (principal_to_local_rules g))] ++
  opt_kv "realm" VEsc (realm g) ++ opt_kv "kdc" VEsc (kdc g) ++
  opt_kv "max_time_skew" (λ t, VRaw (human_time t)) (max_time_skew g) ++ [Blank].

Definition credential_items (ibk : InterBrokerKerberos) : list item :=
  [Table "inter_broker_credentials"; Kv "type" (VRaw "gssapi");
   Kv "keytab_path" (VRaw GSSAPI_KEYTAB_PATH);
   Kv "client_principal" (VEsc (ibk_client_principal ibk));
   Kv "service_name" (VEsc (default "kafka" (ibk_service_name ibk)));
   Kv "kdc_url" (VEsc (ibk_kdc_url ibk)); Blank].

Definition final_tls_items (t : BrokerTlsRender) : list item :=
  [Table "tls_config"; Kv "cert_path" (VRaw (cert_path t)); Kv "key_path" (VRaw (key_path t));
   Kv "trust_roots_path" (VRaw (trust_roots_path t));
   Kv "client_ca_path" (VRaw (client_ca_path t)); Kv "client_auth" (VRaw (client_auth t))].

(** ** The whole file *)
Record toml_input : Type := {
  ti_broker : Z;
  ti_listeners : list Listener;
  ti_addresses : gmap string AdvertisedAddress;
  ti_inter_broker : string;
  ti_server_properties : gmap string string;
  ti_tls : option BrokerTlsRender;
  ti_clients_ca : option string;
  ti_delegation_token : bool;
  ti_authorization : option Authorization;
  ti_kerberos : option InterBrokerKerberos;
  ti_tiered_storage : option TieredStorage;
  ti_voters : list string;
  ti_server_name : string;
  ti_operator_name : option string;
}.

Definition anonymous_inter_broker (i : toml_input) : bool :=
  ti_delegation_token i &&
  is_some_and (λ l, negb (opt_is_some (l_authentication l)))
    (find_first (λ l, str_eqb (l_name l) (ti_inter_broker i)) (ti_listeners i)).

Definition inter_broker_is_gssapi (i : toml_input) : bool :=
  existsb (λ l, str_eqb (l_name l) (ti_inter_broker i) &&
    match l_authentication l with Some (AuthGssapi _) => true | _ => false end) (ti_listeners i).

Definition properties_items (props : gmap string string) : list item :=
  if bool_decide (props = ∅) then []
  else [Table "server_properties"] ++ map (λ '(k, v), QuotedKv k v) (btree_list props) ++ [Blank].

(** Everything after the listeners and tiered storage. *)
Definition security_items (i : toml_input) : list item :=
  authorization_items (authorization_render (ti_authorization i) (ti_delegation_token i)
                         (anonymous_inter_broker i)) ++
  from_option oauth_items [] (head (oauth_configs (ti_listeners i))) ++
  from_option gssapi_items [] (head (gssapi_configs (ti_listeners i))) ++
  (if inter_broker_is_gssapi i then from_option credential_items [] (ti_kerberos i) else []) ++
  from_option final_tls_items [] (ti_tls i).

Definition broker_doc (i : toml_input) : option (list item) :=
  match render_listener_sections (ti_broker i) (ti_listeners i) (ti_addresses i) (ti_clients_ca i)
          (ti_operator_name i) with
  | None => None
  | Some sections =>
      opt_map (λ remote,
        render_broker_header (ti_broker i) (ti_inter_broker i) (ti_tls i) (ti_voters i) (ti_server_name i) ++
        sections ++ properties_items (ti_server_properties i) ++ remote ++ security_items i)
        (render_remote_storage (ti_tiered_storage i))
  end.

Definition render_broker_toml_with_operator (i : toml_input) : option string :=
  opt_map print_doc (broker_doc i).

(** ** The ConfigMap *)
Context {Ratio F64 : Type}.
(** [serde_json::to_string] of a list of strings, and the printers that the
    [runtime] table uses. *)
Context (json_strings : list string → string) (toml_string : string → string)
  (human_ratio : Ratio → string).
#[local] Notation Kafka := (Kafka Time ByteSize Ratio F64).

Record ConfigMap : Type := { cm_meta : object_meta; cm_data : gmap string string }.

Definition has_role (r : NodeRole) (roles : list NodeRole) : bool := bool_decide (r ∈ roles).

(** [controller_endpoints], as [id@host:port]. *)
Definition controller_quorum_voters (addresses : gmap Z (gmap string AdvertisedAddress))
    (roles : gmap Z (list NodeRole)) (inter_broker : string) : list string :=
  filter_map (λ '(id, addrs),
    if is_some_and (has_role Controller) (roles !! id) then
      opt_map (λ adv, display_Z id +:+ "@" +:+ adv_host adv +:+ ":" +:+ display_Z CONTROLLER_PORT)
        ((addrs : gmap string AdvertisedAddress) !! inter_broker)
    else None) (btree_list_Z addresses).

Definition controller_bootstrap_server (k : Kafka) : string :=
  name_any (k_meta k) +:+ "-controller-bootstrap." +:+ default "" (om_namespace (k_meta k))
  +:+ ".svc.cluster.local:" +:+ display_Z CONTROLLER_PORT.

Definition dynamic_quorum_config (k : Kafka) : string :=
  "bootstrap_servers = " +:+ json_strings [controller_bootstrap_server k] +:+ of_char nl +:+
  "auto_join = true" +:+ of_char nl.

Definition node_listeners ls (operator_name : option string) (inter_broker : string)
    (roles : option (list NodeRole)) : list Listener :=
  if from_option (has_role Broker) true roles then ls
  else List.filter (λ l, str_eqb (l_name l) inter_broker
                         || bool_decide (operator_name = Some (l_name l))) ls.

Definition node_input (k : Kafka) ls (operator_name : option string)
    (addresses : gmap Z (gmap string AdvertisedAddress)) (roles : gmap Z (list NodeRole))
    (inter_broker : string) (tls_per_broker : option (gmap Z BrokerTlsRender))
    (clients_ca : option string) (id : Z) (addrs : gmap string AdvertisedAddress) : toml_input :=
  {| ti_broker := id;
     ti_listeners := node_listeners ls operator_name inter_broker (roles !! id);
     ti_addresses := addrs;
     ti_inter_broker := inter_broker;
     ti_server_properties := default ∅ (k_config (k_spec k));
     ti_tls := and_then tls_per_broker (λ m, m !! id);
     ti_clients_ca := clients_ca;
     ti_delegation_token := opt_is_some (k_delegation_token (k_spec k));
     ti_authorization := k_authorization (k_spec k);
     ti_kerberos := k_inter_broker_kerberos (k_spec k);
     ti_tiered_storage := k_tiered_storage (k_spec k);
     ti_voters := controller_quorum_voters addresses roles inter_broker;
     ti_server_name := name_any (k_meta k) +:+ "-broker-headless." +:+
                       default "" (om_namespace (k_meta k)) +:+ ".svc.cluster.local";
     ti_operator_name := operator_name |}.

Definition node_file (k : Kafka) (i : toml_input) : option string :=
  opt_map (λ rendered,
    dynamic_quorum_config k +:+ rendered +:+
    from_option (render_runtime_toml toml_string human_time human_size human_ratio) ""
      (k_broker_tuning (k_spec k)))
    (render_broker_toml_with_operator i).

Definition file_key (id : Z) : string := "broker-" +:+ display_Z id +:+ ".toml".

(** The loop over the nodes. *)
Fixpoint insert_files (file : Z → gmap string AdvertisedAddress → option string)
    (nodes : list (Z * gmap string AdvertisedAddress)) (data : gmap string string)
  : option (gmap string string) :=
  match nodes with
  | [] => Some data
  | (id, addrs) :: nodes =>
      match file id addrs with
      | Some text => insert_files file nodes (<[file_key id := text]> data)
      | None => None
      end
  end.

Definition render_configmap (k : Kafka) ls (operator_name : option string)
    (addresses : gmap Z (gmap string AdvertisedAddress)) (roles : gmap Z (list NodeRole))
    (inter_broker : string) (tls_per_broker : option (gmap Z BrokerTlsRender))
    (clients_ca logging_filter : option string) : option (result ConfigMap ReconcileError) :=
  opt_map (λ data,
    let? meta := owned_meta (k_meta k) (name_any (k_meta k) +:+ "-broker-config")
                   (om_namespace (k_meta k))
                   (common_labels (name_any (k_meta k)) (k_version (k_spec k)) None) None in
    Ok {| cm_meta := meta; cm_data := data |})
    (insert_files (λ id addrs,
       node_file k (node_input k ls operator_name addresses roles inter_broker tls_per_broker
                      clients_ca id addrs))
       (btree_list_Z addresses)
       (from_option (λ f, {["rust.log" := f]}) ∅ logging_filter)).
End render.
