(* ===== verification/ConfigFile.v ===== *)
(** * What the brokers read (src/controller/listeners.rs, common.rs)

    The configuration files of BrokerToml.v, read back by the reader of Toml.v.  A
    text that the renderer writes verbatim has to be free of quotes, backslashes and
    control characters; one that it escapes, of control characters only. *)

From S2P Require Import Prelude RustStd Kube CaBundle ClusterCa UserTls Toml Tuning Listeners.
From S2P Require Import ListenerCheck NodePool ListenerObjects Advertised KafkaSpec BrokerToml.
Local Open Scope Z_scope.


Section clean.
Context {Time ByteSize Ratio F64 : Type}.
#[local] Notation Listener := (Listener Time).
#[local] Notation toml_input := (@toml_input Time ByteSize).













End clean.














Section wf.
Context {Time ByteSize Ratio F64 : Type}.
Context (human_time : Time → string) (human_size : ByteSize → string)
  (wire_name : SaslMechanism → string).
Hypothesis human_time_plain : ∀ t, plain (human_time t) = true.
Hypothesis human_size_plain : ∀ s, plain (human_size s) = true.
Hypothesis wire_name_plain : ∀ m, plain (wire_name m) = true.
#[local] Notation Listener := (Listener Time).
#[local] Notation toml_input := (@toml_input Time ByteSize).
Implicit Types (l : Listener) (ls : list Listener) (i : toml_input).























(** ** The [runtime] table and the quorum keys as items *)
Context (json_strings : list string → string) (toml_string : string → string)
  (human_ratio : Ratio → string).
Hypothesis human_ratio_plain : ∀ r, plain (human_ratio r) = true.
(** A plain text needs no escape in JSON and in TOML. *)
Hypothesis json_strings_plain :
  ∀ strs, forallb plain strs = true → json_strings strs = toml_string_array strs.
Hypothesis toml_string_plain : ∀ s, plain s = true → toml_string s = quoted s.
#[local] Notation Kafka := (Kafka Time ByteSize Ratio F64).
#[local] Notation BrokerTuning := (gmap string (tuning_value Time ByteSize Ratio)).
Implicit Types (k : Kafka) (t : BrokerTuning).









#[local] Opaque tuning_fields.



End wf.

(** ** Tables and keys of a file *)

(** Lines of one table, with keys from [ks]. *)
Definition entries_in (ks : list string) (d : list item) : Prop :=
  tables_of (map item_meaning d) = [] ∧ arrays_of (map item_meaning d) = [] ∧
  keys_of (map item_meaning d) `sublist_of` ks.








Lemma entries_in_ok ks d : NoDup ks → entries_in ks d → entries_ok (map item_meaning d).
Proof. intros Hn (Ht & Ha & Hk). split_and!; [done|done|by eapply sublist_NoDup]. Qed.










Section scope.
Context {Time ByteSize Ratio F64 : Type}.
Context (human_time : Time → string) (human_size : ByteSize → string) (human_ratio : Ratio → string)
  (wire_name : SaslMechanism → string).
#[local] Notation Listener := (Listener Time).
#[local] Notation toml_input := (@toml_input Time ByteSize).
Implicit Types (l : Listener) (ls : list Listener) (i : toml_input).












End scope.




Section config_map.
Context {Time ByteSize Ratio F64 : Type}.
Context (human_time : Time → string) (human_size : ByteSize → string) (human_ratio : Ratio → string)
  (wire_name : SaslMechanism → string)
  (json_strings : list string → string) (toml_string : string → string).
#[local] Notation Kafka := (Kafka Time ByteSize Ratio F64).
#[local] Notation Listener := (Listener Time).
Implicit Types (k : Kafka) (ls : list Listener).
#[local] Notation broker_doc := (broker_doc human_time human_size wire_name).




End config_map.

(** ** Theorems *)



(** A SCRAM listener and the operator's, one combined node, tuning and an authorizer. *)
Module FileDemo.
Definition listener : Listener Z :=
  {| l_name := "TLS"; l_port := 9094; l_type := Internal; l_tls := true;
     l_authentication := Some AuthScramSha512; l_configuration := None; l_network_policy_peers := None |}.
Definition listeners : list (Listener Z) := [listener; operator_listener [listener]].
Definition spec : KafkaSpec Z Z Z Z :=
  {| k_version := "4.0.0"; k_metadata_version := None;
     k_config := Some {["log.retention.ms" := "1000"]};
     k_listeners := [listener]; k_inter_broker_listener_name := None; k_metrics_config := None;
     k_network_policy := false; k_cluster_ca := None; k_clients_ca := None; k_logging := None;
     k_delegation_token := None; k_authorization := Some (Simple ["User:admin"]);
     k_tiered_storage := None; k_inter_broker_kerberos := None; k_krb5_conf_secret_ref := None;
     k_tracing := None; k_broker_tuning := Some {["max_produce_group" := TvInt 16]} |}.
Definition kafka : Kafka Z Z Z Z :=
  {| k_meta := {| om_name := Some "demo"; om_namespace := Some "kafka"; om_uid := Some "u1";
                  om_labels := None; om_annotations := None; om_finalizers := None;
                  om_generation := None; om_deleting := false; om_owners := [] |};
     k_spec := spec; k_status := None |}.
Definition host : AdvertisedAddress :=
  {| adv_host := "demo-a-0.demo-broker-headless.kafka.svc.cluster.local"; adv_port := 9094 |}.
Definition addresses : gmap Z (gmap string AdvertisedAddress) := {[0 := {["TLS" := host]}]}.
Definition roles : gmap Z (list NodeRole) := {[0 := [Broker; Controller]]}.
Definition tls : gmap Z BrokerTlsRender :=
  {[0 := {| controller_listener_protocol := "Ssl"; cert_path := "/etc/krabka/broker-tls/0.crt";
            key_path := "/etc/krabka/broker-tls/0.key"; client_ca_path := "/etc/krabka/cluster-ca/ca.crt";
            client_auth := "Required"; trust_roots_path := "/etc/krabka/cluster-ca/ca.crt" |}]}.
Definition wire (m : SaslMechanism) : string :=
  match m with
  | MechScramSha512 => "SCRAM-SHA-512" | MechScramSha256 => "SCRAM-SHA-256"
  | OAuthBearer => "OAUTHBEARER" | MechGssapi => "GSSAPI"
  end.
Definition millis (t : Z) : string := display_Z t +:+ "ms".
Definition input : toml_input :=
  node_input kafka listeners (Some "OPERATOR") addresses roles "TLS" (Some tls)
    (Some "/etc/krabka/clients-ca/ca.crt") 0 {["TLS" := host]}.
End FileDemo.


(** ** Super users *)
Definition declared_super_users (a : Authorization) : list string :=
  match a with Simple users => users | Opa o => opa_super_users o end.

Lemma elem_of_merge base anonymous u :
  u ∈ merge_operator_principals base anonymous ↔
  u ∈ base ∨ u = OPERATOR_PRINCIPAL ∨ (u = "ANONYMOUS" ∧ anonymous = true).
Proof.
  unfold merge_operator_principals. destruct anonymous; cbn.
  - case_bool_decide; cbn; case_bool_decide; set_solver.
  - case_bool_decide; set_solver.
Qed.

(** Who bypasses the authorizer of a broker.  Whenever the rendered configuration
    has an [authorization] table, it names super users, and these are exactly: the
    principals that the Kafka resource declares; the operator's own mTLS principal;
    and ANONYMOUS, only when delegation tokens are enabled and either no authorizer
    was declared or the inter-broker listener takes unauthenticated connections.
    No table is rendered only when nothing asks for an authorizer. *)
Theorem super_users_exact {Time ByteSize} human_time human_size wire_name
    (i : @toml_input Time ByteSize) doc :
  broker_doc human_time human_size wire_name i = Some doc →
  match authorization_render (ti_authorization i) (ti_delegation_token i) (anonymous_inter_broker i) with
  | None => ti_authorization i = None ∧ ti_delegation_token i = false
  | Some r =>
      Table "authorization" ∈ doc ∧ Kv "super_users" (VStrs (ar_super_users r)) ∈ doc ∧
      ∀ u, u ∈ ar_super_users r ↔
        u = OPERATOR_PRINCIPAL ∨
        (∃ a, ti_authorization i = Some a ∧ u ∈ declared_super_users a) ∨
        (u = "ANONYMOUS" ∧ ti_delegation_token i = true ∧
         (ti_authorization i = None ∨ anonymous_inter_broker i = true))
  end.
Proof.
  intros Hd.
  assert (∀ it, it ∈ authorization_items (authorization_render (ti_authorization i)
    (ti_delegation_token i) (anonymous_inter_broker i)) → it ∈ doc) as Hin.
  { intros it Hit. unfold broker_doc in Hd.
    destruct (render_listener_sections _ _ _ _ _ _); [|done].
    destruct (render_remote_storage _ _ _); [|done]. cbn [opt_map] in Hd. apply (inj Some) in Hd. subst doc.
    do 4 (apply elem_of_app; right). unfold security_items. apply elem_of_app. by left. }
  assert (anonymous_inter_broker i = true → ti_delegation_token i = true) as Hanon.
  { unfold anonymous_inter_broker. by intros []%andb_true_iff. }
  destruct (authorization_render _ _ _) as [r|] eqn:Hr.
  - split; [apply Hin; left|]. split; [apply Hin; right; right; left|]. intros u.
    unfold authorization_render in Hr. destruct (ti_authorization i) as [a|]; [|destruct (ti_delegation_token i)];
      simplify_eq.
    + destruct a; cbn [authorization_from_spec ar_super_users]; rewrite elem_of_merge;
        destruct (anonymous_inter_broker i); naive_solver.
    + cbn. rewrite !elem_of_cons, elem_of_nil. naive_solver.
  - unfold authorization_render in Hr. destruct (ti_authorization i), (ti_delegation_token i); done.
Qed.

Lemma super_users_exact_witness :
  ∃ doc, broker_doc FileDemo.millis FileDemo.millis FileDemo.wire FileDemo.input = Some doc ∧
    Kv "super_users" (VStrs ["User:admin"; "User:CN=krabka-operator@internal"]) ∈ doc.
Proof.
  destruct (broker_doc FileDemo.millis FileDemo.millis FileDemo.wire FileDemo.input) as [doc|] eqn:E;
    [|vm_compute in E; discriminate].
  exists doc. split; [reflexivity|].
  exact (proj1 (proj2 (super_users_exact FileDemo.millis FileDemo.millis FileDemo.wire FileDemo.input doc E))).
Defined.

(** ** What is not escaped *)

(** A Kerberos rule with a backslash, which [validate_listeners] does not look at, is
    written as it is, and the file is no TOML any more. *)
Definition realm_rule : string :=
  "RULE:[1:$1](.*@EX" +:+ of_char backslash +:+ ".COM)s/@.*//".

Lemma backslash_rule_not_read :
  read_doc (print_doc (gssapi_items (λ t : Z, "")
    {| keytab_secret_ref := {| skr_secret_name := "keytab"; skr_key := "k" |}; service_name := None;
       principal_to_local_rules := [realm_rule]; realm := None; kdc := None; max_time_skew := None |}))
  = None.
Proof. vm_compute. reflexivity. Qed.

(** A server property with a quote ends its string early. *)
Lemma quoted_property_not_read :
  read_doc (print_doc (properties_items {["ssl.principal.mapping.rules" := "a" +:+ of_char dquote]})) = None.
Proof. vm_compute. reflexivity. Qed.
