(* ===== verification/StorageChange.v ===== *)
(** * Storage changes of a running pool (src/controller/kafka_node_pool.rs)

    The desired storage against the claim templates of the live StatefulSet:
    the kind and the class of a disk never change, and no disk shrinks. *)

From S2P Require Import Prelude RustStd Kube Workload Quantity NodePool.
Local Open Scope Z_scope.

Definition storage_kind (s : option Storage) : string :=
  match s with
  | None | Some Ephemeral => "Ephemeral"
  | Some (PersistentClaim _) => "PersistentClaim"
  | Some (Jbod _ _) => "Jbod"
  end.

Definition observed_storage_kind (templates : list PersistentVolumeClaim) : string :=
  match templates with
  | [] => "Ephemeral"
  | [_] => "PersistentClaim"
  | _ => "Jbod"
  end.

(** A missing spec or request reads as an empty size. *)
Definition size_class_from_pvc (pvc : PersistentVolumeClaim) : string * option string :=
  match pvc_spec pvc with
  | None => ("", None)
  | Some spec => (default "" (claim_storage spec), claim_class spec)
  end.

Definition quantity_or_zero (s : string) : Z := default 0 (result_ok (parse_quantity s)).

Definition check_class_and_shrink (desired_size : string) (desired_class : option string)
    (observed : string * option string) : result unit PoolValidationError :=
  let '(observed_size, observed_class) := observed in
  if negb (bool_decide (desired_class = observed_class)) then
    Err (StorageClassChanged observed_class desired_class)
  else if quantity_or_zero desired_size <? quantity_or_zero observed_size then
    Err (StorageShrinkNotAllowed observed_size desired_size)
  else Ok tt.

(** The [data] template, and the [data-N] templates by [N]. *)
Definition observed_primary (observed : list PersistentVolumeClaim) : option (string * option string) :=
  fold_left (λ acc t, if str_eqb (default "" (pvc_name t)) "data" then Some (size_class_from_pvc t)
                      else acc) observed None.

Definition extra_id (t : PersistentVolumeClaim) : option Z :=
  let name := default "" (pvc_name t) in
  if str_eqb name "data" then None else and_then (strip_prefix "data-" name) parse_i32.

Definition observed_extra (observed : list PersistentVolumeClaim) : gmap Z (string * option string) :=
  fold_left (λ acc t, match extra_id t with
                      | Some n => <[n := size_class_from_pvc t]> acc
                      | None => acc
                      end) observed ∅.

Fixpoint check_extras (extras : list JbodVolume) (observed : gmap Z (string * option string))
  : result unit PoolValidationError :=
  match extras with
  | [] => Ok tt
  | v :: extras =>
      if? match observed !! jv_id v with
          | Some o => check_class_and_shrink (jv_size v) (jv_class v) o
          | None => Ok tt
          end in
      check_extras extras observed
  end.

Definition sort_volumes : list JbodVolume → list JbodVolume :=
  sort_by (λ a b, jv_id a <=? jv_id b).

Definition validate_jbod_change (volumes : list JbodVolume) (observed : list PersistentVolumeClaim)
  : result unit PoolValidationError :=
  match sort_volumes volumes with
  | [] => Ok tt
  | primary :: extras =>
      let desired_extra_ids : gset Z := list_to_set (map jv_id extras) in
      if negb (bool_decide (desired_extra_ids = dom (observed_extra observed))) then
        Err JbodVolumesImmutable
      else
        if? match observed_primary observed with
            | Some o => check_class_and_shrink (jv_size primary) (jv_class primary) o
            | None => Ok tt
            end in
        check_extras extras (observed_extra observed)
  end.

Definition validate_storage_change (desired : option Storage)
    (observed : option (list PersistentVolumeClaim)) : result unit PoolValidationError :=
  match observed with
  | None => Ok tt
  | Some observed =>
      let desired_kind := storage_kind desired in
      let observed_kind := observed_storage_kind observed in
      if negb (str_eqb desired_kind observed_kind) then
        Err (StorageTypeChanged observed_kind desired_kind)
      else
        match desired with
        | Some (PersistentClaim pc) =>
            match observed with
            | t :: _ => check_class_and_shrink (pc_size pc) (pc_class pc) (size_class_from_pvc t)
            | [] => Ok tt   (* the kinds would differ *)
            end
        | Some (Jbod volumes _) => validate_jbod_change volumes observed
        | None | Some Ephemeral => Ok tt
        end
  end.

(** ** What an accepted change keeps *)
Definition keeps (size : string) (class : option string) (observed : string * option string) : Prop :=
  class = observed.2 ∧ quantity_or_zero observed.1 ≤ quantity_or_zero size.

Lemma check_class_and_shrink_Ok size class o :
  check_class_and_shrink size class o = Ok tt ↔ keeps size class o.
Proof.
  destruct o as [os oc]. unfold check_class_and_shrink, keeps. cbn. case_bool_decide as Hc; cbn.
  - destruct (Z.ltb_spec (quantity_or_zero size) (quantity_or_zero os)); split; try done; intros; lia.
  - split; [done|]. naive_solver.
Qed.

Lemma check_extras_Ok extras observed :
  check_extras extras observed = Ok tt ↔
  ∀ v o, v ∈ extras → observed !! jv_id v = Some o → keeps (jv_size v) (jv_class v) o.
Proof.
  induction extras as [|v extras IH]; cbn; [set_solver|].
  destruct (observed !! jv_id v) as [o|] eqn:Ho.
  - destruct (check_class_and_shrink (jv_size v) (jv_class v) o) as [[]|e] eqn:Hc.
    + rewrite IH. apply check_class_and_shrink_Ok in Hc. split.
      * intros He v' o' [->|Hv]%elem_of_cons; [congruence|]. by apply He.
      * intros He v' o' Hv. apply He. by right.
    + split; [done|]. intros He. specialize (He v o (list_elem_of_here _ _) Ho).
      apply check_class_and_shrink_Ok in He. congruence.
  - rewrite IH. split.
    + intros He v' o' [->|Hv]%elem_of_cons; [congruence|]. by apply He.
    + intros He v' o' Hv. apply He. by right.
Qed.

(** The disks of a JBOD pool against the observed templates: the same
    non-primary disks, each kept. *)
Definition jbod_kept (volumes : list JbodVolume) (observed : list PersistentVolumeClaim) : Prop :=
  ∃ primary extras, sort_volumes volumes = primary :: extras ∧
    (∀ n, n ∈ map jv_id extras ↔ is_Some (observed_extra observed !! n)) ∧
    (∀ o, observed_primary observed = Some o → keeps (jv_size primary) (jv_class primary) o) ∧
    (∀ v o, v ∈ extras → observed_extra observed !! jv_id v = Some o → keeps (jv_size v) (jv_class v) o).

Lemma validate_jbod_change_Ok volumes observed :
  volumes ≠ [] → validate_jbod_change volumes observed = Ok tt ↔ jbod_kept volumes observed.
Proof.
  intros Hne. unfold validate_jbod_change, jbod_kept.
  destruct (sort_volumes volumes) as [|primary extras] eqn:Hs.
  { exfalso. apply Hne. apply Permutation_nil_r. rewrite <- Hs. symmetry. apply sort_by_perm. }
  assert ((list_to_set (map jv_id extras) : gset Z) = dom (observed_extra observed) ↔
          ∀ n, n ∈ map jv_id extras ↔ is_Some (observed_extra observed !! n)) as Hids.
  { rewrite set_eq. setoid_rewrite elem_of_list_to_set. by setoid_rewrite elem_of_dom. }
  case_bool_decide as Hd; cbn [negb].
  - rewrite Hids in Hd. destruct (observed_primary observed) as [o|] eqn:Hp.
    + destruct (check_class_and_shrink (jv_size primary) (jv_class primary) o) as [[]|e] eqn:Hc.
      * rewrite check_extras_Ok. apply check_class_and_shrink_Ok in Hc. split.
        -- intros He. exists primary, extras. split_and!; [done|done|by intros o' [= <-]|done].
        -- by intros (? & ? & [= <- <-] & _ & _ & He).
      * split; [done|]. intros (? & ? & [= <- <-] & _ & He & _). specialize (He o eq_refl).
        apply check_class_and_shrink_Ok in He. congruence.
    + rewrite check_extras_Ok. split.
      * intros He. exists primary, extras. split_and!; done.
      * by intros (? & ? & [= <- <-] & _ & _ & He).
  - split; [done|]. intros (? & ? & [= <- <-] & Hx & _). by apply Hids in Hx.
Qed.

(** Storage only grows.  On a pool whose StatefulSet exists, a storage
    change is accepted exactly if the kind stays, and every disk stays: a single
    claim keeps its class and does not shrink, and so does each disk of a JBOD
    pool, whose non-primary disks are exactly the observed ones. *)
Theorem storage_change_accepted_iff desired observed :
  (∀ volumes delete_claim, desired = Some (Jbod volumes delete_claim) → volumes ≠ []) →
  validate_storage_change desired (Some observed) = Ok tt ↔
  match desired with
  | None | Some Ephemeral => observed = []
  | Some (PersistentClaim pc) =>
      ∃ t, observed = [t] ∧ keeps (pc_size pc) (pc_class pc) (size_class_from_pvc t)
  | Some (Jbod volumes _) => (2 ≤ length observed)%nat ∧ jbod_kept volumes observed
  end.
Proof.
  intros Hne. unfold validate_storage_change.
  destruct desired as [[|pc|volumes delete_claim]|]; cbn [storage_kind].
  - destruct observed as [|a [|b l]]; cbn; split; try done; naive_solver.
  - destruct observed as [|a [|b l]]; cbn [observed_storage_kind].
    + split; [done|naive_solver].
    + rewrite str_eqb_refl. cbn [negb]. rewrite check_class_and_shrink_Ok. naive_solver.
    + split; [done|naive_solver].
  - destruct observed as [|a [|b l]]; cbn [observed_storage_kind length].
    + split; [done|lia].
    + split; [done|lia].
    + rewrite str_eqb_refl. cbn [negb]. rewrite validate_jbod_change_Ok by (by eapply Hne).
      split; [|naive_solver]. intros. split; [lia|done].
  - destruct observed as [|a [|b l]]; cbn; split; try done; naive_solver.
Qed.

Definition demo_claim (name size : string) : PersistentVolumeClaim :=
  {| pvc_meta := ObjectMeta (Some name) None None None None None None false [];
     pvc_spec := Some {| claim_access_modes := ["ReadWriteOnce"]; claim_storage := Some size;
                         claim_class := Some "fast" |} |}.

Lemma storage_change_accepted_iff_witness :
  validate_storage_change
    (Some (Jbod [{| jv_id := 1; jv_size := "20Gi"; jv_class := Some "fast" |};
                 {| jv_id := 0; jv_size := "10Gi"; jv_class := Some "fast" |}] false))
    (Some [demo_claim "data" "10Gi"; demo_claim "data-1" "20Gi"]) = Ok tt ↔
  (2 ≤ 2)%nat ∧
  jbod_kept [{| jv_id := 1; jv_size := "20Gi"; jv_class := Some "fast" |};
             {| jv_id := 0; jv_size := "10Gi"; jv_class := Some "fast" |}]
    [demo_claim "data" "10Gi"; demo_claim "data-1" "20Gi"].
Proof.
  apply (storage_change_accepted_iff
    (Some (Jbod [{| jv_id := 1; jv_size := "20Gi"; jv_class := Some "fast" |};
                 {| jv_id := 0; jv_size := "10Gi"; jv_class := Some "fast" |}] false))
    [demo_claim "data" "10Gi"; demo_claim "data-1" "20Gi"]).
  intros volumes delete_claim [= <- _]. discriminate.
Defined.
