(* ===== verification/Rollout.v ===== *)
(** * Rolling a cluster (src/controller/common.rs, src/controller/kafka.rs)

    The planner [plan_rollout] and the
    pass [adopt_pools] that stamps the hashes, the rollups over the pools, and
    [pools_converged], the test that no roll is in flight, which gates the CA
    rotation and the metadata version. *)

From S2P Require Import Prelude RustStd Effects Kube Workload NodePool.
Local Open Scope Z_scope.

Definition CONFIG_HASH : string := "krabka.io/config-hash".

(** ** The config text behind the hash *)

(** The [k=v] lines of [spec.config], one part of the text that
    [combined_config_hash] hashes. *)
Definition config_part (config : option (gmap string string)) : string :=
  concat_str (map (λ '(k, v), k +:+ "=" +:+ v +:+ bytes [10]%nat)
    (btree_list (default ∅ config))).

(** ** The planner *)
Record PoolRolloutState : Type := {
  prs_name : string;
  current_hash : option string;
  ready : bool;
}.

Definition converged (desired : string) (p : PoolRolloutState) : bool :=
  bool_decide (current_hash p = Some desired) && ready p.

(** The non-desired hashes in use, without repetitions. *)
Definition distinct_non_desired (pools : list PoolRolloutState) (desired : string) : gset string :=
  list_to_set (List.filter (λ h, negb (str_eqb h desired)) (filter_map current_hash pools)).

(** Bring-up, recovery, or more than one old hash. *)
Definition roll_in_parallel (pools : list PoolRolloutState) (desired : string) : bool :=
  negb (forallb (λ p, opt_is_some (current_hash p)) pools)
  || (1 <? size (distinct_non_desired pools desired))%nat.

Fixpoint gated (gate_open : bool) (desired : string) (pools : list PoolRolloutState)
  : list (string * string) :=
  match pools with
  | [] => []
  | p :: pools =>
      if gate_open then (prs_name p, desired) :: gated (converged desired p) desired pools
      else (prs_name p, default desired (current_hash p)) :: gated false desired pools
  end.

Definition plan_rollout (pools : list PoolRolloutState) (desired : string) : list (string * string) :=
  if roll_in_parallel pools desired then map (λ p, (prs_name p, desired)) pools
  else gated true desired pools.

(** ** Stamping the hashes *)
Definition rollout_state (p : KafkaNodePool) : PoolRolloutState :=
  {| prs_name := pool_name p;
     current_hash := label (kp_meta p) CONFIG_HASH;
     ready := replicas (kp_spec p) <=? default 0 (and_then (kp_status p) ps_ready_replicas) |}.

Definition rollout_states (pools : list KafkaNodePool) : list PoolRolloutState :=
  map rollout_state (sort_by pool_key_leb pools).

Inductive adopt_call : Type :=
  | ApplyPool (name : string) (owner : owner_reference) (hash : string).
Definition adopt_resp (c : adopt_call) : Type := result unit kube_error.

Definition adopt_pools (parent : object_meta) (pools : list KafkaNodePool) (hash : string)
  : prog adopt_resp (result unit ReconcileError) :=
  match owner_ref "Kafka" parent with
  | Err e => Ret (Err e)
  | Ok owner =>
      failed ← for_each (plan_rollout (rollout_states pools) hash) (λ '(name, target),
        patched ← perform (resp := adopt_resp) (ApplyPool name owner target);
        Ret (match patched with Ok _ => None | Err e => Some (Kube e) end));
      Ret (match failed with Some e => Err e | None => Ok tt end)
  end.

(** Pools are stamped as planned, in the order of the plan: those that come before in the
    plan have their stamps when a pool gets its own. *)
Definition in_turn (owner : owner_reference) (plan : list (string * string))
    (h : list (event adopt_resp)) (name target : string) : Prop :=
  ∃ before after, plan = before ++ (name, target) :: after ∧
    ∀ n t, (n, t) ∈ before → ev (resp := adopt_resp) (ApplyPool n owner t) (Ok tt) ∈ h.

Definition stamp_planned (parent : object_meta) (plan : list (string * string))
    (h : list (event adopt_resp)) (e : event adopt_resp) : Prop :=
  let '(ApplyPool name owner target) := projT1 e in
  owner_ref "Kafka" parent = Ok owner ∧ in_turn owner plan h name target.

Lemma adopt_planned parent pools hash :
  all_runs (adopt_pools parent pools hash)
    (λ tr _, justified (stamp_planned parent (plan_rollout (rollout_states pools) hash)) tr).
Proof.
  unfold all_runs, adopt_pools. destruct (owner_ref "Kafka" parent) as [owner|e] eqn:Ho; [|apply justified_nil].
  set (all := plan_rollout _ _). apply always_bind.
  assert (∀ done plan h, all = done ++ plan → justified (stamp_planned parent all) h →
    (∀ n t, (n, t) ∈ done → ev (resp := adopt_resp) (ApplyPool n owner t) (Ok tt) ∈ h) →
    always (for_each plan (λ '(name, target),
        patched ← perform (resp := adopt_resp) (ApplyPool name owner target);
        Ret (match patched with Ok _ => None | Err e => Some (Kube e) end))) h
      (λ tr _, justified (stamp_planned parent all) tr)) as Hall.
  { intros done plan. revert done. induction plan as [|[n t] plan IH]; intros done h Heq Hj Hd; [exact Hj|].
    intros x. assert (justified (stamp_planned parent all) (h ++ [ev (resp := adopt_resp) (ApplyPool n owner t) x])) as Hj'.
    { apply justified_snoc. split; [done|]. split; [done|]. by exists done, plan. }
    destruct x as [[]|e]; [|exact Hj']. cbn. apply (IH (done ++ [(n, t)])); [by rewrite <- app_assoc|exact Hj'|].
    intros n' t'. set_solver. }
  eapply always_mono; [|apply (Hall [] all []); [done|apply justified_nil|set_solver]]. by intros h [e|].
Qed.

(** ** Rollups *)
Record ClusterRollup : Type := {
  ru_replicas : Z;
  ru_ready_replicas : Z;
  pool_count : nat;
}.

Definition aggregate_pool_status (pools : list KafkaNodePool) : ClusterRollup :=
  fold_left (λ r p,
    {| ru_replicas := wrap_i32 (ru_replicas r + default 0 (and_then (kp_status p) ps_replicas));
       ru_ready_replicas :=
         wrap_i32 (ru_ready_replicas r + default 0 (and_then (kp_status p) ps_ready_replicas));
       pool_count := S (pool_count r) |})
    pools {| ru_replicas := 0; ru_ready_replicas := 0; pool_count := 0 |}.

Definition rolling_condition_from_rollup (r : ClusterRollup) : bool * string * string :=
  if (0 <? pool_count r)%nat && (ru_ready_replicas r <? ru_replicas r) then
    (true, "RollingUpdate",
     display_Z (ru_ready_replicas r) +:+ "/" +:+ display_Z (ru_replicas r)
       +:+ " brokers ready (roll in progress)")
  else (false, "Stable", "all brokers on current revision").

Definition rollup_condition (r : ClusterRollup) : bool * string * string :=
  if (pool_count r =? 0)%nat then
    (false, "NoNodePools", "no KafkaNodePool with label krabka.io/cluster=<name>")
  else if (ru_ready_replicas r =? ru_replicas r) && (0 <? ru_replicas r) then
    (true, "Available",
     display_Z (ru_ready_replicas r) +:+ "/" +:+ display_Z (ru_replicas r)
       +:+ " brokers ready across " +:+ display_Z (Z.of_nat (pool_count r)) +:+ " pool(s)")
  else
    (false, "PartiallyReady",
     display_Z (ru_ready_replicas r) +:+ "/" +:+ display_Z (ru_replicas r) +:+ " brokers ready").

Definition derive_status (live : option StatefulSet) (desired_replicas : Z)
  : option Z * option Z * string * string :=
  let '(reps, ready_replicas) :=
    match and_then live ss_status with
    | None => (None, None)
    | Some st => (Some (sst_replicas st), sst_ready_replicas st)
    end in
  let ready_count := default 0 ready_replicas in
  if ready_count =? desired_replicas then
    (reps, ready_replicas, "Available", display_Z desired_replicas +:+ " broker(s) ready")
  else if ready_count =? 0 then
    (reps, ready_replicas, "NoBrokersReady", "0/" +:+ display_Z desired_replicas +:+ " brokers ready")
  else
    (reps, ready_replicas, "PartiallyReady",
     display_Z ready_count +:+ "/" +:+ display_Z desired_replicas +:+ " brokers ready").

(** ** No roll in flight *)

(** The StatefulSets by name; [None] when two share one. *)
Fixpoint by_name (statefulsets : list StatefulSet) (acc : gmap string StatefulSet)
  : option (gmap string StatefulSet) :=
  match statefulsets with
  | [] => Some acc
  | s :: l =>
      if opt_is_some (acc !! name_any (ss_meta s)) then None
      else by_name l (<[name_any (ss_meta s) := s]> acc)
  end.

Definition label_is (m : object_meta) (k v : string) : bool :=
  bool_decide (label m k = Some v).

(** The checks on one pool's StatefulSet. *)
Definition statefulset_rolled (cluster pool hash : string) (desired : Z) (s : StatefulSet) : bool :=
  if negb (label_is (ss_meta s) "app.kubernetes.io/instance" cluster)
     || negb (label_is (ss_meta s) "app.kubernetes.io/name" APP_LABEL)
     || negb (label_is (ss_meta s) "krabka.io/pool" pool) then false
  else
    match ss_spec s, ss_status s, om_generation (ss_meta s) with
    | Some spec, Some st, Some generation =>
        let template_hash := and_then (tpl_meta (ss_template spec)) (λ m, annotation m CONFIG_HASH) in
        negb (negb (bool_decide (template_hash = Some hash))
              || negb (bool_decide (ss_replicas spec = Some desired))
              || negb (bool_decide (sst_observed_generation st = Some generation))
              || negb (opt_is_some (sst_current_revision st))
              || negb (bool_decide (sst_current_revision st = sst_update_revision st))
              || negb (default 0 (sst_updated_replicas st) =? desired)
              || negb (default 0 (sst_ready_replicas st) =? desired))
    | _, _, _ => false
    end.

Definition pool_converged (statefulsets : gmap string StatefulSet) (p : KafkaNodePool) : option string :=
  match label (kp_meta p) CONFIG_HASH with
  | None => None
  | Some hash =>
      if is_empty hash then None
      else
        match label (kp_meta p) "krabka.io/cluster" with
        | None => None
        | Some cluster =>
            match statefulsets !! (cluster +:+ "-" +:+ pool_name p) with
            | None => None
            | Some s =>
                if statefulset_rolled cluster (pool_name p) hash (replicas (kp_spec p)) s
                then Some hash else None
            end
        end
  end.

(** The hashes collected over the pools, or [None] at the first one that is not
    converged. *)
Fixpoint converged_hashes (statefulsets : gmap string StatefulSet) (pools : list KafkaNodePool)
    (acc : gset string) : option (gset string) :=
  match pools with
  | [] => Some acc
  | p :: pools =>
      match pool_converged statefulsets p with
      | None => None
      | Some hash => converged_hashes statefulsets pools ({[hash]} ∪ acc)
      end
  end.

Definition pools_converged (pools : list KafkaNodePool) (statefulsets : list StatefulSet) : bool :=
  match by_name statefulsets ∅ with
  | None => false
  | Some m =>
      match converged_hashes m pools ∅ with
      | None => false
      | Some hashes => match pools with [] => true | _ => (size hashes =? 1)%nat end
      end
  end.

Definition pools_rolled_to_version (pools : list KafkaNodePool) (statefulsets : list StatefulSet)
    (version : string) : bool :=
  match pools with
  | [] => false
  | _ =>
      pools_converged pools statefulsets
      && forallb (λ s, is_some_and (λ v, str_eqb v version)
                         (label (ss_meta s) "app.kubernetes.io/version")) statefulsets
  end.

(** ** One pool at a time *)
Lemma gated_length b desired pools : length (gated b desired pools) = length pools.
Proof. revert b. induction pools as [|p pools IH]; intros b; [done|]. destruct b; cbn; by rewrite IH. Qed.

(** Behind a closed gate nothing moves. *)
Lemma gated_closed desired pools i p n h :
  pools !! i = Some p → gated false desired pools !! i = Some (n, h) → is_Some (current_hash p) →
  current_hash p = Some h.
Proof.
  revert i. induction pools as [|q pools IH]; intros [|i] Hp Hg Hs; cbn in *; [done..| |eauto].
  injection Hp as ->. injection Hg as <- <-. by destruct Hs as [h ->].
Qed.

Lemma gated_open desired pools i p n h :
  pools !! i = Some p → gated true desired pools !! i = Some (n, h) → is_Some (current_hash p) →
  current_hash p ≠ Some h →
  h = desired ∧ (∀ j q, (j < i)%nat → pools !! j = Some q → converged desired q = true).
Proof.
  revert i. induction pools as [|q pools IH]; intros [|i] Hp Hg Hs Hne; cbn in *; [done..| |].
  - injection Hg as _ <-. split; [done|]. intros j q' Hj. lia.
  - destruct (converged desired q) eqn:Hc.
    + destruct (IH i Hp Hg Hs Hne) as [-> Hall]. split; [done|].
      intros [|j] q' Hj Hq; cbn in Hq; [congruence|]. eapply Hall; [|exact Hq]. lia.
    + exfalso. apply Hne. by eapply gated_closed.
Qed.

Lemma roll_in_parallel_hash pools desired :
  roll_in_parallel pools desired = false → ∀ p, p ∈ pools → is_Some (current_hash p).
Proof.
  unfold roll_in_parallel. rewrite orb_false_iff, negb_false_iff, forallb_forall.
  intros [Hall _] p Hp. apply opt_is_some_true, Hall. by apply list_elem_of_In.
Qed.

(** C15. A roll takes one pool at a time.  In an established cluster (every pool
    is stamped, with at most one old hash), a pass changes the hash of at most
    one pool: it goes to the desired hash, and every pool before it in the roll
    order already carries the desired hash and is Ready. *)
Theorem rollout_one_at_a_time pools desired i p n h :
  roll_in_parallel pools desired = false →
  pools !! i = Some p → plan_rollout pools desired !! i = Some (n, h) → current_hash p ≠ Some h →
  h = desired ∧
  (∀ j q, (j < i)%nat → pools !! j = Some q → converged desired q = true) ∧
  (∀ j q m g, j ≠ i → pools !! j = Some q → plan_rollout pools desired !! j = Some (m, g) →
     current_hash q = Some g).
Proof.
  intros Hpar Hp Hplan Hne. pose proof (roll_in_parallel_hash _ _ Hpar) as Hall.
  unfold plan_rollout in *. rewrite Hpar in *.
  assert (is_Some (current_hash p)) as Hs by (apply Hall, list_elem_of_lookup; eauto).
  destruct (gated_open _ _ _ _ _ _ Hp Hplan Hs Hne) as [-> Hbefore].
  split; [done|]. split; [done|]. intros j q m g Hji Hq Hg.
  assert (is_Some (current_hash q)) as Hsq by (apply Hall, list_elem_of_lookup; eauto).
  destruct (decide (current_hash q = Some g)) as [|Hne']; [done|].
  destruct (gated_open _ _ _ _ _ _ Hq Hg Hsq Hne') as [-> Hbefore'].
  assert (∀ q', converged desired q' = true → current_hash q' = Some desired) as Hconv.
  { intros q' Hq'. apply andb_true_iff in Hq' as [Hq' _]. by apply bool_decide_eq_true in Hq'. }
  destruct (Nat.lt_total i j) as [Hlt|[->|Hlt]]; [|done|].
  - exfalso. apply Hne. apply Hconv. by eapply Hbefore'.
  - exfalso. apply Hne'. apply Hconv. by eapply Hbefore.
Qed.

Lemma rollout_one_at_a_time_witness :
  let pools := [{| prs_name := "a"; current_hash := Some "new"; ready := true |};
                {| prs_name := "b"; current_hash := Some "old"; ready := true |};
                {| prs_name := "c"; current_hash := Some "old"; ready := true |}] in
  plan_rollout pools "new" = [("a", "new"); ("b", "new"); ("c", "old")] ∧
  (∀ j q, (j < 1)%nat → pools !! j = Some q → converged "new" q = true).
Proof.
  intros pools. split; [reflexivity|].
  apply (rollout_one_at_a_time pools "new" 1
    {| prs_name := "b"; current_hash := Some "old"; ready := true |} "b" "new");
    [vm_compute; reflexivity..|discriminate].
Defined.

(** ** A roll completes *)

(** One pass, and then every pool comes up. *)
Definition roll_round (desired : string) (pools : list PoolRolloutState) : list PoolRolloutState :=
  zip_with (λ p '(_, h), {| prs_name := prs_name p; current_hash := Some h; ready := true |})
    pools (plan_rollout pools desired).

Lemma roll_round_lookup desired pools i p n h :
  pools !! i = Some p → plan_rollout pools desired !! i = Some (n, h) →
  roll_round desired pools !! i =
    Some {| prs_name := prs_name p; current_hash := Some h; ready := true |}.
Proof. intros Hp Hh. unfold roll_round. by rewrite lookup_zip_with, Hp; cbn; rewrite Hh. Qed.

Lemma plan_rollout_length pools desired : length (plan_rollout pools desired) = length pools.
Proof. unfold plan_rollout. case_match; [apply length_map|apply gated_length]. Qed.

Lemma roll_round_length desired pools : length (roll_round desired pools) = length pools.
Proof. unfold roll_round. rewrite length_zip_with, plan_rollout_length. lia. Qed.

(** A pool after a round, from the pool before it and its planned hash. *)
Lemma roll_round_inv desired pools i q :
  roll_round desired pools !! i = Some q →
  ∃ p n h, pools !! i = Some p ∧ plan_rollout pools desired !! i = Some (n, h) ∧
           current_hash q = Some h ∧ ready q = true.
Proof.
  unfold roll_round. intros (p & [n h] & -> & Hp & Hh)%lookup_zip_with_Some.
  exists p, n, h. done.
Qed.

Lemma gated_prefix desired pools i n h :
  (∀ j q, (j < i)%nat → pools !! j = Some q → converged desired q = true) →
  gated true desired pools !! i = Some (n, h) → h = desired.
Proof.
  revert i. induction pools as [|p pools IH]; intros [|i] Hall Hg; cbn in *; [done..| |].
  - by injection Hg as _ <-.
  - rewrite (Hall O p) in Hg by (done || lia). apply (IH i); [|done].
    intros j q Hj Hq. apply (Hall (S j)); [lia|done].
Qed.

Definition first_converged (k : nat) (desired : string) (pools : list PoolRolloutState) : Prop :=
  ∀ i q, (i < k)%nat → pools !! i = Some q → converged desired q = true.

Lemma converged_intro desired q :
  current_hash q = Some desired → ready q = true → converged desired q = true.
Proof. intros Hh Hr. unfold converged. by rewrite Hr, bool_decide_eq_true_2. Qed.

Lemma round_parallel desired pools k :
  roll_in_parallel pools desired = true → first_converged k desired (roll_round desired pools).
Proof.
  intros Hpar i q _ (p & n & h & Hp & Hh & Hq & Hr)%roll_round_inv.
  apply converged_intro; [|done]. rewrite Hq. f_equal.
  unfold plan_rollout in Hh. rewrite Hpar in Hh.
  rewrite list_lookup_fmap, Hp in Hh. by injection Hh.
Qed.

Lemma round_advances desired pools k :
  roll_in_parallel pools desired = false → first_converged k desired pools →
  first_converged (S k) desired (roll_round desired pools).
Proof.
  intros Hpar Hk i q Hi (p & n & h & Hp & Hh & Hq & Hr)%roll_round_inv.
  apply converged_intro; [|done]. rewrite Hq. f_equal.
  unfold plan_rollout in Hh. rewrite Hpar in Hh. eapply (gated_prefix desired pools i); [|exact Hh].
  intros j q' Hj. apply Hk. lia.
Qed.

Lemma round_established desired pools :
  roll_in_parallel pools desired = false →
  roll_in_parallel (roll_round desired pools) desired = false.
Proof.
  intros Hpar. pose proof (roll_in_parallel_hash _ _ Hpar) as Hall.
  unfold roll_in_parallel in *. apply orb_false_iff in Hpar as [_ Hsz].
  apply Nat.ltb_ge in Hsz. apply orb_false_iff. split.
  - apply negb_false_iff, forallb_forall. intros q Hq. apply list_elem_of_In, list_elem_of_lookup in Hq as [i Hq].
    apply roll_round_inv in Hq as (_ & _ & h & _ & _ & -> & _). done.
  - apply Nat.ltb_ge. etrans; [|exact Hsz]. apply subseteq_size. intros h.
    unfold distinct_non_desired. rewrite !elem_of_list_to_set, !elem_of_List_filter, !elem_of_filter_map.
    intros [(q & Hq & Hh) Hd]. split; [|done]. apply list_elem_of_lookup in Hq as [i Hq].
    apply roll_round_inv in Hq as (p & n & g & Hp & Hg & Hqg & _).
    assert (g = h) as -> by congruence.
    assert (p ∈ pools) as Hin by (apply list_elem_of_lookup; eauto). exists p. split; [done|].
    destruct (decide (current_hash p = Some h)) as [|Hne]; [done|]. exfalso.
    unfold plan_rollout, roll_in_parallel in Hg.
    destruct (negb _ || _) eqn:Hpar.
    + rewrite list_lookup_fmap, Hp in Hg. injection Hg as _ <-. by rewrite str_eqb_refl in Hd.
    + destruct (gated_open _ _ _ _ _ _ Hp Hg (Hall p Hin) Hne) as [-> _].
      by rewrite str_eqb_refl in Hd.
Qed.

(** C16. A roll completes.  If every pool comes up after each pass, as many
    passes as there are pools bring every pool to the desired hash, from any
    starting point: mid-roll, mixed hashes, or unstamped pools. *)
Theorem rollout_completes desired pools :
  Forall (λ p, converged desired p = true) (Nat.iter (length pools) (roll_round desired) pools).
Proof.
  apply Forall_forall.
  assert (∀ n, length (Nat.iter n (roll_round desired) pools) = length pools ∧
    (first_converged (length pools) desired (Nat.iter n (roll_round desired) pools) ∨
     roll_in_parallel (Nat.iter n (roll_round desired) pools) desired = false ∧
     first_converged n desired (Nat.iter n (roll_round desired) pools) ∨ n = O)) as Hn.
  { intros n. induction n as [|n [Hlen IH]]; [eauto|]. rewrite Nat.iter_succ.
    set (ps := Nat.iter n (roll_round desired) pools) in *.
    split; [by rewrite roll_round_length|].
    destruct (roll_in_parallel ps desired) eqn:Hpar; [left; by apply round_parallel|].
    destruct IH as [Hall|[[_ Hk]| ->]].
    - left. intros i q Hi Hq. eapply (round_advances desired ps); [done|exact Hall| |exact Hq]. lia.
    - right. left. split; [by apply round_established|by apply round_advances].
    - right. left. split; [by apply round_established|]. apply round_advances; [done|]. intros i q Hi. lia. }
  destruct (Hn (length pools)) as [Hlen Hend]. intros p Hp.
  apply list_elem_of_lookup in Hp as [i Hp]. assert (i < length pools)%nat as Hi.
  { rewrite <- Hlen. by apply lookup_lt_Some in Hp. }
  destruct Hend as [Hall|[[_ Hall]|H0]]; [by eapply Hall..|lia].
Qed.

(** The readiness the planner sees is the one of [status.readyReplicas], which
    still counts the brokers of the old revision right after a pool is stamped:
    read again at that moment, the plan moves the second pool as well. *)
Lemma stale_readiness_moves_two :
  let stamped := λ p h, {| prs_name := prs_name p; current_hash := Some h; ready := ready p |} in
  let a := {| prs_name := "a"; current_hash := Some "old"; ready := true |} in
  let b := {| prs_name := "b"; current_hash := Some "old"; ready := true |} in
  plan_rollout [a; b] "new" = [("a", "new"); ("b", "old")] ∧
  plan_rollout [stamped a "new"; stamped b "old"] "new" = [("a", "new"); ("b", "new")].
Proof. split; vm_compute; reflexivity. Qed.

(** Two configs that differ can have the same text, so the same hash: a value
    with a line feed reads as two entries. *)
Lemma config_part_ambiguous :
  config_part (Some {["a" := "1" +:+ bytes [10]%nat +:+ "b=2"]}) =
  config_part (Some {["a" := "1"; "b" := "2"]}).
Proof. vm_compute. reflexivity. Qed.

(** ** No roll in flight *)

(** A StatefulSet has finished rolling pool [p] of [cluster] to [hash]. *)
Definition rolled_to (cluster hash : string) (p : KafkaNodePool) (s : StatefulSet) : Prop :=
  label (ss_meta s) "app.kubernetes.io/instance" = Some cluster ∧
  label (ss_meta s) "app.kubernetes.io/name" = Some APP_LABEL ∧
  label (ss_meta s) "krabka.io/pool" = Some (pool_name p) ∧
  ∃ spec st generation revision,
    ss_spec s = Some spec ∧ ss_status s = Some st ∧ om_generation (ss_meta s) = Some generation ∧
    and_then (tpl_meta (ss_template spec)) (λ m, annotation m CONFIG_HASH) = Some hash ∧
    ss_replicas spec = Some (replicas (kp_spec p)) ∧
    sst_observed_generation st = Some generation ∧
    sst_current_revision st = Some revision ∧ sst_update_revision st = Some revision ∧
    default 0 (sst_updated_replicas st) = replicas (kp_spec p) ∧
    default 0 (sst_ready_replicas st) = replicas (kp_spec p).

Lemma statefulset_rolled_iff cluster hash p s :
  statefulset_rolled cluster (pool_name p) hash (replicas (kp_spec p)) s = true ↔
  rolled_to cluster hash p s.
Proof.
  unfold statefulset_rolled, rolled_to, label_is. split.
  - case_match eqn:Hl; [done|]. rewrite !orb_false_iff, !negb_false_iff, !bool_decide_eq_true in Hl.
    destruct Hl as [[Hi Hn] Hp]. repeat (case_match; [|done]).
    rewrite negb_true_iff, !orb_false_iff, !negb_false_iff, !bool_decide_eq_true, !Z.eqb_eq.
    intros [[[[[[Ht Hr] Hg] Hc] Hu] Hup] Hrd]. apply opt_is_some_true in Hc as [rev Hc].
    split_and!; [done..|]. repeat eexists; [done..|exact Hc|congruence|done|done].
  - intros (Hi & Hn & Hp & spec & st & g & rev & -> & -> & Hgen & Ht & Hr & Hg & Hc & Hu & Hup & Hrd).
    rewrite !bool_decide_eq_true_2 by done. cbn. rewrite Hgen, Hup, Hrd, Hc, Hu, Z.eqb_refl.
    rewrite !bool_decide_eq_true_2 by congruence. done.
Qed.

Lemma by_name_lookup sts acc m :
  by_name sts acc = Some m →
  NoDup (map (name_any ∘ ss_meta) sts) ∧
  (∀ s, s ∈ sts → acc !! name_any (ss_meta s) = None) ∧
  ∀ n s, m !! n = Some s ↔ acc !! n = Some s ∨ s ∈ sts ∧ name_any (ss_meta s) = n.
Proof.
  revert acc. induction sts as [|t sts IH]; intros acc; cbn.
  { intros [= <-]. split_and!; [constructor|by intros s ?%not_elem_of_nil|].
    intros n s. pose proof (not_elem_of_nil s). naive_solver. }
  destruct (acc !! name_any (ss_meta t)) eqn:Ht; [done|].
  intros (Hnd & Hnone & Hm)%IH.
  assert (∀ s, s ∈ sts → name_any (ss_meta s) ≠ name_any (ss_meta t) ∧
            acc !! name_any (ss_meta s) = None) as Hsep.
  { intros s Hs. specialize (Hnone s Hs). rewrite lookup_insert_None in Hnone. naive_solver. }
  split_and!.
  - constructor; [|done]. intros (s & Heq & Hs)%list_elem_of_fmap.
    destruct (Hsep s Hs) as [Hne _]. by apply Hne.
  - intros s [->|Hs]%elem_of_cons; [done|]. by apply Hsep.
  - intros n s. rewrite Hm, lookup_insert_Some, elem_of_cons. naive_solver.
Qed.

Lemma by_name_total sts acc :
  NoDup (map (name_any ∘ ss_meta) sts) →
  (∀ s, s ∈ sts → acc !! name_any (ss_meta s) = None) → is_Some (by_name sts acc).
Proof.
  revert acc. induction sts as [|t sts IH]; intros acc Hnd Hnone; cbn; [eauto|].
  rewrite (Hnone t) by constructor. cbn. inversion Hnd as [|? ? Hnot Hnd']; subst.
  apply IH; [done|]. intros s Hs. rewrite lookup_insert_ne.
  - apply Hnone. by constructor.
  - intros Heq. apply Hnot, list_elem_of_fmap. eauto.
Qed.

Lemma converged_hashes_spec m pools acc hs :
  converged_hashes m pools acc = Some hs ↔
  ∃ l, Forall2 (λ p h, pool_converged m p = Some h) pools l ∧ hs = list_to_set l ∪ acc.
Proof.
  revert acc hs. induction pools as [|p pools IH]; intros acc hs; cbn.
  - split.
    + intros [= <-]. exists []. split; [constructor|set_solver].
    + intros (l & ->%Forall2_nil_inv_l & ->). f_equal. set_solver.
  - destruct (pool_converged m p) as [h|] eqn:Hh.
    + rewrite IH. split.
      * intros (l & Hl & ->). exists (h :: l). split; [by constructor|]. cbn. set_solver.
      * intros (l & (h' & l' & Heq & Hl & ->)%Forall2_cons_inv_l & ->).
        assert (h' = h) as -> by congruence. exists l'. split; [done|]. cbn. set_solver.
    + split; [done|]. intros (l & (h' & l' & Heq & _)%Forall2_cons_inv_l & _). congruence.
Qed.

Lemma pool_converged_iff sts m p hash :
  by_name sts ∅ = Some m →
  pool_converged m p = Some hash ↔
  hash ≠ "" ∧ label (kp_meta p) CONFIG_HASH = Some hash ∧
  ∃ cluster s, label (kp_meta p) "krabka.io/cluster" = Some cluster ∧ s ∈ sts ∧
    name_any (ss_meta s) = cluster +:+ "-" +:+ pool_name p ∧ rolled_to cluster hash p s.
Proof.
  intros (_ & _ & Hm)%by_name_lookup. unfold pool_converged.
  destruct (label (kp_meta p) CONFIG_HASH) as [h|]; [|naive_solver].
  destruct h as [|c h]; [cbn; naive_solver|]. cbn [is_empty].
  destruct (label (kp_meta p) "krabka.io/cluster") as [cl|]; [|naive_solver].
  split.
  - destruct (m !! _) as [s|] eqn:Hs; [|done]. apply Hm in Hs as [Hs|[Hs Hn]]; [by rewrite lookup_empty in Hs|].
    destruct (statefulset_rolled _ _ _ _ _) eqn:Hr; [|done]. intros [= <-].
    apply statefulset_rolled_iff in Hr. eauto 10.
  - intros (_ & [= <-] & cluster & s & [= <-] & Hs & Hn & Hr).
    rewrite (proj2 (Hm _ s)) by eauto. by apply statefulset_rolled_iff in Hr as ->.
Qed.

(** [pools_converged], the test that gates the CA rotation and the metadata
    version, answers yes exactly when no roll is in flight: no two StatefulSets
    share a name, and there is one non-empty hash that every pool carries and
    that every pool's own StatefulSet has finished rolling to: its template has
    that hash and the pool's replica count, the controller has observed its
    generation, and all its replicas are updated and ready at one revision. *)
Theorem pools_converged_iff pools sts :
  pools_converged pools sts = true ↔
  NoDup (map (name_any ∘ ss_meta) sts) ∧
  ∃ hash, hash ≠ "" ∧ ∀ p, p ∈ pools →
    label (kp_meta p) CONFIG_HASH = Some hash ∧
    ∃ cluster s, label (kp_meta p) "krabka.io/cluster" = Some cluster ∧ s ∈ sts ∧
      name_any (ss_meta s) = cluster +:+ "-" +:+ pool_name p ∧ rolled_to cluster hash p s.
Proof.
  unfold pools_converged. split.
  - destruct (by_name sts ∅) as [m|] eqn:Hm; [|done].
    pose proof (by_name_lookup _ _ _ Hm) as [Hnd _].
    destruct (converged_hashes m pools ∅) as [hs|] eqn:Hc; [|done].
    apply converged_hashes_spec in Hc as (l & Hl & ->). intros Hsz. split; [done|].
    destruct pools as [|p0 pools]; [exists "x"; split; [done|by intros p ?%not_elem_of_nil]|].
    apply Nat.eqb_eq, size_1_elem_of in Hsz as [hash Hhash].
    assert (∀ p, p ∈ p0 :: pools → pool_converged m p = Some hash) as Hall.
    { intros p [i Hp]%list_elem_of_lookup. destruct (Forall2_lookup_l _ _ _ _ _ Hl Hp) as (h & Hh & ->).
      f_equal. apply list_elem_of_lookup_2 in Hh. set_solver. }
    exists hash. split.
    + eapply (pool_converged_iff sts m p0), Hall; [done|constructor].
    + intros p Hp%Hall. by apply (pool_converged_iff sts) in Hp as (_ & ? & ?).
  - intros (Hnd & hash & Hne & Hall).
    destruct (by_name_total sts ∅ Hnd) as [m Hm]; [intros; apply lookup_empty|]. rewrite Hm.
    assert (Forall2 (λ p h, pool_converged m p = Some h) pools (map (λ _, hash) pools)) as Hl.
    { apply Forall2_fmap_r, Forall_Forall2_diag, Forall_forall. intros p Hp.
      apply (pool_converged_iff sts); [done|]. split; [done|]. by apply Hall. }
    rewrite (proj2 (converged_hashes_spec m pools ∅ _) (ex_intro _ _ (conj Hl eq_refl))).
    destruct pools as [|p0 pools]; [done|]. apply Nat.eqb_eq.
    assert (list_to_set (map (λ _, hash) (p0 :: pools)) ∪ ∅ ≡@{gset string} {[hash]}) as ->.
    { intros h. rewrite elem_of_union, elem_of_list_to_set, list_elem_of_fmap, elem_of_singleton.
      split; [set_solver|]. intros ->. left. exists p0. split; [done|constructor]. }
    apply size_singleton.
Qed.
