(* ===== verification/PodRender.v ===== *)
(** * The StatefulSet of a pool (src/controller/kafka_node_pool.rs)

    The pod template of a pool's nodes with its two init containers, the broker
    container, the volumes and claims of each kind of storage, the labels and annotations
    that tie pods to their pool, the disruption budget, and what is kept from a live
    StatefulSet when a new one is applied. *)

From S2P Require Import Prelude RustStd Kube Workload Version Toml Tuning Quantity CaBundle ClusterCa.
From S2P Require Import UserTls Listeners ListenerCheck NodePool ListenerObjects Quorum Advertised.
From S2P Require Import NetworkPolicy KafkaSpec ListenerSecrets BrokerToml StorageChange Rollout.
Local Open Scope Z_scope.

Definition HEALTH_PORT : Z := 9405.
Definition SHELL_IMAGE : string :=
  "busybox@sha256:9db7b59979c38555a39def84a31fb98b5296952f9e3afd4f6f11f05b07adfab0".
Definition DEFAULT_BROKER_IMAGE : string := "ghcr.io/krabka-io/krabka-broker:v1.0.8".
Definition GSSAPI_KEYTAB_DIR : string := "/etc/krabka/gssapi-keytab".
(** The dash of the message below, in UTF-8. *)
Definition em_dash : string := bytes [226; 128; 148]%nat.
Definition DATA_DIR : string := "/var/lib/krabka/data".

(** ** Disks *)
Definition jbod_volumes_sorted (s : option Storage) : list JbodVolume :=
  match s with Some (Jbod volumes _) => sort_volumes volumes | _ => [] end.

Definition jbod_mount (volume_id : Z) (is_primary : bool) : string * string :=
  if is_primary then ("data", DATA_DIR)
  else ("data-" +:+ display_Z volume_id, DATA_DIR +:+ "-" +:+ display_Z volume_id).

Definition jbod_extra_mounts (s : option Storage) : list (string * string) :=
  map (λ v, jbod_mount (jv_id v) false) (tail (jbod_volumes_sorted s)).

(** ** Scripts

    In the text of a script below, a backquote stands for a double quote. *)
Definition script (lines : list string) : string :=
  concat_str (map (λ l, replace_char "`" (of_char dquote) l +:+ of_char Toml.nl) lines).

Definition INIT_SCRIPT : string := script
  ["set -eu";
   "ORDINAL=`${HOSTNAME##*-}`";
   "NODE_ID=$((NODE_ID_START + ORDINAL))";
   "KRABKA_DIRECTORY_ID=`$(cat `/etc/krabka/cluster-id/quorumDirectoryId-${NODE_ID}`)`";
   "mkdir -p /var/lib/krabka/data";
   "rm -rf /var/lib/krabka/data/lost+found";
   "if [ ! -f /var/lib/krabka/data/.formatted ]; then";
   "if [ `$KRABKA_QUORUM_BOOTSTRAP_INITIALIZED` != `true` ] && [ `$NODE_ID` = `$KRABKA_QUORUM_BOOTSTRAP_NODE_ID` ] && [ `$KRABKA_POOL_NAME` = `$KRABKA_QUORUM_BOOTSTRAP_POOL` ]; then";
   "/usr/bin/krabka-format --log-dir /var/lib/krabka/data --cluster-id `$KRABKA_CLUSTER_ID` --release-version `$KRABKA_METADATA_VERSION` --directory-id `$KRABKA_DIRECTORY_ID` --standalone --node-id `$NODE_ID` --controller-listener `${HOSTNAME}.${KRABKA_HEADLESS_SERVICE}.${POD_NAMESPACE}.svc.cluster.local:9093`";
   "else";
   "/usr/bin/krabka-format --log-dir /var/lib/krabka/data --cluster-id `$KRABKA_CLUSTER_ID` --release-version `$KRABKA_METADATA_VERSION` --directory-id `$KRABKA_DIRECTORY_ID` --node-id `$NODE_ID` --no-initial-controllers";
   "fi";
   "touch /var/lib/krabka/data/.formatted";
   "fi";
   "printf '%s' `$NODE_ID` > /var/lib/krabka/data/.node-id"].

(** A line that the next one continues. *)
Definition continued (l : string) : string := l +:+ " " +:+ of_char backslash.

Definition main_lines : list string :=
  ["set -eu";
   "NODE_ID=`$(cat /var/lib/krabka/data/.node-id)`";
   "cp /etc/krabka/config/broker-${NODE_ID}.toml /run/krabka/broker.toml";
   continued "exec /usr/bin/krabka-broker";
   continued "  --config-file=/run/krabka/broker.toml"].

Definition MAIN_SCRIPT : string := script (main_lines ++ ["  --broker-id=`${NODE_ID}`"]).

Definition METRICS_SCRIPT : string :=
  script (main_lines ++ [continued "  --broker-id=`${NODE_ID}`"; "  --metrics-listen-addr=0.0.0.0:9404"]).

(** [String::pop]. *)
Definition without_last (s : string) : string := String.substring 0 (String.length s - 1) s.

(** An option on a line of its own. *)
Definition option_line (o : string) : string := continued "" +:+ of_char Toml.nl +:+ "  " +:+ o.

Definition build_main_script (metrics_enabled : bool) (dispatch_queue frame_max : option Z) : string :=
  let base := if metrics_enabled then METRICS_SCRIPT else MAIN_SCRIPT in
  match dispatch_queue, frame_max with
  | None, None => base
  | _, _ =>
      without_last base
      +:+ from_option (λ v, option_line ("--client-dispatch-queue-capacity=" +:+ display_Z v)) "" dispatch_queue
      +:+ from_option (λ v, option_line ("--client-frame-max=" +:+ display_Z v +:+ "B")) "" frame_max
      +:+ of_char Toml.nl
  end.

(** ** Containers *)
Definition mount (name path : string) : VolumeMount :=
  {| vm_name := name; vm_path := path; vm_read_only := false |}.
Definition mount_ro (name path : string) : VolumeMount :=
  {| vm_name := name; vm_path := path; vm_read_only := true |}.

Definition small_resources (cpu memory max_cpu max_memory : string) : ResourceRequirements :=
  {| rr_requests := Some (cpu_memory cpu memory); rr_limits := Some (cpu_memory max_cpu max_memory);
     rr_claims := None |}.

Definition init_container (name image : string) (command args : list string)
    (e : option (list EnvVar)) (mounts : list VolumeMount) (r : ResourceRequirements) : Container :=
  {| c_name := name; c_image := Some image; c_command := Some command; c_args := Some args;
     c_env := e; c_ports := None; c_mounts := Some mounts; c_readiness := None; c_liveness := None;
     c_startup := None; c_resources := Some r; c_security := Some locked_down |}.

Definition render_init_container (broker_image secret_name pool_name headless_service_name : string)
    (start : Z) (metadata_version : string) : Container :=
  init_container "format" broker_image ["/run/krabka/busybox"; "sh"; "-c"] [INIT_SCRIPT]
    (Some
      [env_val "NODE_ID_START" (display_Z start);
       env_ref "POD_NAMESPACE" (FieldRef "metadata.namespace");
       env_val "KRABKA_POOL_NAME" pool_name;
       env_val "KRABKA_HEADLESS_SERVICE" headless_service_name;
       env_ref "KRABKA_CLUSTER_ID" (SecretRef secret_name "clusterId");
       env_ref "KRABKA_QUORUM_BOOTSTRAP_NODE_ID" (SecretRef secret_name QUORUM_BOOTSTRAP_NODE_ID_KEY);
       env_ref "KRABKA_QUORUM_BOOTSTRAP_POOL" (SecretRef secret_name QUORUM_BOOTSTRAP_POOL_KEY);
       env_ref "KRABKA_QUORUM_BOOTSTRAP_INITIALIZED" (SecretRef secret_name QUORUM_BOOTSTRAP_INITIALIZED_KEY);
       env_val "KRABKA_METADATA_VERSION" metadata_version;
       env_val "PATH" "/run/krabka/bin"])
    [mount "data" DATA_DIR; mount_ro "cluster-id" "/etc/krabka/cluster-id";
     mount "broker-runtime" "/run/krabka"]
    (small_resources "10m" "32Mi" "100m" "128Mi").

Definition render_shell_init_container (shell_image : string) : Container :=
  init_container "install-shell" shell_image ["/bin/sh"; "-c"]
    ["mkdir -p /run/krabka/bin && cp /bin/busybox /run/krabka/busybox && /run/krabka/busybox --install /run/krabka/bin"]
    None [mount "broker-runtime" "/run/krabka"] (small_resources "5m" "8Mi" "50m" "32Mi").

Definition append_logging_env (enabled : bool) (config_map : string) : list EnvVar :=
  if enabled then [env_ref "RUST_LOG" (ConfigMapRef config_map "rust.log" true)] else [].

Definition append_jbod_env (mounts : list (string * string)) : list EnvVar :=
  match mounts with
  | [] => []
  | _ => [env_val "KRABKA_EXTRA_LOG_DIRS" (join "," (map snd mounts))]
  end.

Definition secret_env (name : string) (r : CredentialRef) (default_key : string) : EnvVar :=
  env_ref name (SecretRef (cred_name r) (default default_key (cred_key r))).

Section render.
Context {Time ByteSize Ratio F64 : Type}.
Context `{TimeOps Time} `{MetadataVersions}.
(** The [Display] of units and floats, and the limits of the client crate:
    [ConnectionDispatchQueueCapacity::new] and [ClientFrameMax::try_from]. *)
Context (human_time : Time → string) (display_f64 : F64 → string).
Context (queue_capacity frame_max : Z → result Z string).
(** The newest level's [short]. *)
Context (max_metadata_version : string).
#[local] Notation Kafka := (Kafka Time ByteSize Ratio F64).
#[local] Notation TieredStorage := (TieredStorage Time ByteSize).
Implicit Types (k : Kafka) (pool : KafkaNodePool).

Definition transpose {A E} (o : option (result A E)) : result (option A) E :=
  match o with None => Ok None | Some (Ok a) => Ok (Some a) | Some (Err e) => Err e end.

Definition client_resource_policy (spec : KafkaNodePoolSpec) : result (option Z * option Z) string :=
  let? queue := map_err (λ e, "spec.clientDispatchQueueCapacity: " +:+ e)
                  (transpose (opt_map queue_capacity (client_dispatch_queue_capacity spec))) in
  let? frame := map_err (λ e, "spec.clientFrameMax: " +:+ e)
                  (transpose (opt_map frame_max (client_frame_max spec))) in
  Ok (queue, frame).

Definition local_tier (t : option TieredStorage) : bool :=
  is_some_and (λ t, bool_decide (ts_kind t = TsLocal)) t.

Definition s3_env (t : option TieredStorage) : list EnvVar :=
  let s3 := and_then (option_filter (λ t, bool_decide (ts_kind t = TsS3)) t) ts_s3 in
  match and_then s3 s3_credentials with
  | Some (access, secret_access) =>
      [secret_env "AWS_ACCESS_KEY_ID" access "access-key-id";
       secret_env "AWS_SECRET_ACCESS_KEY" secret_access "secret-access-key"]
  | None => []
  end.

Definition gcs_secret (t : option TieredStorage) : option CredentialRef :=
  and_then (and_then (option_filter (λ t, bool_decide (ts_kind t = TsGcs)) t) ts_gcs) gcs_credentials.

Definition otlp_env (t : option (Tracing Time F64)) : list EnvVar :=
  match and_then t tr_otlp with
  | None => []
  | Some o =>
      [env_val "KRABKA_OTLP_ENABLED" "true"; env_val "KRABKA_OTLP_ENDPOINT" (otlp_endpoint o)]
      ++ from_option (λ p, [env_val "KRABKA_OTLP_PROTOCOL" (as_env_value p)]) [] (otlp_protocol o)
      ++ from_option (λ r, [env_val "KRABKA_OTLP_SAMPLE_RATIO" (display_f64 r)]) [] (otlp_sample_ratio o)
      ++ from_option (λ n, [env_val "OTEL_SERVICE_NAME" n]) [] (otlp_service_name o)
      ++ from_option (λ d, [env_val "KRABKA_OTLP_TIMEOUT" (human_time d)]) [] (otlp_timeout o)
  end.

Record BrokerContainerSpec : Type := {
  bc_image : string;
  bc_secret_name : string;
  bc_cm_name : string;
  bc_resources : ResourceRequirements;
  bc_metrics : bool;
  bc_logging : bool;
  bc_gssapi_keytab : bool;
  bc_krb5_conf : bool;
  bc_jbod_extra_mounts : list (string * string);
  bc_oauth_trust_mount : option string;
  bc_introspection_mount : option string;
  bc_delegation_token : option CredentialRef;
  bc_tiered_storage : option TieredStorage;
  bc_tracing : option (Tracing Time F64);
  bc_process_roles : option string;
  bc_client_policy : option Z * option Z;
}.

Definition broker_ports (metrics : bool) : list ContainerPort :=
  let port p n := {| cp_port := p; cp_name := Some n; cp_protocol := Some "TCP" |} in
  [port BROKER_PORT "kafka-internal"; port HEALTH_PORT "health"]
  ++ (if metrics then [port METRICS_PORT "metrics"] else []).

Definition broker_env (s : BrokerContainerSpec) : list EnvVar :=
  [env_ref "POD_NAME" (FieldRef "metadata.name");
   env_ref "POD_NAMESPACE" (FieldRef "metadata.namespace");
   env_ref "KRABKA_CLUSTER_ID" (SecretRef (bc_secret_name s) "clusterId");
   env_val "PATH" "/run/krabka/bin"]
  ++ from_option (λ r, [env_val "KRABKA_PROCESS_ROLES" r]) [] (bc_process_roles s)
  ++ append_logging_env (bc_logging s) (bc_cm_name s)
  ++ append_jbod_env (bc_jbod_extra_mounts s)
  ++ from_option (λ d, [secret_env "KRABKA_DELEGATION_TOKEN_SECRET_KEY" d "secret-key"]) []
       (bc_delegation_token s)
  ++ s3_env (bc_tiered_storage s)
  ++ otlp_env (bc_tracing s)
  ++ (if bc_krb5_conf s then [env_val "KRB5_CONFIG" "/etc/krabka/krb5/krb5.conf"] else []).

Definition cluster_mounts : list VolumeMount :=
  [mount_ro "broker-config" "/etc/krabka/config";
   mount "broker-runtime" "/run/krabka";
   mount_ro "cluster-ca-cert" "/etc/krabka/cluster-ca";
   mount_ro "broker-tls" "/etc/krabka/broker-tls";
   mount_ro "clients-ca-cert" "/etc/krabka/clients-ca"].

Definition feature_mounts (s : BrokerContainerSpec) : list VolumeMount :=
  from_option (λ p, [mount_ro "oauth-jwks-trust" p]) [] (bc_oauth_trust_mount s)
  ++ from_option (λ p, [mount_ro "oauth-introspection-secret" p]) [] (bc_introspection_mount s)
  ++ (if bc_gssapi_keytab s then [mount_ro "gssapi-keytab" GSSAPI_KEYTAB_DIR] else [])
  ++ (if bc_krb5_conf s then [mount_ro "krb5-conf" "/etc/krabka/krb5"] else [])
  ++ (if local_tier (bc_tiered_storage s) then [mount "tier-storage" TIER_STORAGE_PATH] else [])
  ++ (if opt_is_some (gcs_secret (bc_tiered_storage s))
      then [mount_ro "gcs-credentials" GCS_CREDENTIALS_DIR] else []).

Definition broker_mounts (s : BrokerContainerSpec) : list VolumeMount :=
  mount "data" DATA_DIR :: cluster_mounts
  ++ map (λ '(name, path), mount name path) (bc_jbod_extra_mounts s)
  ++ feature_mounts s.

Definition render_broker_container (s : BrokerContainerSpec) : Container :=
  {| c_name := "broker";
     c_image := Some (bc_image s);
     c_command := Some ["/run/krabka/busybox"; "sh"; "-c"];
     c_args := Some [build_main_script (bc_metrics s) (bc_client_policy s).1 (bc_client_policy s).2];
     c_env := Some (broker_env s);
     c_ports := Some (broker_ports (bc_metrics s));
     c_mounts := Some (broker_mounts s);
     c_readiness := Some {| pr_handler := HttpGet "/readyz" HEALTH_PORT; pr_initial_delay := Some 2;
                            pr_period := Some 5; pr_failure_threshold := None |};
     c_liveness := Some {| pr_handler := HttpGet "/healthz" HEALTH_PORT; pr_initial_delay := Some 30;
                           pr_period := Some 10; pr_failure_threshold := None |};
     c_startup := Some {| pr_handler := TcpSocket BROKER_PORT; pr_initial_delay := None;
                          pr_period := Some 5; pr_failure_threshold := Some 30 |};
     c_resources := Some (bc_resources s);
     c_security := Some locked_down |}.

(** ** Storage *)
Definition pvc_template (name size : string) (class : option string) (pod_labels : gmap string string)
  : PersistentVolumeClaim :=
  {| pvc_meta := {| om_name := Some name; om_namespace := None; om_uid := None;
                    om_labels := Some pod_labels; om_annotations := None; om_finalizers := None;
                    om_generation := None; om_deleting := false; om_owners := [] |};
     pvc_spec := Some {| claim_access_modes := ["ReadWriteOnce"]; claim_storage := Some size;
                         claim_class := class |} |}.

(** Secrets are mounted for their owner only. *)
Definition secret_volume (name secret_name : string) (items : option (list (string * string))) : Volume :=
  {| vol_name := name; vol_source := SecretVolume secret_name items (Some 256) |}.

Definition cluster_volumes (parent_name : string) : list Volume :=
  [{| vol_name := "broker-config"; vol_source := ConfigMapVolume (parent_name +:+ "-broker-config") |};
   {| vol_name := "broker-runtime"; vol_source := EmptyDir |};
   secret_volume "cluster-ca-cert" (parent_name +:+ "-cluster-ca-cert") None;
   secret_volume "broker-tls" (parent_name +:+ "-kafka-brokers") None;
   secret_volume "clients-ca-cert" (parent_name +:+ "-clients-ca-cert") None;
   secret_volume "cluster-id" (parent_name +:+ "-cluster-id") None].

Definition data_volumes (s : option Storage) : list Volume :=
  match s with
  | None | Some Ephemeral => [{| vol_name := "data"; vol_source := EmptyDir |}]
  | _ => []
  end.

(** The lowest disk is [data], the others carry their id. *)
Definition data_templates (s : option Storage) (pod_labels : gmap string string)
  : list PersistentVolumeClaim :=
  match s with
  | None | Some Ephemeral => []
  | Some (PersistentClaim pc) => [pvc_template "data" (pc_size pc) (pc_class pc) pod_labels]
  | Some (Jbod _ _) =>
      imap (λ i v, pvc_template (jbod_mount (jv_id v) (i =? 0)%nat).1 (jv_size v) (jv_class v) pod_labels)
        (jbod_volumes_sorted s)
  end.

Definition key_volume (name path : string) (r : option SecretKeyRef) : list Volume :=
  from_option (λ m, [secret_volume name (skr_secret_name m) (Some [(skr_key m, path)])]) [] r.

Definition feature_volumes (oauth_jwks_trust_secret : option string)
    (oauth_introspection gssapi_keytab krb5_conf : option SecretKeyRef) (tier_volume : bool)
    (gcs_credentials : option CredentialRef) : list Volume :=
  from_option (λ n, [secret_volume "oauth-jwks-trust" n None]) [] oauth_jwks_trust_secret
  ++ key_volume "oauth-introspection-secret" "client-secret" oauth_introspection
  ++ key_volume "gssapi-keytab" "keytab" gssapi_keytab
  ++ key_volume "krb5-conf" "krb5.conf" krb5_conf
  ++ (if tier_volume then [{| vol_name := "tier-storage"; vol_source := EmptyDir |}] else [])
  ++ from_option (λ c, [secret_volume "gcs-credentials" (cred_name c)
                          (Some [(default "secret-key" (cred_key c), GCS_CREDENTIALS_FILE)])]) []
       gcs_credentials.

Definition tier_templates (tier_storage_local : bool)
    (tier_storage_persistence : option TieredStoragePersistence) (pod_labels : gmap string string)
  : list PersistentVolumeClaim :=
  if tier_storage_local
  then from_option (λ p, [pvc_template "tier-storage" (tsp_size p) (tsp_class p) pod_labels]) []
         tier_storage_persistence
  else [].

Definition render_storage (s : option Storage) (pod_labels : gmap string string) (parent_name : string)
    (oauth_jwks_trust_secret : option string)
    (oauth_introspection gssapi_keytab krb5_conf : option SecretKeyRef)
    (tier_storage_local : bool) (tier_storage_persistence : option TieredStoragePersistence)
    (gcs_credentials : option CredentialRef) : list Volume * list PersistentVolumeClaim :=
  (data_volumes s ++ cluster_volumes parent_name
   ++ feature_volumes oauth_jwks_trust_secret oauth_introspection gssapi_keytab krb5_conf
        (tier_storage_local && negb (opt_is_some tier_storage_persistence)) gcs_credentials,
   data_templates s pod_labels ++ tier_templates tier_storage_local tier_storage_persistence pod_labels).

(** The flag of a pool that has claims. *)
Definition data_delete_claim (s : option Storage) : option bool :=
  match s with
  | Some (PersistentClaim pc) => Some (pc_delete_claim pc)
  | Some (Jbod _ delete_claim) => Some delete_claim
  | None | Some Ephemeral => None
  end.

Definition render_pvc_retention_policy (s : option Storage)
    (tier_persistence : option TieredStoragePersistence) : option RetentionPolicy :=
  opt_map (λ delete_claim : bool,
    let policy := if delete_claim then "Delete" else "Retain" in
    {| when_deleted := policy; when_scaled := policy |})
    (or_else (data_delete_claim s) (opt_map tsp_delete_claim tier_persistence)).

(** ** The pod template *)
Definition resolved_metadata_version k : string :=
  let chosen := default (k_version (k_spec k))
    (or_else (and_then (k_status k) kst_metadata_version) (k_metadata_version (k_spec k))) in
  let normalized := match Version.parse chosen with Ok v => short v | Err _ => chosen end in
  if opt_is_some (from_version_string normalized) then normalized else max_metadata_version.

Definition separated_process_roles (rs : list NodeRole) : option string :=
  match bool_decide (Controller ∈ rs), bool_decide (Broker ∈ rs) with
  | true, false => Some "controller"
  | false, true => Some "broker"
  | _, _ => None
  end.

(** Labels of the user fill in what the operator left open. *)
Definition pod_labels pool (labels : gmap string string) : gmap string string :=
  let labels := if bool_decide (Controller ∈ roles (kp_spec pool))
                then <["krabka.io/controller-role" := "true"]> labels else labels in
  let labels := if bool_decide (Broker ∈ roles (kp_spec pool))
                then <["krabka.io/broker-role" := "true"]> labels else labels in
  labels ∪ from_option mt_labels ∅ (and_then (template (kp_spec pool)) pt_metadata).

(** Annotations of the operator replace those of the user. *)
Definition pod_annotations pool (process_roles : string) : gmap string string :=
  let user := from_option mt_annotations ∅ (and_then (template (kp_spec pool)) pt_metadata) in
  let hashed := from_option (λ h, <[CONFIG_HASH := h]> user) user (label (kp_meta pool) CONFIG_HASH) in
  <[PROCESS_ROLES_ANNOTATION := process_roles]>
  (<[NODE_ID_START_ANNOTATION := display_Z (node_id_start (kp_spec pool))]> hashed).

Definition grace_period k : Z :=
  match and_then (k_broker_tuning (k_spec k)) (lookup "controlled_shutdown_drain_timeout") with
  | Some (TvTime t) => saturate i64_min i64_max (secs_i64 t + 30)
  | _ => 60
  end.

Definition default_resources : ResourceRequirements := small_resources "100m" "256Mi" "1000m" "1Gi".

Definition controller_spread (parent_name : string) : TopologySpread :=
  {| tsc_max_skew := 1; tsc_topology_key := "kubernetes.io/hostname";
     tsc_when_unsatisfiable := "DoNotSchedule"; tsc_node_taints_policy := Some "Honor";
     tsc_match_labels := <["app.kubernetes.io/instance" := parent_name]>
                           {["krabka.io/controller-role" := "true"]} |}.

Definition non_empty {A} (l : list A) : option (list A) := match l with [] => None | _ => Some l end.

Definition render_pod_spec k pool (init shell main : Container) (vols : list Volume) : PodSpec :=
  let tpl := template (kp_spec pool) in
  {| init_containers := Some [shell; init];
     containers := [main];
     node_name := None;
     volumes := Some vols;
     security_context := Some
       {| psc_run_as_non_root := Some true; psc_run_as_user := Some 65532; psc_fs_group := Some 65532;
          psc_seccomp := Some (default {| profile_type := RuntimeDefault; localhost_profile := None |}
                                 (and_then tpl pt_seccomp_profile)) |};
     termination_grace_period := Some (grace_period k);
     topology_spread :=
       if bool_decide (Controller ∈ roles (kp_spec pool))
       then Some [controller_spread (name_any (k_meta k))] else None;
     affinity := and_then tpl pt_affinity;
     tolerations := and_then tpl (λ t, non_empty (pt_tolerations t));
     node_selector := option_filter (λ m, negb (bool_decide (m = ∅))) (and_then tpl pt_node_selector) |}.

Definition pool_selector (parent_name pool_name : string) : gmap string string :=
  <["krabka.io/pool" := pool_name]>
  (<["app.kubernetes.io/instance" := parent_name]> {["app.kubernetes.io/name" := APP_LABEL]}).

Definition broker_container_spec k pool (broker_image : string) (policy : option Z * option Z)
  : BrokerContainerSpec :=
  let parent_name := name_any (k_meta k) in
  let spec := k_spec k in
  {| bc_image := broker_image;
     bc_secret_name := parent_name +:+ "-cluster-id";
     bc_cm_name := parent_name +:+ "-broker-config";
     bc_resources := default default_resources (resources (kp_spec pool));
     bc_metrics := opt_is_some (k_metrics_config spec);
     bc_logging := opt_is_some (k_logging spec);
     bc_gssapi_keytab := opt_is_some (gssapi_keytab_mount k);
     bc_krb5_conf := opt_is_some (krb5_conf_mount k);
     bc_jbod_extra_mounts := jbod_extra_mounts (storage (kp_spec pool));
     bc_oauth_trust_mount := opt_map (λ _, "/etc/krabka/oauth-jwks-trust") (oauth_jwks_trust_secret_name k);
     bc_introspection_mount :=
       opt_map (λ _, "/etc/krabka/oauth-introspection") (oauth_introspection_secret_mount k);
     bc_delegation_token := k_delegation_token spec;
     bc_tiered_storage := k_tiered_storage spec;
     bc_tracing := k_tracing spec;
     bc_process_roles := separated_process_roles (roles (kp_spec pool));
     bc_client_policy := policy |}.

(** One retention policy covers all claims, so the flags must agree. *)
Definition check_delete_claims pool (tier_persistence : option TieredStoragePersistence)
  : result unit ReconcileError :=
  match tier_persistence, data_delete_claim (storage (kp_spec pool)) with
  | Some tp, Some dc =>
      if Bool.eqb dc (tsp_delete_claim tp) then Ok tt
      else Err (TieredStorageInvalid
        ("tiered storage persistence.deleteClaim=" +:+ display_bool (tsp_delete_claim tp)
         +:+ " but pool '" +:+ default "" (om_name (kp_meta pool)) +:+ "' storage.deleteClaim="
         +:+ display_bool dc
         +:+ "; K8s StatefulSets have a single set-wide PVC retention policy "
         +:+ em_dash +:+ " these must match"))
  | _, _ => Ok tt
  end.

Definition render_statefulset_with_shell k pool (broker_image shell_image : string)
  : result StatefulSet ReconcileError :=
  let parent_name := default "" (om_name (k_meta k)) in
  let pool_name := default "" (om_name (kp_meta pool)) in
  let namespace := default "" (om_namespace (kp_meta pool)) in
  let spec := k_spec k in
  let? policy := map_err Malformed (client_resource_policy (kp_spec pool)) in
  let labels := common_labels parent_name (k_version spec) (Some pool_name) in
  let service_name := parent_name +:+ "-broker-headless" in
  let start := node_id_start (kp_spec pool) in
  let init := render_init_container broker_image (parent_name +:+ "-cluster-id") pool_name service_name
                start (resolved_metadata_version k) in
  let main := render_broker_container (broker_container_spec k pool broker_image policy) in
  let process_roles := role_mask_name (role_mask (roles (kp_spec pool))) in
  let plabels := pod_labels pool labels in
  let tiered := k_tiered_storage spec in
  let tier_persistence := and_then tiered ts_persistence in
  if? check_delete_claims pool tier_persistence in
  let '(vols, templates) :=
    render_storage (storage (kp_spec pool)) plabels parent_name (oauth_jwks_trust_secret_name k)
      (oauth_introspection_secret_mount k) (gssapi_keytab_mount k) (krb5_conf_mount k)
      (local_tier tiered) tier_persistence (gcs_secret tiered) in
  let? owner := owner_ref "KafkaNodePool" (kp_meta pool) in
  Ok {| ss_meta := {| om_name := Some (parent_name +:+ "-" +:+ pool_name);
                      om_namespace := Some namespace; om_uid := None; om_labels := Some labels;
                      om_annotations := Some (<[PROCESS_ROLES_ANNOTATION := process_roles]>
                                                {[NODE_ID_START_ANNOTATION := display_Z start]});
                      om_finalizers := None; om_generation := None; om_deleting := false;
                      om_owners := [owner] |};
        ss_spec := Some
          {| ss_service_name := service_name;
             ss_replicas := Some (replicas (kp_spec pool));
             ss_pod_management_policy := Some "Parallel";
             ss_update_strategy := Some "RollingUpdate";
             ss_selector := pool_selector parent_name pool_name;
             ss_template :=
               {| tpl_meta := Some (template_meta plabels (Some (pod_annotations pool process_roles)));
                  tpl_spec := Some (render_pod_spec k pool init (render_shell_init_container shell_image)
                                      main vols) |};
             ss_claims := non_empty templates;
             ss_retention := render_pvc_retention_policy (storage (kp_spec pool)) tier_persistence |};
        ss_status := None |}.
End render.

Definition render_pod_disruption_budget (pool : KafkaNodePool) (namespace cluster : string)
  : result PodDisruptionBudget ReconcileError :=
  let? owner := owner_ref "KafkaNodePool" (kp_meta pool) in
  Ok {| pdb_meta := {| om_name := Some (cluster +:+ "-" +:+ pool_name pool);
                       om_namespace := Some namespace; om_uid := None; om_labels := None;
                       om_annotations := None; om_finalizers := None; om_generation := None;
                       om_deleting := false; om_owners := [owner] |};
        pdb_max_unavailable := Some 1;
        pdb_min_available := None;
        pdb_selector := pool_selector cluster (pool_name pool) |}.

(** ** What a live StatefulSet keeps *)
Definition with_spec (f : StatefulSetSpec → StatefulSetSpec) (s : StatefulSet) : StatefulSet :=
  {| ss_meta := ss_meta s; ss_spec := opt_map f (ss_spec s); ss_status := ss_status s |}.

Definition preserve_live_pod_management_policy (desired : StatefulSet) (live : option StatefulSet)
  : StatefulSet :=
  match and_then (and_then live ss_spec) ss_pod_management_policy with
  | None => desired
  | Some policy =>
      with_spec (λ spec,
        {| ss_service_name := ss_service_name spec; ss_replicas := ss_replicas spec;
           ss_pod_management_policy := Some policy; ss_update_strategy := ss_update_strategy spec;
           ss_selector := ss_selector spec; ss_template := ss_template spec;
           ss_claims := ss_claims spec; ss_retention := ss_retention spec |}) desired
  end.

(** The metadata of a claim template that is already there. *)
Definition keep_claim_metadata (live_claims : list PersistentVolumeClaim) (c : PersistentVolumeClaim)
  : PersistentVolumeClaim :=
  match find_first (λ l, bool_decide (pvc_name l = pvc_name c)) live_claims with
  | None => c
  | Some l =>
      {| pvc_meta := {| om_name := om_name (pvc_meta c); om_namespace := om_namespace (pvc_meta c);
                        om_uid := om_uid (pvc_meta c); om_labels := om_labels (pvc_meta l);
                        om_annotations := om_annotations (pvc_meta l);
                        om_finalizers := om_finalizers (pvc_meta c);
                        om_generation := om_generation (pvc_meta c);
                        om_deleting := om_deleting (pvc_meta c); om_owners := om_owners (pvc_meta c) |};
         pvc_spec := pvc_spec c |}
  end.

Definition preserve_live_volume_claim_template_metadata (desired : StatefulSet)
    (live : option StatefulSet) : StatefulSet :=
  match and_then (and_then live ss_spec) ss_claims with
  | None => desired
  | Some live_claims =>
      with_spec (λ spec,
        {| ss_service_name := ss_service_name spec; ss_replicas := ss_replicas spec;
           ss_pod_management_policy := ss_pod_management_policy spec;
           ss_update_strategy := ss_update_strategy spec; ss_selector := ss_selector spec;
           ss_template := ss_template spec;
           ss_claims := opt_map (map (keep_claim_metadata live_claims)) (ss_claims spec);
           ss_retention := ss_retention spec |}) desired
  end.
