(* ===== verification/PodFacts.v ===== *)
(** * What the rendered StatefulSet guarantees (src/controller/kafka_node_pool.rs)

    The pods are admitted by the API server, the selectors pick the pods of one pool and
    no others, and the operator reads its own StatefulSet back as the pool it rendered. *)

From S2P Require Import Prelude RustStd Kube Workload Version Toml Tuning Quantity CaBundle ClusterCa.
From S2P Require Import UserTls Listeners ListenerCheck NodePool ListenerObjects Quorum Advertised.
From S2P Require Import NetworkPolicy KafkaSpec ListenerSecrets BrokerToml StorageChange Rollout.
From S2P Require Import PodRender.
Local Open Scope Z_scope.

(** ** Names with a common start, beside fixed names *)
Lemma NoDup_prefixed p (l k : list string) :
  (∀ x, x ∈ l → starts_with p x = true) → (∀ x, x ∈ k → starts_with p x = false) →
  NoDup l → NoDup k → NoDup (l ++ k).
Proof.
  intros Hl Hk Hnl Hnk. apply NoDup_app. split_and!; [done| |done].
  intros x Hx Hx'. apply Hl in Hx. apply Hk in Hx'. congruence.
Qed.

Lemma starts_with_app p s : starts_with p (p +:+ s) = true.
Proof. unfold starts_with. by rewrite strip_prefix_app. Qed.

Lemma sublist_ite {A} (b : bool) (l k : list A) : l `sublist_of` k → (if b then l else []) `sublist_of` k.
Proof. intros. destruct b; [done|apply sublist_nil_l]. Qed.

Lemma sublist_opt {A B} (f : A → list B) (o : option A) k :
  (∀ a, f a `sublist_of` k) → from_option f [] o `sublist_of` k.
Proof. intros Hf. destruct o; [apply Hf|apply sublist_nil_l]. Qed.

Lemma fmap_ite {A B} (f : A → B) (b : bool) l : f <$> (if b then l else []) = if b then f <$> l else [].
Proof. by destruct b. Qed.
Lemma fmap_opt {A B C} (f : B → C) (g : A → list B) (o : option A) :
  f <$> from_option g [] o = from_option (λ a, f <$> g a) [] o.
Proof. by destruct o. Qed.

(** A list of optional parts is part of a fixed list. *)
Ltac sub_parts :=
  repeat first
    [ apply sublist_nil_l
    | apply sublist_ite
    | apply sublist_opt; intros ?
    | apply sublist_app
    | reflexivity ].

(** A fact about fixed strings. *)
Ltac fixed := by apply (bool_decide_unpack _).

Lemma fixed_free p (l k : list string) :
  forallb (λ x, negb (starts_with p x)) k = true → l `sublist_of` k →
  ∀ x, x ∈ l → starts_with p x = false.
Proof.
  intros Hk Hs x Hx. rewrite forallb_forall in Hk.
  apply negb_true_iff, Hk, list_elem_of_In. eapply elem_of_submseteq; [exact Hx|]. by apply sublist_submseteq.
Qed.

(** ** The disks of a pool *)
Definition disks_ok (s : option Storage) : Prop :=
  match s with
  | Some (Jbod volumes _) =>
      (2 ≤ length volumes)%nat ∧ NoDup (map jv_id volumes)
  | _ => True
  end.

Lemma check_volumes_Ok seen l :
  check_volumes seen l = Ok tt → NoDup (map jv_id l) ∧ ∀ v, v ∈ l → jv_id v ∉ seen.
Proof.
  revert seen. induction l as [|v l IH]; intros seen; cbn; [split; [constructor|set_solver]|].
  case_bool_decide as Hv; [done|]. destruct (map_err _ _); [|done]. intros [Hnd Hl]%IH. split.
  - constructor; [|done]. intros (w & Heq & Hw)%list_elem_of_fmap. apply Hl in Hw. set_solver.
  - intros w [->|Hw]%elem_of_cons; [done|]. apply Hl in Hw. set_solver.
Qed.

Lemma validate_disks p : validate p = Ok tt → disks_ok (storage (kp_spec p)).
Proof.
  intros (_ & _ & _ & _ & _ & Hs)%validate_Ok. unfold validate_storage in Hs. unfold disks_ok.
  destruct (storage (kp_spec p)) as [[|pc|volumes d]|]; try done.
  destruct (length volumes <? 2)%nat eqn:Hl; [done|]. apply Nat.ltb_ge in Hl. split; [lia|].
  exact (proj1 (check_volumes_Ok [] _ Hs)).
Qed.

(** The claims of a pool's disks, by name. *)
Definition disk_names (s : option Storage) : list string :=
  "data" :: map (λ v, "data-" +:+ display_Z (jv_id v)) (tail (jbod_volumes_sorted s)).

Lemma disk_names_spec s labels :
  disks_ok s →
  map vol_name (data_volumes s) ++ map (default "" ∘ pvc_name) (data_templates s labels) = disk_names s.
Proof.
  intros Hd. destruct s as [[|pc|volumes d]|]; try done. unfold data_volumes, data_templates, disk_names.
  cbn [jbod_volumes_sorted]. destruct Hd as [Hl _].
  assert (length (sort_volumes volumes) = length volumes) as Hlen
    by apply Permutation_length, sort_by_perm.
  destruct (sort_volumes volumes) as [|v vs]; [cbn in Hlen; lia|]. cbn [map app tail].
  rewrite imap_cons. cbn. f_equal. clear. induction vs as [|w vs IH] using rev_ind; [done|].
  rewrite imap_app, !map_app, IH. cbn. done.
Qed.

Lemma disk_ids s : disks_ok s → NoDup (map jv_id (jbod_volumes_sorted s)).
Proof.
  destruct s as [[|pc|volumes d]|]; cbn; [constructor|constructor| |constructor].
  intros [_ Hnd]. unfold sort_volumes. by rewrite (sort_by_perm _ volumes).
Qed.

Lemma numbered_NoDup p s :
  disks_ok s → NoDup (map (λ v, p +:+ "-" +:+ display_Z (jv_id v)) (tail (jbod_volumes_sorted s))).
Proof.
  intros Hd%disk_ids. destruct (jbod_volumes_sorted s) as [|v vs]; [constructor|]. cbn in *.
  apply NoDup_cons in Hd as [_ Hd]. rewrite <- (map_map jv_id (λ i, p +:+ "-" +:+ display_Z i)).
  apply NoDup_fmap_2; [|done]. intros a b Heq. apply str_app_inj_l, str_app_inj_l in Heq.
  by apply (inj pretty) in Heq.
Qed.

(** A disk's name or path: the base, or the base with the id. *)
Lemma base_not_numbered p s : p ∉ map (λ v, p +:+ "-" +:+ display_Z (jv_id v)) (tail (jbod_volumes_sorted s)).
Proof.
  intros (v & Heq & _)%list_elem_of_fmap. apply (f_equal String.length) in Heq.
  rewrite !str_length_app in Heq. cbn in Heq. lia.
Qed.

Lemma numbered_starts p s x :
  x ∈ p :: map (λ v, p +:+ "-" +:+ display_Z (jv_id v)) (tail (jbod_volumes_sorted s)) →
  starts_with p x = true.
Proof.
  intros [->|(v & -> & _)%list_elem_of_fmap]%elem_of_cons; [|apply starts_with_app].
  rewrite <- (str_app_nil_r p) at 2. apply starts_with_app.
Qed.

(** ** Claims as the storage check reads them *)
Definition same_claim (c c' : PersistentVolumeClaim) : Prop :=
  pvc_name c = pvc_name c' ∧ pvc_spec c = pvc_spec c'.

Lemma same_claim_reads c c' :
  same_claim c c' → size_class_from_pvc c = size_class_from_pvc c' ∧ extra_id c = extra_id c'.
Proof. intros [Hn Hs]. unfold size_class_from_pvc, extra_id. by rewrite Hn, Hs. Qed.

Lemma same_claims_change desired l l' :
  Forall2 same_claim l l' → validate_storage_change desired (Some l) = validate_storage_change desired (Some l').
Proof.
  intros Hl.
  assert (observed_storage_kind l = observed_storage_kind l') as Hk.
  { destruct Hl as [|c c' l l' _ Hl]; [done|]. by destruct Hl. }
  assert (∀ acc, fold_left (λ acc t, if str_eqb (default "" (pvc_name t)) "data"
      then Some (size_class_from_pvc t) else acc) l acc =
    fold_left (λ acc t, if str_eqb (default "" (pvc_name t)) "data"
      then Some (size_class_from_pvc t) else acc) l' acc) as Hp.
  { clear Hk. induction Hl as [|c c' l l' Hc Hl IH]; intros acc; [done|]. cbn. rewrite IH.
    destruct Hc as [Hn Hs]. rewrite Hn. unfold size_class_from_pvc. by rewrite Hs. }
  assert (∀ acc, fold_left (λ (acc : gmap Z _) t, match extra_id t with
      Some n => <[n := size_class_from_pvc t]> acc | None => acc end) l acc =
    fold_left (λ (acc : gmap Z _) t, match extra_id t with
      Some n => <[n := size_class_from_pvc t]> acc | None => acc end) l' acc) as He.
  { clear Hk Hp. induction Hl as [|c c' l l' Hc Hl IH]; intros acc; [done|]. cbn. rewrite IH.
    by destruct (same_claim_reads c c' Hc) as [-> ->]. }
  unfold validate_storage_change. rewrite Hk. destruct (negb _); [done|].
  destruct desired as [[|pc|volumes d]|]; [done| | |done].
  - destruct Hl as [|c c' l l' Hc Hl]; [done|]. by destruct (same_claim_reads c c' Hc) as [-> _].
  - unfold validate_jbod_change, observed_primary, observed_extra. by rewrite Hp, He.
Qed.

(** A disk's claim, read back. *)
Lemma disk_claim_id id size class labels :
  0 ≤ id ≤ i32_max →
  extra_id (pvc_template ("data-" +:+ display_Z id) size class labels) = Some id.
Proof.
  intros Hid. unfold extra_id. change (default "" (pvc_name _)) with ("data-" +:+ display_Z id).
  cbv zeta. rewrite strip_prefix_app. cbn [and_then]. unfold parse_i32.
  by rewrite parse_signed_display by done.
Qed.

Lemma disk_claims_read labels vs (acc : gmap Z (string * option string)) :
  NoDup (map jv_id vs) → (∀ v, v ∈ vs → 0 ≤ jv_id v ≤ i32_max) →
  fold_left (λ (acc : gmap Z _) t, match extra_id t with
      Some n => <[n := size_class_from_pvc t]> acc | None => acc end)
    (map (λ v, pvc_template ("data-" +:+ display_Z (jv_id v)) (jv_size v) (jv_class v) labels) vs) acc =
  list_to_map (map (λ v, (jv_id v, (jv_size v, jv_class v))) vs) ∪ acc.
Proof.
  revert acc. induction vs as [|v vs IH]; intros acc Hnd Hids; cbn; [by rewrite map_empty_union|].
  rewrite disk_claim_id by (apply Hids; by left). apply NoDup_cons in Hnd as [Hv Hnd].
  rewrite IH by (try done; intros w Hw; apply Hids; by right).
  rewrite <- insert_union_l. rewrite insert_union_r; [done|].
  apply not_elem_of_list_to_map_1. by rewrite <- list_fmap_compose.
Qed.

(** ** The pod *)
Section pod.
Context {Time ByteSize Ratio F64 : Type}.
Context `{TimeOps Time} `{MetadataVersions}.
Context (human_time : Time → string) (display_f64 : F64 → string).
Context (queue_capacity frame_max : Z → result Z string) (max_metadata_version : string).
Context (k : Kafka Time ByteSize Ratio F64) (pool : KafkaNodePool) (broker_image shell_image : string).
#[local] Notation render :=
  (render_statefulset_with_shell human_time display_f64 queue_capacity frame_max max_metadata_version
     k pool broker_image shell_image).
#[local] Notation tiered := (k_tiered_storage (k_spec k)).
#[local] Notation container_spec :=
  (BrokerContainerSpec (Time := Time) (ByteSize := ByteSize) (F64 := F64)).

(** The fixed names of volumes and the paths of their mounts. *)
Definition fixed_names : list string :=
  ["broker-config"; "broker-runtime"; "cluster-ca-cert"; "broker-tls"; "clients-ca-cert"; "cluster-id";
   "oauth-jwks-trust"; "oauth-introspection-secret"; "gssapi-keytab"; "krb5-conf"; "tier-storage";
   "gcs-credentials"].

Definition fixed_paths : list string :=
  ["/etc/krabka/config"; "/run/krabka"; "/etc/krabka/cluster-ca"; "/etc/krabka/broker-tls";
   "/etc/krabka/clients-ca"; "/etc/krabka/oauth-jwks-trust"; "/etc/krabka/oauth-introspection";
   GSSAPI_KEYTAB_DIR; "/etc/krabka/krb5"; TIER_STORAGE_PATH; GCS_CREDENTIALS_DIR].

Definition env_names : list string :=
  ["POD_NAME"; "POD_NAMESPACE"; "KRABKA_CLUSTER_ID"; "PATH"; "KRABKA_PROCESS_ROLES"; "RUST_LOG";
   "KRABKA_EXTRA_LOG_DIRS"; "KRABKA_DELEGATION_TOKEN_SECRET_KEY"; "AWS_ACCESS_KEY_ID";
   "AWS_SECRET_ACCESS_KEY"; "KRABKA_OTLP_ENABLED"; "KRABKA_OTLP_ENDPOINT"; "KRABKA_OTLP_PROTOCOL";
   "KRABKA_OTLP_SAMPLE_RATIO"; "OTEL_SERVICE_NAME"; "KRABKA_OTLP_TIMEOUT"; "KRB5_CONFIG"].

Lemma broker_env_NoDup (s : container_spec) : NoDup (map env_name (broker_env human_time display_f64 s)).
Proof.
  apply (sublist_NoDup _ env_names); [fixed|]. unfold broker_env, env_names.
  rewrite !map_app, !fmap_opt, fmap_ite.
  apply (sublist_app _ ["POD_NAME"; "POD_NAMESPACE"; "KRABKA_CLUSTER_ID"; "PATH"]); [done|].
  apply (sublist_app _ ["KRABKA_PROCESS_ROLES"]); [by sub_parts|].
  apply (sublist_app _ ["RUST_LOG"]); [unfold append_logging_env; rewrite fmap_ite; by sub_parts|].
  apply (sublist_app _ ["KRABKA_EXTRA_LOG_DIRS"]);
    [by destruct (bc_jbod_extra_mounts s); [apply sublist_nil_l|]|].
  apply (sublist_app _ ["KRABKA_DELEGATION_TOKEN_SECRET_KEY"]); [by sub_parts|].
  apply (sublist_app _ ["AWS_ACCESS_KEY_ID"; "AWS_SECRET_ACCESS_KEY"]).
  { unfold s3_env. destruct (and_then _ s3_credentials) as [[]|]; [done|apply sublist_nil_l]. }
  apply (sublist_app _ ["KRABKA_OTLP_ENABLED"; "KRABKA_OTLP_ENDPOINT"; "KRABKA_OTLP_PROTOCOL";
    "KRABKA_OTLP_SAMPLE_RATIO"; "OTEL_SERVICE_NAME"; "KRABKA_OTLP_TIMEOUT"]); [|by sub_parts].
  unfold otlp_env. destruct (and_then _ tr_otlp) as [o|]; [|apply sublist_nil_l].
  rewrite !map_app, !fmap_opt.
  apply (sublist_app _ ["KRABKA_OTLP_ENABLED"; "KRABKA_OTLP_ENDPOINT"]); [done|].
  apply (sublist_app _ ["KRABKA_OTLP_PROTOCOL"]); [by sub_parts|].
  apply (sublist_app _ ["KRABKA_OTLP_SAMPLE_RATIO"]); [by sub_parts|].
  apply (sublist_app _ ["OTEL_SERVICE_NAME"]); by sub_parts.
Qed.

Lemma extra_paths s :
  map vm_path (map (λ '(name, path), mount name path) (jbod_extra_mounts s)) =
  map (λ v, DATA_DIR +:+ "-" +:+ display_Z (jv_id v)) (tail (jbod_volumes_sorted s)).
Proof. unfold jbod_extra_mounts. rewrite !map_map. by apply map_ext. Qed.

Lemma feature_paths policy :
  map vm_path (feature_mounts (broker_container_spec k pool broker_image policy)) `sublist_of`
  ["/etc/krabka/oauth-jwks-trust"; "/etc/krabka/oauth-introspection"; GSSAPI_KEYTAB_DIR;
   "/etc/krabka/krb5"; TIER_STORAGE_PATH; GCS_CREDENTIALS_DIR].
Proof.
  unfold feature_mounts. rewrite !map_app, !fmap_opt, !fmap_ite. cbn [broker_container_spec
    bc_oauth_trust_mount bc_introspection_mount].
  apply (sublist_app _ ["/etc/krabka/oauth-jwks-trust"]);
    [by destruct (oauth_jwks_trust_secret_name k); [|apply sublist_nil_l]|].
  apply (sublist_app _ ["/etc/krabka/oauth-introspection"]);
    [by destruct (oauth_introspection_secret_mount k); [|apply sublist_nil_l]|].
  apply (sublist_app _ [GSSAPI_KEYTAB_DIR]); [by sub_parts|].
  apply (sublist_app _ ["/etc/krabka/krb5"]); [by sub_parts|].
  apply (sublist_app _ [TIER_STORAGE_PATH]); by sub_parts.
Qed.

Lemma broker_paths_NoDup policy :
  disks_ok (storage (kp_spec pool)) →
  NoDup (map vm_path (broker_mounts (broker_container_spec k pool broker_image policy))).
Proof.
  intros Hd. unfold broker_mounts. cbn [map]. rewrite !map_app.
  cbn [broker_container_spec bc_jbod_extra_mounts]. rewrite extra_paths.
  rewrite (Permutation_app_swap_app (map vm_path cluster_mounts)), app_comm_cons.
  assert (map vm_path cluster_mounts ++ map vm_path (feature_mounts
    (broker_container_spec k pool broker_image policy)) `sublist_of` fixed_paths) as Hs
    by (apply (sublist_app _ (map vm_path cluster_mounts)); [done|apply feature_paths]).
  apply (NoDup_prefixed DATA_DIR).
  - apply numbered_starts.
  - by eapply (fixed_free DATA_DIR _ fixed_paths).
  - constructor; [apply base_not_numbered|by apply numbered_NoDup].
  - eapply sublist_NoDup; [|exact Hs]. fixed.
Qed.

(** ** The parts of the rendered StatefulSet *)
#[local] Notation parent_name := (default "" (om_name (k_meta k))).
#[local] Notation pname := (default "" (om_name (kp_meta pool))).
#[local] Notation plabels := (pod_labels pool (common_labels parent_name (k_version (k_spec k)) (Some pname))).
#[local] Notation process_roles := (role_mask_name (role_mask (roles (kp_spec pool)))).
#[local] Notation parts :=
  (render_storage (storage (kp_spec pool)) plabels parent_name (oauth_jwks_trust_secret_name k)
     (oauth_introspection_secret_mount k) (gssapi_keytab_mount k) (krb5_conf_mount k)
     (local_tier tiered) (and_then tiered ts_persistence) (gcs_secret tiered)).
#[local] Notation init :=
  (render_init_container broker_image (parent_name +:+ "-cluster-id") pname
     (parent_name +:+ "-broker-headless") (node_id_start (kp_spec pool))
     (resolved_metadata_version max_metadata_version k)).

Record rendered (s : StatefulSet) (spec : StatefulSetSpec) (pod : PodSpec) : Prop := {
  rd_spec : ss_spec s = Some spec;
  rd_pod : tpl_spec (ss_template spec) = Some pod;
  rd_containers : ∃ policy, all_containers pod =
    [render_shell_init_container shell_image; init;
     render_broker_container human_time display_f64 (broker_container_spec k pool broker_image policy)];
  rd_init : init_containers pod = Some [render_shell_init_container shell_image; init];
  rd_volumes : default [] (volumes pod) = parts.1;
  rd_claims : default [] (ss_claims spec) = parts.2;
  rd_replicas : ss_replicas spec = Some (replicas (kp_spec pool));
  rd_selector : ss_selector spec = pool_selector parent_name pname;
  rd_labels : om_labels (ss_meta s) = Some (common_labels parent_name (k_version (k_spec k)) (Some pname));
  rd_annotations : om_annotations (ss_meta s) =
    Some (<[PROCESS_ROLES_ANNOTATION := process_roles]>
            {[NODE_ID_START_ANNOTATION := display_Z (node_id_start (kp_spec pool))]});
  rd_template : tpl_meta (ss_template spec) =
    Some (template_meta plabels (Some (pod_annotations pool process_roles)));
  rd_status : ss_status s = None;
}.

Lemma render_Ok s : render = Ok s → ∃ spec pod, rendered s spec pod.
Proof.
  unfold render_statefulset_with_shell. destruct (map_err Malformed _) as [policy|]; [|done].
  destruct (check_delete_claims _ _); [|done]. destruct parts as [vols claims] eqn:Hp.
  destruct (owner_ref _ _) as [owner|]; [|done]. intros [= <-]. eexists _, _. split; try done.
  - by exists policy.
  - by rewrite Hp.
  - rewrite Hp. by destruct claims.
Qed.

Definition claim_names (spec : StatefulSetSpec) : list string :=
  map (default "" ∘ pvc_name) (default [] (ss_claims spec)).

#[local] Notation features b :=
  (feature_volumes (oauth_jwks_trust_secret_name k) (oauth_introspection_secret_mount k)
     (gssapi_keytab_mount k) (krb5_conf_mount k) b (gcs_secret tiered)).

(** The tier's volume is the pod's own or a claim. *)
Lemma tier_names labels :
  map vol_name (features (local_tier tiered && negb (opt_is_some (and_then tiered ts_persistence))))
  ++ map (default "" ∘ pvc_name)
       (tier_templates (local_tier tiered) (and_then tiered ts_persistence) labels)
  ≡ₚ map vol_name (features (local_tier tiered)).
Proof.
  destruct (local_tier tiered); [|cbn [andb tier_templates map]; by rewrite app_nil_r].
  destruct (and_then tiered ts_persistence) as [p|]; cbn [andb negb opt_is_some tier_templates from_option map];
    [|by rewrite app_nil_r].
  unfold feature_volumes. rewrite !map_app, <- !app_assoc. do 4 apply Permutation_app_head.
  cbn [map app vol_name]. apply Permutation_app_comm.
Qed.

(** The names of the pod's volumes and claims: the disks, and fixed ones. *)
Lemma volume_claim_names :
  disks_ok (storage (kp_spec pool)) →
  map vol_name parts.1 ++ map (default "" ∘ pvc_name) parts.2 ≡ₚ
  disk_names (storage (kp_spec pool)) ++ map vol_name (cluster_volumes parent_name)
  ++ map vol_name (features (local_tier tiered)).
Proof.
  intros Hd. unfold render_storage. cbn [fst snd].
  rewrite !map_app, <- (disk_names_spec _ plabels Hd), <- !app_assoc, <- (tier_names plabels).
  apply Permutation_app_head. rewrite (app_assoc (map _ (cluster_volumes _)) _ (map _ (data_templates _ _) ++ _)).
  rewrite Permutation_app_swap_app. by rewrite <- !app_assoc.
Qed.

Lemma feature_names b : map vol_name (features b) `sublist_of` drop 6 fixed_names.
Proof.
  unfold feature_volumes, key_volume. rewrite !map_app, !fmap_opt, !fmap_ite.
  apply (sublist_app _ ["oauth-jwks-trust"]); [by sub_parts|].
  apply (sublist_app _ ["oauth-introspection-secret"]); [by sub_parts|].
  apply (sublist_app _ ["gssapi-keytab"]); [by sub_parts|].
  apply (sublist_app _ ["krb5-conf"]); [by sub_parts|].
  apply (sublist_app _ ["tier-storage"]); by sub_parts.
Qed.

Lemma volume_names_NoDup :
  disks_ok (storage (kp_spec pool)) →
  NoDup (map vol_name parts.1 ++ map (default "" ∘ pvc_name) parts.2).
Proof.
  intros Hd. rewrite (volume_claim_names Hd).
  assert (map vol_name (cluster_volumes parent_name) ++ map vol_name (features (local_tier tiered))
    `sublist_of` fixed_names) as Hs.
  { apply (sublist_app _ (take 6 fixed_names)); [done|apply feature_names]. }
  apply (NoDup_prefixed "data").
  - apply numbered_starts.
  - by eapply (fixed_free "data" _ fixed_names).
  - constructor; [apply (base_not_numbered "data")|by apply (numbered_NoDup "data")].
  - eapply sublist_NoDup; [|exact Hs]. fixed.
Qed.

(** A mount of a feature has the feature's volume. *)
Lemma feature_mount_served policy m :
  m ∈ feature_mounts (broker_container_spec k pool broker_image policy) →
  vm_name m ∈ map vol_name (features (local_tier tiered)).
Proof.
  unfold feature_mounts, feature_volumes, key_volume. rewrite !map_app, !fmap_opt, !fmap_ite.
  cbn [broker_container_spec bc_oauth_trust_mount bc_introspection_mount bc_gssapi_keytab bc_krb5_conf
    bc_tiered_storage]. rewrite !elem_of_app.
  intros [Hm|[Hm|[Hm|[Hm|[Hm|Hm]]]]].
  - left. destruct (oauth_jwks_trust_secret_name k); [|by apply elem_of_nil in Hm].
    apply list_elem_of_singleton in Hm as ->. by left.
  - right. left. destruct (oauth_introspection_secret_mount k); [|by apply elem_of_nil in Hm].
    apply list_elem_of_singleton in Hm as ->. by left.
  - do 2 right. left. destruct (gssapi_keytab_mount k); [|by apply elem_of_nil in Hm].
    apply list_elem_of_singleton in Hm as ->. by left.
  - do 3 right. left. destruct (krb5_conf_mount k); [|by apply elem_of_nil in Hm].
    apply list_elem_of_singleton in Hm as ->. by left.
  - do 4 right. left. destruct (local_tier tiered); [|by apply elem_of_nil in Hm].
    apply list_elem_of_singleton in Hm as ->. by left.
  - do 5 right. destruct (gcs_secret tiered); [|by apply elem_of_nil in Hm].
    apply list_elem_of_singleton in Hm as ->. by left.
Qed.

(** A mount of the broker container has its volume. *)
Lemma broker_mount_served policy m :
  m ∈ broker_mounts (broker_container_spec k pool broker_image policy) →
  vm_name m ∈ disk_names (storage (kp_spec pool)) ++ map vol_name (cluster_volumes parent_name)
    ++ map vol_name (features (local_tier tiered)).
Proof.
  unfold broker_mounts. rewrite elem_of_cons, !elem_of_app. intros [->|[Hm|[Hm|Hm]]].
  - left. by left.
  - right. left. unfold cluster_mounts in Hm.
    repeat (apply elem_of_cons in Hm as [->|Hm]; [apply (bool_decide_unpack _); reflexivity|]).
    by apply elem_of_nil in Hm.
  - left. apply list_elem_of_fmap in Hm as ([n p] & -> & Hm). cbn in Hm.
    apply list_elem_of_fmap in Hm as (v & [= -> ->] & Hv). right. apply list_elem_of_fmap. by exists v.
  - right. right. by eapply feature_mount_served.
Qed.

Lemma init_mount_served c m :
  c ∈ [render_shell_init_container shell_image; init] → m ∈ mounts_of c →
  vm_name m ∈ disk_names (storage (kp_spec pool)) ++ map vol_name (cluster_volumes parent_name)
    ++ map vol_name (features (local_tier tiered)).
Proof.
  rewrite !elem_of_app. intros Hc Hm.
  assert (vm_name m = "data" ∨ vm_name m ∈ ["cluster-id"; "broker-runtime"]) as Hn.
  { repeat (apply elem_of_cons in Hc as [->|Hc]; [cbn in Hm; set_solver|]). by apply elem_of_nil in Hc. }
  destruct Hn as [->|Hn]; [left; by left|]. right. left.
  repeat (apply elem_of_cons in Hn as [->|Hn]; [apply (bool_decide_unpack _); reflexivity|]).
  by apply elem_of_nil in Hn.
Qed.

Lemma init_parts_NoDup c :
  c ∈ [render_shell_init_container shell_image; init] →
  NoDup (map vm_path (mounts_of c)) ∧ NoDup (map env_name (default [] (c_env c))).
Proof.
  intros Hc. repeat (apply elem_of_cons in Hc as [->|Hc]; [split; fixed|]). by apply elem_of_nil in Hc.
Qed.

Lemma last_container {A} (a b d c : A) : c ∈ [a; b; d] → c ∈ [a; b] ∨ c = d.
Proof. set_solver. Qed.

(** C32. The pods of a validated pool are well formed for every spec of the cluster: the
    volumes of the pod and the claims of the StatefulSet have names of their own, every
    mount of each container names one of them, and no container mounts two volumes at a
    path or sets a variable twice -- with any combination of storage, tiered storage,
    OAuth, Kerberos, tracing and delegation tokens. *)
Theorem rendered_pods_well_formed s :
  validate pool = Ok tt → render = Ok s →
  ∃ spec pod, ss_spec s = Some spec ∧ tpl_spec (ss_template spec) = Some pod ∧
    pod_wf (claim_names spec) pod.
Proof.
  intros Hd%validate_disks (spec & pod & Hr)%render_Ok. exists spec, pod.
  destruct Hr as [Hspec Hpod [policy Hcs] _ Hvols Hclaims _ _ _ _ _ _]. split_and!; [done..|].
  assert (volume_names pod ++ claim_names spec = map vol_name parts.1 ++ map (default "" ∘ pvc_name) parts.2)
    as Hnames by (unfold volume_names, claim_names; by rewrite Hvols, Hclaims).
  split.
  - rewrite Hnames. by apply volume_names_NoDup.
  - intros c m Hc Hm. rewrite Hnames, (volume_claim_names Hd). rewrite Hcs in Hc.
    apply last_container in Hc as [Hc| ->]; [by apply (init_mount_served c)|].
    by apply (broker_mount_served policy).
  - intros c Hc. rewrite Hcs in Hc.
    apply last_container in Hc as [Hc| ->];
      [by apply init_parts_NoDup|by apply broker_paths_NoDup].
  - intros c Hc. rewrite Hcs in Hc.
    apply last_container in Hc as [Hc| ->];
      [by apply init_parts_NoDup|apply broker_env_NoDup].
Qed.

(** ** The StatefulSet, read back *)

(** What the pass applies over a live StatefulSet. *)
Definition applied_over (s : StatefulSet) (live : option StatefulSet) : StatefulSet :=
  preserve_live_volume_claim_template_metadata (preserve_live_pod_management_policy s live) live.

Lemma applied_over_reads s live spec :
  ss_spec s = Some spec →
  ss_meta (applied_over s live) = ss_meta s ∧ ss_status (applied_over s live) = ss_status s ∧
  ∃ spec', ss_spec (applied_over s live) = Some spec' ∧ ss_template spec' = ss_template spec ∧
    ss_replicas spec' = ss_replicas spec ∧ ss_selector spec' = ss_selector spec ∧
    Forall2 same_claim (default [] (ss_claims spec')) (default [] (ss_claims spec)).
Proof.
  intros Hs. assert (∀ l, Forall2 same_claim l l) as Hrefl
    by (intros l; apply Forall_Forall2_diag, Forall_true; by intros c).
  assert (∀ lc l, Forall2 same_claim (map (keep_claim_metadata lc) l) l) as Hkeep.
  { intros lc l. apply Forall2_fmap_l, Forall_Forall2_diag, Forall_true. intros c.
    unfold compose, keep_claim_metadata. by case_match. }
  unfold applied_over, preserve_live_volume_claim_template_metadata, preserve_live_pod_management_policy.
  destruct (and_then (and_then live ss_spec) ss_claims) as [lc|],
    (and_then (and_then live ss_spec) ss_pod_management_policy) as [pmp|]; cbn; rewrite Hs; cbn;
    (split; [done|]; split; [done|]; eexists; split; [done|]; split_and!; try done; cbn; try apply Hrefl);
    destruct (ss_claims spec); cbn; try apply Hkeep; constructor.
Qed.

(** The pool has a claim for its tier, on top of those of its disks. *)
Definition tier_claim : bool := local_tier tiered && opt_is_some (and_then tiered ts_persistence).

Definition is_jbod (s : option Storage) : bool := match s with Some (Jbod _ _) => true | _ => false end.

Lemma tier_templates_nil labels :
  tier_templates (local_tier tiered) (and_then tiered ts_persistence) labels = [] ↔ tier_claim = false.
Proof. unfold tier_claim, tier_templates. by destruct (local_tier tiered), (and_then tiered ts_persistence). Qed.

Lemma tier_templates_one labels :
  tier_claim = true →
  ∃ size class, tier_templates (local_tier tiered) (and_then tiered ts_persistence) labels =
    [pvc_template "tier-storage" size class labels].
Proof.
  unfold tier_claim, tier_templates. destruct (local_tier tiered), (and_then tiered ts_persistence) as [p|]; try done.
  by eauto.
Qed.

Definition disk_ids_ok (st : option Storage) : Prop :=
  match st with Some (Jbod volumes _) => ∀ v, v ∈ volumes → 0 ≤ jv_id v ≤ i32_max | _ => True end.

(** The claims of a JBOD pool: its lowest disk, the others, and the tier. *)
#[local] Notation disk_claim labels :=
  (λ w : JbodVolume, pvc_template ("data-" +:+ display_Z (jv_id w)) (jv_size w) (jv_class w) labels).
#[local] Notation jbod_claims labels v vs :=
  (pvc_template "data" (jv_size v) (jv_class v) labels :: map (disk_claim labels) vs
   ++ tier_templates (local_tier tiered) (and_then tiered ts_persistence) labels).

Lemma jbod_templates volumes d v vs labels :
  sort_volumes volumes = v :: vs →
  data_templates (Some (Jbod volumes d)) labels =
  pvc_template "data" (jv_size v) (jv_class v) labels :: map (disk_claim labels) vs.
Proof.
  intros Hs. cbn [data_templates jbod_volumes_sorted]. rewrite Hs, imap_cons. cbn [jbod_mount Nat.eqb fst].
  f_equal. clear Hs. induction vs as [|w vs IH] using rev_ind; [done|]. by rewrite imap_app, map_app, IH.
Qed.

Lemma jbod_claims_extra labels v vs :
  NoDup (map jv_id vs) → (∀ w, w ∈ vs → 0 ≤ jv_id w ≤ i32_max) →
  observed_extra (jbod_claims labels v vs) =
  list_to_map (map (λ w, (jv_id w, (jv_size w, jv_class w))) vs).
Proof.
  intros Hnd Hids. unfold observed_extra. rewrite app_comm_cons, fold_left_app.
  cbn [fold_left]. change (extra_id (pvc_template "data" _ _ _)) with (@None Z). cbn match.
  rewrite disk_claims_read, map_union_empty by done.
  destruct tier_claim eqn:Ht.
  - destruct (tier_templates_one labels Ht) as (size & class & ->). done.
  - apply (tier_templates_nil labels) in Ht as ->. done.
Qed.

Lemma jbod_claims_primary labels v vs :
  observed_primary (jbod_claims labels v vs) = Some (jv_size v, jv_class v).
Proof.
  unfold observed_primary. rewrite app_comm_cons, fold_left_app. cbn [fold_left].
  change (default "" (pvc_name (pvc_template "data" _ _ _))) with "data". rewrite str_eqb_refl.
  assert (∀ acc, fold_left (λ acc t, if str_eqb (default "" (pvc_name t)) "data"
      then Some (size_class_from_pvc t) else acc) (map (disk_claim labels) vs) acc = acc) as Hskip.
  { induction vs as [|w vs IH]; intros acc; [done|]. cbn [map fold_left]. by rewrite IH. }
  rewrite Hskip. destruct tier_claim eqn:Ht.
  - destruct (tier_templates_one labels Ht) as (size & class & ->). done.
  - apply (tier_templates_nil labels) in Ht as ->. done.
Qed.

Lemma keeps_refl size class : keeps size class (size, class).
Proof. split; [done|cbn; lia]. Qed.

(** A JBOD pool's own claims are the ones it declares. *)
Lemma own_jbod_kept volumes d labels :
  disks_ok (Some (Jbod volumes d)) → disk_ids_ok (Some (Jbod volumes d)) →
  jbod_kept volumes (data_templates (Some (Jbod volumes d)) labels
    ++ tier_templates (local_tier tiered) (and_then tiered ts_persistence) labels).
Proof.
  intros Hd Hids. pose proof (disk_ids _ Hd) as Hnd. cbn [jbod_volumes_sorted] in Hnd.
  assert (∀ v, v ∈ sort_volumes volumes → 0 ≤ jv_id v ≤ i32_max) as Hrange
    by (intros v Hv; apply Hids; by apply elem_of_sort_by in Hv).
  destruct Hd as [Hlen _]. destruct (sort_volumes volumes) as [|v vs] eqn:Hs.
  { apply (f_equal length) in Hs. unfold sort_volumes in Hs. rewrite (Permutation_length (sort_by_perm _ _)) in Hs.
    cbn in Hs. lia. }
  rewrite (jbod_templates _ _ _ _ _ Hs), <- app_comm_cons. cbn [map] in Hnd. apply NoDup_cons in Hnd as [_ Hnd].
  unfold jbod_kept. exists v, vs. rewrite jbod_claims_extra, jbod_claims_primary
    by (try done; intros w Hw; apply Hrange; by right).
  split_and!; [done| | |].
  - intros n. rewrite <- not_eq_None_Some, <- not_elem_of_list_to_map, <- list_fmap_compose. cbn. split.
    + intros Hn Hno. by apply Hno.
    + intros Hn. apply dec_stable. by intros ?%Hn.
  - intros o [= <-]. apply keeps_refl.
  - intros w o Hw Ho. apply elem_of_list_to_map_2 in Ho.
    apply list_elem_of_fmap in Ho as (u & [= Hid ->] & Hu).
    assert (u = w) as -> by (by eapply (NoDup_fmap_eq jv_id vs)). apply keeps_refl.
Qed.

(** A validated pool's own claims pass the storage check, but for a tier's claim beside
    storage that is not JBOD. *)
Lemma own_claims_accepted labels :
  disks_ok (storage (kp_spec pool)) → disk_ids_ok (storage (kp_spec pool)) →
  validate_storage_change (storage (kp_spec pool))
    (Some (data_templates (storage (kp_spec pool)) labels
           ++ tier_templates (local_tier tiered) (and_then tiered ts_persistence) labels)) = Ok tt ↔
  tier_claim = false ∨ is_jbod (storage (kp_spec pool)) = true.
Proof.
  intros Hd Hids. destruct (is_jbod (storage (kp_spec pool))) eqn:Hj.
  - split; [by right|intros _]. destruct (storage (kp_spec pool)) as [[|pc|volumes d]|]; try done.
    unfold validate_storage_change. cbn [storage_kind].
    assert (observed_storage_kind (data_templates (Some (Jbod volumes d)) labels ++
      tier_templates (local_tier tiered) (and_then tiered ts_persistence) labels) = "Jbod") as ->.
    { destruct Hd as [Hlen _]. cbn [data_templates jbod_volumes_sorted].
      assert (length (sort_volumes volumes) = length volumes) as Hl by apply Permutation_length, sort_by_perm.
      destruct (sort_volumes volumes) as [|v [|w vs]]; cbn in Hl; [lia..|]. done. }
    rewrite (str_eqb_refl "Jbod"). cbn [negb].
    apply validate_jbod_change_Ok; [|by apply own_jbod_kept]. intros ->. destruct Hd as [Hlen _]. cbn in Hlen. lia.
  - split; [|intros [Ht|]; [|done]].
    + intros Hv. left. destruct tier_claim eqn:Ht; [|done]. exfalso. revert Hv.
      destruct (tier_templates_one labels Ht) as (size & class & ->).
      by destruct (storage (kp_spec pool)) as [[|pc|volumes d]|].
    + apply (tier_templates_nil labels) in Ht as ->. rewrite app_nil_r.
      destruct (storage (kp_spec pool)) as [[|pc|volumes d]|]; try done.
      unfold validate_storage_change. cbn [storage_kind data_templates observed_storage_kind].
      rewrite str_eqb_refl. cbn [negb]. apply check_class_and_shrink_Ok, keeps_refl.
Qed.

(** The identity in the annotations of the StatefulSet. *)
Lemma role_mask_reads rs : rs ≠ [] → parse_role_mask (role_mask_name (role_mask rs)) = Some (role_mask rs).
Proof.
  intros Hne. unfold role_mask. do 2 case_bool_decide; try done.
  destruct rs as [|[] rs]; [done| |]; exfalso; set_solver.
Qed.

Lemma own_labels s spec pod : rendered s spec pod → pool_labels_match (ss_meta s) (pool_name pool) = true.
Proof.
  intros Hr. unfold pool_labels_match, label. rewrite (rd_labels _ _ _ Hr). cbn.
  unfold common_labels. rewrite lookup_insert_eq. cbn. apply str_eqb_refl.
Qed.

Lemma own_identity s spec pod :
  validate pool = Ok tt → rendered s spec pod →
  observed_statefulset_identity s = (Some (node_id_start (kp_spec pool)), Some (role_mask (roles (kp_spec pool)))).
Proof.
  intros (Hne & _ & Hpos & Hmin & Hmax & _)%validate_Ok Hr. unfold observed_statefulset_identity, annotation.
  rewrite (rd_annotations _ _ _ Hr). cbn [mbind option_bind].
  rewrite (lookup_insert_ne _ PROCESS_ROLES_ANNOTATION NODE_ID_START_ANNOTATION) by done.
  rewrite lookup_singleton_eq, lookup_insert_eq. cbn [or_else and_then]. rewrite role_mask_reads by done.
  unfold parse_i32. rewrite parse_signed_display; [done|done|]. unfold MAX_NODE_ID, i32_max in *. lia.
Qed.

(** C33. The operator recognises the StatefulSet it applies: read back, it carries the
    first node id and the roles of the pool, counts as many nodes as the pool has, and
    belongs to the pool -- also over a live StatefulSet, whose immutable parts are kept.
    Its claims pass the storage check of the next pass exactly when the cluster keeps no
    tier on a claim, or the pool is a JBOD pool. *)
Theorem own_statefulset_recognised s live :
  validate pool = Ok tt → disk_ids_ok (storage (kp_spec pool)) → render = Ok s →
  let applied := applied_over s live in
  observed_statefulset_identity applied =
    (Some (node_id_start (kp_spec pool)), Some (role_mask (roles (kp_spec pool)))) ∧
  observed_statefulset_replicas applied = replicas (kp_spec pool) ∧
  pool_labels_match (ss_meta applied) (pool_name pool) = true ∧
  (validate_storage_change (storage (kp_spec pool))
     (Some (default [] (and_then (ss_spec applied) ss_claims))) = Ok tt ↔
   tier_claim = false ∨ is_jbod (storage (kp_spec pool)) = true).
Proof.
  intros Hv Hids (spec & pod & Hr)%render_Ok. cbn zeta.
  pose proof (applied_over_reads s live spec (rd_spec _ _ _ Hr)) as
    (Hm & Hst & spec' & Hs' & Htpl & Hrep & _ & Hclaims).
  assert (observed_statefulset_identity (applied_over s live) = observed_statefulset_identity s) as Hid.
  { unfold observed_statefulset_identity. rewrite Hm, Hs', (rd_spec _ _ _ Hr). cbn [opt_map]. by rewrite Htpl. }
  split_and!.
  - rewrite Hid. by eapply own_identity.
  - unfold observed_statefulset_replicas. rewrite Hs', Hst, (rd_status _ _ _ Hr). cbn [and_then].
    rewrite Hrep, (rd_replicas _ _ _ Hr). cbn. apply validate_Ok in Hv as (_ & _ & Hpos & _). lia.
  - rewrite Hm. by eapply own_labels.
  - rewrite Hs'. cbn [and_then]. rewrite (same_claims_change _ _ _ Hclaims), (rd_claims _ _ _ Hr).
    apply own_claims_accepted; [by apply validate_disks|done].
Qed.

(** ** Labels and selectors *)
Lemma pod_labels_kept labels key v :
  labels !! key = Some v → key ∉ ["krabka.io/controller-role"; "krabka.io/broker-role"] →
  pod_labels pool labels !! key = Some v.
Proof.
  intros Hv Hk. unfold pod_labels. apply lookup_union_Some_l.
  assert (key ≠ "krabka.io/controller-role" ∧ key ≠ "krabka.io/broker-role") as [Hc Hb] by set_solver.
  repeat case_bool_decide; rewrite ?lookup_insert_ne by done; done.
Qed.

Lemma pod_label_role role key labels :
  (role, key) ∈ [(Controller, "krabka.io/controller-role"); (NodePool.Broker, "krabka.io/broker-role")] →
  role ∈ roles (kp_spec pool) → pod_labels pool labels !! key = Some "true".
Proof.
  intros Hk Hr. unfold pod_labels. apply lookup_union_Some_l.
  repeat (apply elem_of_cons in Hk as [[= -> ->]|Hk]); [| |by apply elem_of_nil in Hk].
  - rewrite (bool_decide_eq_true_2 _ Hr). case_bool_decide; rewrite ?lookup_insert_ne by done; apply lookup_insert_eq.
  - rewrite (bool_decide_eq_true_2 _ Hr). apply lookup_insert_eq.
Qed.

Lemma selector_subset cluster p (m : gmap string string) :
  pool_selector cluster p ⊆ m ↔
  m !! "krabka.io/pool" = Some p ∧ m !! "app.kubernetes.io/instance" = Some cluster ∧
  m !! "app.kubernetes.io/name" = Some APP_LABEL.
Proof.
  split.
  - intros Hs. split_and!; by eapply lookup_weaken; [|exact Hs].
  - intros (Hp & Hi & Hn). unfold pool_selector. do 2 (apply insert_subseteq_l; [done|]).
    by apply map_singleton_subseteq_l.
Qed.

Lemma common_label key v p cluster version :
  (key, v) ∈ [("krabka.io/pool", p); ("app.kubernetes.io/instance", cluster); ("app.kubernetes.io/name", APP_LABEL)] →
  common_labels cluster version (Some p) !! key = Some v.
Proof.
  intros Hk. repeat (apply elem_of_cons in Hk as [[= -> ->]|Hk]; [done|]). by apply elem_of_nil in Hk.
Qed.

(** The pool's selector matches a pod with these labels. *)
Definition picked_by (cluster p : string) (labels : gmap string string) : Prop :=
  selects_labels (pool_selector cluster p) labels.

Lemma own_selected cluster p : picked_by cluster p plabels ↔ cluster = parent_name ∧ p = pname.
Proof.
  assert (∀ key v, (key, v) ∈ [("krabka.io/pool", pname); ("app.kubernetes.io/instance", parent_name);
    ("app.kubernetes.io/name", APP_LABEL)] → plabels !! key = Some v) as Hl.
  { intros key v Hk. apply pod_labels_kept; [by apply common_label|]. set_solver. }
  unfold picked_by, selects_labels.
  rewrite selector_subset, (Hl "krabka.io/pool" pname), (Hl "app.kubernetes.io/instance" parent_name),
    (Hl "app.kubernetes.io/name" APP_LABEL) by set_solver.
  naive_solver.
Qed.

(** Pods are told apart by labels that no pool template can override: the selector
    of a pool's StatefulSet and of its disruption budget picks the pods of that pool of
    that cluster and no others, whatever labels the user puts on the template; a pod of
    a controller pool carries the role label; and the pods carry the config hash that
    was stamped on the pool, which is what makes them roll. *)
Theorem pool_pods_selected s :
  render = Ok s →
  ∃ spec labels annotations, ss_spec s = Some spec ∧
    tpl_meta (ss_template spec) = Some (template_meta labels (Some annotations)) ∧
    (∀ cluster p, picked_by cluster p labels ↔ cluster = parent_name ∧ p = pname) ∧
    ss_selector spec = pool_selector parent_name pname ∧
    (∀ namespace budget, render_pod_disruption_budget pool namespace parent_name = Ok budget →
       pdb_selector budget = ss_selector spec) ∧
    (Controller ∈ roles (kp_spec pool) → labels !! "krabka.io/controller-role" = Some "true") ∧
    (∀ hash, label (kp_meta pool) CONFIG_HASH = Some hash → annotations !! CONFIG_HASH = Some hash).
Proof.
  intros (spec & pod & Hr)%render_Ok. exists spec, plabels, (pod_annotations pool process_roles).
  split_and!; [apply Hr|apply Hr|apply own_selected|apply Hr| | |].
  - intros ns budget Hb. rewrite (rd_selector _ _ _ Hr). unfold render_pod_disruption_budget in Hb.
    destruct (owner_ref "KafkaNodePool" (kp_meta pool)); [|done]. by injection Hb as <-.
  - intros Hc. apply (pod_label_role Controller); [set_solver|done].
  - intros hash Hh. unfold pod_annotations. rewrite Hh. cbn.
    rewrite !lookup_insert_ne by done. apply lookup_insert_eq.
Qed.
End pod.

(** ** Witnesses *)
Definition demo_tier : TieredStorage Z Z :=
  {| ts_kind := TsLocal; ts_s3 := None; ts_gcs := None; ts_metadata_manager := None;
     ts_persistence := Some {| tsp_size := "5Gi"; tsp_class := None; tsp_delete_claim := false |} |}.

Definition demo_parent (tier : option (TieredStorage Z Z)) : Kafka Z Z Z Z :=
  {| k_meta := ObjectMeta (Some "prod") (Some "kafka") (Some "u1") None None None None false [];
     k_spec := {| k_version := "4.0.0"; k_metadata_version := None; k_config := None; k_listeners := [];
                  k_inter_broker_listener_name := None; k_metrics_config := None;
                  k_network_policy := false; k_cluster_ca := None; k_clients_ca := None;
                  k_logging := None; k_delegation_token := None; k_authorization := None;
                  k_tiered_storage := tier; k_inter_broker_kerberos := None;
                  k_krb5_conf_secret_ref := Some {| krb5_secret_name := "krb"; krb5_key := "conf" |};
                  k_tracing := None; k_broker_tuning := None |};
     k_status := None |}.

Definition demo_jbod : Storage :=
  Jbod [{| jv_id := 7; jv_size := "10Gi"; jv_class := None |};
        {| jv_id := 2; jv_size := "20Gi"; jv_class := Some "fast" |}] false.
Definition demo_single : Storage :=
  PersistentClaim {| pc_size := "10Gi"; pc_class := None; pc_delete_claim := false |}.

Definition rendered_pool (st : Storage) (rs : list NodeRole) (tpl : option PodTemplate) : KafkaNodePool :=
  {| kp_meta := ObjectMeta (Some "pool") (Some "kafka") (Some "u2")
                  (Some {["krabka.io/cluster" := "prod"; CONFIG_HASH := "h1"]}) None None None false [];
     kp_spec := {| roles := rs; replicas := 3; node_id_start := 0; image := None; resources := None;
                   client_dispatch_queue_capacity := None; client_frame_max := None;
                   template := tpl; storage := Some st |};
     kp_status := None |}.

Definition demo_render (tier : option (TieredStorage Z Z)) (pool : KafkaNodePool)
  : result StatefulSet ReconcileError :=
  render_statefulset_with_shell (H0 := sample_levels) display_Z display_Z Ok Ok "4.0" (demo_parent tier)
    pool "broker:1" SHELL_IMAGE.

Definition unrendered : StatefulSet := {| ss_meta := empty_meta; ss_spec := None; ss_status := None |}.
Definition demo_set (tier : option (TieredStorage Z Z)) (pool : KafkaNodePool) : StatefulSet :=
  default unrendered (result_ok (demo_render tier pool)).

Lemma rendered_pods_well_formed_witness :
  ∃ spec pod, ss_spec (demo_set (Some demo_tier) (rendered_pool demo_jbod [NodePool.Broker] None)) = Some spec ∧
    tpl_spec (ss_template spec) = Some pod ∧ pod_wf (claim_names spec) pod.
Proof.
  apply (rendered_pods_well_formed (H0 := sample_levels) display_Z display_Z Ok Ok "4.0"
    (demo_parent (Some demo_tier)) (rendered_pool demo_jbod [NodePool.Broker] None) "broker:1" SHELL_IMAGE);
    vm_compute; reflexivity.
Defined.

Lemma own_statefulset_recognised_witness :
  validate_storage_change (Some demo_jbod)
    (Some (default [] (and_then (ss_spec (applied_over
      (demo_set (Some demo_tier) (rendered_pool demo_jbod [NodePool.Broker] None)) None)) ss_claims))) = Ok tt.
Proof.
  assert (disk_ids_ok (Some demo_jbod)) as Hids.
  { intros v Hv. repeat (apply elem_of_cons in Hv as [->|Hv]; [vm_compute; split; discriminate|]).
    by apply elem_of_nil in Hv. }
  apply (own_statefulset_recognised (H0 := sample_levels) display_Z display_Z Ok Ok "4.0"
    (demo_parent (Some demo_tier)) (rendered_pool demo_jbod [NodePool.Broker] None) "broker:1" SHELL_IMAGE
    (demo_set (Some demo_tier) (rendered_pool demo_jbod [NodePool.Broker] None)) None);
    [vm_compute; reflexivity|exact Hids|vm_compute; reflexivity|by right].
Defined.

Definition forged : PodTemplate :=
  {| pt_metadata := Some {| mt_labels := {["krabka.io/controller-role" := "true"; "krabka.io/pool" := "other"]};
                            mt_annotations := {[CONFIG_HASH := "mine"]} |};
     pt_affinity := None; pt_tolerations := []; pt_node_selector := None; pt_seccomp_profile := None |}.

Lemma pool_pods_selected_witness :
  ∃ spec labels annotations,
    ss_spec (demo_set None (rendered_pool demo_single [NodePool.Broker] (Some forged))) = Some spec ∧
    tpl_meta (ss_template spec) = Some (template_meta labels (Some annotations)) ∧
    pool_selector "prod" "pool" ⊆ labels ∧ annotations !! CONFIG_HASH = Some "h1".
Proof.
  destruct (pool_pods_selected (H0 := sample_levels) display_Z display_Z Ok Ok "4.0" (demo_parent None)
    (rendered_pool demo_single [NodePool.Broker] (Some forged)) "broker:1" SHELL_IMAGE
    (demo_set None (rendered_pool demo_single [NodePool.Broker] (Some forged))))
    as (spec & labels & annotations & Hs & Ht & Hsel & _ & _ & _ & Hh); [vm_compute; reflexivity|].
  exists spec, labels, annotations. split; [exact Hs|]. split; [exact Ht|]. split.
  - by apply Hsel.
  - by apply Hh.
Defined.

(** The label of the controller role is not among them: a template of a broker pool may
    carry it, and its pods then answer behind the controllers' Service. *)
Lemma template_label_forges_role :
  pod_labels (rendered_pool demo_single [NodePool.Broker] (Some forged)) (common_labels "prod" "4.0.0" (Some "pool"))
    !! "krabka.io/controller-role" = Some "true".
Proof. reflexivity. Qed.

(** The claim of a tier makes the next pass refuse an unchanged pool with one disk: the
    two claims read as JBOD. *)
Lemma tier_claim_blocks_pool :
  validate_storage_change (Some demo_single)
    (Some (default [] (and_then (ss_spec
      (demo_set (Some demo_tier) (rendered_pool demo_single [NodePool.Broker] None))) ss_claims))) =
  Err (StorageTypeChanged "Jbod" "PersistentClaim").
Proof. vm_compute. reflexivity. Qed.
