(* ===== verification/ConfigHash.v ===== *)
(** * The configuration hash (src/controller/common.rs, src/controller/listeners.rs)

    The text that [combined_config_hash] hashes, whose change rolls the brokers, and
    how the served certificates are mixed in.  SHA-256 is a parameter; the theorems
    are about the text. *)

From S2P Require Import Prelude RustStd Kube CaBundle ClusterCa Toml Tuning Listeners NodePool.
From S2P Require Import ListenerObjects Advertised KafkaSpec BrokerToml ConfigFile Rollout.
Local Open Scope Z_scope.

Definition US : string := of_char (ascii_of_nat 31).
Definition RS : string := of_char (ascii_of_nat 30).

(** [{:?}] of a [ListenerType]. *)
Definition debug_listener_type (t : ListenerType) : string :=
  match t with
  | Internal => "Internal" | Nodeport => "Nodeport" | Loadbalancer => "Loadbalancer"
  | Ingress => "Ingress" | Route => "Route"
  end.

(** [writeln!] of an optional setting. *)
Definition opt_line {A} (show : A → string) (o : option A) : string :=
  from_option (λ x, show x +:+ of_char nl) "" o.

Definition override_intent (o : BrokerOverride) : string :=
  let b := "  broker" +:+ display_Z (bo_broker o) in
  opt_line (λ h, b +:+ ".advertisedHost=" +:+ h) (bo_advertised_host o) +:+
  opt_line (λ p, b +:+ ".advertisedPort=" +:+ display_Z p) (bo_advertised_port o) +:+
  opt_line (λ np, b +:+ ".nodePort=" +:+ display_Z np) (bo_node_port o) +:+
  opt_line (λ ip, b +:+ ".loadBalancerIP=" +:+ ip) (bo_load_balancer_ip o).

Definition configuration_intent (c : ListenerConfiguration) : string :=
  from_option (λ b,
    opt_line (λ np, "  bootstrap.nodePort=" +:+ display_Z np) (bc_node_port b) +:+
    opt_line (λ ip, "  bootstrap.loadBalancerIP=" +:+ ip) (bc_load_balancer_ip b)) "" (lc_bootstrap c) +:+
  concat_str (map override_intent (sort_by (λ a b, bo_broker a <=? bo_broker b) (lc_brokers c))).

Definition listener_intent {Time} (l : Listener Time) : string :=
  "listener:name=" +:+ l_name l +:+ ",port=" +:+ display_Z (l_port l) +:+ ",type=" +:+
  debug_listener_type (l_type l) +:+ ",tls=" +:+ display_bool (l_tls l) +:+ of_char nl +:+
  from_option configuration_intent "" (l_configuration l).

Definition canonical_listener_intent {Time} (ls : list (Listener Time)) (inter_broker : option string)
  : string :=
  match ls with
  | [] => ""
  | _ => opt_line (λ name, "inter_broker=" +:+ name) inter_broker +:+ concat_str (map listener_intent ls)
  end.

Section hash.
Context {Time ByteSize Ratio F64 : Type}.
Context (toml_string : string → string) (human_time : Time → string) (human_size : ByteSize → string)
  (human_ratio : Ratio → string).
Context (config_hash : string → string).
#[local] Notation KafkaSpec := (KafkaSpec Time ByteSize Ratio F64).
Implicit Types (s : KafkaSpec).

(** The segments after [spec.config]. *)
Definition hash_segments s (ca pin filter : option string) : list string :=
  [canonical_listener_intent (k_listeners s) (k_inter_broker_listener_name s);
   if opt_is_some (k_metrics_config s) then "metrics=on" else "";
   default "" ca; default "" pin; default "" filter;
   from_option (render_runtime_toml toml_string human_time human_size human_ratio) "" (k_broker_tuning s)].

Definition hash_text s (ca pin filter : option string) : string :=
  let segments := hash_segments s ca pin filter in
  if forallb is_empty segments then config_part (k_config s)
  else config_part (k_config s) +:+ concat_str (map (λ x, US +:+ x) segments).

Definition combined_config_hash s (ca pin filter : option string) : string :=
  config_hash (hash_text s ca pin filter).

Definition rollout_config_hash (base_hash leaf_material : string) : string :=
  config_hash (base_hash +:+ RS +:+ leaf_material).
End hash.

(** ** What the text determines *)
Section text.
Context {Time ByteSize Ratio F64 : Type}.
Context (toml_string : string → string) (human_time : Time → string) (human_size : ByteSize → string)
  (human_ratio : Ratio → string).
#[local] Notation KafkaSpec := (KafkaSpec Time ByteSize Ratio F64).
#[local] Notation segments := (hash_segments toml_string human_time human_size human_ratio).
#[local] Notation text := (hash_text toml_string human_time human_size human_ratio).
Implicit Types (s : KafkaSpec).

(** No part of the text has the separator. *)
Definition no_separator s ca pin filter : Prop :=
  Forall (λ x, free_of (ascii_of_nat 31) x = true) (config_part (k_config s) :: segments s ca pin filter).

Lemma text_parts s ca pin filter :
  no_separator s ca pin filter →
  split_char (ascii_of_nat 31) (text s ca pin filter) =
    config_part (k_config s) ::
    (if forallb is_empty (segments s ca pin filter) then [] else segments s ca pin filter).
Proof.
  intros [Hc Hs]%Forall_cons. unfold hash_text. destruct (forallb _ _).
  - rewrite <- (str_app_nil_r (config_part _)) at 1.
    apply (split_segments _ _ []); [done|set_solver].
  - apply split_segments; [done|]. by apply Forall_forall.
Qed.

Lemma all_empty l : forallb is_empty l = true → l = replicate (length l) "".
Proof.
  induction l as [|x l IH]; cbn; [done|]. intros [Hx Hl]%andb_true_iff. destruct x; [|done].
  by rewrite <- IH.
Qed.
End text.

(** A roll starts whenever a hashed part of the configuration changes.  As long as
    no part contains the separator, the hashed text determines the lines of
    [spec.config], the intent of the listeners, the metrics bit, the CA's trust, the
    metadata pin, the log filter and the [runtime] table: two specs with the same text
    agree on all of them, also when one of the texts is the short form without
    segments. *)
Theorem hash_text_determines {Time ByteSize Ratio F64} toml_string human_time human_size human_ratio
    (s1 s2 : KafkaSpec Time ByteSize Ratio F64) ca1 ca2 pin1 pin2 filter1 filter2 :
  no_separator toml_string human_time human_size human_ratio s1 ca1 pin1 filter1 →
  no_separator toml_string human_time human_size human_ratio s2 ca2 pin2 filter2 →
  hash_text toml_string human_time human_size human_ratio s1 ca1 pin1 filter1 =
    hash_text toml_string human_time human_size human_ratio s2 ca2 pin2 filter2 →
  config_part (k_config s1) = config_part (k_config s2) ∧
  hash_segments toml_string human_time human_size human_ratio s1 ca1 pin1 filter1 =
    hash_segments toml_string human_time human_size human_ratio s2 ca2 pin2 filter2.
Proof.
  intros H1%text_parts H2%text_parts Ht. rewrite Ht, H2 in H1.
  pose proof (f_equal head H1) as Hc. pose proof (f_equal tail H1) as Hs. cbn [head tail] in Hc, Hs.
  split; [congruence|].
  destruct (forallb is_empty (hash_segments _ _ _ _ s1 _ _ _)) eqn:E1;
    destruct (forallb is_empty (hash_segments _ _ _ _ s2 _ _ _)) eqn:E2; try done.
  apply all_empty in E1, E2. by rewrite E1, E2.
Qed.

Lemma hash_text_determines_witness :
  config_part (k_config FileDemo.spec) = config_part (k_config FileDemo.spec) ∧
  hash_segments quoted FileDemo.millis FileDemo.millis FileDemo.millis FileDemo.spec None (Some "4.0") None =
  hash_segments quoted FileDemo.millis FileDemo.millis FileDemo.millis FileDemo.spec (Some "") (Some "4.0") (Some "").
Proof.
  apply (hash_text_determines quoted FileDemo.millis FileDemo.millis FileDemo.millis).
  - unfold no_separator. repeat constructor; vm_compute; reflexivity.
  - unfold no_separator. repeat constructor; vm_compute; reflexivity.
  - vm_compute. reflexivity.
Defined.

(** ** What the hash leaves out

    A listener that changes from SCRAM-SHA-512 to SCRAM-SHA-256, and a super user that
    is taken away: the files of the brokers change, the hash does not, so no broker is
    restarted for it. *)
Definition demo_file (s : KafkaSpec Z Z Z Z) : option string :=
  let k := {| k_meta := k_meta FileDemo.kafka; k_spec := s; k_status := None |} in
  node_file FileDemo.millis FileDemo.millis FileDemo.wire toml_string_array quoted FileDemo.millis k
    (node_input k (k_listeners s) None FileDemo.addresses FileDemo.roles "TLS" None None 0
       {["TLS" := FileDemo.host]}).

Definition with_security (ls : list (Listener Z)) (a : option Authorization) : KafkaSpec Z Z Z Z :=
  {| k_version := "4.0.0"; k_metadata_version := None; k_config := None;
     k_listeners := ls; k_inter_broker_listener_name := None; k_metrics_config := None;
     k_network_policy := false; k_cluster_ca := None; k_clients_ca := None; k_logging := None;
     k_delegation_token := None; k_authorization := a;
     k_tiered_storage := None; k_inter_broker_kerberos := None; k_krb5_conf_secret_ref := None;
     k_tracing := None; k_broker_tuning := None |}.

Definition scram_listener (a : ListenerAuthentication Z) : Listener Z :=
  {| l_name := "TLS"; l_port := 9094; l_type := Internal; l_tls := true;
     l_authentication := Some a; l_configuration := None; l_network_policy_peers := None |}.

Lemma security_not_hashed :
  let s512 := with_security [scram_listener AuthScramSha512] (Some (Simple ["User:eve"])) in
  let s256 := with_security [scram_listener AuthScramSha256] (Some (Simple ["User:eve"])) in
  let no_eve := with_security [scram_listener AuthScramSha512] (Some (Simple [])) in
  demo_file s512 ≠ demo_file s256 ∧ demo_file s512 ≠ demo_file no_eve ∧
  ∀ config_hash ca pin filter,
    let h s := combined_config_hash quoted FileDemo.millis FileDemo.millis FileDemo.millis config_hash
                 s ca pin filter in
    h s512 = h s256 ∧ h s512 = h no_eve.
Proof. split_and!; [vm_compute; discriminate|vm_compute; discriminate|]. intros. split; reflexivity. Qed.
