(* ===== verification/KafkaPass.v ===== *)
(** * The Kafka pass (src/controller/kafka.rs)

    [reconcile_inner] of the Kafka controller: Services, the cluster id, the checks of
    the spec, the metadata version, the logging filter, the topology, both CAs with the
    operator's and the users' certificates, the listeners with their keystore, objects,
    ConfigMap and pool hashes, and the status.  Its calls are those of its parts. *)

From S2P Require Import Prelude RustStd Effects Kube Workload Version Toml Tuning CaBundle ClusterCa.
From S2P Require Import BrokerKeystore UserTls Listeners ListenerCheck NodePool ListenerObjects.
From S2P Require Import Quorum Advertised NetworkPolicy KafkaSpec ListenerSecrets Logging Metrics.
From S2P Require Import BrokerToml Rollout ConfigHash.
Local Open Scope Z_scope.

(** ** Third-party functions of the pass *)
Class Libraries (Time ByteSize Ratio F64 IpAddr : Type) : Type := {
  lib_millis_i64 : Time → Z;
  lib_time_eqb : Time → Time → bool;
  lib_time_finite : Time → bool;
  lib_refined_error : Z → Z → string;
  lib_empty_error : string;
  lib_snapshot_fetch_max : ByteSize → result unit string;
  lib_decompression_policy : Ratio → ByteSize → ByteSize → result unit string;
  lib_default_ratio : Ratio;
  lib_default_floor : ByteSize;
  lib_default_ceiling : ByteSize;
  lib_rlmm_validate : TopicMetadataManagerSpec Time ByteSize → result unit string;
  lib_refined_usize_error : Z → string;
  lib_in_unit : F64 → bool;
  lib_display_f64 : F64 → string;
  lib_representable : Time → bool;
  lib_rule_parses : string → bool;
  lib_toml_string : string → string;
  lib_json_strings : list string → string;
  lib_human_time : Time → string;
  lib_human_size : ByteSize → string;
  lib_human_ratio : Ratio → string;
  lib_wire_name : SaslMechanism → string;
  lib_sha256_hex : string → string;
  lib_ip_str : IpAddr → string;
  lib_parse_ip : string → option IpAddr;
  lib_localhost : IpAddr;
  lib_san_leb : SubjectAltName IpAddr → SubjectAltName IpAddr → bool;
  lib_map_order : gmap string Node → list Node;
}.

Definition ANN_FORCE_RENEW : string := "krabka.io/force-renew-ca".
Definition ANN_FORCE_REPLACE_KEY : string := "krabka.io/force-replace-ca-key".
Definition ANN_FORCE_REPLACE_CLIENTS_KEY : string := "krabka.io/force-replace-clients-ca-key".

Definition cm_name (kafka : string) : string := kafka +:+ "-broker-config".

(** ** The node inventory *)
Record NodeInventory : Type := {
  inv_all : list NodeInfo;
  inv_brokers : list NodeInfo;
  inv_roles : gmap Z (list NodeRole);
  inv_broker_ids : list Z;
}.

Definition inventory_nodes (cluster_name namespace : string) (pools : list KafkaNodePool)
  : NodeInventory :=
  let all := enumerate_nodes cluster_name namespace pools in
  let brokers := List.filter is_broker all in
  {| inv_all := all;
     inv_brokers := brokers;
     inv_roles := fold_left (λ m n, <[NodePool.broker_id n := ni_roles n]> m) all ∅;
     inv_broker_ids := map NodePool.broker_id brokers |}.

Definition controller_tls (id : Z) : BrokerTlsRender :=
  {| controller_listener_protocol := "Ssl";
     cert_path := "/etc/krabka/broker-tls/" +:+ display_Z id +:+ ".crt";
     key_path := "/etc/krabka/broker-tls/" +:+ display_Z id +:+ ".key";
     client_ca_path := "/etc/krabka/cluster-ca/ca.crt";
     client_auth := "Required";
     trust_roots_path := "/etc/krabka/cluster-ca/ca.crt" |}.

Definition controller_tls_per_node (nodes : list NodeInfo) : gmap Z BrokerTlsRender :=
  fold_left (λ m n, <[NodePool.broker_id n := controller_tls (NodePool.broker_id n)]> m) nodes ∅.

(** A user of the cluster: its metadata, with the TLS settings if it is a TLS user. *)
Definition exclude_reserved_operator_user (users : list (object_meta * option TlsAuth))
    (cluster : string) : list (object_meta * option TlsAuth) :=
  let reserved := operator_secret_name cluster in
  let legacy := cluster +:+ "-operator-admin" in
  List.filter (λ '(user, _),
    let name := name_any user in
    negb (str_eqb name reserved) && negb (str_eqb name legacy)
    && negb (ends_with "-operator-identity" name)) users.

Section pass.
Context {Time ByteSize Ratio F64 Uuid IpAddr : Type}.
Context `{TimeOps Time} `{SizeOps ByteSize} `{RatioOps Ratio} `{X509} `{UserX509}.
Context `{MetadataVersions} `{UuidOps Uuid} `{EqDecision IpAddr}.
Context `{Libraries Time ByteSize Ratio F64 IpAddr}.
#[local] Notation Kafka := (Kafka Time ByteSize Ratio F64).
#[local] Notation Listener := (Listener Time).
#[local] Notation action := (action Time).
Implicit Types (k : Kafka) (ls : list Listener).

(** ** Calls *)
Inductive kafka_call : Type :=
  | OnTls (c : tls_call)
  | OnKeystore (c : keystore_call (IpAddr := IpAddr))
  | OnExt (c : ext_call)
  | OnAdopt (c : adopt_call)
  | OnVersion (c : mv_call)
  | OnLogging (c : logging_call)
  | OnMetrics (c : metrics_call)
  | OnPolicy (c : policy_call)
  | OnQuorum (c : quorum_call)
  | GetKafkaStatus (name : string)
  | PatchKafkaStatus (name : string) (s : KafkaStatus)
  | ApplyConfigMap (name : string) (cm : ConfigMap)
  | ListPools (cluster : string)
  | ListStatefulSets (cluster : string)
  | ListTopologyPods (cluster : string)
  | ListUsers (cluster : string)
  | StripAnnotations (name : string) (keys : list string)
  | EmitWarning (reason message : string).

Definition kafka_resp (c : kafka_call) : Type :=
  match c with
  | OnTls c => tls_resp c
  | OnKeystore c => keystore_resp c
  | OnExt c => ext_resp c
  | OnAdopt c => adopt_resp c
  | OnVersion c => mv_resp c
  | OnLogging c => logging_resp c
  | OnMetrics c => metrics_resp c
  | OnPolicy c => policy_resp c
  | OnQuorum c => quorum_resp (Uuid := Uuid) c
  | GetKafkaStatus _ => result (option KafkaStatus) kube_error
  | PatchKafkaStatus _ _ | ApplyConfigMap _ _ | StripAnnotations _ _ | EmitWarning _ _ =>
      result unit kube_error
  | ListPools _ => result (list KafkaNodePool) kube_error
  | ListStatefulSets _ => result (list StatefulSet) kube_error
  | ListTopologyPods _ => result (list Pod) kube_error
  | ListUsers _ => result (list (object_meta * option TlsAuth)) kube_error
  end.

#[local] Notation kprog := (prog kafka_resp).
#[local] Notation pass R := (kprog (result R (option ReconcileError))).
#[local] Notation call := (perform (resp := kafka_resp)).

Definition kube {A} (p : kprog (result A kube_error)) : pass A :=
  r ← p; Ret (map_err (λ e, Some (Kube e)) r).
Definition plain {A} (p : kprog (result A ReconcileError)) : pass A :=
  r ← p; Ret (map_err Some r).

(** The parts of the pass, with their calls. *)
Definition on_tls {R} (p : prog tls_resp R) : kprog R := lift OnTls (λ _ x, x) p.
Definition on_ca {R} (p : prog ca_resp R) : kprog R := lift (λ c, OnTls (OnCa c)) (λ _ x, x) p.
Definition on_keystore {R} (p : prog keystore_resp R) : kprog R := lift OnKeystore (λ _ x, x) p.
Definition on_ext {R} (p : prog ext_resp R) : kprog R := lift OnExt (λ _ x, x) p.
Definition on_adopt {R} (p : prog adopt_resp R) : kprog R := lift OnAdopt (λ _ x, x) p.
Definition on_version {R} (p : prog mv_resp R) : kprog R := lift OnVersion (λ _ x, x) p.
Definition on_logging {R} (p : prog logging_resp R) : kprog R := lift OnLogging (λ _ x, x) p.
Definition on_metrics {R} (p : prog metrics_resp R) : kprog R := lift OnMetrics (λ _ x, x) p.
Definition on_policy {R} (p : prog policy_resp R) : kprog R := lift OnPolicy (λ _ x, x) p.
Definition on_quorum {R} (p : prog (quorum_resp (Uuid := Uuid)) R) : kprog R := lift OnQuorum (λ _ x, x) p.

(** The settings of the operator that the pass reads, and the time of its conditions. *)
Record kafka_config : Type := {
  kcf_dependency_requeue : Time;
  kcf_drift_requeue : Time;
  kcf_operator_namespace : string;
}.
Context (cfg : kafka_config) (ts : string).
Let cond := condition ts.

(** A phase gives what the next ones need, or ends the pass. *)
Inductive phase (A : Type) : Type :=
  | Ready (a : A)
  | Done (act : action).
Arguments Ready {A} _.
Arguments Done {A} _.

(** The first 8 bytes of the digest, in hex. *)
Definition config_hash (content : string) : string := String.substring 0 16 (lib_sha256_hex content).

(** ** The status *)
Definition with_conditions (s : KafkaStatus) (conditions : list KafkaCondition) : KafkaStatus :=
  {| kst_conditions := conditions;
     kst_replicas := kst_replicas s;
     kst_ready_replicas := kst_ready_replicas s;
     kst_listeners := kst_listeners s;
     kst_cluster_ca := kst_cluster_ca s;
     kst_clients_ca := kst_clients_ca s;
     kst_kafka_version := kst_kafka_version s;
     kst_target_metadata_version := kst_target_metadata_version s;
     kst_metadata_version := kst_metadata_version s |}.

Definition replace_condition (cs : list KafkaCondition) (c : KafkaCondition) : list KafkaCondition :=
  List.filter (λ c', negb (str_eqb (type_ c') (type_ c))) cs ++ [c].

Definition patch_status_with_condition (name : string) (new_cond : KafkaCondition) : pass unit :=
  current ←? kube (call (GetKafkaStatus name));
  let current := default KafkaStatus_default current in
  kube (call (PatchKafkaStatus name
    (with_conditions current (replace_condition (kst_conditions current) new_cond)))).

(** ** The spec's own checks *)
Definition check_tuning (t : gmap string (tuning_value Time ByteSize Ratio)) : result unit string :=
  validate_tuning lib_millis_i64 lib_time_eqb lib_time_finite lib_refined_error lib_empty_error
    lib_snapshot_fetch_max lib_decompression_policy lib_default_ratio lib_default_floor
    lib_default_ceiling t.

(** The condition of a checked part, and the error that ends the pass after it. *)
Definition checked_part (name type_ invalid ok_message prefix : string)
    (to_error : string → ReconcileError) (r : result unit string) : pass unit :=
  match r with
  | Ok _ => patch_status_with_condition name (cond type_ "True" "Validated" ok_message)
  | Err why =>
      _ ←? patch_status_with_condition name (cond type_ "False" invalid (prefix +:+ why));
      Ret (Err (Some (to_error why)))
  end.

Definition validate_kafka_runtime k (name : string) : pass unit :=
  _ ←? match k_broker_tuning (k_spec k) with
       | Some tuning =>
           match check_tuning tuning with
           | Ok _ => Ret (Ok tt)
           | Err why =>
               _ ←? patch_status_with_condition name
                      (cond "KafkaConfigValid" "False" "KafkaConfigInvalid" why);
               Ret (Err (Some (KafkaConfigInvalid why)))
           end
       | None => Ret (Ok tt)
       end;
  _ ←? match k_tiered_storage (k_spec k) with
       | Some t =>
           checked_part name "TieredStorageReady" "TieredStorageInvalid"
             "tieredStorage spec is well-formed" "tieredStorage: " TieredStorageInvalid
             (validate_tiered_storage lib_rlmm_validate lib_refined_usize_error t)
       | None => Ret (Ok tt)
       end;
  match k_tracing (k_spec k) with
  | Some t =>
      checked_part name "TracingReady" "TracingInvalid"
        "tracing spec is well-formed" "tracing: " TracingInvalid
        (validate_tracing lib_in_unit lib_display_f64 lib_representable t)
  | None => Ret (Ok tt)
  end.

(** ** The CAs *)
Record CaArtifacts : Type := {
  art_cluster : CaReconcileOutcome;
  art_clients : CaReconcileOutcome;
  art_cluster_condition : KafkaCondition;
  art_clients_condition : KafkaCondition;
  art_rotation_condition : KafkaCondition;
  art_config_hash : string;
}.

Definition byo_message (w : WhichCa) : string :=
  "spec." +:+ (match w with Cluster => "clusterCa" | Clients => "clientsCa" end)
  +:+ ".generateCertificateAuthority=false but the CA Secret pair is absent".

Definition reconcile_one_ca k (name : string) (w : WhichCa) (force_renew force_replace_key : bool)
    (rollout_converged : bool) (now : Z) : pass (phase CaReconcileOutcome) :=
  r ← on_ca (reconcile_ca (kafka_cas k) w force_renew force_replace_key rollout_converged now);
  match r with
  | Ok o => Ret (Ok (Ready o))
  | Err (Some (ByoCaMissing which)) =>
      _ ←? patch_status_with_condition name (cond which "False" "ByoCaMissing" (byo_message w));
      Ret (Ok (Done (Requeue (kcf_drift_requeue cfg))))
  | Err e => Ret (Err e)
  end.

Definition syncs_users (clients : CaReconcileOutcome) : bool :=
  requires_reissue (leaf_transition clients) || pruned_old_trust (leaf_transition clients)
  || (0 <? oc_cert_generation clients) || (0 <? oc_key_generation clients).

Definition sync_tls_user_secrets (name : string) (clients : CaReconcileOutcome) : pass unit :=
  if syncs_users clients then
    users ←? kube (call (ListUsers name));
    _ ←? on_tls (reissue_tls_user_cert_secrets (exclude_reserved_operator_user users name)
                   (signing_material clients) (trust_bundle_pem clients) 0);
    if requires_reissue (leaf_transition clients)
    then plain (on_ca (mark_leafs_reissued name (oc_key_generation clients)))
    else Ret (Ok tt)
  else Ret (Ok tt).

Definition has_annotation k (key : string) : bool := opt_is_some (annotation (k_meta k) key).

Definition strip_keys k : list string :=
  List.filter (has_annotation k)
    [ANN_FORCE_RENEW; ANN_FORCE_REPLACE_KEY; ANN_FORCE_REPLACE_CLIENTS_KEY; ANN_RENEW_AFTER].

(** Results of events are dropped. *)
Definition emit_if (b : bool) (reason message : string) : kprog unit :=
  if b then _ ← call (EmitWarning reason message); Ret tt else Ret tt.

Definition rotation_visible (o : CaReconcileOutcome) : bool :=
  rotation_in_progress o || opt_is_some (refused o)
  || negb (str_eqb (rotation_message o) "no rotation in progress").

Definition ca_rotation_condition (cluster clients : CaReconcileOutcome) : KafkaCondition :=
  let o := if negb (rotation_visible cluster) && rotation_visible clients then clients else cluster in
  cond "CaRotation" (if rotation_in_progress o then "True" else "False")
    (rotation_reason o) (rotation_message o).

(** What the hash says of the trust: the clients' CA only while its key is replaced. *)
Definition ca_trust (cluster clients : CaReconcileOutcome) : string :=
  let mark := RS +:+ "operator-admin-mtls-v1" in
  if bool_decide (oc_phase clients = Idle) then trust_bundle_pem cluster +:+ mark
  else trust_bundle_pem cluster +:+ RS +:+ trust_bundle_pem clients +:+ mark.

Definition reconcile_cas k (name : string) (rollout_converged : bool)
    (explicit_pin logging_filter : option string) : pass (phase CaArtifacts) :=
  let force_renew := has_annotation k ANN_FORCE_RENEW || has_annotation k ANN_RENEW_AFTER in
  now ← call (OnTls UserTls.NowUtc);
  cluster ←? reconcile_one_ca k name Cluster force_renew (has_annotation k ANN_FORCE_REPLACE_KEY)
               rollout_converged now;
  match cluster with
  | Done act => Ret (Ok (Done act))
  | Ready cluster =>
      clients ←? reconcile_one_ca k name Clients false
                   (has_annotation k ANN_FORCE_REPLACE_CLIENTS_KEY) rollout_converged now;
      match clients with
      | Done act => Ret (Ok (Done act))
      | Ready clients =>
          _ ←? on_tls (ensure_operator_cert_secret (kafka_cas k) (signing_material cluster)
                         (trust_bundle_pem cluster));
          _ ←? sync_tls_user_secrets name clients;
          _ ←? match strip_keys k with
               | [] => Ret (Ok tt)
               | keys => kube (call (StripAnnotations name keys))
               end;
          _ ← emit_if (opt_is_some (refused cluster)) "CaRotationRefused" (rotation_message cluster);
          _ ← emit_if (opt_is_some (refused clients)) "CaRotationRefused" (rotation_message clients);
          Ret (Ok (Ready
            {| art_cluster := cluster;
               art_clients := clients;
               art_cluster_condition := cond "ClusterCaReady" "True" "CaReady"
                 "cluster CA Secret pair present and parseable";
               art_clients_condition := cond "ClientsCaReady" "True" "CaReady"
                 "clients CA Secret pair present and parseable";
               art_rotation_condition := ca_rotation_condition cluster clients;
               art_config_hash :=
                 combined_config_hash lib_toml_string lib_human_time lib_human_size lib_human_ratio
                   config_hash (k_spec k) (Some (ca_trust cluster clients)) explicit_pin
                   logging_filter |}))
      end
  end.

(** ** What the listeners need *)
Definition ready_false (name reason message : string) : pass (option action) :=
  _ ←? patch_status_with_condition name (cond "Ready" "False" reason message);
  Ret (Ok (Some (Requeue (kcf_dependency_requeue cfg)))).

(** A check whose own errors are reported and retried later; other errors end the pass. *)
Definition reported {A} (name : string) (reports : ReconcileError → bool)
    (p : prog ca_resp (result A ReconcileError)) : pass (option action) :=
  r ← on_ca p;
  match r with
  | Ok _ => Ret (Ok None)
  | Err e =>
      if reports e then
        match secret_error e with
        | Some (reason, message) => ready_false name reason message
        | None => Ret (Err None)        (* unreachable! *)
        end
      else Ret (Err (Some e))
  end.

Definition trust_error (e : ReconcileError) : bool :=
  match e with
  | MissingOauthTrustSecret _ | MissingOauthTrustKey _ _ | EmptyOauthTrustValue _ _ => true
  | _ => false
  end.
Definition introspection_error (e : ReconcileError) : bool :=
  match e with
  | InvalidListenerOauthAccessTokenIsJwt _ | MissingOauthIntrospectionSecret _
  | MissingOauthIntrospectionKey _ _ | EmptyOauthIntrospectionValue _ _ => true
  | _ => false
  end.
Definition kerberos_error (e : ReconcileError) : bool :=
  match e with
  | MissingGssapiKeytabSecret _ | MissingGssapiKeytabKey _ _
  | MissingKrb5ConfSecret _ | MissingKrb5ConfKey _ _ => true
  | _ => false
  end.

Definition validate_listener_dependencies k (name : string) ls (inter_broker_name : string)
  : pass (option action) :=
  let canonical := canonical_oauth_config ls in
  a ←? reported name trust_error (reconcile_oauth_jwks_trust k canonical);
  match a with
  | Some act => Ret (Ok (Some act))
  | None =>
      a ←? reported name introspection_error (reconcile_oauth_introspection_secret canonical);
      match a with
      | Some act => Ret (Ok (Some act))
      | None =>
          a ←? reported name kerberos_error (gssapi_secret_check k);
          match a with
          | Some act => Ret (Ok (Some act))
          | None =>
              match validate_inter_broker_gssapi ls inter_broker_name
                      (opt_is_some (k_inter_broker_kerberos (k_spec k))) with
              | Ok _ => Ret (Ok None)
              | Err e =>
                  _ ←? patch_status_with_condition name
                         (cond "ListenersValid" "False" (validation_reason e) (validation_message e));
                  Ret (Ok (Some (Requeue (kcf_dependency_requeue cfg))))
              end
          end
      end
  end.

(** ** The listeners *)
Record ListenerPhaseInput : Type := {
  lp_obj : Kafka;
  lp_namespace : string;
  lp_name : string;
  lp_listeners : list Listener;
  lp_operator_listener_name : string;
  lp_inter_broker_name : string;
  lp_logging_filter : option string;
  lp_pools : list KafkaNodePool;
  lp_config_hash : string;
  lp_cluster_ca : CaReconcileOutcome;
}.

Record ListenerArtifacts : Type := {
  la_status : list ListenerStatus;
  la_valid_condition : KafkaCondition;
  la_ready_condition : KafkaCondition;
  la_load_balancer_pending : list (Z * string);
}.

Record ListenerTlsArtifacts : Type := {
  lt_inventory : NodeInventory;
  lt_per_node : gmap Z BrokerTlsRender;
  lt_clients_ca_path : option string;
  lt_load_balancer_pending : list (Z * string);
  lt_leaf_material : string;
}.

Definition node_requests (i : ListenerPhaseInput) (inventory : NodeInventory)
    (extra_sans : gmap Z (list (SubjectAltName IpAddr))) : list (BrokerCertRequest IpAddr) :=
  map (λ node, cert_request lib_localhost (lp_name i) (lp_namespace i) node
                 (default [] (extra_sans !! NodePool.broker_id node))) (inv_all inventory).

Definition prepare_listener_tls (i : ListenerPhaseInput) : pass ListenerTlsArtifacts :=
  let inventory := inventory_nodes (lp_name i) (lp_namespace i) (lp_pools i) in
  observed ←? on_ext (observe_listener_addresses lib_parse_ip (lp_name i) (lp_listeners i)
                        (inv_broker_ids inventory));
  let '(extra_sans, pending) :=
    extra_sans_of lib_san_leb (lp_listeners i) observed (inv_brokers inventory) ∅ [] in
  keystore ←? plain (on_keystore (ensure_broker_keystore lib_ip_str lib_san_leb lib_sha256_hex
                (kafka_cas (lp_obj i)) (signing_material (lp_cluster_ca i))
                (requires_reissue (leaf_transition (lp_cluster_ca i)))
                (node_requests i inventory extra_sans)));
  Ret (Ok
    {| lt_inventory := inventory;
       lt_per_node := controller_tls_per_node (inv_all inventory);
       lt_clients_ca_path :=
         if existsb (λ l, match l_authentication l with Some AuthTls => true | _ => false end)
              (lp_listeners i)
         then Some "/etc/krabka/clients-ca/ca.crt" else None;
       lt_load_balancer_pending := pending;
       lt_leaf_material := leaf_material keystore |}).

Definition no_external_state : ExternalState :=
  {| ext_nodes := ∅; ext_node_order := []; ext_pods := ∅; ext_bootstrap_services := ∅;
     ext_broker_services := ∅ |}.

Definition load_external_listener_state (i : ListenerPhaseInput) (inventory : NodeInventory)
  : pass ExternalState :=
  if existsb (λ l, negb (is_internal l)) (lp_listeners i) then
    _ ←? on_ext (apply_external_services (k_meta (lp_obj i)) (lp_name i) (lp_listeners i)
                   (inv_brokers inventory));
    on_ext (read_external_state lib_map_order (lp_name i) (lp_listeners i) (inv_brokers inventory))
  else Ret (Ok no_external_state).

Definition broker_addresses (ids : list Z) (addresses : gmap Z (gmap string AdvertisedAddress))
  : gmap Z (gmap string AdvertisedAddress) :=
  filter (λ p, p.1 ∈ ids) addresses.

Definition render_config (i : ListenerPhaseInput) (tls : ListenerTlsArtifacts)
    (addresses : gmap Z (gmap string AdvertisedAddress)) : option (result ConfigMap ReconcileError) :=
  render_configmap lib_human_time lib_human_size lib_wire_name lib_json_strings lib_toml_string
    lib_human_ratio (lp_obj i) (lp_listeners i) (Some (lp_operator_listener_name i)) addresses
    (inv_roles (lt_inventory tls)) (lp_inter_broker_name i) (Some (lt_per_node tls))
    (lt_clients_ca_path tls) (lp_logging_filter i).

(** The ConfigMap and the listeners' status, once every address is known. *)
Definition apply_config (i : ListenerPhaseInput) (tls : ListenerTlsArtifacts) (st : ExternalState)
    (addresses : gmap Z (gmap string AdvertisedAddress))
  : pass (list ListenerStatus * KafkaCondition) :=
  match render_config i tls addresses with
  | None => Ret (Err None)
  | Some (Err e) => Ret (Err (Some e))
  | Some (Ok cm) =>
      _ ←? kube (call (ApplyConfigMap (cm_name (lp_name i)) cm));
      Ret (Ok (build_listener_status (lp_listeners i)
                 (broker_addresses (inv_broker_ids (lt_inventory tls)) addresses) st
                 (lp_name i) (lp_namespace i),
               cond "ListenersReady" "True" "Ready"
                 (display_Z (Z.of_nat (length (lp_listeners i))) +:+ " listener(s) ready")))
  end.

Definition reconcile_valid_listener_resources (i : ListenerPhaseInput) : pass ListenerArtifacts :=
  tls ←? prepare_listener_tls i;
  let rollout_hash := rollout_config_hash config_hash (lp_config_hash i) (lt_leaf_material tls) in
  st ←? load_external_listener_state i (lt_inventory tls);
  status_ready ←?
    match resolve_addresses_per_broker (lp_listeners i) (lp_inter_broker_name i)
            (lp_operator_listener_name i) (inv_all (lt_inventory tls)) st ∅ with
    | Err err => Ret (Ok ([], cond "ListenersReady" "False" "PendingExternalAddresses"
                                (advertised_message err)))
    | Ok addresses => apply_config i tls st addresses
    end;
  _ ←? plain (on_adopt (adopt_pools (k_meta (lp_obj i)) (lp_pools i) rollout_hash));
  Ret (Ok {| la_status := status_ready.1;
             la_valid_condition := cond "ListenersValid" "True" "Valid" "listeners validated";
             la_ready_condition := status_ready.2;
             la_load_balancer_pending := lt_load_balancer_pending tls |}).

Definition reconcile_listener_resources (i : ListenerPhaseInput)
    (validation : result unit ValidationError) : pass (phase ListenerArtifacts) :=
  match validation with
  | Err e =>
      _ ←? plain (on_adopt (adopt_pools (k_meta (lp_obj i)) (lp_pools i) (lp_config_hash i)));
      Ret (Ok (Ready
        {| la_status := [];
           la_valid_condition :=
             cond "ListenersValid" "False" (validation_reason e) (validation_message e);
           la_ready_condition :=
             cond "ListenersReady" "False" "ListenersInvalid" (validation_message e);
           la_load_balancer_pending := [] |}))
  | Ok _ =>
      a ←? validate_listener_dependencies (lp_obj i) (lp_name i) (lp_listeners i)
             (lp_inter_broker_name i);
      match a with
      | Some act => Ret (Ok (Done act))
      | None =>
          artifacts ←? reconcile_valid_listener_resources i;
          Ret (Ok (Ready artifacts))
      end
  end.

(** ** The final status *)
Record FinalizeKafkaInput : Type := {
  fi_obj : Kafka;
  fi_namespace : string;
  fi_name : string;
  fi_listeners : list Listener;
  fi_inter_broker_name : string;
  fi_pools : list KafkaNodePool;
  fi_listener_artifacts : ListenerArtifacts;
  fi_cas : CaArtifacts;
  fi_version_condition : KafkaCondition;
  fi_logging_condition : KafkaCondition;
  fi_target_metadata : option string;
  fi_resolved_metadata : option string;
  fi_finalize_failed : bool;
  fi_finalized_metadata : option string;
}.

Definition policy_condition (o : option (result unit ReconcileError)) : KafkaCondition :=
  match o with
  | None => cond "NetworkPolicyReady" "False" "Disabled" "spec.networkPolicy is not set"
  | Some (Ok _) => cond "NetworkPolicyReady" "True" "Available" "network policy reconciled"
  | Some (Err _) => cond "NetworkPolicyReady" "False" "Error" "network policy reconcile failed"
  end.

Definition upgrade_condition (kafka_version : string) (target resolved : option string)
    (finalize_failed : bool) : KafkaCondition :=
  match target with
  | Some target =>
      if bool_decide (resolved = Some target) then
        cond "KafkaVersionUpgrade" "True" "Finalized"
          ("all pools run " +:+ kafka_version +:+ " and metadata.version " +:+ target +:+ " is finalized")
      else if finalize_failed then
        cond "KafkaVersionUpgrade" "False" "AwaitingFinalize"
          ("all pools run " +:+ kafka_version +:+ ", but metadata.version " +:+ target
           +:+ " is not finalized")
      else
        cond "KafkaVersionUpgrade" "False" "RollingImages"
          ("waiting for every pool to run " +:+ kafka_version +:+ " before finalizing metadata.version "
           +:+ target)
  | None =>
      cond "KafkaVersionUpgrade" "False" "InvalidTarget"
        "the requested Kafka or metadata version is invalid"
  end.

Definition load_balancer_conditions ls (pending : list (Z * string)) : list KafkaCondition :=
  if existsb (λ l, bool_decide (l_type l = Loadbalancer) && l_tls l) ls then
    match pending with
    | [] => [cond "WaitingForLoadBalancerIp" "False" "LoadBalancerReady"
               "all broker LB ingress addresses assigned"]
    | _ =>
        let detail := map (λ '(id, l), "broker " +:+ display_Z id +:+ " listener '" +:+ l +:+ "'") pending in
        [cond "WaitingForLoadBalancerIp" "True" "LoadBalancerPending"
           ("LB ingress not ready for: " +:+ join ", " detail)]
    end
  else [].

Definition truth (b : bool) : string := if b then "True" else "False".

Definition final_conditions (i : FinalizeKafkaInput) (metrics policy : KafkaCondition)
  : list KafkaCondition :=
  let rollup := aggregate_pool_status (fi_pools i) in
  let '(ready, reason, message) := rollup_condition rollup in
  let '(rolling, rolling_reason, rolling_message) := rolling_condition_from_rollup rollup in
  [cond "Ready" (truth ready) reason message;
   cond "Rolling" (truth rolling) rolling_reason rolling_message;
   la_valid_condition (fi_listener_artifacts i);
   la_ready_condition (fi_listener_artifacts i);
   metrics; policy;
   art_cluster_condition (fi_cas i);
   art_clients_condition (fi_cas i);
   art_rotation_condition (fi_cas i);
   fi_version_condition i;
   upgrade_condition (k_version (k_spec (fi_obj i))) (fi_target_metadata i) (fi_resolved_metadata i)
     (fi_finalize_failed i);
   fi_logging_condition i]
  ++ load_balancer_conditions (fi_listeners i) (la_load_balancer_pending (fi_listener_artifacts i)).

Definition ca_status (o : CaReconcileOutcome) : CertificateAuthorityStatus :=
  {| cas_not_after := oc_not_after o;
     cas_generated := generated o;
     cas_cert_generation := oc_cert_generation o;
     cas_key_generation := oc_key_generation o;
     cas_rotation_phase := Some (as_str (oc_phase o));
     cas_trust_anchors := Some (Z.of_nat (trust_anchors o)) |}.

Definition final_status (i : FinalizeKafkaInput) (metrics policy : KafkaCondition) : KafkaStatus :=
  let rollup := aggregate_pool_status (fi_pools i) in
  {| kst_conditions := final_conditions i metrics policy;
     kst_replicas := Some (ru_replicas rollup);
     kst_ready_replicas := Some (ru_ready_replicas rollup);
     kst_listeners := la_status (fi_listener_artifacts i);
     kst_cluster_ca := Some (ca_status (art_cluster (fi_cas i)));
     kst_clients_ca := Some (ca_status (art_clients (fi_cas i)));
     kst_kafka_version := Some (k_version (k_spec (fi_obj i)));
     kst_target_metadata_version := fi_target_metadata i;
     kst_metadata_version := or_else (fi_resolved_metadata i) (fi_finalized_metadata i) |}.

Definition inter_broker_port ls (inter_broker_name : string) : Z :=
  from_option l_port BROKER_PORT (find_first (λ l, str_eqb (l_name l) inter_broker_name) ls).

(** The errors that only the condition reports. *)
Definition metrics_reported (e : ReconcileError) : bool :=
  match e with MetricsMutuallyExclusive | PrometheusOperatorCrdsMissing => true | _ => false end.

Definition finalize_kafka (i : FinalizeKafkaInput) : pass action :=
  let k := fi_obj i in
  metrics ← on_metrics (reconcile_metrics (k_meta k) (k_version (k_spec k))
                          (k_metrics_config (k_spec k)) (fi_name i));
  policy ← on_policy (reconcile_network_policy (k_meta k) (k_version (k_spec k))
             (k_listeners (k_spec k)) (from_option kst_conditions [] (k_status k))
             (k_network_policy (k_spec k)) (opt_is_some (k_metrics_config (k_spec k)))
             (kcf_operator_namespace cfg) (fi_name i) (fi_listeners i)
             (inter_broker_port (fi_listeners i) (fi_inter_broker_name i)));
  _ ←? kube (call (PatchKafkaStatus (fi_name i)
         (final_status i (metrics_ready_condition ts metrics) (policy_condition policy))));
  Ret (match metrics, policy with
       | Some (Err e), Some (Err e') =>
           Err (Some (if metrics_reported e then e' else e))
       | Some (Err e), _ =>
           if metrics_reported e then Ok (Requeue (kcf_dependency_requeue cfg)) else Err (Some e)
       | _, Some (Err e) => Err (Some e)
       | _, _ => Ok (Requeue (kcf_dependency_requeue cfg))
       end).

(** ** The pass *)
Definition apply_service (name : string) (s : result Service ReconcileError) : pass unit :=
  match s with
  | Err e => Ret (Err (Some e))
  | Ok s => kube (call (OnExt (ApplyService name s)))
  end.

Fixpoint warn_weak_auth (messages : list string) : kprog unit :=
  match messages with
  | [] => Ret tt
  | m :: messages => _ ← call (EmitWarning "WeakAuth" m); warn_weak_auth messages
  end.

(** The condition, the level to record, and whether finalizing failed. *)
Definition version_outcome (version_cond : KafkaCondition)
    (r : result (option string) KafkaCondition) : KafkaCondition * option string * bool :=
  match r with
  | Ok resolved => (version_cond, resolved, false)
  | Err c => (c, None, true)
  end.

Definition reconcile_inner k : pass action :=
  let ns := namespace_or_default (k_meta k) in
  let name := name_any (k_meta k) in
  let spec := k_spec k in
  _ ←? apply_service (svc_name name) (render_service (k_meta k) (k_version spec) (k_listeners spec));
  _ ←? apply_service (controller_bootstrap_name name)
         (render_controller_bootstrap_service (k_meta k) (k_version spec));
  let validation := validate_declared lib_rule_parses lib_time_eqb (k_listeners spec)
    (k_inter_broker_listener_name spec)
    (opt_is_some (k_authorization spec) || opt_is_some (k_delegation_token spec)) in
  let operator := operator_listener (declared_or_default (k_listeners spec)) in
  let ls := effective_listeners (k_listeners spec) in
  let inter_broker_name :=
    effective_inter_broker_listener_name (k_listeners spec) (k_inter_broker_listener_name spec) in
  _ ← warn_weak_auth (weak_auth_warnings ls);
  _ ←? plain (on_quorum (ensure_cluster_id_secret (k_meta k) (k_version spec)));
  _ ←? validate_kafka_runtime k name;
  pools ←? kube (call (ListPools name));
  statefulsets ←? kube (call (ListStatefulSets name));
  let finalized := and_then (k_status k) kst_metadata_version in
  let '(version_cond, target) :=
    evaluate_kafka_version ts (k_version spec) (k_metadata_version spec) finalized in
  updated ← on_version (reconcile_metadata_version ts ns name (l_port operator) target finalized
              (pools_rolled_to_version pools statefulsets (k_version spec)));
  let '(version_cond, resolved, finalize_failed) := version_outcome version_cond updated in
  let explicit_pin := match resolved with Some _ => k_metadata_version spec | None => None end in
  logging ←? plain (on_logging (resolve_logging (k_logging spec)));
  pods ←? kube (call (ListTopologyPods name));
  match validate_topology pools statefulsets pods with
  | Err e =>
      _ ←? patch_status_with_condition name
             (cond "NodePoolTopologyValid" "False" "InvalidNodePoolTopology" (pool_error_message e));
      Ret (Ok (Requeue (kcf_dependency_requeue cfg)))
  | Ok _ =>
      cas ←? reconcile_cas k name (pools_converged pools statefulsets) explicit_pin
               (logging_filter logging);
      match cas with
      | Done act => Ret (Ok act)
      | Ready cas =>
          listeners ←? reconcile_listener_resources
            {| lp_obj := k; lp_namespace := ns; lp_name := name; lp_listeners := ls;
               lp_operator_listener_name := l_name operator;
               lp_inter_broker_name := inter_broker_name;
               lp_logging_filter := logging_filter logging;
               lp_pools := pools;
               lp_config_hash := art_config_hash cas;
               lp_cluster_ca := art_cluster cas |} validation;
          match listeners with
          | Done act => Ret (Ok act)
          | Ready artifacts =>
              finalize_kafka
                {| fi_obj := k; fi_namespace := ns; fi_name := name; fi_listeners := ls;
                   fi_inter_broker_name := inter_broker_name; fi_pools := pools;
                   fi_listener_artifacts := artifacts; fi_cas := cas;
                   fi_version_condition := version_cond;
                   fi_logging_condition := logging_condition ts logging;
                   fi_target_metadata := target; fi_resolved_metadata := resolved;
                   fi_finalize_failed := finalize_failed;
                   fi_finalized_metadata := finalized |}
          end
      end
  end.
End pass.

Arguments phase Time A : clear implicits.
Arguments Ready {Time A} _.
Arguments Done {Time A} _.
