(* ===== verification/KafkaSafety.v ===== *)
(** * What the Kafka pass guarantees (src/controller/kafka.rs)

    Every stamp of a pool, every status and every marker that a pass writes, with what
    the log of the pass shows before it. *)

From S2P Require Import Prelude RustStd Effects Kube Workload Version Toml Tuning CaBundle ClusterCa.
From S2P Require Import BrokerKeystore UserTls Listeners ListenerCheck NodePool ListenerObjects.
From S2P Require Import Quorum Advertised NetworkPolicy KafkaSpec ListenerSecrets Logging Metrics.
From S2P Require Import BrokerToml Rollout ConfigHash KafkaPass.
Local Open Scope Z_scope.

Section safety.
Context {Time ByteSize Ratio F64 Uuid IpAddr : Type}.
Context `{TimeOps Time} `{SizeOps ByteSize} `{RatioOps Ratio} `{X509} `{UserX509}.
Context `{MetadataVersions} `{UuidOps Uuid} `{EqDecision IpAddr}.
Context `{Libraries Time ByteSize Ratio F64 IpAddr}.
Context (cfg : kafka_config (Time := Time)) (ts : string) (k : Kafka Time ByteSize Ratio F64).
#[local] Notation kresp := (kafka_resp (Uuid := Uuid) (IpAddr := IpAddr)).
#[local] Notation log := (list (event kresp)).
#[local] Notation kev := (ev (resp := kresp)).
Let name : string := name_any (k_meta k).
Let ns : string := namespace_or_default (k_meta k).
Let spec := k_spec k.
Let ls := effective_listeners (k_listeners spec).
Let operator := operator_listener (declared_or_default (k_listeners spec)).
Let finalized : option string := and_then (k_status k) kst_metadata_version.
Implicit Types (h : log).

(** The answers of the runs of the parts, by the calls they make. *)
#[local] Notation ca_ran p := (ran (resp2 := kresp) (λ c, OnTls (OnCa c)) (λ _ x, x) p).
#[local] Notation tls_ran p := (ran (resp2 := kresp) OnTls (λ _ x, x) p).
#[local] Notation keystore_ran p := (ran (resp2 := kresp) OnKeystore (λ _ x, x) p).
#[local] Notation ext_ran p := (ran (resp2 := kresp) OnExt (λ _ x, x) p).
#[local] Notation version_ran p := (ran (resp2 := kresp) OnVersion (λ _ x, x) p).
#[local] Notation logging_ran p := (ran (resp2 := kresp) OnLogging (λ _ x, x) p).
#[local] Notation metrics_ran p := (ran (resp2 := kresp) OnMetrics (λ _ x, x) p).
#[local] Notation policy_ran p := (ran (resp2 := kresp) OnPolicy (λ _ x, x) p).

(** ** What a pass has established *)

(** The spec's listeners, with what an authorizer adds. *)
Definition listeners_checked : result unit ValidationError :=
  validate_declared lib_rule_parses lib_time_eqb (k_listeners spec)
    (k_inter_broker_listener_name spec)
    (opt_is_some (k_authorization spec) || opt_is_some (k_delegation_token spec)).

(** Pools and StatefulSets as listed, with a valid topology. *)
Definition topology_checked h (pools : list KafkaNodePool) (statefulsets : list StatefulSet) : Prop :=
  ∃ pods, kev (ListPools name) (Ok pools) ∈ h ∧
    kev (ListStatefulSets name) (Ok statefulsets) ∈ h ∧
    kev (ListTopologyPods name) (Ok pods) ∈ h ∧
    validate_topology pools statefulsets pods = Ok tt.

(** A CA was reconciled, told whether a roll is in flight, and gave [o]. *)
Definition ca_reconciled h (w : WhichCa) (converged : bool) (o : CaReconcileOutcome) : Prop :=
  ∃ force_renew force_replace now,
    ca_ran (reconcile_ca (kafka_cas k) w force_renew force_replace converged now) h (Ok o).

(** The metadata version was brought forward as far as the pools allow. *)
Definition version_step (pools : list KafkaNodePool) (statefulsets : list StatefulSet)
  : prog mv_resp (result (option string) KafkaCondition) :=
  reconcile_metadata_version ts ns name (l_port operator)
    (evaluate_kafka_version ts (k_version spec) (k_metadata_version spec) finalized).2 finalized
    (pools_rolled_to_version pools statefulsets (k_version spec)).

Definition resolved_of (r : result (option string) KafkaCondition) : option string :=
  match r with Ok resolved => resolved | Err _ => None end.

(** Everything the pass knows before it looks at the listeners. *)
Record prepared h (pools : list KafkaNodePool) (statefulsets : list StatefulSet)
    (cluster clients : CaReconcileOutcome) (updated : result (option string) KafkaCondition)
    (logging : LoggingOutcome) : Prop := {
  prep_topology : topology_checked h pools statefulsets;
  prep_cluster : ca_reconciled h Cluster (pools_converged pools statefulsets) cluster;
  prep_clients : ca_reconciled h Clients (pools_converged pools statefulsets) clients;
  prep_version : version_ran (version_step pools statefulsets) h updated;
  prep_logging : logging_ran (resolve_logging (k_logging spec)) h (Ok logging);
}.

Definition base_hash (cluster clients : CaReconcileOutcome)
    (updated : result (option string) KafkaCondition) (logging : LoggingOutcome) : string :=
  combined_config_hash lib_toml_string lib_human_time lib_human_size lib_human_ratio config_hash
    spec (Some (ca_trust cluster clients))
    (match resolved_of updated with Some _ => k_metadata_version spec | None => None end)
    (logging_filter logging).

Definition phase_input (pools : list KafkaNodePool) (cluster : CaReconcileOutcome)
    (logging : LoggingOutcome) (base : string) : ListenerPhaseInput :=
  {| lp_obj := k; lp_namespace := ns; lp_name := name; lp_listeners := ls;
     lp_operator_listener_name := l_name operator;
     lp_inter_broker_name :=
       effective_inter_broker_listener_name (k_listeners spec) (k_inter_broker_listener_name spec);
     lp_logging_filter := logging_filter logging;
     lp_pools := pools; lp_config_hash := base; lp_cluster_ca := cluster |}.

(** The brokers' keystore is written for every node of the inventory. *)
Definition keystore_written h (i : ListenerPhaseInput (Time := Time) (ByteSize := ByteSize)
    (Ratio := Ratio) (F64 := F64)) (tls : ListenerTlsArtifacts) : Prop :=
  lt_inventory tls = inventory_nodes (lp_name i) (lp_namespace i) (lp_pools i) ∧
  ∃ extra keystore,
    keystore_ran (ensure_broker_keystore lib_ip_str lib_san_leb lib_sha256_hex (kafka_cas (lp_obj i))
      (signing_material (lp_cluster_ca i)) (requires_reissue (leaf_transition (lp_cluster_ca i)))
      (node_requests i (lt_inventory tls) extra)) h (Ok keystore) ∧
    lt_leaf_material tls = leaf_material keystore.

(** The objects of external listeners are applied, and their state was read. *)
Definition external_state h (i : ListenerPhaseInput (Time := Time) (ByteSize := ByteSize)
    (Ratio := Ratio) (F64 := F64)) (inventory : NodeInventory) (st : ExternalState) : Prop :=
  (forallb is_internal (lp_listeners i) = true ∧ st = no_external_state) ∨
  (ext_ran (apply_external_services (k_meta (lp_obj i)) (lp_name i) (lp_listeners i)
     (inv_brokers inventory)) h (Ok tt) ∧
   ext_ran (read_external_state lib_map_order (lp_name i) (lp_listeners i)
     (inv_brokers inventory)) h (Ok st)).

Definition addresses (i : ListenerPhaseInput (Time := Time) (ByteSize := ByteSize)
    (Ratio := Ratio) (F64 := F64)) (tls : ListenerTlsArtifacts) (st : ExternalState)
  : result (gmap Z (gmap string AdvertisedAddress)) AdvertisedError :=
  resolve_addresses_per_broker (lp_listeners i) (lp_inter_broker_name i)
    (lp_operator_listener_name i) (inv_all (lt_inventory tls)) st ∅.

(** The nodes' files, rendered from this spec and these addresses, are in the ConfigMap. *)
Definition config_applied h (i : ListenerPhaseInput (Time := Time) (ByteSize := ByteSize)
    (Ratio := Ratio) (F64 := F64)) (tls : ListenerTlsArtifacts) (st : ExternalState) : Prop :=
  ∃ adr cm, addresses i tls st = Ok adr ∧ render_config i tls adr = Some (Ok cm) ∧
    kev (ApplyConfigMap (cm_name (lp_name i)) cm) (Ok tt) ∈ h.

(** The keystore and the external state behind a configuration. *)
Definition listeners_prepared h (i : ListenerPhaseInput (Time := Time) (ByteSize := ByteSize)
    (Ratio := Ratio) (F64 := F64)) (tls : ListenerTlsArtifacts) (st : ExternalState) : Prop :=
  listeners_checked = Ok tt ∧ keystore_written h i tls ∧ external_state h i (lt_inventory tls) st.

(** ** The hash of a roll *)
Definition desired_ok h (i : ListenerPhaseInput (Time := Time) (ByteSize := ByteSize)
    (Ratio := Ratio) (F64 := F64)) (desired : string) : Prop :=
  (desired = lp_config_hash i ∧ ∃ e, listeners_checked = Err e) ∨
  (∃ tls st, listeners_prepared h i tls st ∧
     desired = rollout_config_hash config_hash (lp_config_hash i) (lt_leaf_material tls) ∧
     (config_applied h i tls st ∨ ∃ e, addresses i tls st = Err e)).

(** The plan is followed in its order: the pools that come before in it are stamped. *)
Definition stamped_in_turn h (owner : owner_reference) (plan : list (string * string)) (pool target : string) : Prop :=
  ∃ before after, plan = before ++ (pool, target) :: after ∧
    ∀ n t, (n, t) ∈ before → kev (OnAdopt (ApplyPool n owner t)) (Ok tt) ∈ h.

Definition stamp_ok h (pool : string) (owner : owner_reference) (target : string) : Prop :=
  ∃ pools statefulsets cluster clients updated logging desired,
    prepared h pools statefulsets cluster clients updated logging ∧
    owner_ref "Kafka" (k_meta k) = Ok owner ∧
    stamped_in_turn h owner (plan_rollout (rollout_states pools) desired) pool target ∧
    desired_ok h (phase_input pools cluster logging (base_hash cluster clients updated logging)) desired.

(** ** The markers of the clients CA *)
Definition mark_ok h (secret_name key value : string) : Prop :=
  secret_name = clients_ca_cert_name name ∧ key = ANN_LEAFS_KEY_GENERATION ∧
  ∃ users clients converged issued,
    kev (ListUsers name) (Ok users) ∈ h ∧ ca_reconciled h Clients converged clients ∧
    value = display_Z (oc_key_generation clients) ∧
    tls_ran (reissue_tls_user_cert_secrets (exclude_reserved_operator_user users name)
      (signing_material clients) (trust_bundle_pem clients) 0) h (Ok issued).

(** ** The status *)

(** A broker's load balancer has no address in what this pass observed. *)
Definition address_awaited h (i : ListenerPhaseInput (Time := Time) (ByteSize := ByteSize)
    (Ratio := Ratio) (F64 := F64)) : Prop :=
  ∃ observed id l, let inventory := inventory_nodes (lp_name i) (lp_namespace i) (lp_pools i) in
    ext_ran (observe_listener_addresses lib_parse_ip (lp_name i) (lp_listeners i) (inv_broker_ids inventory))
      h (Ok observed) ∧
    awaits_address (IpAddr := IpAddr) (lp_listeners i) observed id l.

(** What a condition that is [True] stands for. *)
Definition condition_meanings h (pools : list KafkaNodePool) (statefulsets : list StatefulSet)
    (cluster clients : CaReconcileOutcome) (updated : result (option string) KafkaCondition) (logging : LoggingOutcome)
    (i : ListenerPhaseInput (Time := Time) (ByteSize := ByteSize) (Ratio := Ratio) (F64 := F64))
  : list (string * Prop) :=
  let rollup := aggregate_pool_status pools in
  let target := (evaluate_kafka_version ts (k_version spec) (k_metadata_version spec) finalized).2 in
  [("Ready", pools ≠ [] ∧ ru_ready_replicas rollup = ru_replicas rollup ∧ 0 < ru_replicas rollup);
   ("Rolling", pools ≠ [] ∧ ru_ready_replicas rollup < ru_replicas rollup);
   ("ListenersValid", listeners_checked = Ok tt);
   ("ListenersReady", ∃ tls st, listeners_prepared h i tls st ∧ config_applied h i tls st);
   ("MetricsReady", metrics_ran (reconcile_metrics (k_meta k) (k_version spec)
                      (k_metrics_config spec) name) h (Some (Ok tt)));
   ("NetworkPolicyReady",
     policy_ran (reconcile_network_policy (k_meta k) (k_version spec) (k_listeners spec)
       (from_option kst_conditions [] (k_status k)) (k_network_policy spec)
       (opt_is_some (k_metrics_config spec)) (kcf_operator_namespace cfg) name ls
       (inter_broker_port ls (lp_inter_broker_name i))) h (Some (Ok tt)));
   ("ClusterCaReady", ca_reconciled h Cluster (pools_converged pools statefulsets) cluster);
   ("ClientsCaReady", ca_reconciled h Clients (pools_converged pools statefulsets) clients);
   ("CaRotation", rotation_in_progress cluster = true ∨ rotation_in_progress clients = true);
   ("KafkaVersionValid", is_Some target ∧ ∀ c, updated ≠ Err c);
   ("KafkaVersionUpgrade", is_Some target ∧ resolved_of updated = target);
   ("LoggingReady", ∃ f, logging = Resolved f);
   ("WaitingForLoadBalancerIp", address_awaited h i)].

(** One condition replaced in the status that was read: bad news, or the report of a
    check that passed. *)
Definition update_ok (c : KafkaCondition) : Prop :=
  status c = "False" ∨
  (type_ c = "TieredStorageReady" ∧ ∃ t, k_tiered_storage spec = Some t ∧
     validate_tiered_storage lib_rlmm_validate lib_refined_usize_error t = Ok tt) ∨
  (type_ c = "TracingReady" ∧ ∃ t, k_tracing spec = Some t ∧
     validate_tracing lib_in_unit lib_display_f64 lib_representable t = Ok tt).

Definition status_updated h (s : KafkaStatus) : Prop :=
  ∃ current c, kev (GetKafkaStatus name) (Ok current) ∈ h ∧ update_ok c ∧
    s = with_conditions (default KafkaStatus_default current)
          (replace_condition (kst_conditions (default KafkaStatus_default current)) c).

(** The status that ends a pass. *)
Definition status_final h (s : KafkaStatus) : Prop :=
  ∃ pools statefulsets cluster clients updated logging,
    prepared h pools statefulsets cluster clients updated logging ∧
    kst_cluster_ca s = Some (ca_status cluster) ∧ kst_clients_ca s = Some (ca_status clients) ∧
    kst_metadata_version s = or_else (resolved_of updated) finalized ∧
    let i := phase_input pools cluster logging (base_hash cluster clients updated logging) in
    ∀ c, c ∈ kst_conditions s → ∃ meaning : Prop,
      (type_ c, meaning) ∈ condition_meanings h pools statefulsets cluster clients updated logging i ∧
      (status c = "True" → meaning).

(** ** The steps of a pass *)
Definition step_ok h (e : event kresp) : Prop :=
  match projT1 e with
  | OnAdopt (ApplyPool pool owner target) => stamp_ok h pool owner target
  | PatchKafkaStatus n s => n = name ∧ (status_updated h s ∨ status_final h s)
  | OnTls (OnCa (MergeAnnotation n key value)) => mark_ok h n key value
  | _ => True
  end.

#[local] Notation ok h p Q := (safely step_ok h p Q).

(** *** Facts that stay true as the log grows *)
Lemma topology_mono h h' pools statefulsets :
  h ⊆ h' → topology_checked h pools statefulsets → topology_checked h' pools statefulsets.
Proof. intros Hs (pods & ? & ? & ? & ?). exists pods. auto. Qed.

Lemma ca_mono h h' w b o : h ⊆ h' → ca_reconciled h w b o → ca_reconciled h' w b o.
Proof. intros Hs (x & y & z & Hr). exists x, y, z. by eapply ran_mono. Qed.

Lemma prepared_mono h h' pools statefulsets cluster clients updated logging :
  h ⊆ h' → prepared h pools statefulsets cluster clients updated logging →
  prepared h' pools statefulsets cluster clients updated logging.
Proof.
  intros Hs []. split; [by eapply topology_mono|by eapply ca_mono..|by eapply ran_mono|by eapply ran_mono].
Qed.

Lemma config_mono h h' i tls st : h ⊆ h' → config_applied h i tls st → config_applied h' i tls st.
Proof. intros Hs (adr & cm & ? & ? & ?). exists adr, cm. auto. Qed.

Lemma awaited_mono h h' i : h ⊆ h' → address_awaited h i → address_awaited h' i.
Proof. intros Hs (obs & id & l & Hr & Ha). exists obs, id, l. split; [by eapply ran_mono|done]. Qed.

Lemma listeners_mono h h' i tls st :
  h ⊆ h' → listeners_prepared h i tls st → listeners_prepared h' i tls st.
Proof.
  intros Hs (? & (Hinv & extra & ks & Hk & ?) & He). split_and!; [done| |].
  - split; [done|]. exists extra, ks. split; [by eapply ran_mono|done].
  - destruct He as [?|[? ?]]; [by left|right; split; by eapply ran_mono].
Qed.

(** *** Parts without such steps *)
Lemma kafka_kube_ok {A} h (p : prog kresp (result A kube_error)) Q :
  ok h p (on_ok Q) → ok h (kube p) (on_ok Q).
Proof.
  intros Hp. eapply safely_bind; [exact Hp|]. intros h' [a|e] _ Ha; by apply safely_ret.
Qed.

Lemma plain_ok {A} h (p : prog kresp (result A ReconcileError)) Q :
  ok h p (on_ok Q) → ok h (plain p) (on_ok Q).
Proof.
  intros Hp. eapply safely_bind; [exact Hp|]. intros h' [a|e] _ Ha; by apply safely_ret.
Qed.

(** A call of the API server whose answer is remembered. *)
Ltac at_call :=
  match goal with
  | |- safely _ _ (kube (perform ?c)) _ => apply kafka_kube_ok; refine (safely_call _ _ c _ _ _)
  | |- safely _ _ (perform ?c) _ => refine (safely_call _ _ c _ _ _)
  end.

Ltac api_call :=
  at_call; [intros ?; try exact I | intros [?|?]; [|exact I]; apply elem_of_app; right; by left].

(** *** The status of one condition *)
Lemma patch_condition_ok h c :
  update_ok c → ok h (patch_status_with_condition name c) (on_ok (λ _ _, True)).
Proof.
  intros Hc. eapply (safely_try _ _ _ _ (λ h' cur, kev (GetKafkaStatus name) (Ok cur) ∈ h')); [api_call|].
  intros h' cur _ Hcur. at_call; [|by intros []].
  intros x. split; [done|]. left. by exists cur, c.
Qed.

Lemma then_error_ok {A B} h (p : prog kresp (result A (option ReconcileError))) Q e :
  ok h p (on_ok Q) →
  ok h (p ≫= λ r, match r with Ok _ => Ret (Err (A := B) e) | Err e' => Ret (Err e') end) (on_ok (λ _ _, True)).
Proof. intros Hp. eapply safely_try; [exact Hp|]. intros. by apply safely_ret. Qed.

Lemma reject_ok {B} h c e :
  status c = "False" →
  ok h (_ ←? patch_status_with_condition name c; Ret (Err (A := B) e)) (on_ok (λ _ _, True)).
Proof. intros Hc. eapply then_error_ok, patch_condition_ok. by left. Qed.

Lemma checked_part_ok h ty invalid ok_message prefix to_error r :
  (r = Ok tt → update_ok (condition ts ty "True" "Validated" ok_message)) →
  ok h (checked_part ts name ty invalid ok_message prefix to_error r) (on_ok (λ _ _, True)).
Proof.
  intros Hr. unfold checked_part. destruct r as [[]|why]; [by apply patch_condition_ok, Hr|].
  by apply reject_ok.
Qed.

Lemma runtime_ok h : ok h (validate_kafka_runtime ts k name) (on_ok (λ _ _, True)).
Proof.
  unfold validate_kafka_runtime. fold spec. eapply (safely_try _ _ _ _ (λ _ _, True)).
  { destruct (k_broker_tuning spec) as [t|]; [|by apply safely_ret].
    destruct (check_tuning t) as [|why]; [by apply safely_ret|by apply reject_ok]. }
  intros h1 _ _ _. eapply (safely_try _ _ _ _ (λ _ _, True)).
  { destruct (k_tiered_storage spec) as [t|] eqn:Et; [|by apply safely_ret].
    apply checked_part_ok. intros Hr. right. left. split; [done|]. by exists t. }
  intros h2 _ _ _. destruct (k_tracing spec) as [t|] eqn:Et; [|by apply safely_ret].
  apply checked_part_ok. intros Hr. right. right. split; [done|]. by exists t.
Qed.

(** *** The CAs *)
Definition phase_ok {A} (Q : log → A → Prop) h (p : phase Time A) : Prop :=
  match p with Ready a => Q h a | Done _ => True end.

Lemma one_ca_ok h w force_renew force_replace converged now :
  ok h (reconcile_one_ca cfg ts k name w force_renew force_replace converged now)
    (on_ok (phase_ok (λ h' o, ca_reconciled h' w converged o))).
Proof.
  unfold reconcile_one_ca. eapply safely_bind.
  { eapply safely_only; [apply reconcile_ca_only|]. intros pre c x Hc. by destruct c. }
  intros h' [o|[e|]] _ Hr; [|destruct e; try by apply safely_ret|by apply safely_ret].
  - apply safely_ret. by exists force_renew, force_replace, now.
  - eapply safely_try; [apply patch_condition_ok; by left|]. intros. by apply safely_ret.
Qed.

Lemma sync_users_ok h converged clients :
  ca_reconciled h Clients converged clients →
  ok h (sync_tls_user_secrets name clients) (on_ok (λ _ _, True)).
Proof.
  intros Hca. unfold sync_tls_user_secrets. destruct (syncs_users clients); [|by apply safely_ret].
  eapply (safely_try _ _ _ _ (λ h' users, kev (ListUsers name) (Ok users) ∈ h')); [api_call|].
  intros h1 users Hs1 Hu. eapply (safely_try _ _ _ _
    (λ h' n, tls_ran (reissue_tls_user_cert_secrets (exclude_reserved_operator_user users name)
       (signing_material clients) (trust_bundle_pem clients) 0) h' (Ok n))).
  { eapply safely_mono; [eapply safely_only; [apply reissue_only|]|].
    - intros pre c x Hc. destruct c as [c| | |]; [|exact I..]. by destruct c.
    - intros h' [n|e] Hr; [done|exact I]. }
  intros h2 n Hs2 Hn. destruct (requires_reissue (leaf_transition clients)); [|by apply safely_ret].
  apply plain_ok. unfold mark_leafs_reissued, on_ca. cbn [lift perform prog_bind mbind].
  intros Hj x. cbn. rewrite justified_snoc. split; [|by destruct x]. split; [done|].
  split; [done|]. split; [done|]. exists users, clients, converged, n.
  split_and!; [by apply Hs2|eapply ca_mono; [|exact Hca]; by etrans|done|done].
Qed.

Lemma emit_if_ok h b reason message : ok h (emit_if b reason message) (λ _ _, True).
Proof.
  unfold emit_if. destruct b; [|by apply safely_ret].
  eapply (safely_bind _ _ _ _ (λ _ _, True)); [by at_call|]. intros. by apply safely_ret.
Qed.

Definition cas_ok h (converged : bool) (pin filter : option string) (a : CaArtifacts) : Prop :=
  ca_reconciled h Cluster converged (art_cluster a) ∧
  ca_reconciled h Clients converged (art_clients a) ∧
  type_ (art_cluster_condition a) = "ClusterCaReady" ∧
  type_ (art_clients_condition a) = "ClientsCaReady" ∧
  art_rotation_condition a = ca_rotation_condition ts (art_cluster a) (art_clients a) ∧
  art_config_hash a =
    combined_config_hash lib_toml_string lib_human_time lib_human_size lib_human_ratio config_hash
      spec (Some (ca_trust (art_cluster a) (art_clients a))) pin filter.

Lemma cas_phase_ok h converged pin filter :
  ok h (reconcile_cas cfg ts k name converged pin filter)
    (on_ok (phase_ok (λ h' a, cas_ok h' converged pin filter a))).
Proof.
  unfold reconcile_cas. eapply (safely_bind _ _ _ _ (λ _ _, True)); [by at_call|].
  intros h1 now _ _. eapply safely_try; [apply one_ca_ok|]. intros h2 [cluster|act] Hs2 Hc; [|by apply safely_ret].
  eapply safely_try; [apply one_ca_ok|]. intros h3 [clients|act] Hs3 Hcl; [|by apply safely_ret].
  eapply (safely_try _ _ _ _ (λ _ _, True)).
  { eapply safely_mono; [eapply safely_only; [apply operator_cert_only|]|by intros ? []].
    intros pre c x Hq. destruct c as [c| | |]; [|exact I..]. by destruct c. }
  intros h4 _ Hs4 _. eapply safely_try; [eapply sync_users_ok, ca_mono; [|exact Hcl]; done|].
  intros h5 _ Hs5 _. eapply (safely_try _ _ _ _ (λ _ _, True)).
  { destruct (strip_keys k); [by apply safely_ret|].
    at_call; [done|by intros []]. }
  intros h6 _ Hs6 _. eapply safely_bind; [apply emit_if_ok|]. intros h7 _ Hs7 _.
  eapply safely_bind; [apply emit_if_ok|]. intros h8 _ Hs8 _. apply safely_ret. cbn.
  split_and!; [eapply ca_mono; [|exact Hc]; set_solver|eapply ca_mono; [|exact Hcl]; set_solver|done..].
Qed.

(** *** What the listeners need *)
Lemma reported_ok {A} h reports (p : prog ca_resp (result A ReconcileError)) :
  only (λ c, merges c = false) p → ok h (reported cfg ts name reports p) (on_ok (λ _ _, True)).
Proof.
  intros Hp. unfold reported. eapply (safely_bind _ _ _ _ (λ _ _, True)).
  { eapply safely_mono; [eapply safely_only; [exact Hp|]|done]. intros pre c x Hc. by destruct c. }
  intros h' [a|e] _ _; [by apply safely_ret|]. destruct (reports e); [|by apply safely_ret].
  destruct (secret_error e) as [[reason message]|]; [|by apply safely_ret].
  eapply safely_try; [apply patch_condition_ok; by left|]. intros. by apply safely_ret.
Qed.

Lemma dependencies_ok h eff inter_broker_name :
  ok h (validate_listener_dependencies cfg ts k name eff inter_broker_name) (on_ok (λ _ _, True)).
Proof.
  unfold validate_listener_dependencies.
  eapply safely_try; [apply reported_ok, oauth_trust_only|]. intros h1 [act|] _ _; [by apply safely_ret|].
  eapply safely_try; [apply reported_ok, introspection_only|]. intros h2 [act|] _ _; [by apply safely_ret|].
  eapply safely_try; [apply reported_ok, gssapi_check_only|]. intros h3 [act|] _ _; [by apply safely_ret|].
  destruct (validate_inter_broker_gssapi _ _ _) as [|e]; [by apply safely_ret|].
  eapply safely_try; [apply patch_condition_ok; by left|]. intros. by apply safely_ret.
Qed.

(** *** The listeners *)
#[local] Notation input := (ListenerPhaseInput (Time := Time) (ByteSize := ByteSize) (Ratio := Ratio) (F64 := F64)).

Lemma quiet_ok {call1} {resp1 : call1 → Type} {R} h emb answer (p : prog resp1 R) :
  (∀ pre c x, step_ok pre (kev (emb c) x)) → ok h (lift emb answer p) (ran emb answer p).
Proof. apply safely_quiet. Qed.

Lemma prepare_tls_ok h (i : input) :
  ok h (prepare_listener_tls i) (on_ok (λ h' tls, keystore_written h' i tls ∧
    (lt_load_balancer_pending tls ≠ [] → address_awaited h' i))).
Proof.
  unfold prepare_listener_tls. set (inventory := inventory_nodes _ _ _).
  eapply (safely_try _ _ _ _ (λ h' observed, ext_ran (observe_listener_addresses lib_parse_ip (lp_name i)
    (lp_listeners i) (inv_broker_ids inventory)) h' (Ok observed))).
  { eapply safely_mono; [by apply quiet_ok|]. intros h' [obs|e] Hr; [exact Hr|exact I]. }
  intros h1 observed _ Hobs.
  pose proof (λ id l, pending_awaits lib_san_leb (lp_listeners i) observed (inv_brokers inventory) ∅ [] id l) as Hpend.
  destruct (extra_sans_of _ _ _ _ _ _) as [extra pending].
  eapply (safely_try _ _ _ _ (λ h' ks, keystore_ran (ensure_broker_keystore lib_ip_str lib_san_leb
    lib_sha256_hex (kafka_cas (lp_obj i)) (signing_material (lp_cluster_ca i))
    (requires_reissue (leaf_transition (lp_cluster_ca i))) (node_requests i inventory extra)) h' (Ok ks))).
  { apply plain_ok. eapply safely_mono; [by apply quiet_ok|]. intros h' [ks|e] Hr; [exact Hr|exact I]. }
  intros h2 ks Hs2 Hks. apply safely_ret. split; [split; [done|by exists extra, ks]|]. cbn [lt_load_balancer_pending].
  destruct pending as [|[id l] pending]; [done|]. intros _. exists observed, id, l. split; [by eapply ran_mono|].
  apply Hpend; [set_solver|by left].
Qed.

Lemma load_external_ok h (i : input) inventory :
  ok h (load_external_listener_state i inventory) (on_ok (λ h' st, external_state h' i inventory st)).
Proof.
  unfold load_external_listener_state.
  destruct (existsb (λ l, negb (is_internal l)) (lp_listeners i)) eqn:Hext.
  - eapply (safely_try _ _ _ _ (λ h' _, ext_ran (apply_external_services (k_meta (lp_obj i)) (lp_name i)
      (lp_listeners i) (inv_brokers inventory)) h' (Ok tt))).
    { eapply safely_mono; [by apply quiet_ok|]. intros h' [[]|e] Hr; [exact Hr|exact I]. }
    intros h1 _ _ Happ. eapply safely_mono; [by apply safely_grows, quiet_ok|].
    intros h2 [st|e] [Hs Hr]; [|exact I]. right. split; [by eapply ran_mono|exact Hr].
  - apply safely_ret. left. split; [|done]. apply forallb_forall. intros l Hl.
    destruct (is_internal l) eqn:El; [done|]. apply not_true_iff_false in Hext. destruct Hext.
    apply existsb_exists. exists l. by rewrite El.
Qed.

Lemma apply_config_ok h (i : input) tls st adr :
  addresses i tls st = Ok adr →
  ok h (apply_config ts i tls st adr)
    (on_ok (λ h' r, config_applied h' i tls st ∧ type_ r.2 = "ListenersReady")).
Proof.
  intros Hadr. unfold apply_config. destruct (render_config i tls adr) as [[cm|e]|] eqn:Ecm;
    [|by apply safely_ret..].
  eapply (safely_try _ _ _ _ (λ h' _, kev (ApplyConfigMap (cm_name (lp_name i)) cm) (Ok tt) ∈ h')).
  { at_call; [done|]. intros [[]|e]; [|exact I]. apply elem_of_app. right. by left. }
  intros h' _ _ Hin. apply safely_ret. split; [|done]. by exists adr, cm.
Qed.

Lemma adopt_ok h (pools : list KafkaNodePool) desired :
  (∀ h' n owner t, h ⊆ h' → owner_ref "Kafka" (k_meta k) = Ok owner →
     stamped_in_turn h' owner (plan_rollout (rollout_states pools) desired) n t → stamp_ok h' n owner t) →
  ok h (plain (on_adopt (adopt_pools (k_meta k) pools desired))) (on_ok (λ _ _, True)).
Proof.
  intros Hst. apply plain_ok. eapply safely_mono; [|by intros ? []].
  eapply safely_part; [apply adopt_planned|].
  intros pre1 pre e1 e Hpre (c & x & -> & ->) Hc. destruct c as [n owner t].
  destruct Hc as (Ho & before & after & Hplan & Hbefore).
  apply (Hst (h ++ pre) n owner t); [by apply list_subseteq_app_l|done|]. exists before, after. split; [done|].
  intros n' t' Hin%Hbefore. apply elem_of_app. right.
  destruct (lifted_elem _ _ _ _ _ Hpre Hin) as (e' & He' & c' & x' & Heq & ->).
  apply (f_equal (λ e, kev (OnAdopt (projT1 e)) (projT2 e))) in Heq. cbn in Heq. by rewrite Heq.
Qed.

Definition artifacts_ok h (i : input) (a : ListenerArtifacts) : Prop :=
  type_ (la_valid_condition a) = "ListenersValid" ∧
  (status (la_valid_condition a) = "True" → listeners_checked = Ok tt) ∧
  type_ (la_ready_condition a) = "ListenersReady" ∧
  (status (la_ready_condition a) = "True" →
   ∃ tls st, listeners_prepared h i tls st ∧ config_applied h i tls st) ∧
  (la_load_balancer_pending a ≠ [] → address_awaited h i).

Section listeners.
Context (pools : list KafkaNodePool) (statefulsets : list StatefulSet).
Context (cluster clients : CaReconcileOutcome) (updated : result (option string) KafkaCondition).
Context (logging : LoggingOutcome).
Let i : input := phase_input pools cluster logging (base_hash cluster clients updated logging).
#[local] Notation prepared h := (prepared h pools statefulsets cluster clients updated logging).

Lemma stamp_intro h desired n owner t :
  prepared h → desired_ok h i desired → owner_ref "Kafka" (k_meta k) = Ok owner →
  stamped_in_turn h owner (plan_rollout (rollout_states pools) desired) n t →
  stamp_ok h n owner t.
Proof. intros. by exists pools, statefulsets, cluster, clients, updated, logging, desired. Qed.

Lemma valid_listeners_ok h :
  prepared h → listeners_checked = Ok tt →
  ok h (reconcile_valid_listener_resources ts i) (on_ok (λ h' a, artifacts_ok h' i a)).
Proof.
  intros Hp Hv. unfold reconcile_valid_listener_resources.
  eapply safely_try; [apply prepare_tls_ok|]. intros h1 tls Hs1 [Hk Hlb].
  eapply safely_try; [apply load_external_ok|]. intros h2 st Hs2 Hst.
  assert (∀ h', h2 ⊆ h' → listeners_prepared h' i tls st) as Hl.
  { intros h' Hs. eapply listeners_mono; [exact Hs|]. split_and!; [done| |done].
    destruct Hk as [? (x & ks & Hr & ?)]. split; [done|]. exists x, ks. split; [by eapply ran_mono|done]. }
  eapply (safely_try _ _ _ _ (λ h' r, type_ r.2 = "ListenersReady" ∧
    (status r.2 = "True" → config_applied h' i tls st) ∧
    (config_applied h' i tls st ∨ ∃ e, addresses i tls st = Err e))).
  { change (resolve_addresses_per_broker _ _ _ _ st ∅) with (addresses i tls st).
    destruct (addresses i tls st) as [adr|e] eqn:Ea.
    - eapply safely_mono; [by apply apply_config_ok|]. intros h' [r|e] Hr; [|exact I].
      destruct Hr as [Hc Ht]. split_and!; [done|done|by left].
    - apply safely_ret. cbn. split_and!; [done|done|right; by exists e]. }
  intros h3 r Hs3 (Ht & Hstat & Hcase). eapply (safely_try _ _ _ _ (λ h' _, h3 ⊆ h')).
  { eapply safely_mono; [apply safely_grows, adopt_ok|by intros h' [] [? _]].
    intros h' n owner t Hs Ho Hin. eapply stamp_intro; [eapply prepared_mono; [|exact Hp]; set_solver| |exact Ho|exact Hin].
    right. exists tls, st. split_and!; [apply Hl; by etrans|done|].
    destruct Hcase as [Hc|?]; [left; by eapply config_mono|by right]. }
  intros h4 _ _ Hs4. apply safely_ret. split_and!; [done|done|done| |].
  - intros Htrue. exists tls, st. split; [apply Hl; by etrans|]. eapply config_mono; [exact Hs4|by apply Hstat].
  - intros Hp4. eapply awaited_mono; [|by apply Hlb]. set_solver.
Qed.

Lemma listener_phase_ok h :
  prepared h →
  ok h (reconcile_listener_resources cfg ts i listeners_checked)
    (on_ok (phase_ok (λ h' a, artifacts_ok h' i a))).
Proof.
  intros Hp. unfold reconcile_listener_resources. destruct listeners_checked as [[]|e] eqn:Hv.
  - eapply safely_try; [apply dependencies_ok|]. intros h1 [act|] Hs1 _; [by apply safely_ret|].
    eapply safely_try; [apply valid_listeners_ok; [by eapply prepared_mono|exact Hv]|].
    intros h2 a _ Ha. by apply safely_ret.
  - eapply safely_try; [apply adopt_ok|].
    + intros h' n owner t Hs Ho Hin. eapply stamp_intro; [by eapply prepared_mono| |exact Ho|exact Hin].
      left. split; [done|]. by exists e.
    + intros h1 _ _ _. apply safely_ret. cbn. done.
Qed.

(** *** The final status *)
Context (cas : CaArtifacts) (pin filter : option string).
Context (artifacts : ListenerArtifacts) (version_cond : KafkaCondition) (failed : bool).
Let target := (evaluate_kafka_version ts (k_version spec) (k_metadata_version spec) finalized).2.
Let fi : FinalizeKafkaInput (Time := Time) (ByteSize := ByteSize) (Ratio := Ratio) (F64 := F64) :=
  {| fi_obj := k; fi_namespace := ns; fi_name := name; fi_listeners := ls;
     fi_inter_broker_name := lp_inter_broker_name i; fi_pools := pools;
     fi_listener_artifacts := artifacts; fi_cas := cas;
     fi_version_condition := version_cond;
     fi_logging_condition := logging_condition ts logging;
     fi_target_metadata := target; fi_resolved_metadata := resolved_of updated;
     fi_finalize_failed := failed; fi_finalized_metadata := finalized |}.

(** A condition with its meaning. *)
#[local] Notation meanings h := (condition_meanings h pools statefulsets cluster clients updated logging i).
Definition says h (c : KafkaCondition) : Prop :=
  ∃ meaning : Prop, (type_ c, meaning) ∈ meanings h ∧ (status c = "True" → meaning).

Lemma says_type h c ty (P : Prop) :
  type_ c = ty → (ty, P) ∈ meanings h → (status c = "True" → P) → says h c.
Proof. intros <- Hin HP. by exists P. Qed.

Ltac meaning ty := eapply (says_type _ _ ty); [done|unfold condition_meanings; in_log|].

Lemma ready_says h :
  let '(ready, reason, message) := rollup_condition (aggregate_pool_status pools) in
  says h (condition ts "Ready" (truth ready) reason message).
Proof.
  unfold rollup_condition. destruct (pool_count _ =? 0)%nat eqn:E0; [by meaning "Ready"|].
  destruct ((ru_ready_replicas _ =? _) && (0 <? _)) eqn:E1; meaning "Ready"; [|done].
  intros _. apply andb_true_iff in E1 as [?%Z.eqb_eq ?%Z.ltb_lt].
  split_and!; [|done|done]. intros ->. done.
Qed.

Lemma rolling_says h :
  let '(rolling, reason, message) := rolling_condition_from_rollup (aggregate_pool_status pools) in
  says h (condition ts "Rolling" (truth rolling) reason message).
Proof.
  unfold rolling_condition_from_rollup. destruct ((0 <? _)%nat && _) eqn:E; meaning "Rolling"; [|done].
  intros _. apply andb_true_iff in E as [E0%Nat.ltb_lt ?%Z.ltb_lt]. split; [|done]. intros Hn. rewrite Hn in E0. cbn in E0. lia.
Qed.

Lemma rotation_says h c1 c2 : cluster = c1 → clients = c2 → says h (ca_rotation_condition ts c1 c2).
Proof.
  intros <- <-. unfold ca_rotation_condition. meaning "CaRotation".
  destruct (negb (rotation_visible cluster) && rotation_visible clients); cbn;
    [destruct (rotation_in_progress clients)|destruct (rotation_in_progress cluster)]; by eauto.
Qed.

#[local] Notation metrics_pass :=
  (reconcile_metrics (k_meta k) (k_version spec) (k_metrics_config spec) name).
#[local] Notation policy_pass :=
  (reconcile_network_policy (k_meta k) (k_version spec) (k_listeners spec)
     (from_option kst_conditions [] (k_status k)) (k_network_policy spec)
     (opt_is_some (k_metrics_config spec)) (kcf_operator_namespace cfg) name ls
     (inter_broker_port ls (lp_inter_broker_name i))).

Definition version_cond_ok : Prop :=
  type_ version_cond = "KafkaVersionValid" ∧
  (status version_cond = "True" → is_Some target ∧ ∀ c, updated ≠ Err c).

Lemma metrics_says h mo : metrics_ran metrics_pass h mo → says h (metrics_ready_condition ts mo).
Proof. intros Hr. destruct mo as [[[]|e]|]; [|destruct e|]; by meaning "MetricsReady". Qed.

Lemma policy_says h po : policy_ran policy_pass h po → says h (policy_condition ts po).
Proof. intros Hr. destruct po as [[[]|e]|]; by meaning "NetworkPolicyReady". Qed.

Lemma upgrade_says h tg :
  tg = target → says h (upgrade_condition ts (k_version spec) tg (resolved_of updated) failed).
Proof.
  intros Et. unfold upgrade_condition. destruct tg as [t|]; [|by meaning "KafkaVersionUpgrade"].
  case_bool_decide as Er; [|destruct failed; by meaning "KafkaVersionUpgrade"].
  meaning "KafkaVersionUpgrade". intros _. unfold target in Et. rewrite <- Et, Er. by eauto.
Qed.

Lemma logging_says h lo : lo = logging → says h (logging_condition ts lo).
Proof. intros El. destruct lo as [|f|e]; meaning "LoggingReady"; [done| |done]. by eauto. Qed.

Lemma balancer_says h c :
  (la_load_balancer_pending artifacts ≠ [] → address_awaited h i) →
  c ∈ load_balancer_conditions ts ls (la_load_balancer_pending artifacts) → says h c.
Proof.
  intros Ha. unfold load_balancer_conditions. destruct (existsb _ _); [|by intros ?%elem_of_nil].
  destruct (la_load_balancer_pending artifacts); intros ->%list_elem_of_singleton;
    meaning "WaitingForLoadBalancerIp"; [done|]. intros _. by apply Ha.
Qed.

Lemma final_conditions_say h mo po c :
  cas_ok h (pools_converged pools statefulsets) pin filter cas →
  art_cluster cas = cluster → art_clients cas = clients → artifacts_ok h i artifacts →
  version_cond_ok → metrics_ran metrics_pass h mo → policy_ran policy_pass h po →
  c ∈ final_conditions ts fi (metrics_ready_condition ts mo) (policy_condition ts po) →
  says h c.
Proof.
  intros (Hca1 & Hca2 & Hc1 & Hc2 & Hc3 & _) Hcl Hcli (Hv1 & Hv2 & Hr1 & Hr2 & Hlb) [Hver1 Hver2] Hmo Hpo.
  unfold final_conditions. cbn [fi fi_pools fi_listener_artifacts fi_cas fi_version_condition fi_obj
    fi_target_metadata fi_resolved_metadata fi_finalize_failed fi_logging_condition fi_listeners].
  pose proof (ready_says h) as Hready. pose proof (rolling_says h) as Hrolling.
  destruct (rollup_condition _) as [[ready reason] message].
  destruct (rolling_condition_from_rollup _) as [[rolling rreason] rmessage].
  intros [Hin|Hin]%elem_of_app; [|by apply balancer_says].
  repeat (apply elem_of_cons in Hin as [->|Hin]); [..|by apply elem_of_nil in Hin].
  - exact Hready.
  - exact Hrolling.
  - by meaning "ListenersValid".
  - by meaning "ListenersReady".
  - by apply metrics_says.
  - by apply policy_says.
  - meaning "ClusterCaReady". by rewrite <- Hcl.
  - meaning "ClientsCaReady". by rewrite <- Hcli.
  - rewrite Hc3. by apply rotation_says.
  - by meaning "KafkaVersionValid".
  - by apply upgrade_says.
  - by apply logging_says.
Qed.

Lemma finalize_ok h :
  prepared h → cas_ok h (pools_converged pools statefulsets) pin filter cas →
  art_cluster cas = cluster → art_clients cas = clients →
  artifacts_ok h i artifacts → version_cond_ok →
  ok h (finalize_kafka cfg ts fi) (on_ok (λ _ _, True)).
Proof.
  intros Hp Hcas Hcl Hcli Ha Hv. unfold finalize_kafka.
  eapply safely_bind; [by apply safely_grows, quiet_ok|]. intros h1 mo _ [Hs1 Hmo].
  eapply safely_bind; [by apply safely_grows, quiet_ok|]. intros h2 po _ [Hs2 Hpo].
  eapply (safely_try _ _ _ _ (λ _ _, True)).
  - at_call; [|by intros []]. intros x. split; [done|]. right.
    exists pools, statefulsets, cluster, clients, updated, logging. split; [eapply prepared_mono; [|exact Hp]; by etrans|].
    split; [by rewrite <- Hcl|]. split; [by rewrite <- Hcli|]. split; [done|]. intros ? c Hc.
    apply (final_conditions_say h2 mo po c); [|done|done| | |by eapply ran_mono|exact Hpo|exact Hc].
    + destruct Hcas as (A & B & C). split; [eapply ca_mono; [|exact A]; by etrans|].
      split; [eapply ca_mono; [|exact B]; by etrans|done].
    + destruct Ha as (A & B & C & D & F). split_and!; [done..| |].
      * intros Hst. destruct (D Hst) as (tls & st & Hl & Hcfg). exists tls, st.
        split; [eapply listeners_mono; [|exact Hl]|eapply config_mono; [|exact Hcfg]]; by etrans.
      * intros Hp2. eapply awaited_mono; [|by apply F]. by etrans.
    + done.
  - intros h3 _ _ _. apply safely_ret. by destruct mo as [[]|], po as [[]|]; cbn; try destruct (metrics_reported _).
Qed.
End listeners.

(** *** The metadata version *)
Lemma version_errors h pools statefulsets r c :
  version_ran (version_step pools statefulsets) h r → r = Err c →
  type_ c = "KafkaVersionValid" ∧ status c = "False".
Proof.
  intros Hr ->. eapply (ran_spec _ _ _ (λ _ r, ∀ c, r = Err c →
    type_ c = "KafkaVersionValid" ∧ status c = "False")) in Hr as (tr1 & tr & _ & _ & HQ); [by apply HQ|].
  unfold version_step, reconcile_metadata_version, all_runs. run_cases; intros c' ?; by simplify_eq.
Qed.

Lemma version_outcome_ok h pools statefulsets updated :
  version_ran (version_step pools statefulsets) h updated →
  let '(cond, target) := evaluate_kafka_version ts (k_version spec) (k_metadata_version spec) finalized in
  version_cond_ok updated (version_outcome cond updated).1.1.
Proof.
  intros Hr. unfold version_cond_ok, evaluate_kafka_version.
  destruct (evaluate _ _ _) as [resolved|reason message]; cbn.
  - destruct updated as [r|c]; cbn; [by eauto|].
    destruct (version_errors _ _ _ _ c Hr eq_refl) as [Ht Hs]. split; [done|]. by rewrite Hs.
  - destruct updated as [r|c]; cbn; [by eauto|].
    destruct (version_errors _ _ _ _ c Hr eq_refl) as [Ht Hs]. split; [done|]. by rewrite Hs.
Qed.

(** *** The pass *)
Lemma apply_service_ok h n s : ok h (apply_service n s) (on_ok (λ _ _, True)).
Proof. unfold apply_service. destruct s as [s|e]; [|by apply safely_ret]. at_call; [done|by intros []]. Qed.

Lemma warn_ok h messages : ok h (warn_weak_auth messages) (λ _ _, True).
Proof.
  revert h. induction messages as [|m messages IH]; intros h; [by apply safely_ret|].
  cbn [warn_weak_auth]. eapply (safely_bind _ _ _ _ (λ _ _, True)); [by at_call|]. intros. apply IH.
Qed.

Lemma quorum_ok h :
  ok h (plain (on_quorum (ensure_cluster_id_secret (k_meta k) (k_version spec)))) (on_ok (λ _ _, True)).
Proof. apply plain_ok. eapply safely_mono; [by apply quiet_ok|by intros ? []]. Qed.

Lemma topology_rejected h e :
  ok h (_ ←? patch_status_with_condition name
          (condition ts "NodePoolTopologyValid" "False" "InvalidNodePoolTopology" (pool_error_message e));
        Ret (Ok (Requeue (kcf_dependency_requeue cfg)))) (on_ok (λ _ _, True)).
Proof. eapply safely_try; [apply patch_condition_ok; by left|]. intros. by apply safely_ret. Qed.

Lemma kafka_inner_ok h : ok h (reconcile_inner cfg ts k) (on_ok (λ _ _, True)).
Proof.
  unfold reconcile_inner. fold name ns spec ls operator finalized listeners_checked.
  eapply safely_try; [apply apply_service_ok|]. intros h1 _ _ _.
  eapply safely_try; [apply apply_service_ok|]. intros h2 _ _ _.
  eapply safely_bind; [apply warn_ok|]. intros h3 _ _ _.
  eapply safely_try; [apply quorum_ok|]. intros h4 _ _ _.
  eapply safely_try; [apply runtime_ok|]. intros h5 _ _ _.
  eapply (safely_try _ _ _ _ (λ h' pools, kev (ListPools name) (Ok pools) ∈ h')); [api_call|].
  intros h6 pools _ Hpools.
  eapply (safely_try _ _ _ _ (λ h' sets, kev (ListStatefulSets name) (Ok sets) ∈ h')); [api_call|].
  intros h7 statefulsets Hs7 Hsets.
  pose proof (λ h u, version_outcome_ok h pools statefulsets u) as Hver.
  destruct (evaluate_kafka_version _ _ _ _) as [version_cond target] eqn:Eev.
  eapply (safely_bind _ _ _ _ (λ h' r, version_ran (version_step pools statefulsets) h' r)).
  { unfold version_step. rewrite Eev. by apply quiet_ok. }
  intros h8 updated Hs8 Hupd. specialize (Hver h8 updated Hupd).
  assert (version_outcome version_cond updated = ((version_outcome version_cond updated).1.1,
    resolved_of updated, (version_outcome version_cond updated).2)) as -> by by destruct updated.
  revert Hver. generalize (version_outcome version_cond updated).1.1, (version_outcome version_cond updated).2.
  intros vc failed Hver.
  eapply (safely_try _ _ _ _ (λ h' logging, logging_ran (resolve_logging (k_logging spec)) h' (Ok logging))).
  { apply plain_ok. eapply safely_mono; [by apply quiet_ok|]. by intros h' []. }
  intros h9 logging Hs9 Hlog.
  eapply (safely_try _ _ _ _ (λ h' pods, kev (ListTopologyPods name) (Ok pods) ∈ h')); [api_call|].
  intros h10 pods Hs10 Hpods. destruct (validate_topology pools statefulsets pods) as [[]|e] eqn:Etop;
    [|apply topology_rejected].
  eapply safely_try; [apply cas_phase_ok|]. intros h11 [cas|act] Hs11 Hcas; [|by apply safely_ret].
  assert (prepared h11 pools statefulsets (art_cluster cas) (art_clients cas) updated logging) as Hp.
  { destruct Hcas as (Hcl & Hcli & _). split; [|done|done|eapply ran_mono; [|exact Hupd]; set_solver|
      eapply ran_mono; [|exact Hlog]; set_solver].
    exists pods. split_and!; [set_solver..|done]. }
  pose proof Hcas as (_ & _ & _ & _ & _ & Hhash). rewrite Hhash.
  eapply safely_try; [by apply (listener_phase_ok pools statefulsets _ (art_clients cas) updated logging)|].
  intros h12 [artifacts|act] Hs12 Ha; [|by apply safely_ret].
  replace target with (evaluate_kafka_version ts (k_version spec) (k_metadata_version spec) finalized).2
    by by rewrite Eev.
  eapply finalize_ok; [by eapply prepared_mono| |done|done|exact Ha|exact Hver].
  destruct Hcas as (Hcl & Hcli & Hrest).
  split; [by eapply ca_mono|]. split; [by eapply ca_mono|exact Hrest].
Qed.

Lemma kafka_steps : all_runs (reconcile_inner cfg ts k) (λ tr _, justified step_ok tr).
Proof. eapply always_mono; [|apply kafka_inner_ok, justified_nil]. by intros h r [? _]. Qed.


(** ** What the steps mean *)

(** C1. A pass stamps a pool only for the hash of the configuration it rendered: the
    plan for the desired hash calls for the stamp and the pools that come before in it
    have theirs, the hash is the one of this spec with the CAs, the metadata version and the log filter of this pass
    and the brokers' new certificates, the topology was checked before, and the
    ConfigMap with the files of every node is already applied -- unless the listeners
    are invalid, or an address of an external listener is not known yet. *)
Theorem hash_follows_config :
  all_runs (reconcile_inner cfg ts k) (λ tr _, ∀ pre pool owner target x post,
    tr = pre ++ kev (OnAdopt (ApplyPool pool owner target)) x :: post → stamp_ok pre pool owner target).
Proof.
  eapply all_runs_mono; [|exact kafka_steps]. intros tr r Hj pre pool owner target x post Heq.
  exact (Hj _ _ _ Heq).
Qed.

(** C2. Every status of a pass is the status that was read with one condition replaced
    (a failure, or the report of a check that passed), or it is the final status: its
    CA parts and metadata version are those of this pass, and each of its conditions has
    a meaning, which holds of the log if it is [True] -- [Ready] and [Rolling] for the
    replicas that the pools report, [CaRotation] only while a CA is being rotated,
    [WaitingForLoadBalancerIp] only when a broker's load balancer had no address in this
    pass, [ListenersReady] only after the keystore was written and
    the ConfigMap applied, [KafkaVersionUpgrade] only when the target level was
    reached, [MetricsReady] and [NetworkPolicyReady] only after their parts succeeded. *)
Theorem kafka_status_truthful :
  all_runs (reconcile_inner cfg ts k) (λ tr _, ∀ pre n s x post,
    tr = pre ++ kev (PatchKafkaStatus n s) x :: post →
    n = name_any (k_meta k) ∧ (status_updated pre s ∨ status_final pre s)).
Proof.
  eapply all_runs_mono; [|exact kafka_steps]. intros tr r Hj pre n s x post Heq. exact (Hj _ _ _ Heq).
Qed.

(** The users of the cluster hold certificates of the active clients CA. *)
Definition users_current h (users : list (object_meta * option TlsAuth))
    (clients : CaReconcileOutcome) : Prop :=
  ∃ tr1 tr, tr ⊆ h ∧ Forall2 (lifted (resp2 := kresp) OnTls (λ _ x, x)) tr1 tr ∧
    ∀ user auth, live_user (exclude_reserved_operator_user users name) user auth →
      current_cert (signing_material clients) (trust_bundle_pem clients) tr1 user auth.

Lemma mark_users h n key value :
  mark_ok h n key value →
  n = clients_ca_cert_name name ∧ key = ANN_LEAFS_KEY_GENERATION ∧
  ∃ users clients converged, kev (ListUsers name) (Ok users) ∈ h ∧
    ca_reconciled h Clients converged clients ∧ value = display_Z (oc_key_generation clients) ∧
    users_current h users clients.
Proof.
  intros (-> & -> & users & clients & converged & issued & Hu & Hca & -> & Hran).
  split; [done|]. split; [done|]. exists users, clients, converged. split_and!; [done..|].
  pose proof (ran_spec _ _ _ _ _ _ (reissue_batch _ _ _ _) Hran) as (tr1 & tr & Hs & Hl & _ & Hres).
  exists tr1, tr. split_and!; [done..|]. by apply (Hres issued).
Qed.

(** C3. The clients CA is marked as having its leaf certificates reissued for a key
    generation only after every live TLS user of the cluster, other than the reserved
    ones, was given a certificate of that CA -- so that the rotation, which waits for the
    mark, drops the old key only when no user needs it. *)
Theorem leafs_marked_after_users :
  all_runs (reconcile_inner cfg ts k) (λ tr _, ∀ pre n key value x post,
    tr = pre ++ kev (OnTls (OnCa (MergeAnnotation n key value))) x :: post →
    n = clients_ca_cert_name (name_any (k_meta k)) ∧ key = ANN_LEAFS_KEY_GENERATION ∧
    ∃ users clients converged, kev (ListUsers (name_any (k_meta k))) (Ok users) ∈ pre ∧
      ca_reconciled pre Clients converged clients ∧
      value = display_Z (oc_key_generation clients) ∧ users_current pre users clients).
Proof.
  eapply all_runs_mono; [|exact kafka_steps]. intros tr r Hj pre n key value x post Heq.
  apply mark_users. exact (Hj _ _ _ Heq).
Qed.
End safety.
