(* ===== verification/DelegationToken.v ===== *)
(** * Delegation tokens of a user (src/controller/user_delegation_token.rs)

    [decide] over the spec, the live token and the clock; the pass that creates,
    renews or cycles the token, records its identity in the status and writes its
    credentials into the user's Secret; and the conditions it publishes on the
    way. *)

From S2P Require Import Prelude RustStd Effects Kube.
Local Open Scope Z_scope.

(** ** Data *)
Record KafkaPrincipal : Type := { principal_type : string; pr_name : string }.

Record DelegationToken : Type := {
  token_id : string;
  hmac : string;
  token_owner : KafkaPrincipal;
  token_renewers : list KafkaPrincipal;
  expiry_timestamp_ms : Z;
  max_timestamp_ms : Z;
}.

(** The fields of the status that this arm reads. *)
Record KafkaUserStatus : Type := {
  us_conditions : list KafkaCondition;
  us_observed_generation : option Z;
  delegation_token_id : option string;
  delegation_token_expiry_timestamp_ms : option Z;
  delegation_token_max_timestamp_ms : option Z;
}.

Record KafkaUser : Type := {
  ku_meta : object_meta;
  ku_status : option KafkaUserStatus;
}.

(** The merge patch of the status: the token identity (username, Secret name,
    id, expiry, maximum) and the conditions, each if present. *)
Record StatusPatch : Type := {
  sp_identity : option (string * string * string * Z * Z);
  sp_conditions : option (list KafkaCondition);
}.

Inductive ReconcileDecision : Type := Create | NoOp | Renew | Cycle.

Definition CODE_INVALID_REQUEST : Z := 42.
Definition CODE_DELEGATION_TOKEN_AUTH_DISABLED : Z := 61.
Definition CODE_DELEGATION_TOKEN_REQUEST_NOT_ALLOWED : Z := 64.
Definition CODE_DELEGATION_TOKEN_AUTHORIZATION_FAILED : Z := 65.

Section token.
Context `{TimeOps Time}.
(** The security crate's [Display] and [FromStr] of a principal, base64, and the
    [Display] of the client libraries' errors. *)
Context (principal_str : KafkaPrincipal → string)
        (parse_principal : string → result KafkaPrincipal string)
        (base64 : string → string)
        (display_admin : AdminError → string) (display_kube : kube_error → string).

Record DelegationTokenAuth : Type := {
  renewers : list string;
  max_lifetime : option Time;
  renew_before_expiry : option Time;
}.

Record token_config : Type := {
  delegation_token_min_requeue : Time;
  delegation_token_max_requeue : Time;
  delegation_token_invalid_requeue : Time;
  delegation_token_transient_backoff : Time;
}.

(** [hours(24)] *)
Definition DEFAULT_RENEW_BEFORE_EXPIRY : Time := from_secs (24 * 3600).

Definition renew_before (auth : DelegationTokenAuth) : Time :=
  default DEFAULT_RENEW_BEFORE_EXPIRY (renew_before_expiry auth).

Definition until_expiry (token : DelegationToken) (now_ms : Z) : Time :=
  from_millis (wrap_i64 (expiry_timestamp_ms token - now_ms)).

(** ** The decision *)
Definition expected_renewers (auth : DelegationTokenAuth) : gset string :=
  list_to_set (renewers auth).
Definition actual_renewers (token : DelegationToken) : gset string :=
  list_to_set (map principal_str (token_renewers token)).

Definition decide (auth : DelegationTokenAuth) (existing : option DelegationToken) (now_ms : Z)
  : ReconcileDecision :=
  match existing with
  | None => Create
  | Some token =>
      if negb (bool_decide (expected_renewers auth = actual_renewers token)) then Cycle
      else if time_leb (until_expiry token now_ms) (renew_before auth) then Renew
      else NoOp
  end.

Definition compute_requeue (token : DelegationToken) (auth : DelegationTokenAuth) (now_ms : Z)
    (min_requeue max_requeue : Time) : Time :=
  time_min (time_max (time_sub (until_expiry token now_ms) (renew_before auth)) min_requeue)
    max_requeue.

(** ** Conditions *)
Section conditions.
Context (ts : string).
Notation condition := (condition ts).

Definition compute_conditions (token : DelegationToken) (auth : DelegationTokenAuth) (now_ms : Z)
    (issued_ok : bool) (issued_reason : option (string * string)) : list KafkaCondition :=
  let issued :=
    if issued_ok then
      [condition "Ready" "True" "TokenReady" "delegation token, Secret, ACLs, and quotas in sync";
       condition "TokenIssued" "True" "Issued" "delegation token in sync"]
    else
      let '(reason, msg) := default ("IssueFailed", "issue failed") issued_reason in
      [condition "Ready" "False" reason msg; condition "TokenIssued" "False" reason msg] in
  let expiring :=
    time_ltb (until_expiry token now_ms) (time_add (renew_before auth) (renew_before auth)) in
  issued ++
  [if expiring then
     condition "TokenExpiring" "True" "WithinRenewalHorizon"
       ("expiry < 2" +:+ bytes [195; 151]%nat +:+ " renewBeforeExpiry from now")
   else
     condition "TokenExpiring" "False" "Healthy" "expiry comfortably outside renewal horizon"].

Definition of_type (ty : string) (c : KafkaCondition) : bool := str_eqb (type_ c) ty.

Definition replace_condition (conditions : list KafkaCondition) (ty st reason message : string)
  : list KafkaCondition :=
  let replacement := condition ty st reason message in
  if opt_is_some (find_first (of_type ty) conditions) then
    update_first (of_type ty) (λ existing,
      if str_eqb (status existing) st
      then {| type_ := ty; status := st; reason := reason; message := message;
              last_transition_time := last_transition_time existing |}
      else replacement) conditions
  else if str_eqb ty "Ready" then replacement :: conditions
  else conditions ++ [replacement].

Definition replace_ready_condition (conditions : list KafkaCondition) (st reason message : string)
  : list KafkaCondition := replace_condition conditions "Ready" st reason message.

Definition transition_ready_condition (conditions : list KafkaCondition) (st reason message : string)
  : list KafkaCondition :=
  let ready := condition "Ready" st reason message in
  if opt_is_some (find_first (of_type "Ready") conditions)
  then update_first (of_type "Ready") (λ _, ready) conditions
  else ready :: conditions.

Definition with_history (previous : list KafkaCondition) (current : KafkaCondition) : KafkaCondition :=
  if str_eqb (type_ current) "Ready" then default current (find_first (of_type "Ready") previous)
  else
    match find_first (λ p, str_eqb (type_ p) (type_ current) && str_eqb (status p) (status current))
            previous with
    | Some p => {| type_ := type_ current; status := status current; reason := reason current;
                   message := message current; last_transition_time := last_transition_time p |}
    | None => current
    end.

Definition conditions_with_history (obj : KafkaUser) (token : DelegationToken)
    (auth : DelegationTokenAuth) (now_ms : Z) : list KafkaCondition :=
  let conditions := compute_conditions token auth now_ms true None in
  match ku_status obj with
  | None => conditions
  | Some st => map (with_history (us_conditions st)) conditions
  end.

Definition inherit_published_ready (conditions published : list KafkaCondition)
  : list KafkaCondition :=
  match find_first (of_type "Ready") published with
  | None => conditions
  | Some ready =>
      if opt_is_some (find_first (of_type "Ready") conditions)
      then update_first (of_type "Ready") (λ _, ready) conditions
      else ready :: conditions
  end.

Definition has_condition (ty st : string) (conditions : list KafkaCondition) : bool :=
  existsb (λ c, str_eqb (type_ c) ty && str_eqb (status c) st) conditions.

Definition status_has_current_ready_token (obj : KafkaUser) (token : DelegationToken) : bool :=
  match ku_status obj with
  | None => false
  | Some st =>
      bool_decide (delegation_token_id st = Some (token_id token))
      && bool_decide (delegation_token_expiry_timestamp_ms st = Some (expiry_timestamp_ms token))
      && bool_decide (delegation_token_max_timestamp_ms st = Some (max_timestamp_ms token))
      && bool_decide (us_observed_generation st = om_generation (ku_meta obj))
      && existsb (λ c, str_eqb (type_ c) "Ready" && str_eqb (status c) "True"
                       && str_eqb (reason c) "TokenReady") (us_conditions st)
      && has_condition "TokenIssued" "True" (us_conditions st)
  end.

Definition existing_token_conditions (obj : KafkaUser) : option (list KafkaCondition) :=
  and_then (ku_status obj) (λ st,
  and_then (delegation_token_id st) (λ _,
  if negb (has_condition "TokenIssued" "True" (us_conditions st)) then None
  else Some (us_conditions st))).

Definition build_token_identity_patch (token : DelegationToken)
    (conditions : option (list KafkaCondition)) : StatusPatch :=
  {| sp_identity := Some (pr_name (token_owner token), pr_name (token_owner token), token_id token,
                          expiry_timestamp_ms token, max_timestamp_ms token);
     sp_conditions := conditions |}.

Definition build_failure_status_patch (conditions : list KafkaCondition) : StatusPatch :=
  {| sp_identity := None; sp_conditions := Some conditions |}.
End conditions.

(** ** The Secret *)
Definition build_secret_data (token : DelegationToken) : gmap string string :=
  let hmac_b64 := base64 (hmac token) in
  let jaas := "org.apache.kafka.common.security.scram.ScramLoginModule required username="
    +:+ quote +:+ token_id token +:+ quote +:+ " password=" +:+ quote +:+ hmac_b64 +:+ quote
    +:+ " tokenauth=" +:+ quote +:+ "true" +:+ quote +:+ ";" in
  {["token-id" := token_id token; "hmac" := hmac token; "password" := hmac_b64;
    "sasl.jaas.config" := jaas]}.

Definition user_owner_ref (obj : KafkaUser) : result owner_reference ReconcileError :=
  match om_uid (ku_meta obj) with
  | None => Err MissingUid
  | Some uid => Ok {| or_kind := "KafkaUser"; or_name := default "" (om_name (ku_meta obj)); or_uid := uid |}
  end.

Definition secret_labels (obj : KafkaUser) : gmap string string :=
  let base := {["app.kubernetes.io/name" := "krabka-broker";
                "app.kubernetes.io/managed-by" := "krabka-operator"]} in
  let with_cluster := match label (ku_meta obj) "krabka.io/cluster" with
                      | Some cluster => <["krabka.io/cluster" := cluster]> base
                      | None => base
                      end in
  <["krabka.io/user" := default "" (om_name (ku_meta obj))]> with_cluster.

Definition build_secret (obj : KafkaUser) (token : DelegationToken) : result secret ReconcileError :=
  let? owner := user_owner_ref obj in
  Ok {| sec_meta :=
          {| om_name := Some (default "" (om_name (ku_meta obj)));
             om_namespace := om_namespace (ku_meta obj);
             om_uid := None; om_labels := Some (secret_labels obj); om_annotations := None;
             om_finalizers := None; om_generation := None; om_deleting := false;
             om_owners := [owner] |};
        sec_data := Some (build_secret_data token) |}.

(** ** The pass *)
Inductive token_call : Type :=
  | DescribeTokens (owner : KafkaPrincipal)
  | CreateToken (owner : KafkaPrincipal) (renewers : list KafkaPrincipal) (lifetime : option Time)
  | RenewToken (hmac : string)
  | ExpireToken (hmac : string)
  | PatchUserStatus (name : string) (body : StatusPatch)
  | ApplySecret (s : secret).

Definition token_resp (c : token_call) : Type :=
  match c with
  | DescribeTokens _ => result (list DelegationToken) AdminError
  | CreateToken _ _ _ => result DelegationToken AdminError
  | RenewToken _ => result Z AdminError
  | ExpireToken _ => result unit AdminError
  | PatchUserStatus _ _ | ApplySecret _ => result unit kube_error
  end.

Notation pass R := (prog token_resp (result R (option ReconcileError))).
Notation call := (perform (resp := token_resp)).

Record ReconcileOutcome : Type := {
  ro_action : action Time;
  ro_conditions : option (list KafkaCondition);
  ro_token_requeue : option Time;
  ro_pending_published : bool;
}.

(** [DelegationTokenAdmin for AdminClientHandle]: strings are parsed before the
    request is sent. *)
Fixpoint parse_principals (l : list string) : result (list KafkaPrincipal) AdminError :=
  match l with
  | [] => Ok []
  | s :: l =>
      let? p := map_err InvalidArgument (parse_principal s) in
      let? ps := parse_principals l in
      Ok (p :: ps)
  end.

Definition create_delegation_token_as_owner (owner : string) (renewers : list string)
    (lifetime : option Time) : prog token_resp (result DelegationToken AdminError) :=
  match parse_principals renewers with
  | Err e => Ret (Err e)
  | Ok ps => call (CreateToken {| principal_type := "User"; pr_name := owner |} ps lifetime)
  end.

Definition describe_delegation_tokens_owned_by (owner : string)
  : prog token_resp (result (list DelegationToken) AdminError) :=
  match map_err InvalidArgument (parse_principal owner) with
  | Err e => Ret (Err e)
  | Ok p => call (DescribeTokens p)
  end.

Section pass.
Context (ts : string) (obj : KafkaUser) (auth : DelegationTokenAuth) (now_ms : Z) (cfg : token_config).
Let name : string := default "" (om_name (ku_meta obj)).

Definition patch_status (body : StatusPatch) : pass unit :=
  patched ← call (PatchUserStatus name body);
  Ret (map_err (λ e, Some (Kube e)) patched).

Definition not_issued (conds : list KafkaCondition) (reason message : string)
  : list KafkaCondition :=
  List.filter (λ c, negb (of_type "TokenExpiring" c))
    (replace_condition ts conds "TokenIssued" "False" reason message).

Definition publish_token_pending (prior : list KafkaCondition) (token_live : bool)
  : pass (list KafkaCondition) :=
  let pending := replace_ready_condition ts prior "False" "TokenPending"
    "delegation-token credential and access reconciliation pending" in
  let conditions := if token_live then pending
    else not_issued pending "TokenPending" "delegation token not yet issued" in
  _ ←? patch_status (build_failure_status_patch conditions);
  Ret (Ok conditions).

Definition classify_admin_error (err : AdminError) (op : string) : string * string * Time :=
  match err with
  | Broker _ code code_name _ =>
      if code =? CODE_INVALID_REQUEST then
        ("InvalidSpec", op +:+ ": INVALID_REQUEST (42)", delegation_token_invalid_requeue cfg)
      else if code =? CODE_DELEGATION_TOKEN_AUTH_DISABLED then
        ("BrokerAuthDisabled", op +:+ ": DELEGATION_TOKEN_AUTH_DISABLED (61)",
         delegation_token_transient_backoff cfg)
      else if code =? CODE_DELEGATION_TOKEN_REQUEST_NOT_ALLOWED then
        ("OperatorTokenAuthed", op +:+ ": DELEGATION_TOKEN_REQUEST_NOT_ALLOWED (64)",
         delegation_token_transient_backoff cfg)
      else if code =? CODE_DELEGATION_TOKEN_AUTHORIZATION_FAILED then
        ("OperatorNotSuperUser", op +:+ ": DELEGATION_TOKEN_AUTHORIZATION_FAILED (65)",
         delegation_token_transient_backoff cfg)
      else
        ("BrokerError", op +:+ ": " +:+ code_name +:+ " (" +:+ display_Z code +:+ ")",
         delegation_token_transient_backoff cfg)
  | other => ("Transport", op +:+ ": " +:+ display_admin other, delegation_token_transient_backoff cfg)
  end.

Definition on_admin_error (err : AdminError) (op : string) (prior : option (list KafkaCondition))
    (token_live : bool) : pass ReconcileOutcome :=
  let '(reason, message, requeue) := classify_admin_error err op in
  let failed := replace_ready_condition ts (default [] prior) "False" reason message in
  let conds := if token_live then failed else not_issued failed reason message in
  _ ←? patch_status (build_failure_status_patch conds);
  Ret (Ok {| ro_action := Requeue requeue; ro_conditions := None; ro_token_requeue := None;
             ro_pending_published := false |}).

(** A decision driven: the live token, its requeue and what was published as
    pending, or the end of the pass. *)
Inductive driven : Type :=
  | Live (token : DelegationToken) (requeue : Time) (pending : option (list KafkaCondition))
  | Finished (o : ReconcileOutcome).

Definition finish (p : pass ReconcileOutcome) : pass driven := o ←? p; Ret (Ok (Finished o)).

Definition requeue_of (token : DelegationToken) : Time :=
  compute_requeue token auth now_ms (delegation_token_min_requeue cfg)
    (delegation_token_max_requeue cfg).

Definition issue_new_token : prog token_resp (result DelegationToken AdminError) :=
  create_delegation_token_as_owner name (renewers auth) (max_lifetime auth).

(** Issue a token, once [pending] has been published. *)
Definition issue (pending : list KafkaCondition) : pass driven :=
  issued ← issue_new_token;
  match issued with
  | Ok t => Ret (Ok (Live t (requeue_of t) (Some pending)))
  | Err e => finish (on_admin_error e "CreateDelegationToken" (Some pending) false)
  end.

Definition drive_create : pass driven :=
  let prior := match ku_status obj with Some st => us_conditions st | None => [] end in
  pending ←? publish_token_pending prior false;
  issue pending.

Definition with_expiry (t : DelegationToken) (expiry : Z) : DelegationToken :=
  {| token_id := token_id t; hmac := hmac t; token_owner := token_owner t;
     token_renewers := token_renewers t; expiry_timestamp_ms := expiry;
     max_timestamp_ms := max_timestamp_ms t |}.

Definition drive_renew (t : DelegationToken) : pass driven :=
  renewed ← call (RenewToken (hmac t));
  match renewed with
  | Ok expiry =>
      let t := with_expiry t expiry in
      Ret (Ok (Live t (requeue_of t) None))
  | Err e =>
      finish (on_admin_error e "RenewDelegationToken"
        (Some (conditions_with_history ts obj t auth now_ms)) true)
  end.

Definition drive_cycle (t : DelegationToken) : pass driven :=
  let live_conditions := conditions_with_history ts obj t auth now_ms in
  pending ←? publish_token_pending live_conditions true;
  expired ← call (ExpireToken (hmac t));
  match expired with
  | Err e => finish (on_admin_error e "ExpireDelegationToken" (Some live_conditions) true)
  | Ok _ => issue pending
  end.

Definition select_token (existing : list DelegationToken) : option DelegationToken :=
  or_else
    (and_then (and_then (ku_status obj) delegation_token_id)
       (λ id, find_first (λ t, str_eqb (token_id t) id) existing))
    (head existing).

(** [expect] on the token of a decision that has one: [Err None] is a panic. *)
Definition drive (existing : list DelegationToken) : pass driven :=
  let matching := select_token existing in
  match decide auth matching now_ms, matching with
  | Create, _ => drive_create
  | NoOp, Some t => Ret (Ok (Live t (requeue_of t) None))
  | Renew, Some t => drive_renew t
  | Cycle, Some t => drive_cycle t
  | _, None => Ret (Err None)
  end.

(** Publish what is pending, persist the identity, then expose the Secret. *)
Definition persist (token : DelegationToken) (requeue : Time)
    (pending : option (list KafkaCondition)) : pass ReconcileOutcome :=
  let conditions := conditions_with_history ts obj token auth now_ms in
  pending ←? (if negb (opt_is_some pending) && negb (status_has_current_ready_token obj token)
              then published ←? publish_token_pending conditions true; Ret (Ok (Some published))
              else Ret (Ok pending));
  let conditions := match pending with
                    | Some published => inherit_published_ready conditions published
                    | None => conditions
                    end in
  _ ←? patch_status (build_token_identity_patch token pending);
  match build_secret obj token with
  | Err e => Ret (Err (Some e))
  | Ok s =>
      applied ← call (ApplySecret s);
      match applied with
      | Err e =>
          let failed := replace_ready_condition ts (default conditions pending) "False"
            "SecretWriteFailed" ("kube error: " +:+ display_kube e) in
          _ ←? patch_status (build_failure_status_patch failed);
          Ret (Err (Some (Kube e)))
      | Ok _ =>
          Ret (Ok {| ro_action := Requeue requeue; ro_conditions := Some conditions;
                     ro_token_requeue := Some requeue;
                     ro_pending_published := opt_is_some pending |})
      end
  end.

Definition reconcile : pass ReconcileOutcome :=
  described ← describe_delegation_tokens_owned_by ("User:" +:+ name);
  match described with
  | Err e =>
      let prior := existing_token_conditions obj in
      on_admin_error e "DescribeDelegationToken" prior (opt_is_some prior)
  | Ok existing =>
      d ←? drive existing;
      match d with
      | Finished o => Ret (Ok o)
      | Live token requeue pending => persist token requeue pending
      end
  end.

(** The finalizer's clean-up. *)
Definition expire_owned_tokens : prog token_resp (result unit AdminError) :=
  described ← describe_delegation_tokens_owned_by ("User:" +:+ name);
  match described with
  | Err e => Ret (Err e)
  | Ok tokens =>
      failed ← for_each tokens (λ t,
        expired ← call (ExpireToken (hmac t));
        Ret (match expired with Ok _ => None | Err e => Some e end));
      Ret (match failed with Some e => Err e | None => Ok tt end)
  end.
End pass.
End token.

(** ** Withdrawn readiness *)
Definition withdrawn (conds : list KafkaCondition) : Prop :=
  ∃ c, find_first (of_type "Ready") conds = Some c ∧ status c = "False".

Lemma find_first_update_first {A} (p : A → bool) f l x :
  find_first p l = Some x → p (f x) = true → find_first p (update_first p f l) = Some (f x).
Proof.
  induction l as [|y l IH]; [done|]. cbn. destruct (p y) eqn:Hy; cbn.
  - intros [= ->] ->. done.
  - rewrite Hy. auto.
Qed.

Lemma find_first_update_other {A} (p q : A → bool) f l :
  (∀ x, p x = true → q x = false ∧ q (f x) = false) →
  find_first q (update_first p f l) = find_first q l.
Proof.
  intros Hpq. induction l as [|y l IH]; [done|]. cbn. destruct (p y) eqn:Hy; cbn.
  - destruct (Hpq y Hy) as [-> ->]. done.
  - by rewrite IH.
Qed.

Lemma find_first_app_no {A} (q : A → bool) l x :
  q x = false → find_first q (l ++ [x]) = find_first q l.
Proof. intros Hx. induction l as [|y l IH]; cbn; [by rewrite Hx|]. by rewrite IH. Qed.

Lemma find_first_List_filter {A} (p q : A → bool) l :
  (∀ x, q x = true → p x = true) → find_first q (List.filter p l) = find_first q l.
Proof.
  intros Hpq. induction l as [|y l IH]; [done|]. cbn. destruct (p y) eqn:Hp; cbn.
  - by rewrite IH.
  - destruct (q y) eqn:Hq; [|done]. apply Hpq in Hq. congruence.
Qed.

Lemma of_type_other a b c : a ≠ b → of_type a c = true → of_type b c = false.
Proof. unfold of_type. rewrite str_eqb_eq, str_eqb_neq. congruence. Qed.

Lemma withdrawn_replace_ready ts conds reason message :
  withdrawn (replace_ready_condition ts conds "False" reason message).
Proof.
  unfold withdrawn, replace_ready_condition, replace_condition.
  destruct (find_first (of_type "Ready") conds) as [c|] eqn:Hc; cbn [opt_is_some].
  - eexists. split; [apply find_first_update_first; [exact Hc|]|]; by case_match.
  - eexists. split; reflexivity.
Qed.

Lemma withdrawn_not_issued ts conds reason message :
  withdrawn conds → withdrawn (not_issued ts conds reason message).
Proof.
  intros (c & Hc & Hs). exists c. split; [|done]. unfold not_issued.
  rewrite find_first_List_filter.
  2: { intros x Hx. by rewrite (of_type_other "Ready" "TokenExpiring" x). }
  unfold replace_condition. case_match; cbn.
  - rewrite find_first_update_other; [done|]. intros x Hx. split; [by apply (of_type_other "TokenIssued")|].
    by destruct (str_eqb (status x) "False").
  - change (find_first (of_type "Ready") (conds ++ [condition ts "TokenIssued" "False" reason message]) = Some c).
    by rewrite find_first_app_no.
Qed.

Create HintDb token.
#[export] Hint Resolve withdrawn_replace_ready withdrawn_not_issued : token.

(** ** The decision *)
Section decision.
Context `{TimeOps Time} (principal_str : KafkaPrincipal → string)
        (auth : DelegationTokenAuth (Time := Time)) (now_ms : Z).

Definition renewers_differ (t : DelegationToken) : Prop :=
  expected_renewers auth ≠ actual_renewers principal_str t.

Definition due (t : DelegationToken) : bool :=
  time_leb (until_expiry t now_ms) (renew_before auth).

Lemma decide_Create existing : decide principal_str auth existing now_ms = Create → existing = None.
Proof. destruct existing; [|done]. cbn. by repeat case_match. Qed.

Lemma decide_Some t :
  match decide principal_str auth (Some t) now_ms with
  | Create => False
  | Cycle => renewers_differ t
  | Renew => ¬ renewers_differ t ∧ due t = true
  | NoOp => ¬ renewers_differ t ∧ due t = false
  end.
Proof.
  unfold decide, renewers_differ, due.
  destruct (bool_decide (expected_renewers auth = actual_renewers principal_str t)) eqn:Hb; cbn.
  - apply bool_decide_eq_true in Hb. destruct (time_leb _ _); naive_solver.
  - by apply bool_decide_eq_false in Hb.
Qed.
End decision.

(** ** What a pass may do *)
Section claims.
Context `{TimeOps Time} (principal_str : KafkaPrincipal → string)
        (parse_principal : string → result KafkaPrincipal string) (base64 : string → string)
        (display_admin : AdminError → string) (display_kube : kube_error → string).
Context (ts : string) (obj : KafkaUser) (auth : DelegationTokenAuth (Time := Time)) (now_ms : Z)
        (cfg : token_config (Time := Time)).
Notation resp := (token_resp (Time := Time)).
Notation reconcile := (reconcile principal_str parse_principal base64 display_admin display_kube
                         ts obj auth now_ms cfg).
Notation renewers_differ := (renewers_differ principal_str auth).
Notation due := (due auth now_ms).
Implicit Types (pre tr : list (event resp)).

Definition user_name : string := default "" (om_name (ku_meta obj)).
Definition user_principal : KafkaPrincipal := {| principal_type := "User"; pr_name := user_name |}.

(** The token the pass works on, from the brokers' answer. *)
Definition selected pre (o : option DelegationToken) : Prop :=
  ∃ p existing, parse_principal ("User:" +:+ user_name) = Ok p ∧
    ev (resp := resp) (DescribeTokens p) (Ok existing) ∈ pre ∧ select_token obj existing = o.

(** The API server took a status with [Ready=False]. *)
Definition readiness_withdrawn pre : Prop :=
  ∃ conds, ev (resp := resp) (PatchUserStatus user_name (build_failure_status_patch conds)) (Ok tt)
             ∈ pre ∧ withdrawn conds.

(** The token the credentials of a pass come from. *)
Definition live pre (t : DelegationToken) : Prop :=
  (∃ ps, ev (resp := resp) (CreateToken user_principal ps (max_lifetime auth)) (Ok t) ∈ pre) ∨
  (∃ t0 expiry, selected pre (Some t0) ∧
     ev (resp := resp) (RenewToken (hmac t0)) (Ok expiry) ∈ pre ∧ t = with_expiry t0 expiry) ∨
  (selected pre (Some t) ∧ ¬ renewers_differ t ∧ due t = false).

Definition credential_step pre (e : event resp) : Prop :=
  match projT1 e with
  | ExpireToken h =>
      readiness_withdrawn pre ∧ ∃ t, selected pre (Some t) ∧ renewers_differ t ∧ h = hmac t
  | RenewToken h =>
      ∃ t, selected pre (Some t) ∧ ¬ renewers_differ t ∧ due t = true ∧ h = hmac t
  | CreateToken owner ps lifetime =>
      readiness_withdrawn pre ∧ owner = user_principal ∧ lifetime = max_lifetime auth ∧
      parse_principals parse_principal (renewers auth) = Ok ps ∧
      (selected pre None ∨
       ∃ t, selected pre (Some t) ∧ renewers_differ t ∧
            ev (resp := resp) (ExpireToken (hmac t)) (Ok tt) ∈ pre)
  | _ => True
  end.

Definition exposure_step pre (e : event resp) : Prop :=
  match projT1 e with
  | PatchUserStatus n body =>
      n = user_name ∧
      (∀ conds, sp_conditions body = Some conds → withdrawn conds) ∧
      (is_Some (sp_identity body) →
       ∃ t conds, live pre t ∧ body = build_token_identity_patch t conds)
  | ApplySecret s =>
      ∃ t conds, live pre t ∧ build_secret base64 obj t = Ok s ∧
        ev (resp := resp) (PatchUserStatus user_name (build_token_identity_patch t conds)) (Ok tt)
          ∈ pre ∧
        (status_has_current_ready_token obj t = true ∨ readiness_withdrawn pre)
  | _ => True
  end.

(** The clean-up lists the tokens of the user and expires the listed ones, nothing
    else. *)
Definition cleanup_step pre (e : event resp) : Prop :=
  match projT1 e with
  | DescribeTokens p => parse_principal ("User:" +:+ user_name) = Ok p
  | ExpireToken h =>
      ∃ p tokens t, parse_principal ("User:" +:+ user_name) = Ok p ∧
        ev (resp := resp) (DescribeTokens p) (Ok tokens) ∈ pre ∧ t ∈ tokens ∧ h = hmac t
  | _ => False
  end.

Lemma cleanup_step_mono pre pre' e : pre ⊆ pre' → cleanup_step pre e → cleanup_step pre' e.
Proof. destruct e as [[] x]; cbn; try done. intros Hs (p & tokens & t & ? & ? & ?). exists p, tokens, t. auto. Qed.

Lemma expire_owned_tokens_steps :
  all_runs (expire_owned_tokens parse_principal obj) (λ tr _, justified cleanup_step tr).
Proof.
  unfold all_runs, expire_owned_tokens, describe_delegation_tokens_owned_by.
  destruct (parse_principal _) as [p|e] eqn:Hp; [|apply justified_nil]. cbn [map_err].
  eapply (always_seq _ _ _ (λ h r, justified cleanup_step h ∧
    ∀ tokens, r = Ok tokens → ev (resp := resp) (DescribeTokens p) (Ok tokens) ∈ h)).
  { intros x. split; [apply justified_snoc; split; [apply justified_nil|exact Hp]|]. intros tokens ->. by apply list_elem_of_singleton. }
  intros h [tokens|e] _ [Hok Hin]; [|done]. specialize (Hin tokens eq_refl).
  eapply (always_seq _ _ _ (λ h' _, justified cleanup_step h')); [|by intros h' [e|] _ Hok'].
  assert (∀ t, t ∈ tokens → t ∈ tokens) as Hsub by done. revert Hsub. generalize tokens at 1 3. intros l.
  revert h Hok Hin. induction l as [|t l IH]; intros h Hok Hin Hsub; cbn [for_each]; [done|].
  eapply (always_seq _ _ _ (λ h' _, justified cleanup_step h')).
  { intros x. apply justified_snoc. split; [done|]. exists p, tokens, t. split_and!; [done..| |done]. apply Hsub. by left. }
  intros h' [e|] Hs Hok'; [done|]. apply IH; [done|by apply Hs|]. intros t' Ht'. apply Hsub. by right.
Qed.

Ltac member := solve [cbn [app]; in_log].
Ltac chosen := eexists _, _; split; [eassumption|]; split; [member|done].
Ltac withdrawn_before := eexists; split; [member|eauto with token].

Ltac show_live :=
  first [ left; eexists; member
        | right; left; eexists _, _; split; [chosen|]; split; [member|reflexivity]
        | right; right; split; [chosen|]; split; assumption ].

Ltac show_credential :=
  unfold credential_step; cbn [projT1 ev];
  first
    [ exact I
    | split; [withdrawn_before|]; eexists; split; [chosen|]; split; [assumption|reflexivity]
    | eexists; split; [chosen|]; split; [assumption|]; split; [assumption|reflexivity]
    | split; [withdrawn_before|]; split; [reflexivity|]; split; [reflexivity|]; split; [assumption|];
      first [ left; chosen
            | right; eexists; split; [chosen|]; split; [assumption|member] ] ].

Ltac show_withdrawn := first [ solve [eauto with token] | case_match; solve [eauto with token] ].

Ltac show_exposure :=
  unfold exposure_step; cbn [projT1 ev];
  first
    [ exact I
    | split; [reflexivity|]; split;
      [ cbn [sp_conditions build_failure_status_patch build_token_identity_patch]; intros ? Hc; first [discriminate Hc | injection Hc as <-; show_withdrawn]
      | first [ intros [? Hi]; discriminate Hi
              | intros _; eexists _, _; split; [show_live|reflexivity] ] ]
    | eexists _, _; split; [show_live|]; split; [eassumption|]; split; [member|];
      first [ right; withdrawn_before
            | left; match goal with H : _ && negb _ = false |- _ => by apply negb_false_iff in H end ] ].

(** What the decision says of the selected token. *)
Ltac decided :=
  match goal with
  | Ho : select_token obj ?l = Some _, Hd : decide _ _ (select_token obj ?l) _ = _ |- _ =>
      rewrite Ho in Hd
  | Hd : decide _ _ (Some ?t) _ = _ |- _ =>
      let Hs := fresh "Hs" in
      pose proof (decide_Some principal_str auth now_ms t) as Hs; rewrite Hd in Hs;
      cbv iota in Hs; clear Hd; destruct_and? Hs
  | Hd : decide _ _ ?o _ = Create |- _ => apply decide_Create in Hd
  end.

(** The pass has written the Secret of the live token. *)
Definition secret_written tr : Prop :=
  ∃ t s, live tr t ∧ build_secret base64 obj t = Ok s ∧
         ev (resp := resp) (ApplySecret s) (Ok tt) ∈ tr.

Lemma pass_steps :
  all_runs reconcile (λ tr r,
    justified (λ pre e, credential_step pre e ∧ exposure_step pre e) tr ∧
    (∀ o conds, r = Ok o → ro_conditions o = Some conds → secret_written tr) ∧
    (∀ o, r = Ok o → ro_pending_published o = true → readiness_withdrawn tr) ∧ r ≠ Err None).
Proof.
  unfold all_runs, DelegationToken.reconcile, describe_delegation_tokens_owned_by, drive,
    drive_create, drive_renew, drive_cycle, issue, issue_new_token, finish,
    create_delegation_token_as_owner, persist, on_admin_error, publish_token_pending, patch_status.
  run_cases.
  all: try match goal with H : negb (opt_is_some (Some _)) && _ = true |- _ => discriminate H end.
  all: repeat match goal with u : unit |- _ => destruct u end.
  all: repeat decided.
  all: split; [|split; [intros ? ? [= <-]; cbn; first [done | intros _] |
                 split; [intros ? [= <-]; cbn [ro_pending_published opt_is_some];
                         first [discriminate | intros _; withdrawn_before]
                        | solve [done | congruence]]]].
  all: try (eexists _, _; split; [show_live|]; split; [eassumption|member]).
  all: repeat (rewrite justified_snoc; split); [exact (justified_nil _)|..].
  all: split; [show_credential|show_exposure].
Qed.

(** The status for a connection that failed. *)
Lemma on_admin_error_steps err op prior token_live :
  all_runs (on_admin_error display_admin ts obj cfg err op prior token_live) (λ tr _,
    justified (λ pre e, credential_step pre e ∧ exposure_step pre e) tr).
Proof.
  unfold all_runs, on_admin_error, patch_status. run_cases.
  all: repeat (rewrite justified_snoc; split); [exact (justified_nil _)|..].
  all: split; [show_credential|show_exposure].
Qed.

(** C17. A token is touched only as declared, and never while the user looks
    ready.  The pass renews the token it selected (the one the status records,
    else the first the brokers listed) only if its renewers are the declared
    ones and it is due; it expires that token only if its renewers differ; and
    it issues a token, for this user with the declared renewers and lifetime,
    only if the brokers listed none or the old one has just been expired.
    Before expiring and before issuing, the API server has taken a status with
    [Ready=False]. *)
Theorem token_changed_as_declared :
  all_runs reconcile (λ tr _, justified credential_step tr).
Proof.
  eapply all_runs_mono; [|apply pass_steps]. intros tr r [Hj _] pre e post Heq. by eapply Hj.
Qed.

(** Credentials are exposed in order.  Every condition list that the pass
    writes says [Ready=False]; the identity it records is that of the live
    token: the one just issued, the one just renewed with its new expiry, or the
    selected one when it is neither due nor changed.  The Secret is written only
    after that identity was recorded, with the credentials of the same token,
    and while either the status already showed this very token as ready or
    readiness has been withdrawn.  A pass that goes on to access control has
    written the Secret, and no pass panics. *)
Theorem token_exposed_in_order :
  all_runs reconcile (λ tr r,
    justified exposure_step tr ∧
    (∀ o conds, r = Ok o → ro_conditions o = Some conds → secret_written tr) ∧ r ≠ Err None).
Proof.
  eapply all_runs_mono; [|apply pass_steps]. intros tr r (Hj & Hs & _ & Hp). split; [|done].
  intros pre e post Heq. by eapply Hj.
Qed.

(** *** What was logged stays logged *)
Lemma selected_mono pre pre' o : pre ⊆ pre' → selected pre o → selected pre' o.
Proof. intros Hs (p & l & Hp & He & Ho). exists p, l. auto. Qed.

Lemma readiness_withdrawn_mono pre pre' : pre ⊆ pre' → readiness_withdrawn pre → readiness_withdrawn pre'.
Proof. intros Hs (c & He & Hw). exists c. auto. Qed.

Lemma live_mono pre pre' t : pre ⊆ pre' → live pre t → live pre' t.
Proof.
  intros Hs [[ps Hc]|[(t0 & x & Hsel & Hr & ->)|[Hsel Hd]]].
  - left. exists ps. auto.
  - right. left. exists t0, x. eauto using selected_mono.
  - right. right. eauto using selected_mono.
Qed.

Lemma secret_written_mono pre pre' : pre ⊆ pre' → secret_written pre → secret_written pre'.
Proof. intros Hs (t & s & Hl & Hb & He). exists t, s. eauto using live_mono. Qed.

Lemma credential_step_mono pre pre' e : pre ⊆ pre' → credential_step pre e → credential_step pre' e.
Proof.
  intros Hs. destruct e as [[] x]; cbn; [done|..|done|done].
  - intros (Hw & Ho & Hl & Hp & Hsel). split_and!; eauto using readiness_withdrawn_mono.
    destruct Hsel as [Hsel|(t & Hsel & Hd & He)]; [left|right]; eauto using selected_mono.
    exists t. eauto using selected_mono.
  - intros (t & Hsel & Hd). eauto using selected_mono.
  - intros (Hw & t & Hsel & Hd). eauto 6 using selected_mono, readiness_withdrawn_mono.
Qed.

Lemma exposure_step_mono pre pre' e : pre ⊆ pre' → exposure_step pre e → exposure_step pre' e.
Proof.
  intros Hs. destruct e as [[] x]; cbn; [done|done|done|done|..].
  - intros (Hn & Hw & Hid). split_and!; [done..|]. intros Hi. destruct (Hid Hi) as (t & c & Hl & Hb).
    eauto using live_mono.
  - intros (t & c & Hl & Hb & He & Hr). exists t, c. split_and!; eauto using live_mono.
    destruct Hr; eauto using readiness_withdrawn_mono.
Qed.
End claims.

(** ** Renewal in time *)
Section renewal.
Context `{TimeLaws Time} (principal_str : KafkaPrincipal → string).
Implicit Types (auth : DelegationTokenAuth (Time := Time)).

Lemma time_leb_refl (a : Time) : time_leb a a = true.
Proof. destruct (time_leb a a) eqn:Ha; [done|]. by rewrite (time_leb_total a a Ha) in Ha. Qed.

Lemma time_min_l (a b : Time) : time_leb (time_min a b) a = true.
Proof.
  unfold time_min. destruct (time_leb a b) eqn:Hab.
  - apply time_leb_refl.
  - by apply time_leb_total.
Qed.

Lemma time_max_cases (a b : Time) : time_max a b = a ∨ time_max a b = b.
Proof. unfold time_max. case_match; auto. Qed.

(** A token left alone is seen again in time.  If the pass leaves a token
    as it is, and the shortest requeue is within the renewal lead, the pass is
    requeued at or before the token's expiry, and never later than the longest
    requeue. *)
Theorem token_seen_before_expiry auth t now_ms min_requeue max_requeue :
  decide principal_str auth (Some t) now_ms = NoOp →
  time_leb (from_millis 0) (renew_before auth) = true →
  time_leb min_requeue (renew_before auth) = true →
  let r := compute_requeue t auth now_ms min_requeue max_requeue in
  time_leb r (until_expiry t now_ms) = true ∧ time_leb r max_requeue = true.
Proof.
  intros Hd Hpos Hmin r. pose proof (decide_Some principal_str auth now_ms t) as Hs.
  rewrite Hd in Hs. destruct Hs as [_ Hdue]. split.
  - unfold r, compute_requeue. eapply time_leb_trans; [apply time_min_l|].
    destruct (time_max_cases (time_sub (until_expiry t now_ms) (renew_before auth)) min_requeue)
      as [-> | ->].
    + by apply time_sub_leb.
    + eapply time_leb_trans; [exact Hmin|]. by apply time_leb_total.
  - unfold r, compute_requeue, time_min. case_match; [done|apply time_leb_refl].
Qed.
End renewal.

Lemma token_seen_before_expiry_witness :
  let t := {| token_id := "id"; hmac := "key"; token_owner := {| principal_type := "User"; pr_name := "alice" |};
              token_renewers := []; expiry_timestamp_ms := 200000000; max_timestamp_ms := 600000000 |} in
  let auth := {| renewers := []; max_lifetime := None; renew_before_expiry := None (A := Z) |} in
  compute_requeue t auth 1000 60000 3600000 = 3600000 ∧
  time_leb (compute_requeue t auth 1000 60000 3600000) (until_expiry t 1000) = true.
Proof.
  intros t auth. split; [reflexivity|].
  apply (token_seen_before_expiry (Time := Z) pr_name auth t 1000 60000 3600000);
    vm_compute; reflexivity.
Defined.
