(* ===== verification/UserAcl.v ===== *)
(** * Users: data, ACLs and quotas (src/crd/user.rs, src/controller/user.rs)

    The spec of a KafkaUser, its validation, the expansion of its rules into the
    entries the brokers store, the difference with the live entries, and the
    quota map. *)

From S2P Require Import Prelude RustStd Effects DelegationToken Kube UserTls.
Local Open Scope Z_scope.

(** ** Rules of the spec *)
Inductive AclResourceKind : Type := Topic | Group | Cluster | TransactionalId.
Inductive AclPatternType : Type := Literal | Prefixed.
Inductive AclPermission : Type := Allow | Deny.
Inductive AclOp : Type :=
  | OpAll | OpRead | OpWrite | OpCreate | OpDelete | OpAlter | OpDescribe | OpClusterAction
  | OpDescribeConfigs | OpAlterConfigs | OpIdempotentWrite.

Record AclResource : Type := { kind : AclResourceKind; res_name : string; pattern_type : AclPatternType }.

Record AclRule : Type := {
  resource : AclResource;
  operations : list AclOp;
  rule_host : string;
  permission : AclPermission;
}.

(** [Authorization::Simple] is the only variant. *)
Record SimpleAuthorization : Type := { acls : list AclRule }.
Inductive Authorization : Type := Simple (s : SimpleAuthorization).

(** ** Entries of the admin client.  Of its enums, the values this code names; a
    broker may answer with others. *)
Inductive ResourceType : Type := RtTopic | RtGroup | RtCluster | RtTransactionalId | RtOther (code : Z).
Inductive PatternType : Type := PtLiteral | PtPrefixed | PtOther (code : Z).
Inductive PermissionType : Type := PermAllow | PermDeny | PermOther (code : Z).
Inductive AclOperation : Type :=
  | AoAll | AoRead | AoWrite | AoCreate | AoDelete | AoAlter | AoDescribe | AoClusterAction
  | AoDescribeConfigs | AoAlterConfigs | AoIdempotentWrite | AoOther (code : Z).

Record AclEntry : Type := {
  ae_resource_type : ResourceType;
  ae_resource_name : string;
  ae_pattern_type : PatternType;
  ae_principal : string;
  ae_host : string;
  ae_operation : AclOperation;
  ae_permission_type : PermissionType;
}.

#[export] Instance ResourceType_eq_dec : EqDecision ResourceType.
Proof. solve_decision. Defined.
#[export] Instance PatternType_eq_dec : EqDecision PatternType.
Proof. solve_decision. Defined.
#[export] Instance PermissionType_eq_dec : EqDecision PermissionType.
Proof. solve_decision. Defined.
#[export] Instance AclOperation_eq_dec : EqDecision AclOperation.
Proof. solve_decision. Defined.
#[export] Instance AclEntry_eq_dec : EqDecision AclEntry.
Proof. solve_decision. Defined.

(** [AclEntryFilter]: an absent field matches everything. *)
Record AclEntryFilter : Type := {
  af_resource_type : option ResourceType;
  af_resource_name : option string;
  af_pattern_type : option PatternType;
  af_principal : option string;
  af_host : option string;
  af_operation : option AclOperation;
  af_permission_type : option PermissionType;
}.

Definition principal_filter (principal : string) : AclEntryFilter :=
  {| af_resource_type := None; af_resource_name := None; af_pattern_type := None;
     af_principal := Some principal; af_host := None; af_operation := None;
     af_permission_type := None |}.

Definition entry_to_exact_filter (e : AclEntry) : AclEntryFilter :=
  {| af_resource_type := Some (ae_resource_type e); af_resource_name := Some (ae_resource_name e);
     af_pattern_type := Some (ae_pattern_type e); af_principal := Some (ae_principal e);
     af_host := Some (ae_host e); af_operation := Some (ae_operation e);
     af_permission_type := Some (ae_permission_type e) |}.

(** Which entries a filter of the broker selects. *)
Definition field_matches {A} `{EqDecision A} (f : option A) (v : A) : bool :=
  match f with Some w => bool_decide (w = v) | None => true end.

Definition filter_matches (f : AclEntryFilter) (e : AclEntry) : bool :=
  field_matches (af_resource_type f) (ae_resource_type e)
  && field_matches (af_resource_name f) (ae_resource_name e)
  && field_matches (af_pattern_type f) (ae_pattern_type e)
  && field_matches (af_principal f) (ae_principal e)
  && field_matches (af_host f) (ae_host e)
  && field_matches (af_operation f) (ae_operation e)
  && field_matches (af_permission_type f) (ae_permission_type e).

Definition resource_kind_to_admin (k : AclResourceKind) : ResourceType :=
  match k with
  | Topic => RtTopic
  | Group => RtGroup
  | Cluster => RtCluster
  | TransactionalId => RtTransactionalId
  end.

Definition pattern_to_admin (p : AclPatternType) : PatternType :=
  match p with Literal => PtLiteral | Prefixed => PtPrefixed end.

Definition permission_to_admin (p : AclPermission) : PermissionType :=
  match p with Allow => PermAllow | Deny => PermDeny end.

Definition op_to_admin (op : AclOp) : AclOperation :=
  match op with
  | OpAll => AoAll
  | OpRead => AoRead
  | OpWrite => AoWrite
  | OpCreate => AoCreate
  | OpDelete => AoDelete
  | OpAlter => AoAlter
  | OpDescribe => AoDescribe
  | OpClusterAction => AoClusterAction
  | OpDescribeConfigs => AoDescribeConfigs
  | OpAlterConfigs => AoAlterConfigs
  | OpIdempotentWrite => AoIdempotentWrite
  end.

Definition expand_rule (principal : string) (rule : AclRule) (op : AclOp) : AclEntry :=
  {| ae_resource_type := resource_kind_to_admin (kind (resource rule));
     ae_resource_name := res_name (resource rule);
     ae_pattern_type := pattern_to_admin (pattern_type (resource rule));
     ae_principal := principal;
     ae_host := rule_host rule;
     ae_operation := op_to_admin op;
     ae_permission_type := permission_to_admin (permission rule) |}.

Definition expand_spec_acls (auth : option Authorization) (principal : string) : list AclEntry :=
  match auth with
  | None => []
  | Some (Simple simple) =>
      concat (map (λ rule, map (expand_rule principal rule) (operations rule)) (acls simple))
  end.

(** A [BTreeSet] of entries: without repetition, in the entries' order. *)
Section btree_set.
Context {A : Type} `{EqDecision A} (leb : A → A → bool).

Definition to_btree_set (l : list A) : list A := sort_by leb (remove_dups l).
Definition difference (a b : list A) : list A :=
  List.filter (λ x, negb (bool_decide (x ∈ b))) a.
End btree_set.

Definition diff_acls (current desired : list AclEntry) : list AclEntry * list AclEntry :=
  (difference desired current, difference current desired).

(** ** Authentication, quotas, the resource *)
Record ScramAuth : Type := { iterations : option Z; password_length : option Z }.

Section user.
Context {Time F64 : Type}.
Context (f64_from : Z → F64).

Inductive Authentication : Type :=
  | ScramSha512 (s : ScramAuth)
  | ScramSha256 (s : ScramAuth)
  | Tls (t : TlsAuth)
  | TlsExternal
  | TokenAuth (t : DelegationTokenAuth (Time := Time)).   (* DelegationToken *)

Record KafkaUserQuotas : Type := {
  producer_byte_rate : option Z;
  consumer_byte_rate : option Z;
  request_percentage : option Z;
  controller_mutation_rate : option F64;
}.

Definition insert_some {A} (k : string) (v : option A) (m : gmap string A) : gmap string A :=
  match v with Some v => <[k := v]> m | None => m end.

Definition to_quota_map (q : KafkaUserQuotas) : gmap string F64 :=
  insert_some "controller_mutation_rate" (controller_mutation_rate q)
    (insert_some "request_percentage" (opt_map f64_from (request_percentage q))
      (insert_some "consumer_byte_rate" (opt_map f64_from (consumer_byte_rate q))
        (insert_some "producer_byte_rate" (opt_map f64_from (producer_byte_rate q)) ∅))).

Record KafkaUserSpec : Type := {
  authentication : Authentication;
  authorization : option Authorization;
  quotas : option KafkaUserQuotas;
}.

Record KafkaUserStatus : Type := {
  u_conditions : list KafkaCondition;
  u_observed_generation : option Z;
  u_username : option string;
  u_secret : option string;
  u_scram_sha512 : bool;
  u_scram_sha256 : bool;
  u_quotas_in_sync : bool;
  u_tls : bool;
  u_external : bool;
  u_tls_cert_not_after : option string;
  u_tls_principal : option string;
  u_token_id : option string;
  u_token_expiry_ms : option Z;
  u_token_max_ms : option Z;
}.

Record KafkaUser : Type := {
  u_meta : object_meta;
  u_spec : KafkaUserSpec;
  u_status : option KafkaUserStatus;
}.

(** The part of a user that the delegation-token pass works on. *)
Definition token_view (obj : KafkaUser) : DelegationToken.KafkaUser :=
  {| ku_meta := u_meta obj;
     ku_status := opt_map (λ st,
       {| us_conditions := u_conditions st;
          us_observed_generation := u_observed_generation st;
          delegation_token_id := u_token_id st;
          delegation_token_expiry_timestamp_ms := u_token_expiry_ms st;
          delegation_token_max_timestamp_ms := u_token_max_ms st |}) (u_status obj) |}.

Definition principal_for (name : string) (auth : Authentication) : string :=
  match auth with
  | ScramSha512 _ | ScramSha256 _ | TlsExternal | TokenAuth _ => "User:" +:+ name
  | Tls _ => tls_principal name
  end.

(** ** Validation *)
Context `{TimeOps Time}.
(** Conversions and tests of an extent: whole milliseconds, equality, whether the
    number of seconds is finite, and the text for people. *)
Context (millis_i64 : Time → Z) (time_eqb : Time → Time → bool) (is_finite : Time → bool)
        (human : Time → string).

Definition validate_delegation_token_time (path : string) (value minimum : Time) : result unit string :=
  let millis := millis_i64 value in
  if is_finite value && time_leb minimum value && time_eqb (from_millis millis) value then Ok tt
  else Err (path +:+ " must be finite, at least " +:+ human minimum
              +:+ ", and a whole number of milliseconds").

Definition validate_token_auth (auth : DelegationTokenAuth (Time := Time)) : result unit string :=
  let? _ := match max_lifetime auth with
            | Some t => validate_delegation_token_time "spec.authentication.maxLifetime" t (from_millis 1)
            | None => Ok tt
            end in
  match renew_before_expiry auth with
  | Some t => validate_delegation_token_time "spec.authentication.renewBeforeExpiry" t (from_secs 60)
  | None => Ok tt
  end.

Fixpoint validate_rules (i : nat) (rules : list AclRule) : result unit string :=
  match rules with
  | [] => Ok tt
  | rule :: rules =>
      if bool_decide (operations rule = []) then
        Err ("acls[" +:+ pretty i +:+ "].operations is empty")
      else if is_empty (res_name (resource rule)) then
        Err ("acls[" +:+ pretty i +:+ "].resource.name is empty")
      else validate_rules (S i) rules
  end.

Definition validate_spec (spec : KafkaUserSpec) : result unit string :=
  let? _ := match authentication spec with TokenAuth auth => validate_token_auth auth | _ => Ok tt end in
  match authorization spec with
  | Some (Simple simple) => validate_rules 0 (acls simple)
  | None => Ok tt
  end.

Definition validate_reserved_identity (name cluster : string) : result unit string :=
  if str_eqb name "krabka-operator" || str_eqb name OPERATOR_IDENTITY
     || str_eqb name (cluster +:+ "-operator-admin") || str_eqb name (operator_secret_name cluster)
     || ends_with "-operator-identity" name
  then Err ("KafkaUser name " +:+ debug_str name +:+ " is reserved for the operator")
  else Ok tt.
End user.
Arguments Authentication Time : clear implicits.
Arguments KafkaUserQuotas F64 : clear implicits.
Arguments KafkaUserSpec Time F64 : clear implicits.
Arguments KafkaUser Time F64 : clear implicits.

(** ** The difference *)
Section differences.
Context {A : Type} `{EqDecision A} (leb : A → A → bool).

Lemma elem_of_to_btree_set (l : list A) x : x ∈ to_btree_set leb l ↔ x ∈ l.
Proof. unfold to_btree_set. by rewrite elem_of_sort_by, elem_of_remove_dups. Qed.

Lemma elem_of_difference (a b : list A) x : x ∈ difference a b ↔ x ∈ a ∧ x ∉ b.
Proof. unfold difference. by rewrite elem_of_List_filter, negb_true_iff, bool_decide_eq_false. Qed.
End differences.

(** An exact filter selects its entry and no other. *)
Lemma exact_filter_matches e e' : filter_matches (entry_to_exact_filter e) e' = true ↔ e = e'.
Proof.
  unfold filter_matches. cbn. rewrite !andb_true_iff, !bool_decide_eq_true.
  split; [|by intros ->]. destruct e, e'; cbn. intros; destruct_and?; by subst.
Qed.

(** ** Validation *)
Lemma validate_rules_ok i rules :
  validate_rules i rules = Ok tt ↔
  Forall (λ r, operations r ≠ [] ∧ res_name (resource r) ≠ "") rules.
Proof.
  revert i. induction rules as [|r rules IH]; intros i; cbn; [split; [constructor|done]|].
  rewrite Forall_cons. case_bool_decide as Ho; [naive_solver|].
  destruct (is_empty (res_name (resource r))) eqn:He.
  - apply str_eqb_eq in He. split; [done|]. naive_solver.
  - rewrite IH. apply str_eqb_neq in He. naive_solver.
Qed.
