(* ===== verification/User.v ===== *)
(** * KafkaUser reconciler (src/controller/user.rs)

    The whole pass: [prepare_user] (label, reserved names, validation, cluster
    readiness), the finalizer and the clean-up of a deleted user, the credential
    of each kind of authentication, then ACLs, quotas and the final status.  The
    delegation-token and TLS arms run the passes of their own files. *)

From S2P Require Import Prelude RustStd Effects CaBundle ClusterCa UserTls Listeners.
From S2P Require Import DelegationToken Kube UserAcl.
Local Open Scope Z_scope.

Definition FINALIZER : string := "krabka.io/user-finalizer".

Record ScramUpsertion : Type := { up_username : string; up_password : string; up_iterations : Z }.

(** [QuotaOp] of the admin client: this code builds removals only; the others
    come from [diff_user_quotas]. *)
Inductive QuotaOp (F64 : Type) : Type :=
  | SetQuota (key : string) (value : F64)
  | RemoveQuota (key : string).
Arguments SetQuota {F64} _ _.
Arguments RemoveQuota {F64} _.

(** ** Flags of the credentials in the status, one bit each *)
Definition SCRAM_SHA512 : Z := 1.
Definition SCRAM_SHA256 : Z := Z.shiftl 1 1.
Definition TLS : Z := Z.shiftl 1 2.
Definition EXTERNAL : Z := Z.shiftl 1 3.

Definition credential_status (statuses : bool * bool * bool * bool) : Z :=
  let '(scram_sha512, scram_sha256, tls, external) := statuses in
  foldl (λ bits '(enabled, flag), if (enabled : bool) then Z.lor bits flag else bits) 0
    [(scram_sha512, SCRAM_SHA512); (scram_sha256, SCRAM_SHA256); (tls, TLS); (external, EXTERNAL)].

Definition contains (bits flag : Z) : bool := negb (Z.land bits flag =? 0).

(** ** Status patches (merge patches) *)
Record StatusBody : Type := {
  sb_conditions : list KafkaCondition;
  sb_observed_generation : option Z;
  sb_username : string;
  sb_secret : option string;
  sb_scram_sha512 : bool;
  sb_scram_sha256 : bool;
  sb_tls : bool;
  sb_external : bool;
  sb_tls_cert_not_after : option string;
  sb_tls_principal : option string;
  sb_quotas_in_sync : bool;
}.

Inductive status_patch : Type :=
  | WholeStatus (b : StatusBody)
  | AccessStatus (conditions : list KafkaCondition) (observed_generation : option Z) (quotas_in_sync : bool)
  | ConditionsStatus (conditions : list KafkaCondition).

Record StatusInput : Type := {
  si_state : string * string * string;    (* status, reason, message *)
  si_credentials : Z;
  si_tls_cert_not_after : option string;
  si_tls_principal : option string;
  si_advance_generation : bool;
  si_quotas_in_sync : bool;
}.

Section user.
Context `{TimeOps Time} `{X509} `{UserX509} {F64 : Type}.
(** From the libraries: conversion to [f64], tests and text of extents, the
    delegation-token arm's parameters, the order of ACL entries, the quota diff
    of the admin client, its default number of iterations, URL-safe base64, and
    the texts of errors. *)
Context (f64_from : Z → F64) (millis_i64 : Time → Z) (time_eqb : Time → Time → bool)
        (is_finite : Time → bool) (human : Time → string).
Context (principal_str : KafkaPrincipal → string) (parse_principal : string → result KafkaPrincipal string)
        (base64 base64_url : string → string)
        (display_admin : AdminError → string) (display_kube : kube_error → string).
Context (acl_leb : AclEntry → AclEntry → bool)
        (diff_user_quotas : gmap string F64 → gmap string F64 → list (QuotaOp F64))
        (DEFAULT_SCRAM_ITERATIONS : Z).
Notation KafkaUser := (UserAcl.KafkaUser Time F64).

Record user_config : Type := {
  controller_error_requeue : Time;
  controller_dependency_requeue : Time;
  controller_drift_requeue : Time;
  controller_invalid_requeue : Time;
  user_tls_drift_requeue : Time;
  uc_token : token_config (Time := Time);
}.

(** ** Calls.  The outcomes of a mutation are the errors of its entries. *)
Inductive user_call : Type :=
  | GetKafka (cluster : string)
  | AdminClientFor (cluster bootstrap : string)
  | DropAdminClient (cluster : string)
  | AlterScram (sha512 : bool) (upsertions : list ScramUpsertion) (deletions : list string)
  | DescribeAcls (filter : AclEntryFilter)
  | CreateAcls (additions : list AclEntry)
  | DeleteAcls (filters : list AclEntryFilter)
  | DescribeUserQuotas (user : string)
  | AlterUserQuotas (user : string) (ops : list (QuotaOp F64)) (validate_only : bool)
  | PatchStatus (name : string) (p : status_patch)
  | PatchFinalizers (name : string) (finalizers : list string)   (* a merge patch: the whole list *)
  | RandomBytes (len : Z)
  | NowMillis
  | OnToken (c : token_call (Time := Time))
  | OnTls (c : tls_call).

Definition user_resp (c : user_call) : Type :=
  match c with
  | GetKafka _ => result (option (KafkaView Time * KafkaCas)) kube_error
  | AdminClientFor _ _ => result unit AdminError
  | DropAdminClient _ => unit
  | AlterScram _ _ _ | CreateAcls _ | DeleteAcls _ => result (list (option KafkaError)) AdminError
  | DescribeAcls _ => result (list AclEntry) AdminError
  | DescribeUserQuotas _ => result (gmap string F64) AdminError
  | AlterUserQuotas _ _ _ => result (option KafkaError) AdminError
  | PatchStatus _ _ | PatchFinalizers _ _ => result unit kube_error
  | RandomBytes _ => result string unit
  | NowMillis => Z
  | OnToken c => token_resp c
  | OnTls c => tls_resp c
  end.

Notation pass R := (prog user_resp (result R (option ReconcileError))).
Notation call := (perform (resp := user_resp)).

Definition kube {A} (p : prog user_resp (result A kube_error)) : pass A :=
  r ← p; Ret (map_err (λ e, Some (Kube e)) r).
Definition on_token {R} : prog token_resp R → prog user_resp R := lift OnToken (λ _ x, x).
Definition on_tls {R} : prog tls_resp R → prog user_resp R := lift OnTls (λ _ x, x).

(** A part that may end the pass. *)
Inductive flow (A : Type) : Type :=
  | Go (a : A)
  | Stop (act : action Time).
Arguments Go {A} _.
Arguments Stop {A} _.

Definition stop {A} (p : pass (action Time)) : pass (flow A) := a ←? p; Ret (Ok (Stop a)).

Section pass.
Context (cfg : user_config) (ts : string) (obj : KafkaUser).
Let meta : object_meta := u_meta obj.
Let spec : KafkaUserSpec Time F64 := u_spec obj.
Let name : string := name_any meta.
Definition user_principal : string := principal_for name (authentication spec).
Definition quota_username : string := default user_principal (strip_prefix "User:" user_principal).

(** What the status says already. *)
Definition prior {A} (f : KafkaUserStatus → A) (otherwise : A) : A :=
  from_option f otherwise (u_status obj).

(** ** Statuses *)
Definition status_body (p : StatusInput) : StatusBody :=
  let '(st, reason, message) := si_state p in
  let has := contains (si_credentials p) in
  {| sb_conditions := [condition ts "Ready" st reason message];
     sb_observed_generation := if si_advance_generation p then om_generation meta
                               else prior u_observed_generation None;
     sb_username := name;
     sb_secret := if has SCRAM_SHA512 || has SCRAM_SHA256 || has TLS then Some name
                  else prior u_secret None;
     sb_scram_sha512 := has SCRAM_SHA512 || prior u_scram_sha512 false;
     sb_scram_sha256 := has SCRAM_SHA256 || prior u_scram_sha256 false;
     sb_tls := has TLS || prior u_tls false;
     sb_external := has EXTERNAL || prior u_external false;
     sb_tls_cert_not_after := si_tls_cert_not_after p;
     sb_tls_principal := si_tls_principal p;
     sb_quotas_in_sync := si_quotas_in_sync p |}.

Definition patch (p : status_patch) : pass unit := kube (call (PatchStatus name p)).
Definition patch_status (p : StatusInput) : pass unit := patch (WholeStatus (status_body p)).
Definition patch_access_status (quotas_in_sync : bool) (conditions : list KafkaCondition) : pass unit :=
  patch (AccessStatus conditions (om_generation meta) quotas_in_sync).
Definition patch_token_access_failure_status (conditions : list KafkaCondition) : pass unit :=
  patch (ConditionsStatus conditions).

(** A status that reports a problem and keeps everything else as it was. *)
Definition not_ready (reason message : string) : StatusInput :=
  {| si_state := ("False", reason, message);
     si_credentials := credential_status (false, false, prior u_tls false, prior u_external false);
     si_tls_cert_not_after := prior u_tls_cert_not_after None;
     si_tls_principal := prior u_tls_principal None;
     si_advance_generation := false;
     si_quotas_in_sync := prior u_quotas_in_sync false |}.

(** ** Preparation *)
Definition refuse {A} (reason message : string) (delay : Time) : pass (flow A) :=
  _ ←? patch_status (not_ready reason message);
  Ret (Ok (Stop (Requeue delay))).

Definition prepare_user : pass (flow (string * string * KafkaCas)) :=
  match label meta "krabka.io/cluster" with
  | None =>
      refuse "MissingClusterLabel"
        ("metadata.labels[" +:+ debug_str "krabka.io/cluster" +:+ "] is required")
        (controller_drift_requeue cfg)
  | Some cluster =>
      match (if om_deleting meta then Ok tt else validate_reserved_identity name cluster) with
      | Err message => refuse "InvalidSpec" message (controller_invalid_requeue cfg)
      | Ok _ =>
          match validate_spec millis_i64 time_eqb is_finite human spec with
          | Err message => refuse "InvalidSpec" message (controller_invalid_requeue cfg)
          | Ok _ =>
              kafka ←? kube (call (GetKafka cluster));
              match kafka, and_then kafka (λ k, operator_listener_bootstrap k.1) with
              | Some k, Some bootstrap => Ret (Ok (Go (cluster, bootstrap, k.2)))
              | _, _ =>
                  refuse "ClusterNotReady" ("Kafka/" +:+ cluster +:+ " not Ready or no internal listener")
                    (controller_dependency_requeue cfg)
              end
          end
      end
  end.

(** ** Finalizer and deletion.  The clean-up is best effort: its errors are
    logged only. *)
Definition has_finalizer : bool :=
  is_some_and (existsb (λ s, str_eqb s FINALIZER)) (om_finalizers meta).

Definition scram_finalizer : option bool :=
  match authentication spec with
  | ScramSha512 _ => Some true
  | ScramSha256 _ => Some false
  | _ => None
  end.

Definition cleanup_quotas : prog user_resp unit :=
  described ← call (DescribeUserQuotas quota_username);
  match described with
  | Err _ => Ret tt
  | Ok cur =>
      if bool_decide (cur = ∅) then Ret tt
      else
        _ ← call (AlterUserQuotas quota_username (map RemoveQuota (btree_keys cur)) false);
        Ret tt
  end.

Definition cleanup : prog user_resp unit :=
  _ ← match scram_finalizer with
      | Some is_sha512 => _ ← call (AlterScram is_sha512 [] [name]); Ret tt
      | None => Ret tt
      end;
  _ ← match authentication spec with
      | TokenAuth _ =>
          _ ← on_token (expire_owned_tokens (Time := Time) parse_principal (token_view obj)); Ret tt
      | _ => Ret tt
      end;
  _ ← call (DeleteAcls [principal_filter user_principal]);
  cleanup_quotas.

Definition handle_user_lifecycle (cluster bootstrap : string) : pass (flow unit) :=
  if om_deleting meta then
    connected ← call (AdminClientFor cluster bootstrap);
    _ ← match connected with Ok _ => cleanup | Err _ => Ret tt end;
    _ ←? kube (call (PatchFinalizers name []));
    Ret (Ok (Stop AwaitChange))
  else if negb has_finalizer then
    _ ←? kube (call (PatchFinalizers name [FINALIZER]));
    Ret (Ok (Stop RequeueNow))
  else Ret (Ok (Go tt)).

(** ** Access: ACLs and quotas *)
Record TokenAccessState : Type := {
  token_requeue : Time;
  ta_conditions : list KafkaCondition;
  pending_published : bool;
}.

Definition drop_if_transport (cluster : string) (e : AdminError) : prog user_resp unit :=
  if is_transport e then call (DropAdminClient cluster) else Ret tt.

Definition error_detail (op : string) (e : AdminError) : string :=
  match e with
  | Broker _ code code_name _ => op +:+ ": " +:+ code_name +:+ " (" +:+ display_Z code +:+ ")"
  | other => op +:+ ": " +:+ display_admin other
  end.

Definition user_broker_error (e : AdminError) (op : string) : pass (action Time) :=
  _ ←? patch_status (not_ready "BrokerError" (error_detail op e));
  Ret (Ok (Requeue (controller_error_requeue cfg))).

Definition token_access_error_reason (e : AdminError) : string :=
  match e with Broker _ _ _ _ => "BrokerError" | _ => "Transport" end.

Definition user_access_broker_error (e : AdminError) (op : string) (token : option TokenAccessState)
  : pass (action Time) :=
  match token with
  | Some token =>
      let conditions := replace_ready_condition ts (ta_conditions token) "False"
                          (token_access_error_reason e) (error_detail op e) in
      _ ←? patch_token_access_failure_status conditions;
      Ret (Ok (Requeue (time_min (controller_error_requeue cfg) (token_requeue token))))
  | None => user_broker_error e op
  end.

(** A read that failed is retried in silence, except for token users. *)
Definition read_failed (e : AdminError) (op : string) (token : option TokenAccessState)
  : pass (action Time) :=
  match token with
  | Some _ => user_access_broker_error e op token
  | None => Ret (Ok (Requeue (controller_error_requeue cfg)))
  end.

Definition ensure_token_access_pending (token : option TokenAccessState)
  : pass (option TokenAccessState) :=
  match token with
  | None => Ret (Ok None)
  | Some t =>
      if pending_published t then Ret (Ok (Some t))
      else
        let conditions := replace_ready_condition ts (ta_conditions t) "False" "AccessPending"
          "delegation token issued; ACL and quota reconciliation pending" in
        _ ←? patch_token_access_failure_status conditions;
        Ret (Ok (Some {| token_requeue := token_requeue t; ta_conditions := conditions;
                         pending_published := true |}))
  end.

(** The first error among the outcomes of a mutation. *)
Definition first_error (api : string) (outcomes : list (option KafkaError)) : result unit AdminError :=
  match head (filter_map id outcomes) with
  | Some err => Err (Broker api (ke_code err) (ke_name err) (ke_message err))
  | None => Ok tt
  end.

Definition apply_create_acls (additions : list AclEntry) : prog user_resp (result unit AdminError) :=
  r ← call (CreateAcls additions);
  Ret (let? outcomes := r in first_error "CreateAcls" outcomes).

Definition apply_delete_acls (deletions : list AclEntry) : prog user_resp (result unit AdminError) :=
  r ← call (DeleteAcls (map entry_to_exact_filter deletions));
  Ret (let? outcomes := r in first_error "DeleteAcls" outcomes).

Definition apply_alter_user_quotas (ops : list (QuotaOp F64)) : prog user_resp (result unit AdminError) :=
  r ← call (AlterUserQuotas quota_username ops false);
  Ret (let? outcome := r in first_error "AlterClientQuotas" [outcome]).

(** A change that failed ends the pass with a status. *)
Definition or_report (cluster op : string) (token : option TokenAccessState)
    (change : prog user_resp (result unit AdminError)) : pass (flow (option TokenAccessState)) :=
  changed ← change;
  match changed with
  | Ok _ => Ret (Ok (Go token))
  | Err e =>
      _ ← drop_if_transport cluster e;
      stop (user_access_broker_error e op token)
  end.

Notation "x ←! p ; k" :=
  (p ≫= λ r, match r with
             | Ok (Go x) => k
             | Ok (Stop act) => Ret (Ok (Stop act))
             | Err e => Ret (Err e)
             end)
  (at level 20, p at level 100, k at level 200, right associativity).

Definition sync_acls (cluster : string) (token : option TokenAccessState)
  : pass (flow (option TokenAccessState)) :=
  match authorization spec with
  | None => Ret (Ok (Go token))
  | Some auth =>
      let desired := to_btree_set acl_leb (expand_spec_acls (Some auth) user_principal) in
      described ← call (DescribeAcls (principal_filter user_principal));
      match described with
      | Err e =>
          _ ← drop_if_transport cluster e;
          stop (read_failed e "DescribeAcls" token)
      | Ok current =>
          let '(additions, deletions) := diff_acls (to_btree_set acl_leb current) desired in
          token ←? (if negb (bool_decide (additions = [])) || negb (bool_decide (deletions = []))
                    then ensure_token_access_pending token else Ret (Ok token));
          token ←! (if bool_decide (additions = []) then Ret (Ok (Go token))
                    else or_report cluster "CreateAcls" token (apply_create_acls additions));
          if bool_decide (deletions = []) then Ret (Ok (Go token))
          else or_report cluster "DeleteAcls" token (apply_delete_acls deletions)
      end
  end.

Definition sync_quotas (cluster : string) (token : option TokenAccessState)
  : pass (flow (option TokenAccessState * bool)) :=
  match quotas spec with
  | None => Ret (Ok (Go (token, false)))
  | Some q =>
      described ← call (DescribeUserQuotas quota_username);
      match described with
      | Err e =>
          _ ← drop_if_transport cluster e;
          stop (read_failed e "DescribeClientQuotas" token)
      | Ok current =>
          let ops := diff_user_quotas current (to_quota_map f64_from q) in
          token ←? (if negb (bool_decide (length ops = 0%nat)) then ensure_token_access_pending token
                    else Ret (Ok token));
          token ←! (if bool_decide (length ops = 0%nat) then Ret (Ok (Go token))
                    else or_report cluster "AlterClientQuotas" token (apply_alter_user_quotas ops));
          Ret (Ok (Go (token, true)))
      end
  end.

Definition token_ready (t : TokenAccessState) : list KafkaCondition :=
  (if pending_published t then transition_ready_condition else replace_ready_condition)
    ts (ta_conditions t) "True" "TokenReady" "delegation token, Secret, ACLs, and quotas in sync".

Definition ready_status (tls_not_after : option string) (quotas_in_sync : bool) : StatusInput :=
  let auth := authentication spec in
  let is_tls := match auth with Tls _ => true | _ => false end in
  let is_external := match auth with TlsExternal => true | _ => false end in
  {| si_state := ("True", "Ready", "user in sync");
     si_credentials := credential_status
       (match auth with ScramSha512 _ => true | _ => false end,
        match auth with ScramSha256 _ => true | _ => false end,
        is_tls && opt_is_some tls_not_after, is_external);
     si_tls_cert_not_after := tls_not_after;
     si_tls_principal := if is_tls || is_external then Some user_principal
                         else prior u_tls_principal None;
     si_advance_generation := true;
     si_quotas_in_sync := quotas_in_sync |}.

Definition finish_access (tls_not_after : option string) (token : option TokenAccessState)
    (quotas_in_sync : bool) : pass (action Time) :=
  match token with
  | Some t =>
      _ ←? patch_access_status quotas_in_sync (token_ready t);
      Ret (Ok (Requeue (time_min (token_requeue t) (controller_drift_requeue cfg))))
  | None =>
      _ ←? patch_status (ready_status tls_not_after quotas_in_sync);
      Ret (match authentication spec with
           | ScramSha512 _ | ScramSha256 _ | TlsExternal => Ok (Requeue (controller_drift_requeue cfg))
           | Tls _ => Ok (Requeue (user_tls_drift_requeue cfg))
           | TokenAuth _ => Err None       (* unreachable! *)
           end)
  end.

Definition reconcile_access (cluster bootstrap : string) (tls_not_after : option string)
    (token : option TokenAccessState) : pass (action Time) :=
  connected ← call (AdminClientFor cluster bootstrap);
  match connected with
  | Err e => read_failed e "Connect" token
  | Ok _ =>
      synced ←? (token ←! sync_acls cluster token; sync_quotas cluster token);
      match synced with
      | Stop act => Ret (Ok act)
      | Go (token, quotas_in_sync) => finish_access tls_not_after token quotas_in_sync
      end
  end.

(** ** Credentials *)
Definition read_password (s : secret) : option string :=
  and_then (sec_data s) (λ data, and_then (data !! "password") (λ b, result_ok (from_utf8 b))).

Definition render_password_secret (password : string) : result secret ReconcileError :=
  let jaas := "org.apache.kafka.common.security.scram.ScramLoginModule required username="
    +:+ quote +:+ name +:+ quote +:+ " password=" +:+ quote +:+ password +:+ quote +:+ ";" in
  let? owner := UserTls.user_owner_ref meta in
  Ok {| sec_meta :=
          {| om_name := Some name; om_namespace := om_namespace meta; om_uid := None;
             om_labels := Some (secret_labels (token_view obj)); om_annotations := None;
             om_finalizers := None; om_generation := None; om_deleting := false;
             om_owners := [owner] |};
        sec_data := Some {["password" := password; "sasl.jaas.config" := jaas]} |}.

(** The Secret of the user, through the TLS arm's calls. *)
Definition get_user_secret : pass (option secret) :=
  kube (call (OnTls (OnCa (ClusterCa.GetSecret name)))).

Definition ensure_password_secret (password_len : Z) : pass string :=
  existing ←? get_user_secret;
  match and_then existing read_password with
  | Some p => Ret (Ok p)
  | None =>
      random ← call (RandomBytes password_len);
      match random with
      | Err _ => Ret (Err None)            (* expect *)
      | Ok bytes =>
          let password := base64_url bytes in
          match render_password_secret password with
          | Err e => Ret (Err (Some e))
          | Ok s =>
              _ ←? kube (call (OnTls (OnCa (ClusterCa.ApplySecret name s))));
              Ret (Ok password)
          end
      end
  end.

Definition requeue_error {A} : pass (flow A) := Ret (Ok (Stop (Requeue (controller_error_requeue cfg)))).

(** An error of a part is logged and the pass is retried; a panic is not caught. *)
Definition or_retry {A B} (p : pass A) (k : A → pass (flow B)) : pass (flow B) :=
  r ← p;
  match r with
  | Ok a => k a
  | Err (Some _) => requeue_error
  | Err None => Ret (Err None)
  end.

Definition scram_credential (cluster bootstrap : string) (auth : ScramAuth) (is_sha512 : bool)
  : pass (flow unit) :=
  or_retry (ensure_password_secret (default 32 (password_length auth))) (λ password,
    connected ← call (AdminClientFor cluster bootstrap);
    match connected with
    | Err _ => requeue_error
    | Ok _ =>
        let upsertion := {| up_username := name; up_password := password;
                            up_iterations := default DEFAULT_SCRAM_ITERATIONS (iterations auth) |} in
        outcomes ← call (AlterScram is_sha512 [upsertion] []);
        match outcomes with
        | Err e => _ ← drop_if_transport cluster e; requeue_error
        | Ok outcomes =>
            match head (filter_map id outcomes) with
            | Some err =>
                refuse "BrokerError" ("AlterUserScramCredentials: " +:+ ke_name err +:+ " ("
                  +:+ display_Z (ke_code err) +:+ ")") (controller_error_requeue cfg)
            | None => Ret (Ok (Go tt))
            end
        end
    end).

Definition token_credential (cluster bootstrap : string) (auth : DelegationTokenAuth (Time := Time))
  : pass (flow TokenAccessState) :=
  connected ← call (AdminClientFor cluster bootstrap);
  match connected with
  | Err e =>
      let prior_conditions := existing_token_conditions (token_view obj) in
      out ←? on_token (on_admin_error display_admin ts (token_view obj) (uc_token cfg) e "Connect"
                         prior_conditions (opt_is_some prior_conditions));
      Ret (Ok (Stop (ro_action out)))
  | Ok _ =>
      now_ms ← call NowMillis;
      out ←? on_token (DelegationToken.reconcile principal_str parse_principal base64 display_admin
                         display_kube ts (token_view obj) auth now_ms (uc_token cfg));
      Ret (Ok (match ro_conditions out, ro_token_requeue out with
               | Some conditions, Some requeue =>
                   Go {| token_requeue := requeue; ta_conditions := conditions;
                         pending_published := ro_pending_published out |}
               | _, _ => Stop (ro_action out)
               end))
  end.

(** The expiry of a TLS user's certificate and the state of a token user. *)
Definition provision (cluster bootstrap : string) (kafka : KafkaCas)
  : pass (flow (option string * option TokenAccessState)) :=
  match authentication spec with
  | ScramSha512 auth => _ ←! scram_credential cluster bootstrap auth true; Ret (Ok (Go (None, None)))
  | ScramSha256 auth => _ ←! scram_credential cluster bootstrap auth false; Ret (Ok (Go (None, None)))
  | Tls auth =>
      or_retry (on_tls (reconcile_user_cert_secret (Time := Time) meta kafka auth)) (λ st,
        Ret (Ok (Go (Some (not_after st), None))))
  | TlsExternal => Ret (Ok (Go (None, None)))
  | TokenAuth auth =>
      t ←! token_credential cluster bootstrap auth; Ret (Ok (Go (None, Some t)))
  end.

Definition reconcile_inner : pass (action Time) :=
  prepared ←? prepare_user;
  match prepared with
  | Stop act => Ret (Ok act)
  | Go (cluster, bootstrap, kafka) =>
      proceed ←? (_ ←! handle_user_lifecycle cluster bootstrap; provision cluster bootstrap kafka);
      match proceed with
      | Stop act => Ret (Ok act)
      | Go (tls_not_after, token) => reconcile_access cluster bootstrap tls_not_after token
      end
  end.
End pass.
End user.
Arguments Go {Time A} _.
Arguments Stop {Time A} _.

(** ** What a pass may do *)
Section claims.
Context `{TimeOps Time} `{X509} `{UserX509} {F64 : Type}.
Context (f64_from : Z → F64) (millis_i64 : Time → Z) (time_eqb : Time → Time → bool)
        (is_finite : Time → bool) (human : Time → string).
Context (principal_str : KafkaPrincipal → string) (parse_principal : string → result KafkaPrincipal string)
        (base64 base64_url : string → string)
        (display_admin : AdminError → string) (display_kube : kube_error → string).
Context (acl_leb : AclEntry → AclEntry → bool)
        (diff_user_quotas : gmap string F64 → gmap string F64 → list (QuotaOp F64))
        (DEFAULT_SCRAM_ITERATIONS : Z).
Context (cfg : user_config (Time := Time)) (ts : string) (obj : UserAcl.KafkaUser Time F64).
Notation resp := (user_resp (Time := Time) (F64 := F64)).
Notation name := (name_any (u_meta obj)).
Notation spec := (u_spec obj).
Notation deleting := (om_deleting (u_meta obj)).
Notation principal := (User.user_principal obj).
Notation quota_user := (quota_username obj).
Implicit Types (pre h : list (event resp)).

(** The logs of the delegation-token and TLS arms in the log of the pass. *)
Definition token_event (e : event resp) : option (event (token_resp (Time := Time))) :=
  let 'existT c x := e in
  match c return resp c → option (event token_resp) with OnToken c => λ x, Some (ev c x) | _ => λ _, None end x.
Definition tls_event (e : event resp) : option (event tls_resp) :=
  let 'existT c x := e in
  match c return resp c → option (event tls_resp) with OnTls c => λ x, Some (ev c x) | _ => λ _, None end x.
Definition token_part pre := filter_map token_event pre.
Definition tls_part pre := filter_map tls_event pre.

Lemma token_part_lifted tr1 tr : Forall2 (lifted OnToken (λ _ x, x)) tr1 tr → token_part tr = tr1.
Proof. induction 1 as [|e1 e tr1 tr (c & x & -> & ->) Hl IH]; [done|]. cbn. by f_equal. Qed.
Lemma tls_part_lifted tr1 tr : Forall2 (lifted OnTls (λ _ x, x)) tr1 tr → tls_part tr = tr1.
Proof. induction 1 as [|e1 e tr1 tr (c & x & -> & ->) Hl IH]; [done|]. cbn. by f_equal. Qed.

Lemma token_part_mono pre pre' : pre ⊆ pre' → token_part pre ⊆ token_part pre'.
Proof. intros Hs e. unfold token_part. rewrite !elem_of_filter_map. intros (x & Hx & He). eauto. Qed.
Lemma tls_part_mono pre pre' : pre ⊆ pre' → tls_part pre ⊆ tls_part pre'.
Proof. intros Hs e. unfold tls_part. rewrite !elem_of_filter_map. intros (x & Hx & He). eauto. Qed.

Definition is_token_user : bool := match authentication spec with TokenAuth _ => true | _ => false end.

(** The API server took a status with [Ready=False], from this file or from the
    token arm. *)
Definition not_ready_published pre : Prop :=
  (∃ conds, withdrawn conds ∧
     ev (resp := resp) (PatchStatus name (ConditionsStatus conds)) (Ok tt) ∈ pre) ∨
  readiness_withdrawn (token_view obj) (token_part pre).

(** The password comes from the user's Secret, which was read or has just been
    written. *)
Definition password_stored pre (password : string) : Prop :=
  (∃ s, ev (resp := resp) (OnTls (OnCa (ClusterCa.GetSecret name))) (Ok (Some s)) ∈ pre ∧
        read_password s = Some password) ∨
  (∃ s, ev (resp := resp) (OnTls (OnCa (ClusterCa.ApplySecret name s))) (Ok tt) ∈ pre ∧
        render_password_secret obj password = Ok s).

Definition desired_acls : list AclEntry := expand_spec_acls (authorization spec) principal.
Notation described_acls pre cur :=
  (ev (resp := resp) (DescribeAcls (principal_filter principal)) (Ok cur) ∈ pre).
Notation described_quotas pre cur :=
  (ev (resp := resp) (DescribeUserQuotas quota_user) (Ok cur) ∈ pre).

(** The access of a user that is not deleted is changed while it does not look
    ready, if it is a token user. *)
Definition access_open pre : Prop := deleting = false ∧ (is_token_user = true → not_ready_published pre).

(** The iterations of the SCRAM credential that the spec declares. *)
Definition declared_iterations : option Z :=
  match authentication spec with
  | ScramSha512 auth | ScramSha256 auth => Some (default DEFAULT_SCRAM_ITERATIONS (iterations auth))
  | _ => None
  end.

Definition change_step pre (e : event resp) : Prop :=
  match projT1 e with
  | AlterScram sha512 ups dels =>
      scram_finalizer obj = Some sha512 ∧
      (deleting = true ∧ ups = [] ∧ dels = [name] ∨
       deleting = false ∧ dels = [] ∧
       ∃ password rounds, password_stored pre password ∧ declared_iterations = Some rounds ∧
         ups = [{| up_username := name; up_password := password; up_iterations := rounds |}])
  | CreateAcls adds =>
      access_open pre ∧ is_Some (authorization spec) ∧
      ∃ cur, described_acls pre cur ∧ ∀ x, x ∈ adds ↔ x ∈ desired_acls ∧ x ∉ cur
  | DeleteAcls filters =>
      deleting = true ∧ filters = [principal_filter principal] ∨
      access_open pre ∧ is_Some (authorization spec) ∧
      ∃ cur dels, described_acls pre cur ∧ filters = map entry_to_exact_filter dels ∧
        ∀ x, x ∈ dels ↔ x ∈ cur ∧ x ∉ desired_acls
  | AlterUserQuotas u ops validate_only =>
      u = quota_user ∧ validate_only = false ∧
      ∃ cur, described_quotas pre cur ∧
        (deleting = true ∧ ops = map RemoveQuota (btree_keys cur) ∨
         access_open pre ∧ ∃ q, quotas spec = Some q ∧ ops = diff_user_quotas cur (to_quota_map f64_from q))
  | PatchFinalizers n l =>
      n = name ∧ (deleting = true ∧ l = [] ∨ deleting = false ∧ has_finalizer obj = false ∧ l = [FINALIZER])
  | OnToken c =>
      is_token_user = true ∧
      (deleting = true ∧
         (∀ e1, token_event e = Some e1 →
            cleanup_step parse_principal (token_view obj) (token_part pre) e1) ∨
       deleting = false ∧ ∃ auth now_ms, authentication spec = TokenAuth auth ∧
         ∀ e1, token_event e = Some e1 →
           credential_step principal_str parse_principal (token_view obj) auth now_ms (token_part pre) e1)
  | _ => True
  end.

(** ACLs, quotas and the credential are as declared. *)
Definition no_errors (outcomes : list (option KafkaError)) : Prop := filter_map id outcomes = [].

Definition acls_in_sync pre : Prop :=
  is_Some (authorization spec) →
  ∃ cur, described_acls pre cur ∧
    (∀ x, x ∈ desired_acls → x ∈ cur ∨ ∃ adds os, x ∈ adds ∧ no_errors os ∧
       ev (resp := resp) (CreateAcls adds) (Ok os) ∈ pre) ∧
    (∀ x, x ∈ cur → x ∈ desired_acls ∨ ∃ filters os, entry_to_exact_filter x ∈ filters ∧ no_errors os ∧
       ev (resp := resp) (DeleteAcls filters) (Ok os) ∈ pre).

Definition quotas_synced pre (flag : bool) : Prop :=
  match quotas spec with
  | None => flag = false
  | Some q =>
      flag = true ∧ ∃ cur, described_quotas pre cur ∧
        let ops := diff_user_quotas cur (to_quota_map f64_from q) in
        (ops = [] ∨ ev (resp := resp) (AlterUserQuotas quota_user ops false) (Ok None) ∈ pre)
  end.

Definition scram_provisioned pre (sha512 : bool) : Prop :=
  ∃ password rounds os, password_stored pre password ∧ declared_iterations = Some rounds ∧ no_errors os ∧
    ev (resp := resp) (AlterScram sha512
      [{| up_username := name; up_password := password; up_iterations := rounds |}] []) (Ok os) ∈ pre.

Definition credential_ready pre : Prop :=
  match authentication spec with
  | ScramSha512 _ => scram_provisioned pre true
  | ScramSha256 _ => scram_provisioned pre false
  | Tls auth => ∃ kafka, active_cert (Time := Time) kafka (tls_part pre) (u_meta obj) auth
  | TlsExternal => True
  | TokenAuth auth =>
      ∃ now_ms, secret_written principal_str parse_principal base64 (token_view obj) auth now_ms
                  (token_part pre)
  end.

Definition in_sync pre (flag : bool) : Prop :=
  deleting = false ∧ has_finalizer obj = true ∧
  credential_ready pre ∧ acls_in_sync pre ∧ quotas_synced pre flag.

Definition status_step pre (e : event resp) : Prop :=
  match projT1 e with
  | PatchStatus n p =>
      n = name ∧
      match p with
      | WholeStatus b =>
          ∃ st reason message, sb_conditions b = [condition ts "Ready" st reason message] ∧
            (st = "True" ∧ sb_observed_generation b = om_generation (u_meta obj) ∧
               in_sync pre (sb_quotas_in_sync b) ∨
             st = "False" ∧ sb_observed_generation b = prior obj u_observed_generation None)
      | AccessStatus _ gen flag => gen = om_generation (u_meta obj) ∧ is_token_user = true ∧ in_sync pre flag
      | ConditionsStatus conds => withdrawn conds
      end
  | OnToken c =>
      deleting = false → ∃ auth now_ms, authentication spec = TokenAuth auth ∧
        ∀ e1, token_event e = Some e1 →
          exposure_step principal_str parse_principal base64 (token_view obj) auth now_ms (token_part pre) e1
  | _ => True
  end.

Definition step_ok pre e : Prop := change_step pre e ∧ status_step pre e.
Notation ok := (justified step_ok).

(** *** What was logged stays logged *)
Lemma not_ready_published_mono pre pre' :
  pre ⊆ pre' → not_ready_published pre → not_ready_published pre'.
Proof.
  intros Hs [(c & Hw & He)|Hr]; [left; eauto|right].
  eauto using readiness_withdrawn_mono, token_part_mono.
Qed.

Lemma password_stored_mono pre pre' pw : pre ⊆ pre' → password_stored pre pw → password_stored pre' pw.
Proof. intros Hs [(s & He & Hp)|(s & He & Hp)]; [left|right]; eauto. Qed.

Lemma acls_in_sync_mono pre pre' : pre ⊆ pre' → acls_in_sync pre → acls_in_sync pre'.
Proof.
  intros Hs Ha Hauth. destruct (Ha Hauth) as (cur & Hd & Hadd & Hdel). exists cur. split_and!; [auto|..].
  - intros x Hx. destruct (Hadd x Hx) as [|(l & os & ? & ? & ?)]; eauto 8.
  - intros x Hx. destruct (Hdel x Hx) as [|(l & os & ? & ? & ?)]; eauto 8.
Qed.

Lemma credential_ready_mono pre pre' : pre ⊆ pre' → credential_ready pre → credential_ready pre'.
Proof.
  intros Hs. unfold credential_ready, scram_provisioned. destruct (authentication spec) as [a|a|a| |a].
  - intros (pw & n & os & Hp & Hi & Hn & He). eauto 9 using password_stored_mono.
  - intros (pw & n & os & Hp & Hi & Hn & He). eauto 9 using password_stored_mono.
  - intros [k Hk]. eauto using active_cert_mono, tls_part_mono.
  - done.
  - intros [n Hn]. eauto using secret_written_mono, token_part_mono.
Qed.

(** *** One call *)
Lemma ok_snoc h e : ok h → step_ok h e → ok (h ++ [e]).
Proof. intros. by apply justified_snoc. Qed.

Lemma patch_ok p h :
  ok h → (∀ x, step_ok h (ev (resp := resp) (PatchStatus name p) x)) →
  always (patch obj p) h (λ h' r, ok h' ∧
    (r = Ok tt → ev (resp := resp) (PatchStatus name p) (Ok tt) ∈ h')).
Proof.
  intros Hok Hp x. split; [by apply ok_snoc|]. destruct x as [[]|e]; [|done]. intros _. logged.
Qed.

Lemma withdrawn_step h conds x :
  withdrawn conds → step_ok h (ev (resp := resp) (PatchStatus name (ConditionsStatus conds)) x).
Proof. intros Hw. split; [exact I|]. by split. Qed.

Lemma not_ready_step h reason message x :
  step_ok h (ev (resp := resp) (PatchStatus name (WholeStatus (status_body ts obj (not_ready obj reason message)))) x).
Proof.
  split; [exact I|]. split; [done|]. exists "False", reason, message. split; [done|]. by right.
Qed.

Lemma refuse_ok {A} reason message delay h :
  ok h → always (refuse (A := A) ts obj reason message delay) h (λ h' r, ok h' ∧ ∀ a, r ≠ Ok (Go a)).
Proof.
  intros Hok. unfold refuse. eapply always_seq.
  - apply (patch_ok _ h Hok). intros x. apply not_ready_step.
  - intros h' [[]|e] _ [Hok' _]; by split.
Qed.

(** *** Access *)
Definition token_inv h (token : option (TokenAccessState (Time := Time))) : Prop :=
  opt_is_some token = is_token_user ∧
  ∀ t, token = Some t → pending_published t = true → not_ready_published h.

Lemma token_inv_mono h h' token : h ⊆ h' → token_inv h token → token_inv h' token.
Proof. intros Hs [Ht Hp]. split; [done|]. eauto using not_ready_published_mono. Qed.

Lemma drop_if_transport_ok cluster e h : ok h → always (drop_if_transport (F64 := F64) cluster e) h (λ h' _, ok h').
Proof. intros Hok. unfold drop_if_transport. destruct (is_transport e); [|done]. intros x. by apply ok_snoc. Qed.

Lemma access_error_ok e op token h :
  ok h → always (user_access_broker_error display_admin cfg ts obj e op token) h (λ h' _, ok h').
Proof.
  intros Hok. unfold user_access_broker_error, user_broker_error. destruct token as [t|].
  - eapply always_seq; [apply (patch_ok _ h Hok); intros x; apply withdrawn_step, withdrawn_replace_ready|].
    by intros h' [[]|e'] _ [Hok' _].
  - eapply always_seq; [apply (patch_ok _ h Hok); intros x; apply not_ready_step|].
    by intros h' [[]|e'] _ [Hok' _].
Qed.

Lemma read_failed_ok e op token h :
  ok h → always (read_failed display_admin cfg ts obj e op token) h (λ h' _, ok h').
Proof. intros Hok. destruct token; [by apply access_error_ok|done]. Qed.

Lemma stop_ok {A} (p : prog resp (result (action Time) (option ReconcileError))) h :
  always p h (λ h' _, ok h') → always (stop (A := A) p) h (λ h' r, ok h' ∧ ∀ a, r ≠ Ok (Go a)).
Proof. intros Hp. eapply always_seq; [exact Hp|]. by intros h' [a|e] _ Hok. Qed.

(** An error that is reported after the connection was dropped. *)
Lemma dropped_ok {A} cluster e (p : prog resp (result (action Time) (option ReconcileError))) h :
  ok h → (∀ h', ok h' → always p h' (λ h'' _, ok h'')) →
  always (_ ← drop_if_transport cluster e; stop (A := A) p) h (λ h' r, ok h' ∧ ∀ a, r ≠ Ok (Go a)).
Proof.
  intros Hok Hp. eapply always_seq; [by apply drop_if_transport_ok|]. intros h' [] _ Hok'.
  by apply stop_ok, Hp.
Qed.

Lemma ensure_pending_ok token h :
  ok h → token_inv h token →
  always (ensure_token_access_pending ts obj token) h (λ h' r, ok h' ∧
    ∀ token', r = Ok token' → token_inv h' token' ∧ (is_token_user = true → not_ready_published h')).
Proof.
  intros Hok [Ht Hp]. unfold ensure_token_access_pending. destruct token as [t|].
  - destruct (pending_published t) eqn:Hpend.
    + split; [done|]. intros token' [= <-]. split; [split; [done|]|]; eauto.
    + eapply always_seq; [apply (patch_ok _ h Hok); intros x; apply withdrawn_step, withdrawn_replace_ready|].
      intros h' [[]|e] _ [Hok' He]; (split; [done|]); intros token'; [|done]. intros [= <-].
      assert (not_ready_published h') as Hn.
      { left. eexists. split; [apply withdrawn_replace_ready|by apply He]. }
      split; [split; [done|]|]; auto.
  - split; [done|]. intros token' [= <-]. split; [split; [done|]|]; [done|]. cbn in Ht. congruence.
Qed.

Lemma or_report_ok cluster op token (change : prog resp (result unit AdminError)) h Q :
  always change h (λ h' r, ok h' ∧ Q h' r) →
  always (or_report display_admin cfg ts obj cluster op token change) h (λ h' r, ok h' ∧
    ∀ token', r = Ok (Go token') → token' = token ∧ Q h' (Ok tt)).
Proof.
  intros Hc. unfold or_report. eapply always_seq; [exact Hc|].
  intros h' [[]|e] _ [Hok HQ]; [split; [done|]; by intros token' [= <-]|].
  eapply always_mono; [|apply dropped_ok; [done|intros; by apply access_error_ok]].
  intros h'' r [Hok'' Hr]. split; [done|]. intros token' Heq. by destruct (Hr _ Heq).
Qed.

(** A mutation whose outcomes hold no error. *)
Lemma first_error_ok api os : first_error api os = Ok tt → no_errors os.
Proof. unfold first_error, no_errors. by destruct (filter_map id os). Qed.

Lemma create_acls_ok adds h :
  ok h → (∀ x, change_step h (ev (resp := resp) (CreateAcls adds) x)) →
  always (apply_create_acls adds) h (λ h' r, ok h' ∧
    (r = Ok tt → ∃ os, no_errors os ∧ ev (resp := resp) (CreateAcls adds) (Ok os) ∈ h')).
Proof.
  intros Hok Hs x. split; [by apply ok_snoc|]. destruct x as [os|]; [|done]. cbn. intros Hf.
  exists os. split; [by eapply first_error_ok|logged].
Qed.

Lemma delete_acls_ok dels h :
  ok h → (∀ x, change_step h (ev (resp := resp) (DeleteAcls (map entry_to_exact_filter dels)) x)) →
  always (apply_delete_acls dels) h (λ h' r, ok h' ∧
    (r = Ok tt → ∃ os, no_errors os ∧
       ev (resp := resp) (DeleteAcls (map entry_to_exact_filter dels)) (Ok os) ∈ h')).
Proof.
  intros Hok Hs x. split; [by apply ok_snoc|]. destruct x as [os|]; [|done]. cbn. intros Hf.
  exists os. split; [by eapply first_error_ok|logged].
Qed.

Lemma alter_quotas_ok ops h :
  ok h → (∀ x, change_step h (ev (resp := resp) (AlterUserQuotas quota_user ops false) x)) →
  always (apply_alter_user_quotas obj ops) h (λ h' r, ok h' ∧
    (r = Ok tt → ev (resp := resp) (AlterUserQuotas quota_user ops false) (Ok None) ∈ h')).
Proof.
  intros Hok Hs x. split; [by apply ok_snoc|]. destruct x as [[e|]|]; [done| |done]. intros _. logged.
Qed.

(** Pending is published before there is something to change. *)
Lemma pending_if_ok (b : bool) token h :
  ok h → token_inv h token →
  always (if b then ensure_token_access_pending ts obj token else Ret (Ok token)) h (λ h' r, ok h' ∧
    ∀ token', r = Ok token' → token_inv h' token' ∧ (b = true → is_token_user = true → not_ready_published h')).
Proof.
  intros Hok Ht. destruct b.
  - eapply always_mono; [|by apply ensure_pending_ok]. intros h' r [Hok' Hr]. split; [done|].
    intros token' Heq. destruct (Hr token' Heq). auto.
  - split; [done|]. by intros token' [= <-].
Qed.

(** A change that is made only if there is something to change. *)
Lemma change_if_ok (none : bool) cluster op token (change : prog resp (result unit AdminError)) h
    (Q : list (event resp) → Prop) :
  ok h → (none = true → Q h) →
  (none = false → always change h (λ h' r, ok h' ∧ (r = Ok tt → Q h'))) →
  always (if none then Ret (Ok (Go token)) else or_report display_admin cfg ts obj cluster op token change) h
    (λ h' r, ok h' ∧ ∀ token', r = Ok (Go token') → token' = token ∧ Q h').
Proof.
  intros Hok Hn Hc. destruct none.
  - split; [done|]. intros token' [= <-]. auto.
  - eapply always_mono; [|apply (or_report_ok _ _ _ _ _ _ (Hc eq_refl))].
    intros h' r [Hok' Hr]. split; [done|]. intros token' Heq. destruct (Hr token' Heq). auto.
Qed.

(** The entries of a list were created, or deleted by their exact filters. *)
Definition was_created h (x : AclEntry) : Prop :=
  ∃ adds os, x ∈ adds ∧ no_errors os ∧ ev (resp := resp) (CreateAcls adds) (Ok os) ∈ h.
Definition was_deleted h (x : AclEntry) : Prop :=
  ∃ filters os, entry_to_exact_filter x ∈ filters ∧ no_errors os ∧
    ev (resp := resp) (DeleteAcls filters) (Ok os) ∈ h.

Section diff.
Context (cluster : string) (cur adds dels : list AclEntry).
Context (not_deleting : deleting = false) (managed : is_Some (authorization spec)).
Context (Hadds : ∀ x, x ∈ adds ↔ x ∈ desired_acls ∧ x ∉ cur).
Context (Hdels : ∀ x, x ∈ dels ↔ x ∈ cur ∧ x ∉ desired_acls).

Lemma create_missing_ok token h :
  ok h → described_acls h cur → (adds ≠ [] → is_token_user = true → not_ready_published h) →
  always (if bool_decide (adds = []) then Ret (Ok (Go token))
          else or_report display_admin cfg ts obj cluster "CreateAcls" token (apply_create_acls adds)) h
    (λ h' r, ok h' ∧ ∀ token', r = Ok (Go token') → token' = token ∧ ∀ x, x ∈ adds → was_created h' x).
Proof.
  intros Hok Hcur Hopen. apply change_if_ok; [done|..].
  - intros Hnil%bool_decide_eq_true x. rewrite Hnil. by intros []%not_elem_of_nil.
  - intros Hnil%bool_decide_eq_false. eapply always_mono; [|apply (create_acls_ok adds h Hok)].
    + cbn beta. intros h' r [Hok' Hr]. split; [done|]. intros Heq x Hx. destruct (Hr Heq) as (os & Hos & He).
      by exists adds, os.
    + intros x. split; [split; [done|by apply Hopen]|]. split; [done|]. by exists cur.
Qed.

Lemma delete_extra_ok token h :
  ok h → described_acls h cur → (dels ≠ [] → is_token_user = true → not_ready_published h) →
  always (if bool_decide (dels = []) then Ret (Ok (Go token))
          else or_report display_admin cfg ts obj cluster "DeleteAcls" token (apply_delete_acls dels)) h
    (λ h' r, ok h' ∧ ∀ token', r = Ok (Go token') → token' = token ∧ ∀ x, x ∈ dels → was_deleted h' x).
Proof.
  intros Hok Hcur Hopen. apply change_if_ok; [done|..].
  - intros Hnil%bool_decide_eq_true x. rewrite Hnil. by intros []%not_elem_of_nil.
  - intros Hnil%bool_decide_eq_false. eapply always_mono; [|apply (delete_acls_ok dels h Hok)].
    + cbn beta. intros h' r [Hok' Hr]. split; [done|]. intros Heq x Hx. destruct (Hr Heq) as (os & Hos & He).
      exists (map entry_to_exact_filter dels), os. split_and!; [|done..]. apply list_elem_of_fmap. eauto.
    + intros x. right. split; [split; [done|by apply Hopen]|]. split; [done|]. by exists cur, dels.
Qed.

Lemma diff_in_sync h h' :
  described_acls h' cur → h ⊆ h' → (∀ x, x ∈ adds → was_created h x) → (∀ x, x ∈ dels → was_deleted h' x) →
  acls_in_sync h'.
Proof.
  intros Hcur Hs Hc Hd _. exists cur. split; [done|]. split; intros x Hx.
  - destruct (stdpp.base.decide (x ∈ cur)) as [|Hout]; [by left|]. right.
    destruct (Hc x) as (l & os & ? & ? & ?); [by apply Hadds|]. exists l, os. auto.
  - destruct (stdpp.base.decide (x ∈ desired_acls)) as [|Hout]; [by left|]. right. by apply Hd, Hdels.
Qed.
End diff.

Lemma sync_acls_ok cluster token h :
  deleting = false → ok h → token_inv h token →
  always (sync_acls display_admin acl_leb cfg ts obj cluster token) h (λ h' r, ok h' ∧
    ∀ token', r = Ok (Go token') → token_inv h' token' ∧ acls_in_sync h').
Proof.
  intros Hdel Hok Ht. unfold sync_acls. destruct (authorization spec) as [auth|] eqn:Hauth.
  2:{ split; [done|]. intros token' [= <-]. split; [done|]. intros [? ?]. congruence. }
  eapply (always_seq _ _ _ (λ h' r, ok h' ∧ ∀ cur, r = Ok cur → described_acls h' cur)).
  { intros x. split; [by apply ok_snoc|]. intros cur ->. logged. }
  intros h1 [cur|e] Hs1 [Hok1 Hcur].
  2:{ eapply always_mono; [|apply dropped_ok; [done|intros; by apply read_failed_ok]].
      intros h' r [Hok' Hr]. split; [done|]. intros token' Heq. by destruct (Hr _ Heq). }
  specialize (Hcur cur eq_refl). unfold diff_acls.
  set (desired := to_btree_set acl_leb (expand_spec_acls (Some auth) principal)).
  set (adds := difference desired _). set (dels := difference _ desired).
  assert (∀ x, x ∈ adds ↔ x ∈ desired_acls ∧ x ∉ cur) as Hadds.
  { intros x. unfold adds, desired, desired_acls. by rewrite elem_of_difference, !elem_of_to_btree_set, Hauth. }
  assert (∀ x, x ∈ dels ↔ x ∈ cur ∧ x ∉ desired_acls) as Hdels.
  { intros x. unfold dels, desired, desired_acls. by rewrite elem_of_difference, !elem_of_to_btree_set, Hauth. }
  clearbody adds dels. clear desired. assert (is_Some (authorization spec)) as Hsome by eauto.
  eapply always_seq; [apply pending_if_ok; [done|by eapply token_inv_mono]|].
  intros h2 [token2|e] Hs2 [Hok2 Hr2]; [|by split].
  destruct (Hr2 token2 eq_refl) as [Ht2 Hopen]. rewrite orb_true_iff, !negb_true_iff, !bool_decide_eq_false in Hopen.
  eapply always_seq; [apply create_missing_ok with (cur := cur); auto|].
  intros h3 [[token3|act]|e] Hs3 [Hok3 Hr3]; [|by split..]. destruct (Hr3 token3 eq_refl) as [-> Hcre].
  eapply always_mono; [|apply always_grows, delete_extra_ok with (cur := cur); auto].
  - cbn beta. intros h4 r (Hs4 & Hok4 & Hr). split; [done|]. intros token' Heq.
    destruct (Hr token' Heq) as [-> Hdelq]. split; [eapply token_inv_mono; [|exact Ht2]; by etrans|].
    by apply (diff_in_sync cur adds dels Hadds Hdels h3 h4); [apply Hs4, Hs3, Hs2|..].
  - intros Hd Htok. eapply not_ready_published_mono; [exact Hs3|]. auto.
Qed.

Lemma sync_quotas_ok cluster token h :
  deleting = false → ok h → token_inv h token →
  always (sync_quotas f64_from display_admin diff_user_quotas cfg ts obj cluster token) h (λ h' r, ok h' ∧
    ∀ token' flag, r = Ok (Go (token', flag)) → token_inv h' token' ∧ quotas_synced h' flag).
Proof.
  intros Hdel Hok Ht. unfold sync_quotas, quotas_synced. destruct (quotas spec) as [q|] eqn:Hq.
  2:{ split; [done|]. by intros token' flag [= <- <-]. }
  eapply (always_seq _ _ _ (λ h' r, ok h' ∧ ∀ cur, r = Ok cur → described_quotas h' cur)).
  { intros x. split; [by apply ok_snoc|]. intros cur ->. logged. }
  intros h1 [cur|e] Hs1 [Hok1 Hcur].
  2:{ eapply always_mono; [|apply dropped_ok; [done|intros; by apply read_failed_ok]].
      intros h' r [Hok' Hr]. split; [done|]. intros token' flag Heq. by destruct (Hr _ Heq). }
  specialize (Hcur cur eq_refl). set (ops := diff_user_quotas cur (to_quota_map f64_from q)).
  eapply always_seq; [apply pending_if_ok; [done|by eapply token_inv_mono]|].
  intros h2 [token2|e] Hs2 [Hok2 Hr2]; [|by split].
  destruct (Hr2 token2 eq_refl) as [Ht2 Hopen]. rewrite negb_true_iff in Hopen.
  eapply always_seq.
  { apply (change_if_ok _ cluster "AlterClientQuotas" token2 _ h2 (λ h, h2 ⊆ h ∧
      (ops = [] ∨ ev (resp := resp) (AlterUserQuotas quota_user ops false) (Ok None) ∈ h))); [done|..].
    - intros Hnil%bool_decide_eq_true%nil_length_inv. auto.
    - intros Hnil. eapply always_mono; [|apply always_grows, (alter_quotas_ok ops h2 Hok2)].
      + cbn beta. intros h' r (Hs & Hok' & Hr). split; [done|]. auto.
      + intros x. split; [done|]. split; [done|]. exists cur. split; [by apply Hs2|]. right.
        split; [split; [done|by apply Hopen]|]. by exists q. }
  intros h3 [[token3|act]|e] Hs3 [Hok3 Hr3]; (split; [done|]); [|done..].
  destruct (Hr3 token3 eq_refl) as [-> [_ Hops]]. intros token' flag [= <- <-].
  split; [by eapply token_inv_mono|]. split; [done|]. exists cur. split; [by apply Hs3, Hs2|done].
Qed.

Lemma finish_access_ok tls_not_after token flag h :
  ok h → token_inv h token → in_sync h flag →
  always (finish_access cfg ts obj tls_not_after token flag) h (λ h' _, ok h').
Proof.
  intros Hok [Ht _] Hsync. unfold finish_access. destruct token as [t|].
  - eapply always_seq; [apply (patch_ok _ h Hok)|by intros h' [[]|e] _ [Hok' _]].
    intros x. split; [exact I|]. by split.
  - eapply always_seq; [apply (patch_ok _ h Hok)|by intros h' [[]|e] _ [Hok' _]].
    intros x. split; [exact I|]. split; [done|]. exists "True", "Ready", "user in sync".
    split; [done|]. by left.
Qed.

Lemma reconcile_access_ok cluster bootstrap tls_not_after token h :
  deleting = false → has_finalizer obj = true → ok h → token_inv h token → credential_ready h →
  always (reconcile_access f64_from display_admin acl_leb diff_user_quotas cfg ts obj cluster bootstrap
            tls_not_after token) h (λ h' _, ok h').
Proof.
  intros Hdel Hfin Hok Ht Hcred. unfold reconcile_access.
  eapply (always_seq _ _ _ (λ h' _, ok h')); [intros x; by apply ok_snoc|].
  intros h1 [[]|e] Hs1 Hok1; [|by apply read_failed_ok].
  eapply (always_seq _ _ _ (λ h' r, ok h' ∧ ∀ token' flag, r = Ok (Go (token', flag)) →
    token_inv h' token' ∧ in_sync h' flag)).
  - eapply always_seq; [apply sync_acls_ok; [done|done|by eapply token_inv_mono]|].
    intros h2 [[token2|act]|e] Hs2 [Hok2 Hr2]; [|by split..].
    destruct (Hr2 token2 eq_refl) as [Ht2 Hacls].
    eapply always_mono; [|by apply always_grows, sync_quotas_ok]. cbn beta.
    intros h3 r (Hs3 & Hok3 & Hr3). split; [done|]. intros token' flag Heq.
    destruct (Hr3 token' flag Heq) as [Ht3 Hq]. split; [done|]. split_and!; [done..| | |done].
    + eapply credential_ready_mono; [|exact Hcred]. do 2 (etrans; [eassumption|]). done.
    + by eapply acls_in_sync_mono.
  - intros h2 [[[token2 flag]|act]|e] Hs2 [Hok2 Hr2]; [|done..].
    destruct (Hr2 token2 flag eq_refl). by apply finish_access_ok.
Qed.

(** *** Credentials *)
Lemma ensure_password_ok len h :
  ok h → always (ensure_password_secret base64_url obj len) h (λ h' r, ok h' ∧
    ∀ p, r = Ok p → password_stored h' p).
Proof.
  intros Hok. unfold ensure_password_secret, get_user_secret.
  eapply (always_seq _ _ _ (λ h' r, ok h' ∧ ∀ s, r = Ok (Some s) →
    ev (resp := resp) (OnTls (OnCa (ClusterCa.GetSecret name))) (Ok (Some s)) ∈ h')).
  { intros x. split; [by apply ok_snoc|]. destruct x as [o|]; [|done]. intros s [= ->]. logged. }
  intros h1 [existing|e] _ [Hok1 Hs1]; [|by split].
  destruct (and_then existing read_password) as [p|] eqn:Hp.
  { split; [done|]. intros p' [= <-]. left. apply and_then_Some in Hp as (s & -> & Hp). eauto. }
  eapply (always_seq _ _ _ (λ h' _, ok h')); [intros x; by apply ok_snoc|].
  intros h2 [bytes|] _ Hok2; [|by split].
  destruct (render_password_secret obj (base64_url bytes)) as [s|] eqn:Hs; [|by split].
  eapply (always_seq _ _ _ (λ h' r, ok h' ∧ (r = Ok tt →
    ev (resp := resp) (OnTls (OnCa (ClusterCa.ApplySecret name s))) (Ok tt) ∈ h'))).
  { intros x. split; [by apply ok_snoc|]. destruct x as [[]|]; [|done]. intros _. logged. }
  intros h3 [[]|e] _ [Hok3 He]; (split; [done|]); [|done]. intros p [= <-]. right. eauto.
Qed.

Lemma scram_credential_ok cluster bootstrap auth (sha512 : bool) h :
  deleting = false → authentication spec = (if sha512 then ScramSha512 auth else ScramSha256 auth) → ok h →
  always (scram_credential base64_url DEFAULT_SCRAM_ITERATIONS cfg ts obj cluster bootstrap auth sha512) h
    (λ h' r, ok h' ∧ ∀ u, r = Ok (Go u) → scram_provisioned h' sha512).
Proof.
  intros Hdel Hauth Hok. unfold scram_credential, or_retry.
  assert (scram_finalizer obj = Some sha512) as Hfin by (unfold scram_finalizer; rewrite Hauth; by destruct sha512).
  assert (declared_iterations = Some (default DEFAULT_SCRAM_ITERATIONS (iterations auth))) as Hit
    by (unfold declared_iterations; rewrite Hauth; by destruct sha512).
  eapply always_seq; [by apply ensure_password_ok|].
  intros h1 [password|[e|]] _ [Hok1 Hp]; [|by split..]. specialize (Hp password eq_refl).
  eapply (always_seq _ _ _ (λ h' _, ok h')); [intros x; by apply ok_snoc|].
  intros h2 [[]|] Hs2 Hok2; [|by split].
  eapply (always_seq _ _ _ (λ h' r, ok h' ∧ ∀ os, r = Ok os → no_errors os → scram_provisioned h' sha512)).
  { assert (password_stored h2 password) as Hp2 by eauto using password_stored_mono.
    intros x. split.
    - apply ok_snoc; [done|]. split; [|exact I]. split; [done|]. right. split_and!; [done..|].
      exists password. eexists. by split_and!.
    - intros os -> Hos. exists password. eexists _, os. split_and!; [|exact Hit|done|logged].
      eapply password_stored_mono; [|exact Hp2]. intros e He. logged. }
  intros h3 [os|e] Hs3 [Hok3 Hprov].
  - destruct (filter_map id os) as [|err errs] eqn:Hos; cbn [head].
    + split; [done|]. intros u _. by apply (Hprov os).
    + eapply always_mono; [|by apply refuse_ok]. intros h' r [Hok' Hr]. split; [done|].
      intros u Heq. by destruct (Hr _ Heq).
  - eapply always_seq; [by apply drop_if_transport_ok|]. intros h' [] _ Hok'. by split.
Qed.

(** Steps of the token arm are steps of the pass. *)
Lemma token_steps auth now_ms h (tr1 : list (event (token_resp (Time := Time)))) tr :
  deleting = false → authentication spec = TokenAuth auth → ok h →
  Forall2 (lifted (resp2 := resp) OnToken (λ _ x, x)) tr1 tr →
  justified (λ before e, credential_step principal_str parse_principal (token_view obj) auth now_ms before e ∧
    exposure_step principal_str parse_principal base64 (token_view obj) auth now_ms before e) tr1 →
  ok (h ++ tr).
Proof.
  intros Hdel Hauth Hok Hl Hj. eapply justified_lift; [|exact Hl|exact Hj|exact Hok]. cbn beta.
  intros pre1 pre e1 e Hpre (c & x & -> & ->) [Hc He].
  assert (pre1 ⊆ token_part (h ++ pre)) as Hs.
  { rewrite <- (token_part_lifted _ _ Hpre). apply token_part_mono. intros e0 He0. apply elem_of_app. by right. }
  split.
  - split; [unfold is_token_user; by rewrite Hauth|]. right. split; [done|]. exists auth, now_ms.
    split; [done|]. intros e1 [= <-]. by eapply credential_step_mono.
  - intros _. exists auth, now_ms. split; [done|]. intros e1 [= <-]. by eapply exposure_step_mono.
Qed.

Lemma token_credential_ok cluster bootstrap auth h :
  deleting = false → authentication spec = TokenAuth auth → ok h →
  always (token_credential principal_str parse_principal base64 display_admin display_kube cfg ts obj
            cluster bootstrap auth) h (λ h' r, ok h' ∧
    ∀ t, r = Ok (Go t) → token_inv h' (Some t) ∧ credential_ready h').
Proof.
  intros Hdel Hauth Hok. unfold token_credential.
  eapply (always_seq _ _ _ (λ h' _, ok h')); [intros x; by apply ok_snoc|].
  intros h1 [[]|e] _ Hok1.
  - eapply (always_seq _ _ _ (λ h' _, ok h')); [intros x; by apply ok_snoc|].
    intros h2 now_ms _ Hok2. eapply always_seq.
    + eapply (always_lift OnToken (λ _ x, x) _ h2 _ (λ h' r, ok h' ∧
        (∀ o conds, r = Ok o → ro_conditions o = Some conds → credential_ready h') ∧
        (∀ o, r = Ok o → ro_pending_published o = true → not_ready_published h'))); [apply pass_steps|].
      cbn beta. intros tr1 tr r Hl (Hj & Hsec & Hpend & _).
      assert (tr1 ⊆ token_part (h2 ++ tr)) as Hs.
      { rewrite <- (token_part_lifted _ _ Hl). apply token_part_mono. intros e0 He0. apply elem_of_app. by right. }
      split_and!; [by eapply token_steps|..].
      * intros o conds Ho Hcond. unfold credential_ready. rewrite Hauth. exists now_ms.
        eapply secret_written_mono; [exact Hs|eauto].
      * intros o Ho Hp. right. eapply readiness_withdrawn_mono; [exact Hs|eauto].
    + intros h3 [out|e] Hs3 (Hok3 & Hsec & Hpend); (split; [done|]); [|done]. intros t Ht.
      destruct (ro_conditions out) as [conds|] eqn:Hconds; [|done].
      destruct (ro_token_requeue out) as [req|]; [|done]. injection Ht as <-. split; [|by eapply Hsec].
      split; [unfold is_token_user; by rewrite Hauth|]. intros t [= <-]. cbn. eauto.
  - eapply always_seq.
    + eapply (always_lift OnToken (λ _ x, x) _ h1 _ (λ h' _, ok h'));
        [apply (on_admin_error_steps principal_str parse_principal base64 display_admin ts (token_view obj) auth 0)|].
      cbn beta. intros tr1 tr r Hl Hj. by eapply token_steps.
    + intros h3 [out|e'] _ Hok3; by split.
Qed.

Lemma provision_ok cluster bootstrap kafka h :
  deleting = false → ok h →
  always (provision principal_str parse_principal base64 base64_url display_admin display_kube
            DEFAULT_SCRAM_ITERATIONS cfg ts obj cluster bootstrap kafka) h (λ h' r, ok h' ∧
    ∀ cert token, r = Ok (Go (cert, token)) → token_inv h' token ∧ credential_ready h').
Proof.
  intros Hdel Hok. unfold provision, token_inv, is_token_user, credential_ready.
  destruct (authentication spec) as [auth|auth|auth| |auth] eqn:Hauth.
  - eapply always_seq; [apply scram_credential_ok; [done|exact Hauth|done]|].
    intros h' [[u|act]|e] _ [Hok' Hr]; [|by split..]. split; [done|]. intros cert token [= <- <-].
    split; [done|]. by apply (Hr u).
  - eapply always_seq; [apply scram_credential_ok; [done|exact Hauth|done]|].
    intros h' [[u|act]|e] _ [Hok' Hr]; [|by split..]. split; [done|]. intros cert token [= <- <-].
    split; [done|]. by apply (Hr u).
  - unfold or_retry. eapply always_seq.
    + eapply (always_lift OnTls (λ _ x, x) _ h _ (λ h' r, ok h' ∧ ∀ st, r = Ok st →
        active_cert (Time := Time) kafka (tls_part h') (u_meta obj) auth)); [apply reconcile_user_cert_spec|].
      cbn beta. intros tr1 tr r Hl Hr. split.
      * eapply (justified_lift OnTls (λ _ x, x) (λ _ _, True)); [|exact Hl|by intros ? ? ?|done].
        by intros pre1 pre e1 e _ (c & x & -> & ->) _.
      * intros st Hst. eapply active_cert_mono; [|by eapply Hr]. rewrite <- (tls_part_lifted _ _ Hl).
        apply tls_part_mono. intros e He. apply elem_of_app. by right.
    + intros h' [st|[e|]] _ [Hok' Hr]; [|by split..]. split; [done|]. intros cert token [= <- <-].
      split; [done|]. exists kafka. by eapply Hr.
  - split; [done|]. by intros cert token [= <- <-].
  - eapply always_seq; [by apply token_credential_ok|].
    intros h' [[t|act]|e] _ [Hok' Hr]; [|by split..]. split; [done|]. intros cert token [= <- <-].
    destruct (Hr t eq_refl) as [[_ Hp] Hc]. split; [split; [done|exact Hp]|].
    unfold credential_ready in Hc. by rewrite Hauth in Hc.
Qed.

(** *** Deletion *)
Lemma expire_tokens_ok h :
  deleting = true → is_token_user = true → ok h →
  always (on_token (expire_owned_tokens (Time := Time) parse_principal (token_view obj))) h (λ h' _, ok h').
Proof.
  intros Hdel Htok Hok.
  eapply (always_lift OnToken (λ _ x, x) _ h); [apply expire_owned_tokens_steps|]. cbn beta.
  intros tr1 tr r Hl Hj. eapply (justified_lift OnToken (λ _ x, x)); [|exact Hl|exact Hj|exact Hok]. cbn beta.
  intros pre1 pre e1 e Hpre (c & x & -> & ->) Hc. split; [|intros Hd; congruence]. split; [done|]. left.
  split; [done|]. intros e1 [= <-]. eapply cleanup_step_mono; [|exact Hc].
  rewrite <- (token_part_lifted _ _ Hpre). apply token_part_mono. intros e0 He0. apply elem_of_app. by right.
Qed.

Lemma cleanup_quotas_ok h : deleting = true → ok h → always (cleanup_quotas obj) h (λ h' _, ok h').
Proof.
  intros Hdel Hok. unfold cleanup_quotas.
  eapply (always_seq _ _ _ (λ h' r, ok h' ∧ ∀ cur, r = Ok cur → described_quotas h' cur)).
  { intros x. split; [by apply ok_snoc|]. intros cur ->. logged. }
  intros h1 [cur|e] _ [Hok1 Hcur]; [|done]. destruct (bool_decide (cur = ∅)); [done|].
  intros x. apply ok_snoc; [done|]. split; [|exact I]. split; [done|]. split; [done|].
  exists cur. split; [by apply Hcur|]. by left.
Qed.

Lemma cleanup_ok h : deleting = true → ok h → always (cleanup parse_principal obj) h (λ h' _, ok h').
Proof.
  intros Hdel Hok. unfold cleanup.
  eapply (always_seq _ _ _ (λ h' _, ok h')).
  { destruct (scram_finalizer obj) as [sha512|] eqn:Hf; [|done].
    intros x. apply ok_snoc; [done|]. split; [|exact I]. split; [done|]. by left. }
  intros h1 [] _ Hok1. eapply (always_seq _ _ _ (λ h' _, ok h')).
  { pose proof (expire_tokens_ok h1 Hdel) as Hexp. unfold is_token_user in Hexp.
    destruct (authentication spec); [done..|].
    eapply always_seq; [by apply Hexp|]. by intros h' r _ Hok'. }
  intros h2 [] _ Hok2. eapply (always_seq _ _ _ (λ h' _, ok h')).
  { intros x. apply ok_snoc; [done|]. split; [|exact I]. by left. }
  intros h3 _ _ Hok3. by apply cleanup_quotas_ok.
Qed.

Lemma finalizers_ok l h :
  ok h → (∀ x, change_step h (ev (resp := resp) (PatchFinalizers name l) x)) →
  always (kube (perform (resp := resp) (PatchFinalizers name l))) h (λ h' _, ok h').
Proof. intros Hok Hs x. by apply ok_snoc. Qed.

Lemma lifecycle_ok cluster bootstrap h :
  ok h → always (handle_user_lifecycle parse_principal obj cluster bootstrap) h (λ h' r, ok h' ∧
    ∀ u, r = Ok (Go u) → deleting = false ∧ has_finalizer obj = true).
Proof.
  intros Hok. unfold handle_user_lifecycle. destruct deleting eqn:Hdel.
  - eapply (always_seq _ _ _ (λ h' _, ok h')); [intros x; by apply ok_snoc|].
    intros h1 r _ Hok1. eapply (always_seq _ _ _ (λ h' _, ok h')); [destruct r; [by apply cleanup_ok|done]|].
    intros h2 [] _ Hok2. eapply always_seq; [apply (finalizers_ok _ h2 Hok2)|by intros h' [[]|e] _ Hok'].
    intros x. split; [done|]. by left.
  - destruct (has_finalizer obj) eqn:Hf; cbn [negb]; [by split|].
    eapply always_seq; [apply (finalizers_ok _ h Hok)|by intros h' [[]|e] _ Hok'].
    intros x. split; [done|]. by right.
Qed.

(** *** The pass *)
Lemma prepare_ok h :
  ok h → always (prepare_user millis_i64 time_eqb is_finite human cfg ts obj) h (λ h' _, ok h').
Proof.
  intros Hok. unfold prepare_user.
  assert (∀ A reason message delay h, ok h →
    always (refuse (A := A) ts obj reason message delay) h (λ h' _, ok h')) as Hrefuse.
  { intros A reason message delay h0 Hok0. eapply always_mono; [|by apply refuse_ok]. by intros h' r [? _]. }
  destruct (label (u_meta obj) "krabka.io/cluster") as [cluster|]; [|by apply Hrefuse].
  destruct (if deleting then _ else _) as [[]|message]; [|by apply Hrefuse].
  destruct (validate_spec _ _ _ _ spec) as [[]|message]; [|by apply Hrefuse].
  eapply (always_seq _ _ _ (λ h' _, ok h')); [intros x; by apply ok_snoc|].
  intros h1 [kafka|e] _ Hok1; [|done].
  destruct kafka as [k|]; cbn; [|by apply Hrefuse].
  destruct (operator_listener_bootstrap k.1); [done|by apply Hrefuse].
Qed.

Notation reconcile_user := (reconcile_inner f64_from millis_i64 time_eqb is_finite human principal_str
  parse_principal base64 base64_url display_admin display_kube acl_leb diff_user_quotas
  DEFAULT_SCRAM_ITERATIONS cfg ts obj).

Lemma user_pass_ok : all_runs reconcile_user (λ tr _, ok tr).
Proof.
  unfold all_runs, reconcile_inner. eapply always_seq; [apply prepare_ok, justified_nil|].
  intros h1 [[[[cluster bootstrap] kafka]|act]|e] _ Hok1; [|done..].
  eapply (always_seq _ _ _ (λ h' r, ok h' ∧ ∀ cert token, r = Ok (Go (cert, token)) →
    deleting = false ∧ has_finalizer obj = true ∧ token_inv h' token ∧ credential_ready h')).
  - eapply always_seq; [by apply lifecycle_ok|]. intros h2 [[u|act]|e] _ [Hok2 Hr]; [|by split..].
    destruct (Hr u eq_refl) as [Hdel Hfin]. eapply always_mono; [|by apply provision_ok]. cbn beta.
    intros h3 r [Hok3 Hr3]. split; [done|]. intros cert token Heq. destruct (Hr3 cert token Heq). auto.
  - intros h3 [[[cert token]|act]|e] _ [Hok3 Hr]; [|done..].
    destruct (Hr cert token eq_refl) as (Hdel & Hfin & Ht & Hc). by apply reconcile_access_ok.
Qed.

(** C21. A user's access is changed only as declared.  A pass creates exactly the
    ACL entries that the spec expands to and the brokers did not list, and deletes
    exactly the listed ones that it does not, by exact filters; it changes the
    quotas by the difference with the declared ones; it leaves both alone when
    the spec has no such block.  SCRAM credentials are set, for the declared
    mechanism, to the password in the user's Secret with the declared number of
    iterations.  A user is cleaned up, and its finalizer removed, only when it
    is being deleted; its clean-up expires only tokens that the brokers listed for
    it.  Tokens are otherwise touched only for token users, as the token arm's rules
    allow.  The access of a token user that is not being deleted is changed only
    after a status with [Ready=False] was taken. *)
Theorem user_changed_as_declared : all_runs reconcile_user (λ tr _, justified change_step tr).
Proof.
  eapply all_runs_mono; [|apply user_pass_ok]. intros tr r Hok. eapply justified_mono; [|exact Hok].
  by intros pre e [Hc _].
Qed.

(** C22. The status of a user is truthful.  A pass writes [Ready=True], or advances
    the observed generation, only for a user that is not being deleted and has
    the finalizer, after its credential was provisioned in the same pass (the
    SCRAM password of its Secret upserted without error, a certificate of the
    active clients CA in its Secret, the Secret of its live token written), its
    ACLs were listed and every difference removed without error, and likewise
    its quotas; every other status says [Ready=False] and keeps the generation. *)
Theorem user_status_truthful : all_runs reconcile_user (λ tr _, justified status_step tr).
Proof.
  eapply all_runs_mono; [|apply user_pass_ok]. intros tr r Hok. eapply justified_mono; [|exact Hok].
  by intros pre e [_ Hs].
Qed.
End claims.

(** ** A user with the name of another Secret of the operator *)
Definition ca_named_user : KafkaUser Z Z := {|
  u_meta := ObjectMeta (Some "prod-cluster-ca") (Some "kafka") (Some "uid-7")
              (Some {["krabka.io/cluster" := "prod"]}) None (Some [FINALIZER]) (Some 1) false [];
  u_spec := {| authentication := ScramSha512 {| iterations := None; password_length := None |};
               authorization := None; quotas := None |};
  u_status := None |}.

(** A server that holds the key Secret of the cluster CA. *)
Definition demo_user_env `{UserX509} (_ : unit) (c : user_call (Time := Z) (F64 := Z)) : unit * user_resp c :=
  (tt, match c return user_resp c with
       | GetKafka _ => Ok None
       | AdminClientFor _ _ => Ok tt
       | DropAdminClient _ => tt
       | AlterScram _ _ _ | CreateAcls _ | DeleteAcls _ => Ok []
       | DescribeAcls _ => Ok []
       | DescribeUserQuotas _ => Ok ∅
       | AlterUserQuotas _ _ _ => Ok None
       | PatchStatus _ _ | PatchFinalizers _ _ => Ok tt
       | RandomBytes _ => Ok "0123456789abcdef"
       | NowMillis => 0
       | OnToken c => match c return token_resp c with
                      | DescribeTokens _ => Ok []
                      | CreateToken _ _ _ | RenewToken _ | ExpireToken _ => Err (Transport "down")
                      | PatchUserStatus _ _ | DelegationToken.ApplySecret _ => Ok tt
                      end
       | OnTls c => match c return tls_resp c with
                    | OnCa c => match c return ca_resp c with
                                | ClusterCa.GetSecret _ => Ok (Some demo_key_secret)
                                | ClusterCa.ApplySecret _ _ | MergeAnnotation _ _ _ => Ok tt
                                | GenerateCa _ _ _ | RenewCa _ _ _ _ => Err "unused"
                                end
                    | MergeSecretData _ _ _ => Ok tt
                    | IssueUserCert _ _ _ _ => Err "unused"
                    | NowUtc => 0
                    end
       end).

(** The name of the CA's key Secret is accepted for a user, and the pass for its
    credential applies a Secret without the CA key over it. *)
Lemma user_overwrites_ca_secret `{UserX509} :
  validate_reserved_identity "prod-cluster-ca" "prod" = Ok tt ∧
  ca_key_name demo_kafka ClusterCa.Cluster = "prod-cluster-ca" ∧
  read_pem_key demo_key_secret "ca.key" = Some "old" ∧
  ∃ s, ev (resp := user_resp (Time := Z) (F64 := Z)) (OnTls (OnCa (ClusterCa.ApplySecret "prod-cluster-ca" s))) (Ok tt)
         ∈ (exec demo_user_env (ensure_password_secret id ca_named_user 32) tt).1.2 ∧
       read_pem_key s "ca.key" = None.
Proof.
  split; [vm_compute; reflexivity|]. split; [vm_compute; reflexivity|]. split; [vm_compute; reflexivity|].
  eexists. split.
  - vm_compute. apply list_elem_of_further, list_elem_of_further, list_elem_of_here.
  - vm_compute. reflexivity.
Qed.
