(* ===== verification/Drain.v ===== *)
(** * Removing nodes of a pool (src/controller/kafka_node_pool.rs)

    The broker drain that holds the removal of pods behind a remove-brokers
    rebalance, a fresh read of the assignments and the unregistration of every
    broker; the scale-down, which also removes the quorum voters one by one; and
    the deletion of a pool with its finalizer. *)

From S2P Require Import Prelude RustStd Effects Kube Workload RebalancerClient Rebalance Listeners NodePool.
Local Open Scope Z_scope.

Definition FINALIZER : string := "krabka.io/kafka-node-pool-finalizer".
Definition UNREGISTERED_BROKERS_ANNOTATION : string := "krabka.io/unregistered-brokers".
Definition REBALANCE_COMMAND_ANNOTATION : string := "krabka.io/rebalance".

(** ** Answers of the admin client *)
Record PartitionAssignment : Type := {
  pa_topic : string;
  pa_partition : Z;
  pa_replicas : list Z;
}.

Record PartitionReassignment : Type := {
  ra_replicas : list Z;
  ra_adding : list Z;
  ra_removing : list Z;
}.

(** ** Pure parts *)
Definition removed_broker_ids (node_id_start observed desired : Z) : list Z :=
  let from := saturating_add_i32 node_id_start desired in
  seqZ from (saturating_add_i32 node_id_start observed - from).

Definition broker_drain_name (cluster pool : string) (desired : Z) : string :=
  cluster +:+ "-" +:+ pool +:+ "-drain-to-" +:+ display_Z desired.

Definition recorded_unregistrations (pool : KafkaNodePool) : gset Z :=
  match annotation (kp_meta pool) UNREGISTERED_BROKERS_ANNOTATION with
  | None => ∅
  | Some value => list_to_set (filter_map parse_i32 (split_char "," value))
  end.

Definition has_finalizer (pool : KafkaNodePool) : bool :=
  is_some_and (existsb (λ v, str_eqb v FINALIZER)) (om_finalizers (kp_meta pool)).

Definition finalizers_with (pool : KafkaNodePool) (present : bool) : list string :=
  let finalizers := default [] (om_finalizers (kp_meta pool)) in
  if present then
    if negb (existsb (λ v, str_eqb v FINALIZER) finalizers) then finalizers ++ [FINALIZER]
    else finalizers
  else List.filter (λ v, negb (str_eqb v FINALIZER)) finalizers.

Definition operator_admin_address_for_node (bootstrap : string) (pools : list KafkaNodePool)
    (current_pool : string) (current_start current_replicas node_id : Z) : option string :=
  and_then (rsplit_once ":" bootstrap) (λ '(host, _),
  and_then (head (split_char "." host)) (λ service,
  and_then (strip_suffix "-broker-headless" service) (λ cluster,
  and_then (head (filter_map (λ pool,
      let name := pool_name pool in
      let '(start, reps) :=
        if str_eqb name current_pool then (current_start, current_replicas)
        else (node_id_start (kp_spec pool), replicas (kp_spec pool)) in
      if (start <=? node_id) && (node_id <? saturating_add_i32 start reps)
      then Some (name, start) else None) pools)) (λ '(pool, start),
  and_then (checked_sub_i32 node_id start) (λ ordinal,
  Some (cluster +:+ "-" +:+ pool +:+ "-" +:+ display_Z ordinal +:+ "." +:+ bootstrap)))))).

Section drain.
Context `{TimeOps Time} {ByteRate Uuid : Type}.
(** [Uuid::parse_str] and its [Display]. *)
Context (parse_uuid : string → result Uuid string) (uuid_str : Uuid → string).
Notation KafkaRebalance := (KafkaRebalance ByteRate).

Record Voter : Type := { v_id : Z; v_directory : Uuid }.
Record Quorum : Type := { q_leader : Z; q_voters : list Voter }.

Record pool_config : Type := {
  controller_error_requeue : Time;
  controller_dependency_requeue : Time;
}.

Definition uuid_from_secret (s : secret) : result Uuid ReconcileError :=
  match sec_data s with
  | None => Err (MalformedSecret "Secret.data is empty")
  | Some data =>
      match data !! "clusterId" with
      | None => Err (MalformedSecret "missing clusterId key")
      | Some b =>
          let? str := map_err (λ e, MalformedSecret ("clusterId not UTF-8: " +:+ e)) (from_utf8 b) in
          map_err (λ e, MalformedSecret ("clusterId not a UUID: " +:+ e)) (parse_uuid str)
      end
  end.

Definition active_message (rebalance : KafkaRebalance) : option string :=
  opt_map message
    (and_then (rb_status rebalance)
       (λ st, find_last (λ c, str_eqb (status c) "True") (rs_conditions st))).

Definition broker_drain_waiting_message (rebalance : KafkaRebalance) (brokers : list Z) : string :=
  let waiting := "waiting for remove-brokers proposal for " +:+ debug_Zs brokers in
  match option_filter (λ m, negb (is_empty m)) (active_message rebalance) with
  | Some m => waiting +:+ ": " +:+ m
  | None => waiting
  end.

Definition managed_drain_matches (rebalance : KafkaRebalance) (brokers : list Z)
    (authorization : RebalancerAuthorizationSecretRef) : bool :=
  bool_decide (rb_mode (rb_spec rebalance) = RemoveBrokers)
  && bool_decide (rb_brokers (rb_spec rebalance) = brokers)
  && bool_decide (rb_authorization_secret_ref (rb_spec rebalance) = Some authorization).

(** ** Calls *)
Inductive pool_call : Type :=
  | GetRebalance (name : string)
  | ApplyRebalance (name : string) (r : KafkaRebalance)
  | CommandRebalance (name command : string)
  | DeleteRebalance (name : string)
  | PatchPoolStatus (cond : KafkaCondition)
  | RecordUnregistered (value : string)
  | PatchFinalizers (finalizers : list string)
  | GetService (name : string)
  | GetSecret (name : string)
  | GetStatefulSet (name : string)
  | ListPods (cluster pool : string)
  | ScaleToZero (statefulset : string)
  | AdminClientFor (address : string)
  | DropAdminClient
  | DescribeAssignments (address : string)
  | ListReassignments (address : string)
  | UnregisterBroker (address : string) (id : Z)
  | DescribeQuorum (address : string)
  | RemoveRaftVoter (address cluster_id : string) (id : Z) (directory : Uuid).

(** A Service is read for its named ports: [spec.ports], if present. *)
Definition pool_resp (c : pool_call) : Type :=
  match c with
  | GetRebalance _ => result (option KafkaRebalance) kube_error
  | GetService _ => result (option (option (list (option string * Z)))) kube_error
  | GetSecret _ => result secret kube_error
  | GetStatefulSet _ => result (option StatefulSet) kube_error
  | ListPods _ _ => result (list Pod) kube_error
  | ApplyRebalance _ _ | CommandRebalance _ _ | DeleteRebalance _ | PatchPoolStatus _
  | RecordUnregistered _ | PatchFinalizers _ | ScaleToZero _ => result unit kube_error
  | AdminClientFor _ | UnregisterBroker _ _ | RemoveRaftVoter _ _ _ _ => result unit AdminError
  | DropAdminClient => unit
  | DescribeAssignments _ => result (list PartitionAssignment) AdminError
  | ListReassignments _ => result (list PartitionReassignment) AdminError
  | DescribeQuorum _ => result Quorum AdminError
  end.

Notation pass R := (prog pool_resp (result R ReconcileError)).
Notation call := (perform (resp := pool_resp)).

(** [call.await?] for the two kinds of errors. *)
Definition kube {A} (p : prog pool_resp (result A kube_error)) : pass A :=
  r ← p; Ret (map_err Kube r).
Definition admin {A} (p : prog pool_resp (result A AdminError)) : pass A :=
  r ← p; Ret (map_err Admin r).

Section pass.
Context (ts : string) (cfg : pool_config) (pool : KafkaNodePool) (namespace cluster name : string).

Definition patch_status_for_pool (cond : KafkaCondition) : pass unit := kube (call (PatchPoolStatus cond)).

Definition set_finalizer (present : bool) : pass unit :=
  kube (call (PatchFinalizers (finalizers_with pool present))).

Definition operator_bootstrap_address : pass string :=
  service ←? kube (call (GetService (cluster +:+ "-broker-headless")));
  let port :=
    match service with
    | None => Ok OPERATOR_LISTENER_PORT
    | Some ports =>
        ok_or (opt_map snd (and_then ports (find_first (λ p, bool_decide (p.1 = Some "operator-admin")))))
          (Malformed "operator-admin Service port missing")
    end in
  Ret (let? port := port in
       Ok (cluster +:+ "-broker-headless." +:+ namespace +:+ ".svc.cluster.local:" +:+ display_Z port)).

Definition patch_broker_drain_condition (reason message : string) : pass (option (action Time)) :=
  _ ←? patch_status_for_pool (condition ts "Ready" "False" reason message);
  Ret (Ok (Some (Requeue (from_secs 1)))).

Definition refresh_broker_drain (rebalance_name : string) (rebalance : KafkaRebalance) : pass unit :=
  if negb (opt_is_some (annotation (rb_meta rebalance) REBALANCE_COMMAND_ANNOTATION))
  then kube (call (CommandRebalance rebalance_name "refresh"))
  else Ret (Ok tt).

Definition drain_authorization : RebalancerAuthorizationSecretRef :=
  {| ref_name := cluster +:+ "-rebalancer-auth"; ref_key := "token" |}.

Definition drain_resource (rebalance_name : string) (brokers : list Z) : KafkaRebalance :=
  {| rb_meta :=
       {| om_name := Some rebalance_name; om_namespace := Some namespace; om_uid := None;
          om_labels := Some {["krabka.io/cluster" := cluster; "krabka.io/pool" := name;
                              "app.kubernetes.io/managed-by" := "krabka-operator"]};
          om_annotations := None; om_finalizers := None; om_generation := None;
          om_deleting := false; om_owners := [] |};
     rb_spec :=
       {| rb_mode := RemoveBrokers; rb_brokers := brokers;
          rb_authorization_secret_ref := Some drain_authorization;
          rb_goals := None; rb_throttle := None; rb_endpoint := None |};
     rb_status := None |}.

(** Unregister one broker that is not yet recorded; [None] when there is none. *)
Definition unregister_next (bootstrap : string) (brokers : list Z) : pass (option (action Time)) :=
  let recorded := recorded_unregistrations pool in
  match find_first (λ id, negb (bool_decide (id ∈ recorded))) brokers with
  | None => Ret (Ok None)
  | Some broker_id =>
      _ ←? admin (call (UnregisterBroker bootstrap broker_id));
      let value := join "," (map display_Z (set_list_Z ({[broker_id]} ∪ recorded))) in
      _ ←? kube (call (RecordUnregistered value));
      patch_broker_drain_condition "BrokerDrainInProgress"
        ("unregistered broker " +:+ display_Z broker_id)
  end.

Definition on_removed (brokers : list Z) (l : list Z) : bool := existsb (λ id, bool_decide (id ∈ brokers)) l.

Definition reassigning (brokers : list Z) (r : PartitionReassignment) : bool :=
  on_removed brokers (ra_replicas r ++ ra_adding r ++ ra_removing r).

(** After the proposal is done: read the assignments and reassignments. *)
Definition verify_drained (rebalance_name : string) (rebalance : KafkaRebalance) (brokers : list Z)
  : pass (option (action Time)) :=
  bootstrap ←? operator_bootstrap_address;
  _ ←? admin (call (AdminClientFor bootstrap));
  assignments ←? admin (call (DescribeAssignments bootstrap));
  match find_first (λ a, on_removed brokers (pa_replicas a)) assignments with
  | Some assignment =>
      _ ←? refresh_broker_drain rebalance_name rebalance;
      patch_broker_drain_condition "BrokerDrainInProgress"
        ("refreshing completed remove-brokers proposal: " +:+ pa_topic assignment +:+ "-"
           +:+ display_Z (pa_partition assignment) +:+ " still has a replica on removed brokers")
  | None =>
      in_flight ←? admin (call (ListReassignments bootstrap));
      if existsb (reassigning brokers) in_flight then
        patch_broker_drain_condition "BrokerDrainBlocked"
          "a reassignment still references a removed broker"
      else unregister_next bootstrap brokers
  end.

(** An existing proposal, by its state. *)
Definition follow_proposal (rebalance_name : string) (rebalance : KafkaRebalance) (brokers : list Z)
  : pass (option (action Time)) :=
  match current_state rebalance with
  | ProposalReady =>
      _ ←? kube (call (CommandRebalance rebalance_name "approve"));
      patch_broker_drain_condition "BrokerDrainInProgress"
        ("approved remove-brokers proposal for " +:+ debug_Zs brokers)
  | NotReady | Stopped =>
      patch_broker_drain_condition "BrokerDrainBlocked"
        (default ("remove-brokers proposal for " +:+ debug_Zs brokers +:+ " cannot proceed")
           (active_message rebalance))
  | New | Rebalancing =>
      patch_broker_drain_condition "BrokerDrainInProgress"
        (broker_drain_waiting_message rebalance brokers)
  | Ready =>
      if negb (bool_decide (and_then (rb_status rebalance) rs_observed_generation
                            = om_generation (rb_meta rebalance))) then
        patch_broker_drain_condition "BrokerDrainInProgress"
          "waiting for the current remove-brokers proposal generation"
      else verify_drained rebalance_name rebalance brokers
  end.

Definition reconcile_broker_drain (observed_replicas desired_replicas node_id_start : Z)
  : pass (option (action Time)) :=
  if observed_replicas <=? desired_replicas then Ret (Ok None)
  else
    let brokers := removed_broker_ids node_id_start observed_replicas desired_replicas in
    let rebalance_name := broker_drain_name cluster name desired_replicas in
    existing ←? kube (call (GetRebalance rebalance_name));
    match existing with
    | None =>
        _ ←? kube (call (ApplyRebalance rebalance_name (drain_resource rebalance_name brokers)));
        patch_broker_drain_condition "BrokerDrainInProgress"
          ("created remove-brokers proposal for " +:+ debug_Zs brokers)
    | Some rebalance =>
        if negb (managed_drain_matches rebalance brokers drain_authorization) then
          patch_broker_drain_condition "BrokerDrainBlocked"
            "managed remove-brokers proposal does not match the requested drain"
        else follow_proposal rebalance_name rebalance brokers
    end.

(** ** Scale-down *)
Definition has_role (mask bit : Z) : bool := negb (Z.land mask bit =? 0).

(** The voter to remove: the one with the highest id in the range. *)
Definition target_voter (quorum : Quorum) (first last : Z) : option Voter :=
  max_by_key v_id (List.filter (λ v, (first <=? v_id v) && (v_id v <=? last)) (q_voters quorum)).

Definition last_voter (quorum : Quorum) : bool := (length (q_voters quorum) =? 1)%nat.

Definition remove_scaled_voter (sibling_pools : list KafkaNodePool)
    (observed_node_id_start observed_replicas first_removed removed_end : Z)
  : pass (option (action Time)) :=
  s ←? kube (call (GetSecret (cluster +:+ "-cluster-id")));
  match uuid_from_secret s with
  | Err e => Ret (Err e)
  | Ok cluster_id =>
      address ←? operator_bootstrap_address;
      _ ←? admin (call (AdminClientFor address));
      quorum ←? admin (call (DescribeQuorum address));
      match target_voter quorum first_removed removed_end with
      | None => Ret (Ok None)
      | Some target =>
          if last_voter quorum then
            _ ←? patch_status_for_pool
              (condition ts "Ready" "False" "LastVoterScaleDownBlocked"
                 "cannot scale down the last metadata-quorum voter");
            Ret (Ok (Some (Requeue (controller_dependency_requeue cfg))))
          else
            let leader_address := default address
              (operator_admin_address_for_node address sibling_pools name observed_node_id_start
                 observed_replicas (q_leader quorum)) in
            _ ←? admin (call (AdminClientFor leader_address));
            removed ← call (RemoveRaftVoter leader_address (uuid_str cluster_id) (v_id target)
                              (v_directory target));
            match removed with
            | Err e => _ ← call DropAdminClient; Ret (Err (Admin e))
            | Ok _ =>
                _ ←? patch_status_for_pool
                  (condition ts "Ready" "False" "QuorumScaleDownInProgress"
                     ("removed voter " +:+ display_Z (v_id target)
                        +:+ "; waiting before scaling pods"));
                Ret (Ok (Some (Requeue (controller_dependency_requeue cfg))))
            end
      end
  end.

Definition reconcile_controller_scale_down (sibling_pools : list KafkaNodePool)
    (observed : option StatefulSet) : pass (option (action Time)) :=
  match and_then (and_then observed ss_spec) ss_replicas with
  | None => Ret (Ok None)
  | Some observed_replicas =>
      let identity := default (None, None) (opt_map observed_statefulset_identity observed) in
      let observed_roles := default (role_mask (roles (kp_spec pool))) identity.2 in
      let desired := replicas (kp_spec pool) in
      if observed_replicas <=? desired then Ret (Ok None)
      else
        let observed_node_id_start := default (node_id_start (kp_spec pool)) identity.1 in
        drained ←? (if has_role observed_roles 1
                    then reconcile_broker_drain observed_replicas desired observed_node_id_start
                    else Ret (Ok None));
        match drained with
        | Some a => Ret (Ok (Some a))
        | None =>
            if negb (has_role observed_roles 2) then Ret (Ok None)
            else
              match checked_add_i32 observed_node_id_start desired,
                    checked_add_i32 observed_node_id_start (wrap_i32 (observed_replicas - 1)) with
              | Some first_removed, Some removed_end =>
                  remove_scaled_voter sibling_pools observed_node_id_start observed_replicas
                    first_removed removed_end
              | _, _ => Ret (Err (Malformed "controller node-id range overflow"))
              end
        end
  end.

(** ** Deletion *)
Definition delete_deletion_rebalance : pass unit :=
  let rebalance := broker_drain_name cluster name 0 in
  existing ←? kube (call (GetRebalance rebalance));
  match existing with
  | Some _ => kube (call (DeleteRebalance rebalance))
  | None => Ret (Ok tt)
  end.

(** Scale to zero and, once no pod is left, let the resource go. *)
Definition release_pool (statefulset : option StatefulSet) (pods : list Pod) (observed_roles : Z)
  : pass (action Time) :=
  _ ←? (match statefulset with
        | Some _ => kube (call (ScaleToZero (cluster +:+ "-" +:+ name)))
        | None => Ret (Ok tt)
        end);
  match pods with
  | _ :: _ => Ret (Ok (Requeue (controller_dependency_requeue cfg)))
  | [] =>
      _ ←? (if has_role observed_roles 1 then delete_deletion_rebalance else Ret (Ok tt));
      _ ←? set_finalizer false;
      Ret (Ok AwaitChange)
  end.

(** Remove one voter of the pool; [None] when the quorum has none of it. *)
Definition remove_deleted_voter (observed_node_id_start observed_replicas : Z)
  : pass (option (action Time)) :=
  s ←? kube (call (GetSecret (cluster +:+ "-cluster-id")));
  match uuid_from_secret s with
  | Err e => Ret (Err e)
  | Ok cluster_id =>
      bootstrap ←? operator_bootstrap_address;
      connected ← call (AdminClientFor bootstrap);
      match connected with
      | Err _ => Ret (Ok (Some (Requeue (controller_error_requeue cfg))))
      | Ok _ =>
          described ← call (DescribeQuorum bootstrap);
          match described with
          | Err _ => _ ← call DropAdminClient; Ret (Ok (Some (Requeue (controller_error_requeue cfg))))
          | Ok quorum =>
              match option_filter (λ e, e <=? MAX_NODE_ID)
                      (checked_add_i32 observed_node_id_start (wrap_i32 (observed_replicas - 1))) with
              | None => Ret (Err (Malformed "observed controller node-id range overflow"))
              | Some node_id_end =>
                  match target_voter quorum observed_node_id_start node_id_end with
                  | None => Ret (Ok None)
                  | Some target =>
                      if last_voter quorum then
                        _ ←? patch_status_for_pool
                          (condition ts "Ready" "False" "LastVoterDeletionBlocked"
                             "cannot delete the last metadata-quorum voter");
                        Ret (Ok (Some (Requeue (controller_dependency_requeue cfg))))
                      else
                        removed ← call (RemoveRaftVoter bootstrap (uuid_str cluster_id) (v_id target)
                                          (v_directory target));
                        match removed with
                        | Err _ =>
                            _ ← call DropAdminClient;
                            Ret (Ok (Some (Requeue (controller_error_requeue cfg))))
                        | Ok _ => Ret (Ok (Some (Requeue (controller_dependency_requeue cfg))))
                        end
                  end
              end
          end
      end
  end.

(** What is left of the pool, by its StatefulSet and its pods. *)
Definition live_replicas (sts : option StatefulSet) (pods : list Pod) : Z :=
  Z.max (default 0 (opt_map observed_statefulset_replicas sts))
    (observed_pool_pod_replicas pods (cluster +:+ "-" +:+ name)).

Definition left_identity (sts : option StatefulSet) (pods : list Pod) : option Z * option Z :=
  let sts_identity := default (None, None) (opt_map observed_statefulset_identity sts) in
  let pod_identity := default (None, None) (opt_map observed_pod_identity (head pods)) in
  (or_else sts_identity.1 pod_identity.1, or_else sts_identity.2 pod_identity.2).

Definition left_start (sts : option StatefulSet) (pods : list Pod) : Z :=
  default (node_id_start (kp_spec pool)) (left_identity sts pods).1.
Definition left_roles (sts : option StatefulSet) (pods : list Pod) : Z :=
  default (role_mask (roles (kp_spec pool))) (left_identity sts pods).2.

(** [parent_deleting]: [None] when the parent is gone, else whether it is being
    deleted. *)
Definition reconcile_deletion (parent_deleting : option bool) : pass (action Time) :=
  if negb (has_finalizer pool) then Ret (Ok AwaitChange)
  else
    observed_sts ←? kube (call (GetStatefulSet (cluster +:+ "-" +:+ name)));
    pods ←? kube (call (ListPods cluster name));
    let live_replicas := live_replicas observed_sts pods in
    let observed_replicas := Z.max (replicas (kp_spec pool)) live_replicas in
    let observed_node_id_start := left_start observed_sts pods in
    let observed_roles := left_roles observed_sts pods in
    if is_none_or id parent_deleting then release_pool observed_sts pods observed_roles
    else
      drained ←? (if has_role observed_roles 1 && (0 <? live_replicas)
                  then reconcile_broker_drain live_replicas 0 observed_node_id_start
                  else Ret (Ok None));
      match drained with
      | Some a => Ret (Ok a)
      | None =>
          removed ←? (if has_role observed_roles 2
                      then remove_deleted_voter observed_node_id_start observed_replicas
                      else Ret (Ok None));
          match removed with
          | Some a => Ret (Ok a)
          | None => release_pool observed_sts pods observed_roles
          end
      end.
End pass.
End drain.

(** ** Gates *)
Lemma elem_of_removed_broker_ids start observed desired id :
  id ∈ removed_broker_ids start observed desired ↔
  saturating_add_i32 start desired ≤ id < saturating_add_i32 start observed.
Proof. unfold removed_broker_ids. rewrite elem_of_seqZ. lia. Qed.

Lemma on_removed_false brokers l :
  on_removed brokers l = false → ∀ id, id ∈ brokers → id ∉ l.
Proof.
  intros Hf id Hb Hl. apply not_true_iff_false in Hf. apply Hf.
  apply existsb_exists. exists id. rewrite <- list_elem_of_In, bool_decide_eq_true. done.
Qed.

Section gates.
Context `{TimeOps Time} {ByteRate Uuid : Type}.
Context (parse_uuid : string → result Uuid string) (uuid_str : Uuid → string).
Context (ts : string) (cfg : pool_config (Time := Time)) (pool : KafkaNodePool)
        (namespace cluster name : string).
Notation resp := (pool_resp (ByteRate := ByteRate) (Uuid := Uuid)).
Implicit Types (pre tr : list (event resp)) (e : event resp).

Section drain.
Context (observed desired start : Z).
Notation brokers := (removed_broker_ids start observed desired).
Notation drain := (reconcile_broker_drain (Uuid := Uuid) (ByteRate := ByteRate) ts pool namespace
                     cluster name observed desired start).

(** Read in this pass: the drain's rebalance is done at its current generation,
    and no partition has, gains or loses a replica on a leaving broker. *)
Definition drained pre : Prop :=
  ∃ r address assignments in_flight,
    ev (resp := resp) (GetRebalance (broker_drain_name cluster name desired)) (Ok (Some r)) ∈ pre ∧
    rb_mode (rb_spec r) = RemoveBrokers ∧ rb_brokers (rb_spec r) = brokers ∧
    current_state r = Ready ∧
    and_then (rb_status r) rs_observed_generation = om_generation (rb_meta r) ∧
    ev (resp := resp) (DescribeAssignments address) (Ok assignments) ∈ pre ∧
    (∀ a id, a ∈ assignments → id ∈ brokers → id ∉ pa_replicas a) ∧
    ev (resp := resp) (ListReassignments address) (Ok in_flight) ∈ pre ∧
    (∀ a id, a ∈ in_flight → id ∈ brokers →
       id ∉ ra_replicas a ∧ id ∉ ra_adding a ∧ id ∉ ra_removing a).

Definition recorded_all : Prop := ∀ id, id ∈ brokers → id ∈ recorded_unregistrations pool.

(** What a drain pass may do. *)
Definition drain_step pre e : Prop :=
  match projT1 e with
  | UnregisterBroker _ id => drained pre ∧ id ∈ brokers ∧ id ∉ recorded_unregistrations pool
  | ApplyRebalance n r =>
      r = drain_resource namespace cluster name n brokers ∧
      n = broker_drain_name cluster name desired ∧
      ev (resp := resp) (GetRebalance n) (Ok None) ∈ pre
  | CommandRebalance n c =>
      n = broker_drain_name cluster name desired ∧
      ∃ r, ev (resp := resp) (GetRebalance n) (Ok (Some r)) ∈ pre ∧
        rb_mode (rb_spec r) = RemoveBrokers ∧ rb_brokers (rb_spec r) = brokers ∧
        (c = "approve" ∧ current_state r = ProposalReady ∨ c = "refresh" ∧ current_state r = Ready)
  | ScaleToZero _ | RemoveRaftVoter _ _ _ _ | PatchFinalizers _ | DeleteRebalance _ => False
  | _ => True
  end.

Lemma managed_drain_matches_spec (r : KafkaRebalance ByteRate) auth :
  managed_drain_matches r brokers auth = true →
  rb_mode (rb_spec r) = RemoveBrokers ∧ rb_brokers (rb_spec r) = brokers.
Proof. unfold managed_drain_matches. rewrite !andb_true_iff, !bool_decide_eq_true. tauto. Qed.

Lemma reassigning_false l :
  existsb (reassigning brokers) l = false →
  ∀ a id, a ∈ l → id ∈ brokers → id ∉ ra_replicas a ∧ id ∉ ra_adding a ∧ id ∉ ra_removing a.
Proof.
  intros Hl a id Ha Hid. assert (reassigning brokers a = false) as Hr.
  { apply not_true_iff_false. intros Ht. apply not_true_iff_false in Hl. apply Hl.
    apply existsb_exists. exists a. by rewrite <- list_elem_of_In. }
  pose proof (on_removed_false _ _ Hr id Hid) as Hn. rewrite !elem_of_app in Hn. tauto.
Qed.

Lemma drained_intro tr r address assignments in_flight :
  ev (resp := resp) (GetRebalance (broker_drain_name cluster name desired)) (Ok (Some r)) ∈ tr →
  negb (managed_drain_matches r brokers (drain_authorization cluster)) = false →
  current_state r = Ready →
  negb (bool_decide (and_then (rb_status r) rs_observed_generation = om_generation (rb_meta r))) = false →
  ev (resp := resp) (DescribeAssignments address) (Ok assignments) ∈ tr →
  find_first (λ a, on_removed brokers (pa_replicas a)) assignments = None →
  ev (resp := resp) (ListReassignments address) (Ok in_flight) ∈ tr →
  existsb (reassigning brokers) in_flight = false →
  drained tr.
Proof.
  rewrite !negb_false_iff, bool_decide_eq_true.
  intros Hg [Hm Hb]%managed_drain_matches_spec Hs Hgen Ha Hnone Hi Hex.
  exists r, address, assignments, in_flight. split_and!; [done..| |done|].
  - intros a id Hin. apply on_removed_false. by apply (proj1 (find_first_None _ _) Hnone).
  - by apply reassigning_false.
Qed.

Lemma recorded_all_intro :
  find_first (λ id, negb (bool_decide (id ∈ recorded_unregistrations pool))) brokers = None →
  recorded_all.
Proof.
  intros Hn id Hid. rewrite find_first_None in Hn. apply Hn in Hid.
  by rewrite negb_false_iff, bool_decide_eq_true in Hid.
Qed.

Lemma unrecorded_intro id :
  find_first (λ id, negb (bool_decide (id ∈ recorded_unregistrations pool))) brokers = Some id →
  id ∈ brokers ∧ id ∉ recorded_unregistrations pool.
Proof.
  intros [Hin Hn]%find_first_Some. by rewrite negb_true_iff, bool_decide_eq_false in Hn.
Qed.

Lemma matching_command (r : KafkaRebalance ByteRate) (P : Prop) :
  negb (managed_drain_matches r brokers (drain_authorization cluster)) = false → P →
  rb_mode (rb_spec r) = RemoveBrokers ∧ rb_brokers (rb_spec r) = brokers ∧ P.
Proof. rewrite negb_false_iff. intros [? ?]%managed_drain_matches_spec ?. done. Qed.

Ltac show_drained := eapply drained_intro; [logged|eassumption..|logged|eassumption|logged|eassumption].
Ltac show_command :=
  split; [reflexivity|]; eexists; split; [logged|]; eapply matching_command; [eassumption|];
  [ first [left; split; [reflexivity|assumption] | right; split; [reflexivity|assumption]] ].

Lemma drain_spec :
  all_runs drain (λ tr r, justified drain_step tr ∧
    (r = Ok None → observed ≤ desired ∨ drained tr ∧ recorded_all)).
Proof.
  unfold all_runs, reconcile_broker_drain, follow_proposal, verify_drained, unregister_next,
    refresh_broker_drain, operator_bootstrap_address, patch_broker_drain_condition,
    patch_status_for_pool, kube, admin.
  run_cases.
  all: split; [|intros Hr; first [ discriminate Hr
    | left; apply Z.leb_le; assumption
    | right; split; [show_drained|apply recorded_all_intro; assumption] ]].
  all: repeat (rewrite justified_snoc; split); [exact (justified_nil _)|..].
  all: unfold drain_step; cbn [projT1 ev]; first [ exact I | show_command | idtac ].
  all: first [ split; [show_drained|apply unrecorded_intro; assumption]
             | split; [reflexivity|]; split; [reflexivity|logged] ].
Qed.
End drain.

(** Pods are not removed before their brokers are drained.  The drain lets
    the removal proceed only if nothing is to be removed, or if, in this very
    pass, the managed remove-brokers rebalance for exactly the leaving brokers
    was read as done at its current generation, no partition had a replica on
    one of them, no reassignment named one, and each is recorded as
    unregistered.  A broker is unregistered only after the same reads, and only
    if it leaves and is not recorded; the proposal is created only if there was
    none, approved only when ready and refreshed only when done. *)
Theorem broker_drain_gate observed desired start :
  all_runs
    (reconcile_broker_drain (Uuid := Uuid) (ByteRate := ByteRate) ts pool namespace cluster name
       observed desired start)
    (λ tr r,
      justified (drain_step observed desired start) tr ∧
      (r = Ok None → observed ≤ desired ∨
         drained observed desired start tr ∧ recorded_all observed desired start)).
Proof. apply drain_spec. Qed.

(** ** Voters *)
Definition no_voter_left pre (first last : Z) : Prop :=
  ∃ address q, ev (resp := resp) (DescribeQuorum address) (Ok q) ∈ pre ∧
    ∀ v, v ∈ q_voters q → ¬ (first ≤ v_id v ≤ last).

(** The voter is the highest of the range in a quorum that keeps another one. *)
Definition removable pre (first last id : Z) (directory : Uuid) : Prop :=
  ∃ address q, ev (resp := resp) (DescribeQuorum address) (Ok q) ∈ pre ∧
    {| v_id := id; v_directory := directory |} ∈ q_voters q ∧ first ≤ id ≤ last ∧
    (∀ v, v ∈ q_voters q → first ≤ v_id v ≤ last → v_id v ≤ id) ∧ (2 ≤ length (q_voters q))%nat.

Lemma no_voter_intro pre address (q : Quorum) first last :
  ev (resp := resp) (DescribeQuorum address) (Ok q) ∈ pre → target_voter q first last = None →
  no_voter_left pre first last.
Proof.
  intros Hq Ht%max_by_key_None. exists address, q. split; [done|]. intros v Hv Hr.
  assert (v ∈ List.filter (λ v, (first <=? v_id v) && (v_id v <=? last)) (q_voters q)) as Hin.
  { apply elem_of_List_filter. rewrite andb_true_iff, !Z.leb_le. done. }
  rewrite Ht in Hin. by apply not_elem_of_nil in Hin.
Qed.

Lemma removable_intro pre address (q : Quorum) first last v :
  ev (resp := resp) (DescribeQuorum address) (Ok q) ∈ pre → target_voter q first last = Some v →
  last_voter q = false → removable pre first last (v_id v) (v_directory v).
Proof.
  intros Hq [Hin Hmax]%max_by_key_Some Hl. exists address, q. split; [done|].
  apply elem_of_List_filter in Hin as [Hin Hr]. rewrite andb_true_iff, !Z.leb_le in Hr.
  split; [by destruct v|]. split; [done|]. split.
  - intros w Hw Hwr. apply Hmax, elem_of_List_filter. rewrite andb_true_iff, !Z.leb_le. done.
  - apply Nat.eqb_neq in Hl. apply list_elem_of_lookup in Hin as [i Hi].
    destruct (q_voters q) as [|? [|? ?]]; cbn in *; [done|lia|lia].
Qed.
(** Reads stay valid in a longer log. *)
Lemma drained_mono observed desired start tr tr' :
  tr ⊆ tr' → drained observed desired start tr → drained observed desired start tr'.
Proof.
  intros Hsub (r & address & assignments & in_flight & Hg & Hm & Hb & Hs & Hgen & Ha & Hna & Hi & Hni).
  exists r, address, assignments, in_flight. split_and!; auto.
Qed.

(** ** Scale-down *)
Definition scale_roles (s : StatefulSet) : Z :=
  default (role_mask (roles (kp_spec pool))) (observed_statefulset_identity s).2.
Definition scale_start (s : StatefulSet) : Z :=
  default (node_id_start (kp_spec pool)) (observed_statefulset_identity s).1.
Notation desired := (replicas (kp_spec pool)).

(** The leaving brokers of a scale-down from [n] are drained, if it has any. *)
Definition scale_drained pre (s : StatefulSet) (n : Z) : Prop :=
  has_role (scale_roles s) 1 = true →
  drained n desired (scale_start s) pre ∧ recorded_all n desired (scale_start s).

Definition shrinks (observed : option StatefulSet) (s : StatefulSet) (n : Z) : Prop :=
  observed = Some s ∧ and_then (ss_spec s) ss_replicas = Some n ∧ desired < n.

Definition scale_step (observed : option StatefulSet) pre e : Prop :=
  match projT1 e with
  | RemoveRaftVoter _ _ id directory =>
      ∃ s n, shrinks observed s n ∧ scale_drained pre s n ∧
        removable pre (scale_start s + desired) (scale_start s + wrap_i32 (n - 1)) id directory
  | UnregisterBroker _ id =>
      ∃ s n, shrinks observed s n ∧ drained n desired (scale_start s) pre ∧
        id ∈ removed_broker_ids (scale_start s) n desired
  | ScaleToZero _ | PatchFinalizers _ | DeleteRebalance _ => False
  | _ => True
  end.

Notation scale_down sibling_pools observed :=
  (reconcile_controller_scale_down (ByteRate := ByteRate) parse_uuid uuid_str ts cfg pool namespace
     cluster name sibling_pools observed).

(** The drain, if the pool has brokers to drain. *)
Lemma drain_if (b : bool) observed goal start :
  all_runs
    (if b then reconcile_broker_drain (Uuid := Uuid) (ByteRate := ByteRate) ts pool namespace cluster
                 name observed goal start
     else Ret (Ok None))
    (λ tr r, justified (drain_step observed goal start) tr ∧
       (r = Ok None → b = true → goal < observed →
        drained observed goal start tr ∧ recorded_all observed goal start)).
Proof.
  destruct b; [|split; [apply justified_nil|done]].
  eapply all_runs_mono; [|apply drain_spec]. cbn. intros tr r [Hj Hr]. split; [done|].
  intros Hok _ Hlt. destruct (Hr Hok) as [Hle|?]; [lia|done].
Qed.

(** What the removal of voters of a range may do. *)
Definition voter_step (first last : Z) pre e : Prop :=
  match projT1 e with
  | RemoveRaftVoter _ _ id directory => removable pre first last id directory
  | UnregisterBroker _ _ | ScaleToZero _ | PatchFinalizers _ | DeleteRebalance _ => False
  | _ => True
  end.

Ltac show_voters :=
  split;
  [ repeat (rewrite justified_snoc; split); [exact (justified_nil _)|..];
    unfold voter_step; cbn [projT1 ev];
    first [ exact I | eapply removable_intro; [logged|eassumption|eassumption] ]
  | intros Hr; first [ discriminate Hr | eapply no_voter_intro; [logged|eassumption] ] ].

Lemma scaled_voter_spec sibling_pools start observed first last :
  all_runs (remove_scaled_voter (ByteRate := ByteRate) parse_uuid uuid_str ts cfg namespace cluster name
              sibling_pools start observed first last)
    (λ tr r, justified (voter_step first last) tr ∧ (r = Ok None → no_voter_left tr first last)).
Proof.
  unfold all_runs, remove_scaled_voter, operator_bootstrap_address, patch_status_for_pool, kube, admin.
  run_cases. all: show_voters.
Qed.

Lemma deleted_voter_spec start observed :
  all_runs (remove_deleted_voter (ByteRate := ByteRate) parse_uuid uuid_str ts cfg namespace cluster
              start observed)
    (λ tr r, justified (voter_step start (start + wrap_i32 (observed - 1))) tr ∧
       (r = Ok None → no_voter_left tr start (start + wrap_i32 (observed - 1)))).
Proof.
  unfold all_runs, remove_deleted_voter, operator_bootstrap_address, patch_status_for_pool, kube, admin.
  run_cases.
  all: repeat match goal with
    | H : option_filter _ (checked_add_i32 ?a ?b) = Some ?z |- _ =>
        unfold option_filter in H; destruct (checked_add_i32 a b) eqn:Hc; [|discriminate H];
        case_match; [|discriminate H]; injection H as <-; apply checked_Some in Hc as [-> _]
    end.
  all: show_voters.
Qed.
Lemma no_voter_mono tr tr' first last :
  tr ⊆ tr' → no_voter_left tr first last → no_voter_left tr' first last.
Proof. intros Hsub (address & q & Hq & Hn). exists address, q. auto. Qed.

Lemma removable_mono tr tr' first last id directory :
  tr ⊆ tr' → removable tr first last id directory → removable tr' first last id directory.
Proof. intros Hsub (address & q & Hq & Hn). exists address, q. auto. Qed.

Lemma subset_app_l tr tr' : tr ⊆ tr ++ tr'.
Proof. intros e He. apply elem_of_app. by left. Qed.
Lemma subset_app_r tr tr' : tr' ⊆ tr ++ tr'.
Proof. intros e He. apply elem_of_app. by right. Qed.

Lemma drain_step_scales s n pre e :
  shrinks (Some s) s n → drain_step n desired (scale_start s) pre e → scale_step (Some s) pre e.
Proof.
  intros Hs. unfold drain_step, scale_step. destruct e as [c x]; cbn [projT1]. destruct c; try done.
  intros (Hd & Hid & _). exists s, n. done.
Qed.

Lemma voter_step_scales s n tr pre e :
  shrinks (Some s) s n → scale_drained tr s n →
  voter_step (scale_start s + desired) (scale_start s + wrap_i32 (n - 1)) pre e →
  scale_step (Some s) (tr ++ pre) e.
Proof.
  intros Hs Hd. unfold voter_step, scale_step. destruct e as [c x]; cbn [projT1]. destruct c; try done.
  intros Hr. exists s, n. split; [done|]. split.
  - intros Hrole. destruct (Hd Hrole). split; [|done]. eapply drained_mono; [apply subset_app_l|done].
  - eapply removable_mono; [apply subset_app_r|done].
Qed.

Lemma scale_down_spec sibling_pools observed :
  all_runs
    (reconcile_controller_scale_down (ByteRate := ByteRate) parse_uuid uuid_str ts cfg pool namespace
       cluster name sibling_pools observed)
    (λ tr r,
      justified (scale_step observed) tr ∧
      (r = Ok None → ∀ s n, shrinks observed s n →
         scale_drained tr s n ∧
         (has_role (scale_roles s) 2 = true →
          no_voter_left tr (scale_start s + desired) (scale_start s + wrap_i32 (n - 1))))).
Proof.
  unfold all_runs, reconcile_controller_scale_down.
  destruct observed as [s|]; cbn [and_then opt_map default].
  2: { split; [apply justified_nil|]. intros _ s n [? _]. done. }
  destruct (and_then (ss_spec s) ss_replicas) as [n|] eqn:Hn.
  2: { split; [apply justified_nil|]. intros _ s' n ([= <-] & Hn' & _). congruence. }
  change (id (observed_statefulset_identity s)) with (observed_statefulset_identity s).
  fold (scale_roles s). fold (scale_start s).
  assert (∀ s' n', shrinks (Some s) s' n' → s' = s ∧ n' = n) as Huniq.
  { intros s' n' ([= <-] & Hn' & _). split; [done|congruence]. }
  destruct (n <=? desired) eqn:Hle.
  { split; [apply justified_nil|]. intros _ s' n' Hs. destruct (Huniq _ _ Hs) as [-> ->].
    destruct Hs as (_ & _ & Hlt). apply Z.leb_le in Hle. lia. }
  apply Z.leb_gt in Hle. assert (shrinks (Some s) s n) as Hs by done.
  rewrite always_bind. eapply always_use; [apply drain_if|]. cbn beta. intros tr1 r1 [Hj1 Hr1].
  apply (justified_mono _ (scale_step (Some s))) in Hj1; [|intros; by eapply drain_step_scales].
  destruct r1 as [[a|]|e]; [by split..| |by split].
  assert (scale_drained tr1 s n) as Hd by (intros Hrole; by apply Hr1).
  destruct (has_role (scale_roles s) 2) eqn:H2; cbn [negb].
  2: { split; [done|]. intros _ s' n' [-> ->]%Huniq. split; [done|congruence]. }
  destruct (checked_add_i32 (scale_start s) desired) as [first|] eqn:Hf; [|by split].
  destruct (checked_add_i32 (scale_start s) (wrap_i32 (n - 1))) as [last|] eqn:Hl; [|by split].
  apply checked_Some in Hf as [-> _]. apply checked_Some in Hl as [-> _].
  eapply always_use; [apply scaled_voter_spec|]. cbn beta. intros tr2 r2 [Hj2 Hr2]. split.
  - apply justified_app; [done|]. eapply justified_mono; [|exact Hj2].
    intros. by eapply voter_step_scales.
  - intros Hok s' n' [-> ->]%Huniq. split.
    + intros Hrole. destruct (Hd Hrole). split; [|done]. eapply drained_mono; [apply subset_app_l|done].
    + intros _. eapply no_voter_mono; [apply subset_app_r|auto].
Qed.

(** C18. A scale-down takes nothing away that is still in use.  It lets the
    StatefulSet shrink only if the leaving brokers (if the pool runs brokers)
    are drained and recorded as unregistered, and (if it runs controllers) the
    metadata quorum, read in this pass, has no voter among the leaving nodes.  A
    voter is removed only after that drain, only if it is the highest leaving
    one, and never the last voter of the quorum. *)
Theorem scale_down_safe sibling_pools observed :
  all_runs
    (reconcile_controller_scale_down (ByteRate := ByteRate) parse_uuid uuid_str ts cfg pool namespace
       cluster name sibling_pools observed)
    (λ tr r,
      justified (scale_step observed) tr ∧
      (r = Ok None → ∀ s n, shrinks observed s n →
         scale_drained tr s n ∧
         (has_role (scale_roles s) 2 = true →
          no_voter_left tr (scale_start s + desired) (scale_start s + wrap_i32 (n - 1))))).
Proof. apply scale_down_spec. Qed.

(** ** Deletion *)
Notation sts_name := (cluster +:+ "-" +:+ name).
Notation live := (live_replicas cluster name).
Notation left_start := (left_start pool).
Notation left_roles := (left_roles pool).

(** The StatefulSet and the pods that the pass read. *)
Definition left pre (sts : option StatefulSet) (pods : list Pod) : Prop :=
  ev (resp := resp) (GetStatefulSet sts_name) (Ok sts) ∈ pre ∧
  ev (resp := resp) (ListPods cluster name) (Ok pods) ∈ pre.

Definition left_drained pre (sts : option StatefulSet) (pods : list Pod) : Prop :=
  has_role (left_roles sts pods) 1 && (0 <? live sts pods) = true →
  drained (live sts pods) 0 (left_start sts pods) pre ∧
  recorded_all (live sts pods) 0 (left_start sts pods).

Definition left_last (sts : option StatefulSet) (pods : list Pod) : Z :=
  left_start sts pods + wrap_i32 (Z.max desired (live sts pods) - 1).

(** Nothing of the pool is in use any more, or the whole cluster goes. *)
Definition disposable (parent_deleting : option bool) pre : Prop :=
  is_none_or id parent_deleting = true ∨
  ∃ sts pods, left pre sts pods ∧ left_drained pre sts pods ∧
    (has_role (left_roles sts pods) 2 = true →
     no_voter_left pre (left_start sts pods) (left_last sts pods)).

Definition deletion_step (parent_deleting : option bool) pre e : Prop :=
  match projT1 e with
  | ScaleToZero s => s = sts_name ∧ disposable parent_deleting pre
  | PatchFinalizers l =>
      l = finalizers_with pool false ∧ disposable parent_deleting pre ∧
      ∃ sts, left pre sts [] ∧
        (sts = None ∨ ev (resp := resp) (ScaleToZero sts_name) (Ok tt) ∈ pre)
  | RemoveRaftVoter _ _ id directory =>
      parent_deleting = Some false ∧
      ∃ sts pods, left pre sts pods ∧ left_drained pre sts pods ∧
        removable pre (left_start sts pods) (left_last sts pods) id directory
  | UnregisterBroker _ id =>
      parent_deleting = Some false ∧
      ∃ sts pods, left pre sts pods ∧ drained (live sts pods) 0 (left_start sts pods) pre ∧
        id ∈ removed_broker_ids (left_start sts pods) (live sts pods) 0
  | _ => True
  end.

Lemma left_mono tr tr' sts pods : tr ⊆ tr' → left tr sts pods → left tr' sts pods.
Proof. intros Hsub [? ?]. split; auto. Qed.

Lemma disposable_mono parent_deleting tr tr' :
  tr ⊆ tr' → disposable parent_deleting tr → disposable parent_deleting tr'.
Proof.
  intros Hsub [?|(sts & pods & Hl & Hd & Hv)]; [by left|]. right. exists sts, pods. split_and!.
  - by eapply left_mono.
  - intros Hr. destruct (Hd Hr). split; [|done]. by eapply drained_mono.
  - intros Hr. by eapply no_voter_mono, Hv.
Qed.

Lemma release_spec parent_deleting h sts pods observed_roles :
  left h sts pods → disposable parent_deleting h →
  all_runs (release_pool (ByteRate := ByteRate) (Uuid := Uuid) cfg pool cluster name sts pods observed_roles)
    (λ tr r, justified (λ pre e, deletion_step parent_deleting (h ++ pre) e) tr).
Proof.
  intros Hl Hd. unfold all_runs, release_pool, delete_deletion_rebalance, set_finalizer, kube.
  run_cases.
  all: repeat match goal with u : unit |- _ => destruct u end.
  all: repeat (rewrite justified_snoc; split); [exact (justified_nil _)|..].
  all: unfold deletion_step; cbn [projT1 ev]; try exact I.
  all: split; [reflexivity|].
  all: assert (∀ pre, disposable parent_deleting (h ++ pre)) as Hdisp
    by (intros pre; eapply disposable_mono; [apply subset_app_l|done]).
  all: try (split; [|eexists; split; [eapply left_mono; [apply subset_app_l|eassumption]|]]);
    first [ apply Hdisp | by left | right; logged ].
Qed.

Section deletion_steps.
Context (sts : option StatefulSet) (pods : list Pod) (h : list (event resp)).
Hypothesis Hleft : left h sts pods.

Lemma left_app tr : left (h ++ tr) sts pods.
Proof. eapply left_mono; [apply subset_app_l|done]. Qed.

Lemma drain_step_deletes pre e :
  drain_step (live sts pods) 0 (left_start sts pods) pre e → deletion_step (Some false) (h ++ pre) e.
Proof.
  unfold drain_step, deletion_step. destruct e as [c x]; cbn [projT1]. destruct c; try done.
  intros (Hd & Hid & _). split; [done|]. exists sts, pods. split; [apply left_app|].
  split; [|done]. eapply drained_mono; [apply subset_app_r|done].
Qed.

Lemma voter_step_deletes tr pre e :
  left_drained tr sts pods →
  voter_step (left_start sts pods) (left_last sts pods) pre e →
  deletion_step (Some false) ((h ++ tr) ++ pre) e.
Proof.
  intros Hd. unfold voter_step, deletion_step. destruct e as [c x]; cbn [projT1].
  destruct c; try done. intros Hr. split; [done|]. exists sts, pods.
  rewrite <- app_assoc. split; [apply left_app|]. split.
  - intros Hrole. destruct (Hd Hrole). split; [|done].
    eapply drained_mono; [|done]. intros e He. rewrite !elem_of_app. auto.
  - eapply removable_mono; [|done]. intros e He. rewrite !elem_of_app. auto.
Qed.

Lemma disposable_intro tr1 tr2 :
  left_drained tr1 sts pods →
  (has_role (left_roles sts pods) 2 = true →
   no_voter_left tr2 (left_start sts pods) (left_last sts pods)) →
  disposable (Some false) ((h ++ tr1) ++ tr2).
Proof.
  intros Hd Hv. right. exists sts, pods. rewrite <- app_assoc. split; [apply left_app|]. split.
  - intros Hrole. destruct (Hd Hrole). split; [|done].
    eapply drained_mono; [|done]. intros e He. rewrite !elem_of_app. auto.
  - intros Hrole. eapply no_voter_mono; [|by apply Hv]. intros e He. rewrite !elem_of_app. auto.
Qed.
End deletion_steps.

(** The deletion after its two reads. *)
Definition after_reads (parent_deleting : option bool) (sts : option StatefulSet) (pods : list Pod)
  : prog resp (result (action Time) ReconcileError) :=
  if is_none_or id parent_deleting
  then release_pool cfg pool cluster name sts pods (left_roles sts pods)
  else
    drained ←? (if has_role (left_roles sts pods) 1 && (0 <? live sts pods)
                then reconcile_broker_drain ts pool namespace cluster name (live sts pods) 0
                       (left_start sts pods)
                else Ret (Ok None));
    match drained with
    | Some a => Ret (Ok a)
    | None =>
        removed ←? (if has_role (left_roles sts pods) 2
                    then remove_deleted_voter parse_uuid uuid_str ts cfg namespace cluster
                           (left_start sts pods) (Z.max desired (live sts pods))
                    else Ret (Ok None));
        match removed with
        | Some a => Ret (Ok a)
        | None => release_pool cfg pool cluster name sts pods (left_roles sts pods)
        end
    end.

Lemma voters_if sts pods :
  all_runs
    (if has_role (left_roles sts pods) 2
     then remove_deleted_voter (ByteRate := ByteRate) parse_uuid uuid_str ts cfg namespace cluster
            (left_start sts pods) (Z.max desired (live sts pods))
     else Ret (Ok None))
    (λ tr r, justified (voter_step (left_start sts pods) (left_last sts pods)) tr ∧
       (r = Ok None → has_role (left_roles sts pods) 2 = true →
        no_voter_left tr (left_start sts pods) (left_last sts pods))).
Proof.
  destruct (has_role (left_roles sts pods) 2); [|split; [apply justified_nil|done]].
  eapply all_runs_mono; [|apply deleted_voter_spec]. cbn. intros tr r [? ?]. split; auto.
Qed.

Lemma after_reads_spec parent_deleting sts pods h :
  left h sts pods →
  all_runs (after_reads parent_deleting sts pods)
    (λ tr _, justified (λ pre e, deletion_step parent_deleting (h ++ pre) e) tr).
Proof.
  intros Hleft. unfold after_reads. destruct (is_none_or id parent_deleting) eqn:Hpar.
  { apply release_spec; [done|by left]. }
  assert (parent_deleting = Some false) as -> by (destruct parent_deleting as [[]|]; done).
  apply all_runs_bind. eapply all_runs_mono; [|apply drain_if]. cbn beta. intros tr1 r1 [Hj1 Hr1].
  assert (justified (λ pre e, deletion_step (Some false) (h ++ pre) e) tr1) as Hh1.
  { eapply justified_mono; [|exact Hj1]. intros. by eapply drain_step_deletes. }
  destruct r1 as [[a|]|e]; [by red; cbn [always]; rewrite app_nil_r| |by red; cbn [always]; rewrite app_nil_r].
  assert (left_drained tr1 sts pods) as Hd.
  { intros Hr. apply Hr1; [done..|]. apply andb_true_iff in Hr as [_ ?%Z.ltb_lt]. done. }
  apply all_runs_bind. eapply all_runs_mono; [|apply voters_if]. cbn beta. intros tr2 r2 [Hj2 Hr2].
  assert (justified (λ pre e, deletion_step (Some false) (h ++ pre) e) (tr1 ++ tr2)) as Hh2.
  { apply justified_app; [done|]. eapply justified_mono; [|exact Hj2].
    intros. rewrite app_assoc. by eapply voter_step_deletes. }
  destruct r2 as [[a|]|e]; [by red; cbn [always]; rewrite app_nil_r| |by red; cbn [always]; rewrite app_nil_r].
  eapply all_runs_mono; [|apply (release_spec (Some false) ((h ++ tr1) ++ tr2))].
  - cbn beta. intros tr r Hj. rewrite app_assoc. apply justified_app; [done|].
    eapply justified_mono; [|exact Hj]. cbn beta. intros pre e. by rewrite <- !app_assoc.
  - eapply left_mono; [|exact Hleft]. intros e He. rewrite !elem_of_app. auto.
  - apply (disposable_intro sts pods); auto.
Qed.

(** C19. A pool goes away only when nothing of it is in use.  Unless the whole
    cluster is going, the StatefulSet of a pool under deletion is scaled to zero
    only if its live brokers are drained and recorded as unregistered and the
    quorum has no voter of the pool; the finalizer is removed only then, with no
    pod left and after the scale-down was accepted.  Voters are removed only
    after the drain, highest first, and never the last one of the quorum. *)
Theorem deletion_safe parent_deleting :
  all_runs
    (reconcile_deletion (ByteRate := ByteRate) parse_uuid uuid_str ts cfg pool namespace cluster name
       parent_deleting)
    (λ tr _, justified (deletion_step parent_deleting) tr).
Proof.
  unfold reconcile_deletion. destruct (negb (has_finalizer pool)); [apply justified_nil|].
  apply all_runs_bind. intros [sts|e0]; cbn [always map_err app]; [|by apply (justified_snoc _ []); split; [apply justified_nil|]].
  apply all_runs_bind. intros [pods|e0]; cbn [always map_err app].
  2: { by apply (justified_snoc _ [_]); split; [apply (justified_snoc _ []); split; [apply justified_nil|]|]. }
  eapply all_runs_mono; [|apply (after_reads_spec parent_deleting sts pods
    [ev (GetStatefulSet sts_name) (Ok sts); ev (ListPods cluster name) (Ok pods)])].
  - intros tr r Hj. apply (justified_app _ [_; _]); [|done].
    by apply (justified_snoc _ [_]); split; [apply (justified_snoc _ []); split; [apply justified_nil|]|].
  - split; logged.
Qed.

(** The proposal of an earlier drain to the same replica count keeps its name,
    and nothing deletes it: if the leaving brokers are not the same as then, the
    drain reports that it is blocked and does nothing else. *)
Lemma stale_drain_blocks observed goal start stale {T} (env : T → ∀ c, T * resp c) t :
  goal < observed →
  (∀ t, (env t (GetRebalance (broker_drain_name cluster name goal))).2 = Ok (Some stale)) →
  rb_brokers (rb_spec stale) ≠ removed_broker_ids start observed goal →
  let run := exec env (reconcile_broker_drain ts pool namespace cluster name observed goal start) t in
  run.2 ≠ Ok None ∧ ∃ cond, reason cond = "BrokerDrainBlocked" ∧
    calls run.1.2 = [GetRebalance (broker_drain_name cluster name goal); PatchPoolStatus cond].
Proof.
  intros Hlt Henv Hne. apply Z.leb_gt in Hlt. unfold reconcile_broker_drain. rewrite Hlt. cbn.
  specialize (Henv t). destruct (env t _) as [t1 x]. cbn in Henv. subst x. cbn.
  assert (managed_drain_matches stale (removed_broker_ids start observed goal)
            (drain_authorization cluster) = false) as ->.
  { apply not_true_iff_false. intros Hm%managed_drain_matches_spec. by destruct Hm. }
  cbn. destruct (env t1 _) as [t2 [u|e]]; cbn; (split; [done|]); eexists; (split; [|reflexivity]); done.
Qed.
End gates.
