(* ===== verification/PoolPass.v ===== *)
(** * The pass of a node pool (src/controller/kafka_node_pool.rs)

    The reconciler of a [KafkaNodePool]: validation, the parent and its version gate, the
    topology, the identity of the quorum, storage and scale-down, the StatefulSet and
    its disruption budget, and the readiness that the pool reports. *)

From S2P Require Import Prelude RustStd Effects Kube Workload Version Toml Tuning Quantity CaBundle.
From S2P Require Import ClusterCa RebalancerClient Rebalance Listeners ListenerCheck NodePool.
From S2P Require Import ListenerObjects Quorum NetworkPolicy KafkaSpec StorageChange Rollout.
From S2P Require Import PodRender PodFacts Drain.
Local Open Scope Z_scope.

(** ** The version gate *)

(** [None] when the pool may be rendered. *)
Definition version_gate (ts : string) (parent_name : string) (s : option KafkaStatus)
  : option KafkaCondition :=
  match parent_version_gate s with
  | Cleared => None
  | VersionInvalid c =>
      Some (condition ts "Ready" "False" "KafkaVersionInvalid"
        ("refusing to format brokers: parent Kafka '" +:+ parent_name +:+ "' KafkaVersionValid="
         +:+ status c +:+ " (" +:+ reason c +:+ "): " +:+ message c))
  | VersionWaiting =>
      Some (condition ts "Ready" "False" "WaitingForVersionValidation"
        ("waiting for parent Kafka '" +:+ parent_name
         +:+ "' to publish a KafkaVersionValid verdict before formatting brokers"))
  end.

(** ** Conditions of validation errors *)
Definition validation_reason (e : PoolValidationError) : string * string :=
  match e with
  | RolesEmpty => ("RolesEmpty", "spec.roles must contain at least one role")
  | DuplicateRole r => ("DuplicateRole", "spec.roles contains duplicate role " +:+ debug_role r)
  | ReplicasInvalid n => ("InvalidReplicaCount", "spec.replicas=" +:+ display_Z n +:+ " must be at least 1")
  | NodeIdOutOfRange n =>
      ("NodeIdOutOfRange", "spec.nodeIdStart=" +:+ display_Z n +:+ " is out of range 0..=999999")
  | NodeIdRangeOutOfRange pool start replicas =>
      ("NodeIdRangeOutOfRange",
       "node-id range for pool " +:+ debug_str pool +:+ " exceeds 0..=999999 (start=" +:+ display_Z start
       +:+ ", replicas=" +:+ display_Z replicas +:+ ")")
  | NodeIdRangeOverlap first second =>
      ("NodeIdRangeOverlap",
       "node-id ranges overlap between pools " +:+ debug_str first +:+ " and " +:+ debug_str second)
  | NodeIdStartChanged pool observed desired =>
      ("NodeIdStartImmutable",
       "spec.nodeIdStart changed for pool " +:+ debug_str pool +:+ " from observed " +:+ display_Z observed
       +:+ " to desired " +:+ display_Z desired)
  | RolesChanged pool observed desired =>
      ("RolesImmutable",
       "spec.roles changed for pool " +:+ debug_str pool +:+ " from observed " +:+ observed
       +:+ " to desired " +:+ desired)
  | NoControllerNodes => ("NoControllerNodes", "the cluster has no Controller-role node")
  | MissingClusterLabel =>
      ("MissingClusterLabel", "metadata.labels." +:+ quote +:+ "krabka.io/cluster" +:+ quote +:+ " missing")
  | StorageSizeInvalid value why =>
      ("StorageSizeInvalid", "spec.storage.size=" +:+ debug_str value +:+ " (" +:+ why +:+ ")")
  | StorageTypeChanged from to =>
      ("StorageImmutable", "spec.storage.type changed from " +:+ from +:+ " to " +:+ to)
  | StorageClassChanged from to =>
      ("StorageImmutable",
       "spec.storage.class changed from " +:+ debug_opt_str from +:+ " to " +:+ debug_opt_str to)
  | StorageShrinkNotAllowed current desired =>
      ("StorageImmutable", "spec.storage.size " +:+ current +:+ " -> " +:+ desired +:+ " (shrink rejected)")
  | JbodNeedsTwoVolumes n =>
      ("JbodNeedsTwoVolumes",
       "spec.storage.volumes has " +:+ display_Z (Z.of_nat n)
       +:+ " disk(s); Jbod needs >= 2 (use PersistentClaim for one)")
  | JbodDuplicateVolumeId id =>
      ("JbodDuplicateVolumeId", "spec.storage.volumes has a duplicate id " +:+ display_Z id)
  | JbodVolumesImmutable =>
      ("StorageImmutable", "spec.storage.volumes is immutable after the StatefulSet is created")
  | SeccompLocalhostProfileMissing | SeccompLocalhostProfileUnexpected
  | SeccompLocalhostProfileInvalid _ => ("SeccompProfileInvalid", pool_error_message e)
  end.

Definition condition_for_validation_error (ts : string) (e : PoolValidationError) : KafkaCondition :=
  let '(reason, message) := validation_reason e in condition ts "Ready" "False" reason message.

(** ** Replication health *)

(** [str::lines]. *)
Definition str_lines (s : string) : list string :=
  let lines := split_char (ascii_of_nat 10) s in
  let lines := match last lines with Some "" => removelast lines | _ => lines end in
  map (λ l, default l (strip_suffix (of_char (ascii_of_nat 13)) l)) lines.

Definition prometheus_gauge (body name : string) : option Z :=
  head (filter_map (λ line,
    and_then (split_once " " line) (λ '(metric, value),
      if str_eqb metric name then parse_i64 value else None)) (str_lines body)).

Definition health_metrics : list (string * string) :=
  [("krabka_broker_offline_partitions_count", "OfflinePartitions");
   ("krabka_broker_under_replicated_partitions", "UnderReplicatedPartitions")].

Fixpoint classify_metrics (metrics : list (string * string)) (body broker : string)
  : result unit (string * string) :=
  match metrics with
  | [] => Ok tt
  | (metric, reason) :: metrics =>
      match prometheus_gauge body metric with
      | Some 0 => classify_metrics metrics body broker
      | Some value =>
          Err (reason, "broker " +:+ broker +:+ " reports " +:+ metric +:+ "=" +:+ display_Z value)
      | None =>
          Err ("ReplicationHealthUnknown", "broker " +:+ broker +:+ " does not publish " +:+ metric)
      end
  end.

Definition classify_replication_metrics (body broker : string) : result unit (string * string) :=
  classify_metrics health_metrics body broker.

(** How a request for metrics fails. *)
Inductive metrics_error : Type :=
  | RequestFailed (error : string)
  | ResponseFailed (error : string)
  | BodyFailed (error : string).

Definition metrics_failure (address : string) (e : metrics_error) : string * string :=
  ("ReplicationHealthUnknown",
   "broker " +:+ address +:+ " metrics " +:+
   match e with
   | RequestFailed error => "request failed: " +:+ error
   | ResponseFailed error => "response failed: " +:+ error
   | BodyFailed error => "body failed: " +:+ error
   end).

Definition metrics_addresses (pods : list Pod) (statefulset : string) : list string :=
  filter_map pod_ip (List.filter (λ p, starts_with (statefulset +:+ "-") (name_any (pod_meta p))) pods).

Definition metrics_url (address : string) : string :=
  "http://" +:+ address +:+ ":" +:+ display_Z METRICS_PORT +:+ "/metrics".

(** ** The pass *)
Section pass.
Context {Time ByteSize Ratio F64 ByteRate Uuid : Type}.
Context `{TimeOps Time} `{MetadataVersions} `{UuidOps Uuid} `{EqDecision Uuid}.
(** The [Display] of units, floats and errors, and the limits of the client crate. *)
Context (human_time : Time → string) (display_f64 : F64 → string).
Context (queue_capacity frame_max : Z → result Z string) (max_metadata_version : string).
Context (display_error : ReconcileError → string) (display_admin : AdminError → string).
Context (parse_i32_error : string → string).
#[local] Notation Kafka := (Kafka Time ByteSize Ratio F64).

(** The parts of the pass, the API server, and the brokers' metrics endpoint. *)
Inductive node_call : Type :=
  | OnDrain (c : pool_call (ByteRate := ByteRate) (Uuid := Uuid))
  | OnQuorum (c : quorum_call)
  | GetParent (name : string)
  | ListSiblings (cluster : string)
  | ListStatefulSets (cluster : string)
  | ListTopologyPods (cluster : string)
  | ApplyStatefulSet (name : string) (s : StatefulSet)
  | ApplyBudget (name : string) (b : PodDisruptionBudget)
  | FetchMetrics (url : string)
  | PatchStatus (s : KafkaNodePoolStatus).

Definition node_resp (c : node_call) : Type :=
  match c with
  | OnDrain c => pool_resp c
  | OnQuorum c => quorum_resp (Uuid := Uuid) c
  | GetParent _ => result (option Kafka) kube_error
  | ListSiblings _ => result (list KafkaNodePool) kube_error
  | ListStatefulSets _ => result (list StatefulSet) kube_error
  | ListTopologyPods _ => result (list Pod) kube_error
  | ApplyStatefulSet _ _ | ApplyBudget _ _ | PatchStatus _ => result unit kube_error
  | FetchMetrics _ => result string metrics_error
  end.

#[local] Notation nprog := (prog node_resp).
#[local] Notation pass R := (nprog (result R ReconcileError)).
#[local] Notation call := (perform (resp := node_resp)).

Definition kube {A} (p : nprog (result A kube_error)) : pass A := r ← p; Ret (map_err Kube r).

Definition on_drain {R} (p : prog (pool_resp (ByteRate := ByteRate) (Uuid := Uuid)) R) : nprog R :=
  lift (resp2 := node_resp) OnDrain (λ _ x, x) p.
Definition on_quorum {R} (p : prog (quorum_resp (Uuid := Uuid)) R) : nprog R :=
  lift (resp2 := node_resp) OnQuorum (λ _ x, x) p.

Record node_config : Type := {
  nc_pool : pool_config (Time := Time);
  nc_default_broker_image : option string;
  nc_default_shell_image : option string;
}.

Context (ts : string) (cfg : node_config) (pool : KafkaNodePool).
Let ns : string := namespace_or_default (kp_meta pool).
Let name : string := pool_name pool.
#[local] Notation dependency := (Requeue (controller_dependency_requeue (nc_pool cfg))).

Definition report (c : KafkaCondition) : pass unit := on_drain (patch_status_for_pool c).

(** The condition, and the action that ends the pass. *)
Definition stop_with (c : KafkaCondition) (act : action Time) : pass (action Time) :=
  _ ←? report c; Ret (Ok act).

(** *** Readiness *)
Fixpoint check_metrics (addresses : list string) : nprog (result unit (string * string)) :=
  match addresses with
  | [] => Ret (Ok tt)
  | address :: addresses =>
      body ← call (FetchMetrics (metrics_url address));
      match body with
      | Err e => Ret (Err (metrics_failure address e))
      | Ok body =>
          match classify_replication_metrics body address with
          | Err e => Ret (Err e)
          | Ok _ => check_metrics addresses
          end
      end
  end.

(** [usize::try_from] fails for no replica count of a validated pool. *)
Definition broker_replication_health (pods : list Pod) (statefulset : string) (n : Z)
  : nprog (result unit (string * string)) :=
  let addresses := metrics_addresses pods statefulset in
  if negb (Z.of_nat (length addresses) =? (if 0 <=? n then n else u64_max)) then
    Ret (Err ("ReplicationHealthUnknown",
              "waiting for metrics addresses from all " +:+ display_Z n +:+ " broker pods"))
  else check_metrics addresses.

Definition committed (directory_ids : gmap Z Uuid) (q : Quorum (Uuid := Uuid)) : bool :=
  forallb (λ '(node_id, directory_id),
    existsb (λ v, (v_id v =? node_id) && bool_decide (v_directory v = directory_id)) (q_voters q))
    (map_to_list directory_ids).

Definition verdict : Type := string * string * string.   (* status, reason, message *)

Definition quorum_readiness (cluster : string) (directory_ids : gmap Z Uuid) (message : string)
  : nprog verdict :=
  address ← on_drain (operator_bootstrap_address ns cluster);
  match address with
  | Err e => Ret ("False", "AdminUnavailable", display_error e)
  | Ok address =>
      connected ← call (OnDrain (AdminClientFor address));
      match connected with
      | Err e =>
          Ret ("False", "QuorumMembershipUnknown",
               "pod is ready but quorum admin connection failed: " +:+ display_admin e)
      | Ok _ =>
          described ← call (OnDrain (DescribeQuorum address));
          match described with
          | Ok quorum =>
              Ret (if committed directory_ids quorum then ("True", "Available", message)
                   else ("False", "QuorumMembershipPending",
                         "pods are ready but not every controller voter is committed"))
          | Err e =>
              _ ← call (OnDrain DropAdminClient);
              Ret ("False", "QuorumMembershipUnknown",
                   "pod is ready but DescribeQuorum failed: " +:+ display_admin e)
          end
      end
  end.

Definition has (r : NodeRole) : bool := bool_decide (r ∈ roles (kp_spec pool)).

Definition evaluate_pool_readiness (cluster : string) (directory_ids : gmap Z Uuid) (pods : list Pod)
    (replication_metrics : bool) (reason message : string) : nprog verdict :=
  if negb (str_eqb reason "Available") then Ret ("False", reason, message)
  else
    health ← (if has NodePool.Broker && replication_metrics
              then broker_replication_health pods (cluster +:+ "-" +:+ name) (replicas (kp_spec pool))
              else Ret (Ok tt));
    match health with
    | Err (reason, error) => Ret ("False", reason, error)
    | Ok _ =>
        if negb (has Controller) then Ret ("True", reason, message)
        else quorum_readiness cluster directory_ids message
    end.

(** *** The directory ids of the pool's nodes *)
Fixpoint ensure_directory_ids (cluster : string) (node_ids : list Z) (acc : gmap Z Uuid)
  : pass (gmap Z Uuid) :=
  match node_ids with
  | [] => Ret (Ok acc)
  | id :: node_ids =>
      directory ←? on_quorum (ensure_quorum_directory_id cluster id);
      ensure_directory_ids cluster node_ids (<[id := directory]> acc)
  end.

Definition own_node_ids : list Z := seqZ (node_id_start (kp_spec pool)) (replicas (kp_spec pool)).

Definition broker_image : string :=
  default DEFAULT_BROKER_IMAGE (or_else (image (kp_spec pool)) (nc_default_broker_image cfg)).
Definition shell_image : string := default SHELL_IMAGE (nc_default_shell_image cfg).

Definition waits_for_controllers (siblings : list KafkaNodePool) : bool :=
  negb (has Controller)
  && existsb (λ s, bool_decide (Controller ∈ roles (kp_spec s)) && negb (pool_is_available s)) siblings.

(** *** Applying the StatefulSet and reporting *)
Definition finish (parent : Kafka) (cluster : string) (bootstrap : QuorumBootstrapState)
    (directory_ids : gmap Z Uuid) (pods : list Pod) : pass (action Time) :=
  live ←? kube (call (OnDrain (GetStatefulSet (cluster +:+ "-" +:+ name))));
  let '(reps, ready_replicas, reason, message) := derive_status live (replicas (kp_spec pool)) in
  verdict ← evaluate_pool_readiness cluster directory_ids pods
              (opt_is_some (k_metrics_config (k_spec parent))) reason message;
  let '(status_value, reason, message) := verdict in
  _ ←? (if str_eqb status_value "True" && negb (qb_initialized bootstrap)
           && (qb_node_id (qb_controller bootstrap) =? node_id_start (kp_spec pool))
           && str_eqb (qb_pool (qb_controller bootstrap)) name
        then on_quorum (mark_quorum_bootstrap_initialized cluster) else Ret (Ok tt));
  _ ←? kube (call (PatchStatus {| ps_conditions := [condition ts "Ready" status_value reason message];
                                  ps_replicas := reps; ps_ready_replicas := ready_replicas |}));
  Ret (Ok dependency).

Definition apply_pool (parent : Kafka) (cluster : string) (bootstrap : QuorumBootstrapState)
    (directory_ids : gmap Z Uuid) (pods : list Pod) (observed : option StatefulSet)
  : pass (action Time) :=
  match render_statefulset_with_shell human_time display_f64 queue_capacity frame_max
          max_metadata_version parent pool broker_image shell_image with
  | Err e => Ret (Err e)
  | Ok s =>
      let sts_name := cluster +:+ "-" +:+ name in
      _ ←? kube (call (ApplyStatefulSet sts_name (applied_over s observed)));
      _ ←? (if has NodePool.Broker then
              match render_pod_disruption_budget pool ns cluster with
              | Err e => Ret (Err e)
              | Ok b => kube (call (ApplyBudget sts_name b))
              end
            else Ret (Ok tt));
      finish parent cluster bootstrap directory_ids pods
  end.

(** With the topology checked: quorum identity, storage, scale-down, StatefulSet. *)
Definition reconcile_nodes (parent : Kafka) (cluster : string) (siblings : list KafkaNodePool)
    (pods : list Pod) : pass (action Time) :=
  match select_quorum_bootstrap siblings with
  | None => Ret (Err (Malformed "no valid KafkaNodePool available for quorum bootstrap"))
  | Some (node_id, candidate) =>
      bootstrap ←? on_quorum (ensure_quorum_bootstrap_state parse_i32_error cluster
                                {| qb_node_id := node_id; qb_pool := candidate |});
      directory_ids ←? ensure_directory_ids cluster own_node_ids ∅;
      observed ←? kube (call (OnDrain (GetStatefulSet (cluster +:+ "-" +:+ name))));
      let templates := opt_map (λ s, default [] (and_then (ss_spec s) ss_claims)) observed in
      match validate_storage_change (storage (kp_spec pool)) templates with
      | Err e => stop_with (condition_for_validation_error ts e) AwaitChange
      | Ok _ =>
          scaled ←? on_drain (reconcile_controller_scale_down parse_uuid uuid_str ts (nc_pool cfg) pool ns
                                cluster name siblings observed);
          match scaled with
          | Some act => Ret (Ok act)
          | None => apply_pool parent cluster bootstrap directory_ids pods observed
          end
      end
  end.

Definition reconcile_linked (parent : Kafka) (cluster : string) : pass (action Time) :=
  if negb (has_finalizer pool) then
    _ ←? on_drain (set_finalizer pool true); Ret (Ok RequeueNow)
  else
    match version_gate ts (name_any (k_meta parent)) (k_status parent) with
    | Some c => stop_with c dependency
    | None =>
        siblings ←? kube (call (ListSiblings cluster));
        statefulsets ←? kube (call (ListStatefulSets cluster));
        pods ←? kube (call (ListTopologyPods cluster));
        match validate_topology siblings statefulsets pods with
        | Err e => stop_with (condition_for_validation_error ts e) AwaitChange
        | Ok _ =>
            if waits_for_controllers siblings then
              stop_with (condition ts "Ready" "False" "WaitingForControllers"
                           "waiting for all Controller-role pools to become ready") dependency
            else reconcile_nodes parent cluster siblings pods
        end
    end.

Definition reconcile_inner : pass (action Time) :=
  match validate pool with
  | Err e => stop_with (condition_for_validation_error ts e) AwaitChange
  | Ok _ =>
      match label (kp_meta pool) "krabka.io/cluster" with
      | None =>
          stop_with (condition ts "Ready" "False" "MissingClusterLabel"
            ("metadata.labels." +:+ quote +:+ "krabka.io/cluster" +:+ quote
             +:+ " is required to link a pool to its parent Kafka")) AwaitChange
      | Some cluster =>
          parent ←? kube (call (GetParent cluster));
          if om_deleting (kp_meta pool) then
            on_drain (reconcile_deletion parse_uuid uuid_str ts (nc_pool cfg) pool ns cluster name
                        (opt_map (λ p, om_deleting (k_meta p)) parent))
          else
            match parent with
            | None =>
                stop_with (condition ts "Ready" "False" "ParentNotFound"
                  ("Kafka '" +:+ cluster +:+ "' not found in namespace '" +:+ ns +:+ "'")) dependency
            | Some parent => reconcile_linked parent cluster
            end
      end
  end.
End pass.
