(* ===== verification/PoolSafety.v ===== *)
(** * What the pass of a node pool guarantees (src/controller/kafka_node_pool.rs)

    Every StatefulSet that a pass applies, every readiness it reports and the mark of an
    initialized quorum, with what the log of the pass shows before it. *)

From S2P Require Import Prelude RustStd Effects Kube Workload Version Toml Tuning Quantity CaBundle.
From S2P Require Import ClusterCa RebalancerClient Rebalance Listeners ListenerCheck NodePool.
From S2P Require Import ListenerObjects Quorum NetworkPolicy KafkaSpec StorageChange Rollout.
From S2P Require Import PodRender PodFacts Drain PoolPass.
Local Open Scope Z_scope.

(** ** Parts that report nothing good *)
Section quiet.
Context `{TimeOps Time} {ByteRate : Type} `{UuidOps Uuid}.
Context (parse_i32_error : string → string).
Context (ts : string) (cfg : pool_config (Time := Time)) (pool : KafkaNodePool) (ns cluster name : string).
#[local] Notation dresp := (pool_resp (ByteRate := ByteRate) (Uuid := Uuid)).

Definition bad_news (c : pool_call (ByteRate := ByteRate) (Uuid := Uuid)) : Prop :=
  match c with PatchPoolStatus c => type_ c = "Ready" ∧ status c = "False" | _ => True end.

Ltac quiet := only_calls; done.

Lemma report_only c : type_ c = "Ready" → status c = "False" → only bad_news (patch_status_for_pool c).
Proof. intros. by apply only_bind; [apply only_perform|]. Qed.

Lemma address_only : only bad_news (operator_bootstrap_address ns cluster).
Proof. unfold operator_bootstrap_address, Drain.kube. quiet. Qed.

Lemma drain_only observed desired start :
  only bad_news (reconcile_broker_drain ts pool ns cluster name observed desired start).
Proof.
  unfold reconcile_broker_drain, follow_proposal, verify_drained, unregister_next,
    patch_broker_drain_condition, refresh_broker_drain, patch_status_for_pool, operator_bootstrap_address,
    Drain.kube, admin.
  quiet.
Qed.

Lemma scale_down_only siblings observed :
  only bad_news (reconcile_controller_scale_down parse_uuid uuid_str ts cfg pool ns cluster name
                   siblings observed).
Proof.
  unfold reconcile_controller_scale_down. destruct (and_then _ ss_replicas) as [n|]; [|done].
  destruct (n <=? _); [done|]. apply only_bind.
  { destruct (has_role _ 1); [apply drain_only|done]. }
  intros [[a|]|e]; [done| |done]. destruct (negb _); [done|].
  destruct (checked_add_i32 _ _); [|done]. destruct (checked_add_i32 _ _); [|done].
  unfold remove_scaled_voter, patch_status_for_pool, operator_bootstrap_address, Drain.kube. quiet.
Qed.

Lemma deletion_only parent_deleting :
  only bad_news (reconcile_deletion parse_uuid uuid_str ts cfg pool ns cluster name parent_deleting).
Proof.
  assert (∀ sts pods rs, only bad_news (release_pool (ByteRate := ByteRate) (Uuid := Uuid) cfg pool cluster name sts pods rs)) as Hrel.
  { intros. unfold release_pool, delete_deletion_rebalance, set_finalizer, Drain.kube. quiet. }
  unfold reconcile_deletion. destruct (negb _); [done|].
  apply only_bind; [unfold Drain.kube; quiet|]. intros [sts|e]; [|done].
  apply only_bind; [unfold Drain.kube; quiet|]. intros [pods|e]; [|done]. cbn zeta.
  destruct (is_none_or _ _); [apply Hrel|]. apply only_bind.
  { destruct (_ && _); [apply drain_only|done]. }
  intros [[a|]|e]; [done| |done]. apply only_bind; [|intros [[a|]|e]; [done|apply Hrel|done]].
  destruct (has_role _ 2); [|done].
  unfold remove_deleted_voter, patch_status_for_pool, operator_bootstrap_address, Drain.kube. quiet.
Qed.

(** Only the mark says that the quorum is there. *)
Definition no_mark (c : quorum_call) : Prop :=
  match c with PatchSecretStrings _ m => m !! QUORUM_BOOTSTRAP_INITIALIZED_KEY ≠ Some "true" | _ => True end.

Lemma bootstrap_only candidate :
  only (resp := quorum_resp (Uuid := Uuid)) no_mark
    (ensure_quorum_bootstrap_state parse_i32_error cluster candidate).
Proof. unfold ensure_quorum_bootstrap_state. quiet. Qed.

Lemma directory_only id :
  only (resp := quorum_resp (Uuid := Uuid)) no_mark (ensure_quorum_directory_id cluster id).
Proof. unfold ensure_quorum_directory_id. quiet. Qed.
End quiet.

Section safety.
Context {Time ByteSize Ratio F64 ByteRate Uuid : Type}.
Context `{TimeOps Time} `{MetadataVersions} `{UuidOps Uuid} `{EqDecision Uuid}.
Context (human_time : Time → string) (display_f64 : F64 → string).
Context (queue_capacity frame_max : Z → result Z string) (max_metadata_version : string).
Context (display_error : ReconcileError → string) (display_admin : AdminError → string).
Context (parse_i32_error : string → string).
Context (ts : string) (cfg : node_config (Time := Time)) (pool : KafkaNodePool).
#[local] Notation Kafka := (Kafka Time ByteSize Ratio F64).
#[local] Notation nresp := (node_resp (Time := Time) (ByteSize := ByteSize) (Ratio := Ratio) (F64 := F64)
  (ByteRate := ByteRate) (Uuid := Uuid)).
#[local] Notation log := (list (event nresp)).
#[local] Notation nev := (ev (resp := nresp)).
#[local] Notation drain_ran p := (ran (resp2 := nresp) OnDrain (λ _ x, x) p).
#[local] Notation quorum_ran p := (ran (resp2 := nresp) OnQuorum (λ _ x, x) p).
Let ns : string := namespace_or_default (kp_meta pool).
Let name : string := pool_name pool.
Implicit Types (h : log) (parent : Kafka) (cluster : string).

(** ** What a pass has established *)

(** The pool may have pods: it is valid and linked, the parent's version is cleared, the
    topology is sound, and controllers are up before brokers. *)
Record admitted h parent cluster (siblings : list KafkaNodePool) (pods : list Pod) : Prop := {
  ad_valid : validate pool = Ok tt;
  ad_linked : label (kp_meta pool) "krabka.io/cluster" = Some cluster;
  ad_live : om_deleting (kp_meta pool) = false;
  ad_finalizer : has_finalizer pool = true;
  ad_parent : nev (GetParent cluster) (Ok (Some parent)) ∈ h;
  ad_version : parent_version_gate (k_status parent) = Cleared;
  ad_topology : ∃ statefulsets, nev (ListSiblings cluster) (Ok siblings) ∈ h ∧
    nev (ListStatefulSets cluster) (Ok statefulsets) ∈ h ∧ nev (ListTopologyPods cluster) (Ok pods) ∈ h ∧
    validate_topology siblings statefulsets pods = Ok tt;
  ad_order : Controller ∉ roles (kp_spec pool) →
    ∀ s, s ∈ siblings → Controller ∈ roles (kp_spec s) → pool_is_available s = true;
}.

(** A broker pool that need not wait has its controllers up. *)
Lemma waits_for_controllers_false siblings : waits_for_controllers pool siblings = false →
  Controller ∉ roles (kp_spec pool) →
  ∀ s, s ∈ siblings → Controller ∈ roles (kp_spec s) → pool_is_available s = true.
Proof.
  unfold waits_for_controllers, has. intros Hw Hc s Hs Hr.
  destruct (pool_is_available s) eqn:Ha; [done|]. exfalso.
  rewrite bool_decide_eq_false_2 in Hw by done. cbn [negb andb] in Hw.
  apply not_true_iff_false in Hw. apply Hw, existsb_exists. exists s.
  split; [by apply list_elem_of_In|]. by rewrite bool_decide_eq_true_2, Ha.
Qed.

(** Each node has a directory id in the cluster's Secret. *)
Definition directories h cluster (ids : gmap Z Uuid) : Prop :=
  (∀ id, id ∈ own_node_ids pool → is_Some (ids !! id)) ∧
  ∀ id u, ids !! id = Some u → quorum_ran (ensure_quorum_directory_id cluster id) h (Ok u).

(** The controller that formats the quorum, chosen once. *)
Definition bootstrapped h cluster (siblings : list KafkaNodePool) (b : QuorumBootstrapState) : Prop :=
  ∃ node_id candidate, select_quorum_bootstrap siblings = Some (node_id, candidate) ∧
    quorum_ran (ensure_quorum_bootstrap_state parse_i32_error cluster
      {| qb_node_id := node_id; qb_pool := candidate |}) h (Ok b).

(** What leaves the pool is drained, and votes no more. *)
Definition shrinks_safely h cluster (observed : option StatefulSet) : Prop :=
  ∃ tr1 tr, tr ⊆ h ∧ Forall2 (lifted (resp2 := nresp) OnDrain (λ _ x, x)) tr1 tr ∧
    ∀ s n, shrinks pool observed s n →
      scale_drained (ByteRate := ByteRate) (Uuid := Uuid) pool cluster name tr1 s n ∧
      (has_role (scale_roles pool s) 2 = true →
       no_voter_left tr1 (scale_start pool s + replicas (kp_spec pool)) (scale_start pool s + wrap_i32 (n - 1))).

(** ** The StatefulSet *)
Definition apply_ok h (n : string) (s : StatefulSet) : Prop :=
  ∃ parent cluster siblings pods bootstrap ids observed rendered,
    n = cluster +:+ "-" +:+ name ∧ admitted h parent cluster siblings pods ∧
    bootstrapped h cluster siblings bootstrap ∧ directories h cluster ids ∧
    nev (OnDrain (GetStatefulSet n)) (Ok observed) ∈ h ∧
    validate_storage_change (storage (kp_spec pool))
      (opt_map (λ s, default [] (and_then (ss_spec s) ss_claims)) observed) = Ok tt ∧
    shrinks_safely h cluster observed ∧
    render_statefulset_with_shell human_time display_f64 queue_capacity frame_max max_metadata_version
      parent pool (broker_image cfg pool) (shell_image cfg) = Ok rendered ∧
    s = applied_over rendered observed.

(** ** Readiness *)

(** Every broker answered that all of its partitions are up and replicated. *)
Definition replicated h cluster (pods : list Pod) : Prop :=
  let addresses := metrics_addresses pods (cluster +:+ "-" +:+ name) in
  Z.of_nat (length addresses) = replicas (kp_spec pool) ∧
  ∀ address, address ∈ addresses → ∃ body, nev (FetchMetrics (metrics_url address)) (Ok body) ∈ h ∧
    prometheus_gauge body "krabka_broker_offline_partitions_count" = Some 0 ∧
    prometheus_gauge body "krabka_broker_under_replicated_partitions" = Some 0.

(** Every node of the pool votes with its own directory. *)
Definition voters_committed h (ids : gmap Z Uuid) : Prop :=
  ∃ address q, nev (OnDrain (DescribeQuorum address)) (Ok q) ∈ h ∧
    ∀ id u, ids !! id = Some u → {| v_id := id; v_directory := u |} ∈ q_voters q.

Definition pool_ready h cluster : Prop :=
  ∃ parent siblings pods ids s live,
    admitted h parent cluster siblings pods ∧ directories h cluster ids ∧
    nev (ApplyStatefulSet (cluster +:+ "-" +:+ name) s) (Ok tt) ∈ h ∧
    nev (OnDrain (GetStatefulSet (cluster +:+ "-" +:+ name))) (Ok live) ∈ h ∧
    default 0 (and_then (and_then live ss_status) sst_ready_replicas) = replicas (kp_spec pool) ∧
    (has pool NodePool.Broker = true → opt_is_some (k_metrics_config (k_spec parent)) = true →
     replicated h cluster pods) ∧
    (has pool Controller = true → voters_committed h ids).

(** ** The steps of a pass *)
Definition step_ok h (e : event nresp) : Prop :=
  match projT1 e with
  | ApplyStatefulSet n s => apply_ok h n s
  | OnDrain (PatchPoolStatus c) => type_ c = "Ready" ∧ status c = "False"
  | PatchStatus s =>
      ∃ c, ps_conditions s = [c] ∧ type_ c = "Ready" ∧
        (status c = "True" → ∃ cluster, pool_ready h cluster)
  | OnQuorum (PatchSecretStrings n m) =>
      m !! QUORUM_BOOTSTRAP_INITIALIZED_KEY = Some "true" →
      ∃ cluster siblings b, n = cluster_id_secret_name cluster ∧ pool_ready h cluster ∧
        bootstrapped h cluster siblings b ∧ qb_controller b = {| qb_node_id := node_id_start (kp_spec pool); qb_pool := name |}
  | _ => True
  end.

#[local] Notation ok h p Q := (safely step_ok h p Q).

(** *** Facts that stay true as the log grows *)
Lemma admitted_mono h h' parent cluster siblings pods :
  h ⊆ h' → admitted h parent cluster siblings pods → admitted h' parent cluster siblings pods.
Proof.
  intros Hs [? ? ? ? ? ? (sts & ? & ? & ? & ?) ?]. split; try done; [by apply Hs|]. exists sts. auto.
Qed.

Lemma directories_mono h h' cluster ids : h ⊆ h' → directories h cluster ids → directories h' cluster ids.
Proof. intros Hs [? Hd]. split; [done|]. intros id u Hu. eapply ran_mono; [exact Hs|by apply Hd]. Qed.

Lemma bootstrapped_mono h h' cluster siblings b :
  h ⊆ h' → bootstrapped h cluster siblings b → bootstrapped h' cluster siblings b.
Proof. intros Hs (n & c & ? & ?). exists n, c. split; [done|by eapply ran_mono]. Qed.

Lemma ready_mono h h' cluster : h ⊆ h' → pool_ready h cluster → pool_ready h' cluster.
Proof.
  intros Hs (parent & siblings & pods & ids & s & live & Ha & Hd & Hap & Hg & Hr & Hb & Hc).
  exists parent, siblings, pods, ids, s, live. split_and!; [by eapply admitted_mono|by eapply directories_mono|auto..| |].
  - intros Hbr Hm. destruct (Hb Hbr Hm) as [Hl Hm']. split; [done|]. intros a Ha'.
    destruct (Hm' a Ha') as (body & ? & ? & ?). exists body. auto.
  - intros Hct. destruct (Hc Hct) as (a & q & ? & ?). exists a, q. auto.
Qed.

(** *** The parts *)
Lemma pool_kube_ok {A} h (p : prog nresp (result A kube_error)) Q : ok h p (on_ok Q) → ok h (PoolPass.kube p) (on_ok Q).
Proof. intros Hp. eapply safely_bind; [exact Hp|]. intros h' [a|e] _ Ha; by apply safely_ret. Qed.

Ltac at_call :=
  match goal with
  | |- safely _ _ (PoolPass.kube (perform ?c)) _ => apply pool_kube_ok; refine (safely_call _ _ c _ _ _)
  | |- safely _ _ (perform ?c) _ => refine (safely_call _ _ c _ _ _)
  end.

Ltac api_call :=
  at_call; [intros ?; try exact I | intros [?|?]; [|exact I]; apply elem_of_app; right; by left].

Lemma on_drain_ok {R} h (p : prog (pool_resp (ByteRate := ByteRate) (Uuid := Uuid)) R) :
  only bad_news p → ok h (on_drain p) (ran (resp2 := nresp) OnDrain (λ _ x, x) p).
Proof. intros Hp. eapply safely_only; [exact Hp|]. intros pre c x Hc. by destruct c. Qed.

Lemma on_quorum_ok {R} h (p : prog (quorum_resp (Uuid := Uuid)) R) :
  only no_mark p → ok h (on_quorum p) (ran (resp2 := nresp) OnQuorum (λ _ x, x) p).
Proof. intros Hp. eapply safely_only; [exact Hp|]. intros pre c x Hc. destruct c; try done. intros Hm. by destruct Hc. Qed.

Lemma pool_stop_ok h c act :
  type_ c = "Ready" → status c = "False" → ok h (stop_with c act) (on_ok (λ _ _, True)).
Proof.
  intros Ht Hs. eapply (safely_try _ _ _ _ (λ _ _, True)).
  - eapply safely_mono; [by apply on_drain_ok, report_only|by intros ? []].
  - intros. by apply safely_ret.
Qed.

Lemma invalid_ok h e act : ok h (stop_with (condition_for_validation_error ts e) act) (on_ok (λ _ _, True)).
Proof. unfold condition_for_validation_error. destruct (validation_reason e). by apply pool_stop_ok. Qed.

Lemma directory_ids_ok h cluster ids acc :
  (∀ id u, acc !! id = Some u → quorum_ran (ensure_quorum_directory_id cluster id) h (Ok u)) →
  ok h (ensure_directory_ids cluster ids acc)
    (on_ok (λ h' m, (∀ id, id ∈ ids ∨ is_Some (acc !! id) → is_Some (m !! id)) ∧
       ∀ id u, m !! id = Some u → quorum_ran (ensure_quorum_directory_id cluster id) h' (Ok u))).
Proof.
  revert h acc. induction ids as [|id ids IH]; intros h acc Hacc; cbn [ensure_directory_ids].
  { apply safely_ret. split; [|done]. intros id [Hi|Hi]; [by inversion Hi|exact Hi]. }
  eapply (safely_try _ _ _ _ (λ h' u, quorum_ran (ensure_quorum_directory_id cluster id) h' (Ok u))).
  { eapply safely_mono; [apply on_quorum_ok, directory_only|]. by intros h' []. }
  intros h' u Hs Hu. eapply safely_mono; [apply IH|].
  - intros i v. destruct (decide (i = id)) as [->|Hne].
    + rewrite lookup_insert_eq. by intros [= <-].
    + rewrite lookup_insert_ne by done. intros Hv. eapply ran_mono; [exact Hs|by apply Hacc].
  - intros h'' [m|e] Hm; [|done]. destruct Hm as [Hdom Hran]. split; [|done]. intros i Hi. apply Hdom.
    destruct (decide (i = id)) as [->|Hne]; [right; by rewrite lookup_insert_eq|].
    destruct Hi as [[->|Hi]%elem_of_cons|Hi]; [done|by left|right; by rewrite lookup_insert_ne].
Qed.

(** *** Readiness *)
Lemma classify_ok body broker :
  classify_replication_metrics body broker = Ok tt →
  prometheus_gauge body "krabka_broker_offline_partitions_count" = Some 0 ∧
  prometheus_gauge body "krabka_broker_under_replicated_partitions" = Some 0.
Proof.
  unfold classify_replication_metrics, health_metrics. cbn [classify_metrics].
  destruct (prometheus_gauge body "krabka_broker_offline_partitions_count") as [[]|]; try done.
  by destruct (prometheus_gauge body "krabka_broker_under_replicated_partitions") as [[]|].
Qed.

Lemma check_metrics_ok h addresses :
  ok h (check_metrics addresses)
    (on_ok (λ h' _, ∀ address, address ∈ addresses → ∃ body,
       nev (FetchMetrics (metrics_url address)) (Ok body) ∈ h' ∧
       prometheus_gauge body "krabka_broker_offline_partitions_count" = Some 0 ∧
       prometheus_gauge body "krabka_broker_under_replicated_partitions" = Some 0)).
Proof.
  revert h. induction addresses as [|a l IH]; intros h; cbn [check_metrics].
  { apply safely_ret. intros b Hb. by inversion Hb. }
  eapply (safely_bind _ _ _ _ (λ h' r, nev (FetchMetrics (metrics_url a)) r ∈ h')).
  { at_call; [done|]. intros x. apply elem_of_app. right. by left. }
  intros h1 [body|e] _ Hb; [|by apply safely_ret].
  destruct (classify_replication_metrics body a) as [[]|e] eqn:Hc; [|by apply safely_ret].
  eapply safely_mono; [apply safely_grows, IH|]. intros h2 [u|e] [Hs Hl]; [|done].
  intros b [->|Hin]%elem_of_cons; [|by apply Hl]. exists body. split; [by apply Hs|by eapply classify_ok].
Qed.

Lemma health_ok h cluster pods :
  1 ≤ replicas (kp_spec pool) →
  ok h (broker_replication_health pods (cluster +:+ "-" +:+ name) (replicas (kp_spec pool)))
    (on_ok (λ h' _, replicated h' cluster pods)).
Proof.
  intros Hr. unfold broker_replication_health.
  rewrite (proj2 (Z.leb_le 0 (replicas (kp_spec pool)))) by lia.
  destruct (Z.eqb_spec (Z.of_nat (length (metrics_addresses pods (cluster +:+ "-" +:+ name)))) (replicas (kp_spec pool)))
    as [Hl|_]; cbn [negb]; [|by apply safely_ret].
  eapply safely_mono; [apply check_metrics_ok|]. intros h' [u|e] Hm; [|done]. by split.
Qed.

(** A verdict that is [True]. *)
Definition verdict_ok (Q : log → Prop) h (v : verdict) : Prop := v.1.1 = "True" → Q h.

Lemma committed_spec ids (q : Quorum (Uuid := Uuid)) :
  committed ids q = true → ∀ id u, ids !! id = Some u → {| v_id := id; v_directory := u |} ∈ q_voters q.
Proof.
  unfold committed. rewrite forallb_forall. intros Hall id u Hu.
  specialize (Hall (id, u)). cbn in Hall. rewrite existsb_exists in Hall.
  destruct Hall as (v & Hv & [Hid%Z.eqb_eq Hd%bool_decide_eq_true]%andb_true_iff).
  { apply list_elem_of_In. by apply elem_of_map_to_list. }
  apply list_elem_of_In in Hv. destruct v. cbn in *. by subst.
Qed.

Lemma quorum_readiness_ok h cluster ids message :
  ok h (quorum_readiness display_error display_admin pool cluster ids message)
    (verdict_ok (λ h', voters_committed h' ids)).
Proof.
  unfold quorum_readiness. eapply safely_bind; [apply on_drain_ok, address_only|].
  intros h1 [address|e] _ _; [|by apply safely_ret].
  eapply (safely_bind _ _ _ _ (λ _ _, True)); [by at_call|]. intros h2 [c|e] _ _; [|by apply safely_ret].
  eapply (safely_bind _ _ _ _ (λ h' r, nev (OnDrain (DescribeQuorum address)) r ∈ h')).
  { at_call; [done|]. intros x. apply elem_of_app. right. by left. }
  intros h3 [q|e] _ Hq.
  - apply safely_ret. destruct (committed ids q) eqn:Hc; [|done]. intros _. exists address, q.
    split; [done|]. by apply committed_spec.
  - eapply (safely_bind _ _ _ _ (λ _ _, True)); [by at_call|]. intros. by apply safely_ret.
Qed.

(** What [evaluate_pool_readiness] has seen when it says [True]. *)
Definition seen_ready cluster (ids : gmap Z Uuid) (pods : list Pod) (metrics : bool) h : Prop :=
  (has pool NodePool.Broker = true → metrics = true → replicated h cluster pods) ∧
  (has pool Controller = true → voters_committed h ids).

Lemma evaluate_ok h cluster ids pods metrics reason message :
  1 ≤ replicas (kp_spec pool) →
  ok h (evaluate_pool_readiness display_error display_admin pool cluster ids pods metrics reason message)
    (verdict_ok (λ h', reason = "Available" ∧ seen_ready cluster ids pods metrics h')).
Proof.
  intros Hr. unfold evaluate_pool_readiness.
  destruct (str_eqb reason "Available") eqn:Hreason; cbn [negb]; [|by apply safely_ret].
  apply str_eqb_eq in Hreason.
  eapply (safely_bind _ _ _ _ (on_ok (λ h' _, has pool NodePool.Broker = true → metrics = true →
    replicated h' cluster pods))).
  { destruct (has pool NodePool.Broker), metrics; cbn [andb]; [|by apply safely_ret..].
    eapply safely_mono; [by apply health_ok|]. intros h' [u|e] Hh; [|done]. by intros _ _. }
  intros h1 [u|[e1 e2]] _ Hb; [|by apply safely_ret]. unfold seen_ready.
  destruct (has pool Controller); cbn [negb]; [|by apply safely_ret].
  eapply safely_mono; [apply safely_grows, quorum_readiness_ok|].
  intros h2 v [Hs Hv] Ht. split; [done|]. split; [|by intros _; apply Hv].
  intros Hbr Hmt. destruct (Hb Hbr Hmt) as [Hl Hm]. split; [done|]. intros a Ha.
  destruct (Hm a Ha) as (body & ? & ? & ?). exists body. auto.
Qed.

Lemma derive_available live :
  (derive_status live (replicas (kp_spec pool))).1.2 = "Available" →
  default 0 (and_then (and_then live ss_status) sst_ready_replicas) = replicas (kp_spec pool).
Proof.
  unfold derive_status. destruct (and_then live ss_status) as [st|]; cbn [and_then default].
  all: destruct (_ =? replicas (kp_spec pool)) eqn:He; [intros _; by apply Z.eqb_eq|by destruct (_ =? 0)].
Qed.

(** *** From the StatefulSet to the status *)
Lemma mark_ok h cluster :
  (∃ siblings b, pool_ready h cluster ∧ bootstrapped h cluster siblings b ∧
    qb_controller b = {| qb_node_id := node_id_start (kp_spec pool); qb_pool := name |}) →
  ok h (on_quorum (mark_quorum_bootstrap_initialized cluster)) (on_ok (λ _ _, True)).
Proof.
  intros (siblings & b & ? & ? & ?) Hj x. cbn. split; [|by destruct x].
  apply justified_snoc. split; [done|]. intros _. by exists cluster, siblings, b.
Qed.

Lemma finish_ok h parent cluster siblings pods bootstrap ids s :
  admitted h parent cluster siblings pods → bootstrapped h cluster siblings bootstrap →
  directories h cluster ids → nev (ApplyStatefulSet (cluster +:+ "-" +:+ name) s) (Ok tt) ∈ h →
  ok h (finish display_error display_admin ts cfg pool parent cluster bootstrap ids pods) (on_ok (λ _ _, True)).
Proof.
  intros Ha Hb Hd Hap. assert (1 ≤ replicas (kp_spec pool)) as Hr by by apply validate_Ok, (ad_valid _ _ _ _ _ Ha).
  unfold finish. eapply (safely_try _ _ _ _ (λ h' live,
    nev (OnDrain (GetStatefulSet (cluster +:+ "-" +:+ name))) (Ok live) ∈ h')); [api_call|].
  intros h1 live Hs1 Hlive. pose proof (derive_available live) as Hav.
  destruct (derive_status live _) as [[[reps rr] reason] message]. cbn [fst snd] in Hav.
  eapply safely_bind; [by apply evaluate_ok|]. intros h2 [[status_value reason2] message2] Hs2 Hv.
  assert (h ⊆ h2) as Hs by by etrans.
  assert (status_value = "True" → pool_ready h2 cluster) as Hready.
  { intros Ht. destruct (Hv Ht) as (Hreason & Hbr & Hct).
    exists parent, siblings, pods, ids, s, live. split_and!; auto.
    - by eapply admitted_mono.
    - by eapply directories_mono. }
  eapply (safely_try _ _ _ _ (λ _ _, True)).
  { destruct (str_eqb status_value "True") eqn:Ht; [|by apply safely_ret].
    destruct (negb _); [|by apply safely_ret].
    destruct (_ =? _) eqn:Hi; [|by apply safely_ret].
    destruct (str_eqb (qb_pool (qb_controller bootstrap)) _) eqn:Hn; [|by apply safely_ret].
    apply mark_ok. exists siblings, bootstrap. apply str_eqb_eq in Ht, Hn. apply Z.eqb_eq in Hi.
    split_and!; [by apply Hready|by eapply bootstrapped_mono|].
    destruct (qb_controller bootstrap). cbn in *. by subst. }
  intros h3 [] Hs3 _. eapply (safely_try _ _ _ _ (λ _ _, True)); [|by intros; apply safely_ret].
  at_call; [|by intros []]. intros x. eexists. split; [done|]. split; [done|].
  cbn. intros Ht. exists cluster. eapply ready_mono; [exact Hs3|by apply Hready].
Qed.

Lemma apply_pool_ok h parent cluster siblings pods bootstrap ids observed :
  admitted h parent cluster siblings pods → bootstrapped h cluster siblings bootstrap →
  directories h cluster ids →
  nev (OnDrain (GetStatefulSet (cluster +:+ "-" +:+ name))) (Ok observed) ∈ h →
  validate_storage_change (storage (kp_spec pool))
    (opt_map (λ s, default [] (and_then (ss_spec s) ss_claims)) observed) = Ok tt →
  shrinks_safely h cluster observed →
  ok h (apply_pool human_time display_f64 queue_capacity frame_max max_metadata_version display_error
          display_admin ts cfg pool parent cluster bootstrap ids pods observed) (on_ok (λ _ _, True)).
Proof.
  intros Ha Hb Hd Hg Hv Hsh. unfold apply_pool.
  destruct (render_statefulset_with_shell _ _ _ _ _ _ _ _ _) as [s|e] eqn:Hren; [|by apply safely_ret].
  eapply (safely_try _ _ _ _ (λ h' _,
    nev (ApplyStatefulSet (cluster +:+ "-" +:+ name) (applied_over s observed)) (Ok tt) ∈ h')).
  { at_call.
    - intros x. by exists parent, cluster, siblings, pods, bootstrap, ids, observed, s.
    - intros [[]|e]; [|done]. apply elem_of_app. right. by left. }
  intros h1 _ Hs1 Hap. eapply (safely_try _ _ _ _ (λ _ _, True)).
  { destruct (has pool NodePool.Broker); [|by apply safely_ret].
    destruct (render_pod_disruption_budget _ _ _); [|by apply safely_ret].
    at_call; [done|by intros []]. }
  intros h2 _ Hs2 _. assert (h ⊆ h2) as Hs by by etrans.
  eapply finish_ok; [by eapply admitted_mono|by eapply bootstrapped_mono|by eapply directories_mono|].
  by apply Hs2.
Qed.

(** *** From the topology to the StatefulSet *)
Lemma scaled_safely h cluster siblings observed :
  drain_ran (reconcile_controller_scale_down parse_uuid uuid_str ts (nc_pool cfg) pool ns cluster name
    siblings observed) h (Ok None) →
  shrinks_safely h cluster observed.
Proof.
  intros Hran. eapply ran_spec in Hran; [|apply scale_down_spec].
  destruct Hran as (tr1 & tr & Hin & Htr & _ & Hok). exists tr1, tr. split_and!; [done..|by apply Hok].
Qed.

Lemma nodes_ok h parent cluster siblings pods :
  admitted h parent cluster siblings pods →
  ok h (reconcile_nodes human_time display_f64 queue_capacity frame_max max_metadata_version display_error
          display_admin parse_i32_error ts cfg pool parent cluster siblings pods) (on_ok (λ _ _, True)).
Proof.
  intros Ha. unfold reconcile_nodes.
  destruct (select_quorum_bootstrap siblings) as [[node_id candidate]|] eqn:Hsel; [|by apply safely_ret].
  eapply (safely_try _ _ _ _ (λ h' b, bootstrapped h' cluster siblings b)).
  { eapply safely_mono; [apply on_quorum_ok, bootstrap_only|]. intros h' [b|e] Hb; [|done].
    by exists node_id, candidate. }
  intros h1 b Hs1 Hb. eapply (safely_try _ _ _ _ (λ h' ids, directories h' cluster ids)).
  { eapply safely_mono; [by apply directory_ids_ok; intros id u Hu; rewrite lookup_empty in Hu|]. intros h' [ids|e] Hd; [|done].
    destruct Hd as [Hdom Hran]. split; [|done]. intros id Hid. apply Hdom. by left. }
  intros h2 ids Hs2 Hd. eapply (safely_try _ _ _ _ (λ h' observed,
    nev (OnDrain (GetStatefulSet (cluster +:+ "-" +:+ name))) (Ok observed) ∈ h')); [api_call|].
  intros h3 observed Hs3 Hg. destruct (validate_storage_change _ _) as [[]|e] eqn:Hv; [|apply invalid_ok].
  eapply (safely_try _ _ _ _ (λ h' r, r = None → shrinks_safely h' cluster observed)).
  { eapply safely_mono; [apply on_drain_ok, scale_down_only|]. intros h' [r|e] Hr; [|done].
    intros ->. by eapply scaled_safely. }
  intros h4 [act|] Hs4 Hsh; [by apply safely_ret|]. assert (h2 ⊆ h4) as Hs by by etrans.
  eapply apply_pool_ok; [..|done|by apply Hsh].
  - eapply admitted_mono; [|exact Ha]. etrans; [exact Hs1|by etrans].
  - eapply bootstrapped_mono; [|exact Hb]. by transitivity h2.
  - by eapply directories_mono.
  - by apply Hs4.
Qed.

Lemma version_cleared parent : version_gate ts (name_any (k_meta parent)) (k_status parent) = None →
  parent_version_gate (k_status parent) = Cleared.
Proof. unfold version_gate. by destruct (parent_version_gate (k_status parent)). Qed.

Lemma version_refused parent c : version_gate ts (name_any (k_meta parent)) (k_status parent) = Some c →
  type_ c = "Ready" ∧ status c = "False".
Proof. unfold version_gate. destruct (parent_version_gate (k_status parent)); by intros [= <-]. Qed.

Lemma linked_ok h parent cluster :
  validate pool = Ok tt → label (kp_meta pool) "krabka.io/cluster" = Some cluster →
  om_deleting (kp_meta pool) = false → nev (GetParent cluster) (Ok (Some parent)) ∈ h →
  ok h (reconcile_linked human_time display_f64 queue_capacity frame_max max_metadata_version display_error
          display_admin parse_i32_error ts cfg pool parent cluster) (on_ok (λ _ _, True)).
Proof.
  intros Hval Hlab Hlive Hpar. unfold reconcile_linked.
  destruct (has_finalizer pool) eqn:Hfin; cbn [negb].
  2: { eapply (safely_try _ _ _ _ (λ _ _, True)); [|by intros; apply safely_ret].
       eapply safely_mono; [apply on_drain_ok|by intros ? []].
       unfold set_finalizer, Drain.kube. by only_calls. }
  destruct (version_gate _ _ _) as [c|] eqn:Hgate.
  { apply version_refused in Hgate as [? ?]. by apply pool_stop_ok. }
  eapply (safely_try _ _ _ _ (λ h' l, nev (ListSiblings cluster) (Ok l) ∈ h')); [api_call|].
  intros h1 siblings Hs1 Hsib.
  eapply (safely_try _ _ _ _ (λ h' l, nev (ListStatefulSets cluster) (Ok l) ∈ h')); [api_call|].
  intros h2 statefulsets Hs2 Hsts.
  eapply (safely_try _ _ _ _ (λ h' l, nev (ListTopologyPods cluster) (Ok l) ∈ h')); [api_call|].
  intros h3 pods Hs3 Hpods. destruct (validate_topology _ _ _) as [[]|e] eqn:Htop; [|apply invalid_ok].
  destruct (waits_for_controllers pool siblings) eqn:Hwait; [by apply pool_stop_ok|].
  apply nodes_ok. split; try done.
  - apply Hs3, Hs2, Hs1, Hpar.
  - by apply version_cleared.
  - exists statefulsets. split_and!; auto.
  - by apply waits_for_controllers_false.
Qed.

Lemma pool_inner_ok h :
  ok h (reconcile_inner human_time display_f64 queue_capacity frame_max max_metadata_version display_error
          display_admin parse_i32_error ts cfg pool) (on_ok (λ _ _, True)).
Proof.
  unfold reconcile_inner. destruct (validate pool) as [[]|e] eqn:Hval; [|apply invalid_ok].
  destruct (label _ _) as [cluster|] eqn:Hlab; [|by apply pool_stop_ok].
  eapply (safely_try _ _ _ _ (λ h' p, nev (GetParent cluster) (Ok p) ∈ h')); [api_call|].
  intros h1 parent Hs1 Hpar. destruct (om_deleting (kp_meta pool)) eqn:Hdel.
  { eapply safely_mono; [apply on_drain_ok, deletion_only|by intros ? []]. }
  destruct parent as [parent|]; [by apply linked_ok|by apply pool_stop_ok].
Qed.

#[local] Notation pass := (reconcile_inner (ByteRate := ByteRate) human_time display_f64 queue_capacity frame_max
  max_metadata_version display_error display_admin parse_i32_error ts cfg pool).

Lemma pool_steps : all_runs pass (λ tr _, justified step_ok tr).
Proof. eapply always_mono; [|apply pool_inner_ok, justified_nil]. by intros h r [? _]. Qed.

(** ** What the steps mean *)

(** C29. A pass applies a StatefulSet only for a valid pool that is linked to its parent,
    not being deleted and guarded by the finalizer, when the parent's version is cleared,
    the topology of all pools was checked and, for a pool without controllers, all
    controller pools are available.  The controller that formats the quorum is chosen and
    each of the pool's nodes has a directory id; the claim templates do not change; the
    brokers above the new size are drained and unregistered, and its controllers are no
    voters.  What is applied is the rendering for this parent over the live object. *)
Theorem statefulset_applied_safely :
  all_runs pass (λ tr _, ∀ pre n s x post,
    tr = pre ++ nev (ApplyStatefulSet n s) x :: post → apply_ok pre n s).
Proof.
  eapply all_runs_mono; [|exact pool_steps]. intros tr r Hj pre n s x post Heq. exact (Hj _ _ _ Heq).
Qed.

(** C30. A pass reports a pool [Ready=True] only after it applied its StatefulSet and saw
    all replicas ready; with metrics configured, every broker pod answered that no
    partition is offline or under-replicated; and each controller is a voter of the
    quorum with the directory id of its node.  Every other condition of the pass is
    [Ready=False]. *)
Theorem pool_readiness_truthful :
  all_runs pass (λ tr _,
    (∀ pre s x post, tr = pre ++ nev (PatchStatus s) x :: post →
       ∃ c, ps_conditions s = [c] ∧ type_ c = "Ready" ∧
         (status c = "True" → ∃ cluster, pool_ready pre cluster)) ∧
    ∀ pre c x post, tr = pre ++ nev (OnDrain (PatchPoolStatus c)) x :: post →
      type_ c = "Ready" ∧ status c = "False").
Proof.
  eapply all_runs_mono; [|exact pool_steps]. intros tr r Hj.
  split; intros pre c x post Heq; exact (Hj _ _ _ Heq).
Qed.

(** The quorum is marked as initialized only by a pass that found its own pool ready,
    and only when that pool's first node is the controller chosen to format it. *)
Theorem quorum_marked_when_ready :
  all_runs pass (λ tr _, ∀ pre n m x post,
    tr = pre ++ nev (OnQuorum (PatchSecretStrings n m)) x :: post →
    m !! QUORUM_BOOTSTRAP_INITIALIZED_KEY = Some "true" →
    ∃ cluster siblings b, n = cluster_id_secret_name cluster ∧ pool_ready pre cluster ∧
      bootstrapped pre cluster siblings b ∧
      qb_controller b = {| qb_node_id := node_id_start (kp_spec pool); qb_pool := name |}).
Proof.
  eapply all_runs_mono; [|exact pool_steps]. intros tr r Hj pre n m x post Heq. exact (Hj _ _ _ Heq).
Qed.
End safety.
