(* ===== verification/Connector.v ===== *)
(** * KafkaConnector reconciler (src/controller/connector.rs, src/crd/connector.rs)

    One CDC worker per connector: the checks of the spec, the broker endpoint and the
    credentials that the worker needs, the KafkaUser made for it, its Deployment, and
    the status.  The URL parser and SHA-256 are parameters. *)

From S2P Require Import Prelude RustStd Effects Kube Workload CaBundle ClusterCa Toml Tuning.
From S2P Require Import Listeners KafkaSpec DelegationToken UserTls UserAcl.
Local Open Scope Z_scope.

Definition APP_NAME : string := "krabka-connect-worker".
Definition HEALTH_PORT : Z := 8080.
Definition HEALTH_ADDR : string := "0.0.0.0:8080".
Definition DEFAULT_IMAGE : string := "ghcr.io/krabka-io/krabka-connect-worker:v0.4.1".
Definition CHECKPOINT_TOPIC : string := "__krabka_connect_offsets".
Definition CHECKPOINT_READER_GROUP : string := "krabka-replicator-reader-__krabka_connect_offsets".
Definition BROKER_CLIENT_DIR : string := "/etc/krabka/broker-client".
Definition BROKER_CA_DIR : string := "/etc/krabka/broker-ca".

(** ** The resource.  [postgresSource] is the only type. *)
Record ConnectorSecretKeyRef : Type := { csr_name : string; csr_key : string }.

Record ConnectorRuntime : Type := {
  max_batch : option Z;
  commit_interval_ms : option Z;
  poll_backoff_ms : option Z;
}.

Record KafkaConnectorSpec : Type := {
  paused : bool;
  cn_image : option string;
  cn_resources : option ResourceRequirements;
  database_url : ConnectorSecretKeyRef;
  schema_registry_url : string;
  slot : string;
  publication : string;
  cn_schema : option string;
  tables : list string;
  topic_prefix : option string;
  cn_runtime : option ConnectorRuntime;
}.

Record KafkaConnectorStatus : Type := {
  cns_conditions : list KafkaCondition;
  cns_observed_generation : option Z;
  cns_replicas : option Z;
  cns_ready_replicas : option Z;
}.

Record KafkaConnector : Type := {
  cn_meta : object_meta;
  cn_spec : KafkaConnectorSpec;
}.

(** ** Strings: [trim_end_matches] and [trim_matches] of a character *)
Definition one (c : ascii) : string := String c EmptyString.
Definition trim_end_matches (c : ascii) (s : string) : string :=
  strip_while (strip_suffix (one c)) (String.length s) s.
Definition trim_start_matches (c : ascii) (s : string) : string :=
  strip_while (strip_prefix (one c)) (String.length s) s.
Definition trim_matches (c : ascii) (s : string) : string := trim_end_matches c (trim_start_matches c s).

Section connector.
Context {Time ByteSize Ratio F64 : Type}.
(** The scheme of a URL, or the text of the parse error. *)
Context (url_scheme : string → result string string) (sha256_hex : string → string).
#[local] Notation Kafka := (Kafka Time ByteSize Ratio F64).
#[local] Notation KafkaUser := (UserAcl.KafkaUser Time F64).

(** ** The checks of the spec *)
Fixpoint check_required (fields : list (string * string)) : result unit string :=
  match fields with
  | [] => Ok tt
  | (path, value) :: fields =>
      if blank value then Err (path +:+ " must not be empty") else check_required fields
  end.

Definition validate_spec (spec : KafkaConnectorSpec) : result unit string :=
  let? _ := check_required
    [("spec.databaseUrl.name", csr_name (database_url spec));
     ("spec.databaseUrl.key", csr_key (database_url spec));
     ("spec.schemaRegistryUrl", schema_registry_url spec);
     ("spec.slot", slot spec);
     ("spec.publication", publication spec)] in
  let? scheme := map_err (λ e, "spec.schemaRegistryUrl: " +:+ e) (url_scheme (schema_registry_url spec)) in
  if negb (str_eqb scheme "http" || str_eqb scheme "https") then
    Err "spec.schemaRegistryUrl must use http or https"
  else if bool_decide (tables spec = []) then Err "spec.tables must contain at least one table"
  else if existsb blank (tables spec) then Err "spec.tables entries must not be empty"
  else if existsb (str_exists (Ascii.eqb ".")) (tables spec) then
    Err "spec.tables entries must be unqualified; select their schema with spec.schema"
  else if is_some_and blank (cn_schema spec) then Err "spec.schema must not be empty when set"
  else if is_some_and (λ p, is_empty (trim_matches "." (trim p))) (topic_prefix spec) then
    Err "spec.topicPrefix must not be empty when set"
  else if is_some_and blank (cn_image spec) then Err "spec.image must not be empty when set"
  else Ok tt.

(** ** The brokers and the credentials *)
Definition tls_listener (l : Listener Time) : bool :=
  bool_decide (l_type l = Internal) && l_tls l
  && match l_authentication l with Some AuthTls => true | _ => false end.

Definition resolve_broker_endpoint (parent : Kafka) (namespace : string) : option (string * string) :=
  and_then (k_status parent) (λ st,
    if negb (existsb (λ c, str_eqb (type_ c) "Ready" && str_eqb (status c) "True") (kst_conditions st))
    then None
    else and_then (find_first tls_listener (k_listeners (k_spec parent))) (λ l,
      and_then (find_first (λ c, str_eqb (ls_name c) (l_name l)) (kst_listeners st)) (λ c,
        if is_empty (bootstrap_servers c) then None
        else Some (bootstrap_servers c,
                   name_any (k_meta parent) +:+ "-broker-headless." +:+ namespace
                   +:+ ".svc.cluster.local")))).

Definition broker_user_name (connector_name : string) : string := connector_name +:+ "-broker".

(** [clamp(1, 3)] *)
Definition connector_replication_factor (broker_replicas : option Z) : Z :=
  Z.min 3 (Z.max 1 (default 1 broker_replicas)).

Definition acl (k : AclResourceKind) (name : string) (p : AclPatternType) (ops : list AclOp) : AclRule :=
  {| resource := {| kind := k; res_name := name; pattern_type := p |}; operations := ops;
     rule_host := "*"; permission := Allow |}.

Definition acl_prefix (spec : KafkaConnectorSpec) : string :=
  trim_end_matches "." (default "db" (topic_prefix spec)).

Definition connector_acls (spec : KafkaConnectorSpec) : list AclRule :=
  [acl Topic (acl_prefix spec +:+ ".") Prefixed [OpWrite; OpDescribe];
   acl Topic CHECKPOINT_TOPIC Literal [OpRead; OpWrite; OpDescribe];
   acl Group CHECKPOINT_READER_GROUP Literal [OpRead];
   acl Cluster "kafka-cluster" Literal [OpCreate; OpIdempotentWrite]].

Definition owner (c : KafkaConnector) : result owner_reference ReconcileError :=
  owner_ref "KafkaConnector" (cn_meta c).

Definition child_kafka_user (c : KafkaConnector) (cluster_name : string) : result KafkaUser ReconcileError :=
  let connector_name := name_any (cn_meta c) in
  let? owner := owner c in
  Ok {| u_meta := {| om_name := Some (broker_user_name connector_name);
                     om_namespace := om_namespace (cn_meta c); om_uid := None;
                     om_labels := Some (<["krabka.io/connector" := connector_name]>
                                          {["krabka.io/cluster" := cluster_name]});
                     om_annotations := None; om_finalizers := None; om_generation := None;
                     om_deleting := false; om_owners := [owner] |};
        u_spec := {| authentication := Tls {| auth_validity_days := None; auth_renewal_days := None |};
                     authorization := Some (UserAcl.Simple {| acls := connector_acls (cn_spec c) |});
                     quotas := None |};
        u_status := None |}.

Definition secret_has_keys (s : secret) (keys : list string) : bool :=
  is_some_and (λ data, forallb (λ k, is_some_and (λ v, negb (is_empty v)) (data !! k)) keys) (sec_data s).

Definition secret_value (s : secret) (key : string) : string :=
  default "" (and_then (sec_data s) (λ data, data !! key)).

Definition secret_hash (parts : list string) : string := sha256_hex (concat_str parts).

(** ** The worker *)
Definition runtime_env (r : option ConnectorRuntime) : list EnvVar :=
  let number name v := from_option (λ n, [env_val name (display_Z n)]) [] v in
  match r with
  | None => []
  | Some r =>
      number "KRABKA_CONNECT_BATCH_SIZE" (max_batch r)
      ++ number "KRABKA_CONNECT_COMMIT_INTERVAL_MS" (commit_interval_ms r)
      ++ number "KRABKA_CONNECT_POLL_BACKOFF_MS" (poll_backoff_ms r)
  end.

Definition worker_env (c : KafkaConnector) (bootstrap broker_server_name : string)
    (replication_factor : Z) : list EnvVar :=
  let spec := cn_spec c in
  [env_val "KRABKA_CONNECTOR_ID" (name_any (cn_meta c));
   env_val "KRABKA_KAFKA_BOOTSTRAP" bootstrap;
   env_val "KRABKA_SCHEMA_REGISTRY_URL" (schema_registry_url spec);
   env_val "KRABKA_CONNECT_REPLICATION_FACTOR" (display_Z replication_factor);
   env_ref "KRABKA_POSTGRES_URL" (SecretRef (csr_name (database_url spec)) (csr_key (database_url spec)));
   env_val "KRABKA_POSTGRES_SLOT" (slot spec);
   env_val "KRABKA_POSTGRES_PUBLICATION" (publication spec);
   env_val "KRABKA_POSTGRES_SCHEMA" (default "public" (cn_schema spec));
   env_val "KRABKA_POSTGRES_TABLES" (join "," (tables spec));
   env_val "KRABKA_TOPIC_PREFIX" (default "db" (topic_prefix spec));
   env_val "KRABKA_CONNECT_HEALTH_LISTEN" HEALTH_ADDR;
   env_val "KRABKA_BROKER_PROTOCOL" "SSL";
   env_val "KRABKA_BROKER_CERT_PATH" (BROKER_CLIENT_DIR +:+ "/user.crt");
   env_val "KRABKA_BROKER_KEY_PATH" (BROKER_CLIENT_DIR +:+ "/user.key");
   env_val "KRABKA_BROKER_CA_PATH" (BROKER_CA_DIR +:+ "/ca.crt");
   env_val "KRABKA_BROKER_SERVER_NAME" broker_server_name]
  ++ runtime_env (cn_runtime spec).

Definition worker_labels (name cluster_name : string) : gmap string string :=
  <["krabka.io/cluster" := cluster_name]>
  (<["app.kubernetes.io/managed-by" := "krabka-operator"]>
  (<["app.kubernetes.io/instance" := name]> {["app.kubernetes.io/name" := APP_NAME]})).

Definition no_resources : ResourceRequirements :=
  {| rr_requests := None; rr_limits := None; rr_claims := None |}.

Definition http_probe (path : string) : Probe :=
  {| pr_handler := HttpGet path HEALTH_PORT; pr_initial_delay := None; pr_period := None;
     pr_failure_threshold := None |}.

Definition worker_container (c : KafkaConnector) (image : string) (e : list EnvVar) : Container :=
  let mount name path := {| vm_name := name; vm_path := path; vm_read_only := true |} in
  {| c_name := "connector"; c_image := Some image; c_command := None; c_args := None; c_env := Some e;
     c_ports := Some [{| cp_port := HEALTH_PORT; cp_name := Some "health"; cp_protocol := None |}];
     c_mounts := Some [mount "broker-client" BROKER_CLIENT_DIR; mount "broker-ca" BROKER_CA_DIR];
     c_readiness := Some (http_probe "/ready"); c_liveness := Some (http_probe "/live");
     c_startup := None; c_resources := Some (default no_resources (cn_resources (cn_spec c)));
     c_security := Some locked_down |}.

Definition worker_pod (name cluster_name : string) (main : Container) : PodSpec :=
  let secret n s := {| vol_name := n; vol_source := SecretVolume s None (Some 256) |} in
  {| init_containers := None; containers := [main]; node_name := None;
     volumes := Some [secret "broker-client" (broker_user_name name);
                      secret "broker-ca" (cluster_ca_cert_name cluster_name)];
     security_context := Some {| psc_run_as_non_root := Some true; psc_run_as_user := Some 65532;
       psc_fs_group := Some 65532;
       psc_seccomp := Some {| profile_type := RuntimeDefault; localhost_profile := None |} |};
     termination_grace_period := None; topology_spread := None; affinity := None;
     tolerations := None; node_selector := None |}.

Definition render_deployment (c : KafkaConnector) (cluster_name image bootstrap broker_server_name : string)
    (replication_factor : Z) (config_hash : string) : result Deployment ReconcileError :=
  let name := name_any (cn_meta c) in
  let labels := worker_labels name cluster_name in
  let? owner := owner c in
  Ok {| dep_meta := {| om_name := Some name; om_namespace := om_namespace (cn_meta c); om_uid := None;
                       om_labels := Some labels; om_annotations := None; om_finalizers := None;
                       om_generation := None; om_deleting := false; om_owners := [owner] |};
        dep_spec := Some {|
          dep_replicas := Some (if paused (cn_spec c) then 0 else 1);
          dep_strategy := Some "Recreate";
          dep_selector := labels;
          dep_template := {|
            tpl_meta := Some (template_meta labels (Some {["krabka.io/config-hash" := config_hash]}));
            tpl_spec := Some (worker_pod name cluster_name
              (worker_container c image
                (worker_env c bootstrap broker_server_name replication_factor))) |} |};
        dep_status_ready := None |}.

(** ** The pass *)
Inductive connector_call : Type :=
  | GetDeployment (name : string)
  | ScaleDeployment (name : string) (replicas : Z)
  | ApplyDeployment (name : string) (d : Deployment)
  | GetSecret (name : string)
  | GetKafka (name : string)
  | ApplyUser (name : string) (u : KafkaUser)
  | PatchConnectorStatus (name : string) (s : KafkaConnectorStatus).

Definition connector_resp (c : connector_call) : Type :=
  match c with
  | GetDeployment _ => result (option Deployment) kube_error
  | GetSecret _ => result (option secret) kube_error
  | GetKafka _ => result (option Kafka) kube_error
  | ScaleDeployment _ _ | ApplyDeployment _ _ | ApplyUser _ _ | PatchConnectorStatus _ _ =>
      result unit kube_error
  end.

Record connector_config : Type := {
  controller_invalid_requeue : Time;
  controller_drift_requeue : Time;
  controller_dependency_requeue : Time;
  default_connector_image : option string;
}.

#[local] Notation pass R := (prog connector_resp (result R ReconcileError)).
#[local] Notation call := (perform (resp := connector_resp)).
Definition kube {A} (p : prog connector_resp (result A kube_error)) : pass A :=
  r ← p; Ret (map_err Kube r).

Context (cfg : connector_config) (ts : string) (obj : KafkaConnector).
Let namespace : string := namespace_or_default (cn_meta obj).
Let name : string := name_any (cn_meta obj).

Definition truth (b : bool) : string := if b then "True" else "False".

Definition connector_status (reason message : string) (failed : bool) (replicas ready_replicas : option Z)
    (observed : bool) : KafkaConnectorStatus :=
  let paused := paused (cn_spec obj) && str_eqb reason "Paused" in
  let ready := str_eqb reason "Available" in
  {| cns_conditions := [condition ts "Ready" (truth ready) reason message;
                        condition ts "Paused" (truth paused) reason message;
                        condition ts "Failed" (truth failed) reason message];
     cns_observed_generation := if observed then om_generation (cn_meta obj) else None;
     cns_replicas := replicas; cns_ready_replicas := ready_replicas |}.

Definition patch_state (reason message : string) (failed : bool) (replicas ready_replicas : option Z)
    (observed : bool) : pass unit :=
  kube (call (PatchConnectorStatus name
                (connector_status reason message failed replicas ready_replicas observed))).

Definition patch_unready (reason message : string) (failed : bool) : pass unit :=
  patch_state reason message failed None None false.

(** *** What the worker needs.  [None] asks for another pass. *)
Record ResolvedInputs : Type := {
  ri_cluster_name : string;
  ri_bootstrap : string;
  ri_broker_server_name : string;
  ri_replication_factor : Z;
  ri_config_hash : string;
}.

Definition not_yet (reason message : string) (failed : bool) : pass (option ResolvedInputs) :=
  _ ←? patch_unready reason message failed; Ret (Ok None).

Definition resolve_credentials (cluster_name database_url : string) (parent : Kafka)
    (bootstrap broker_server_name : string) : pass (option ResolvedInputs) :=
  let user_name := broker_user_name name in
  match child_kafka_user obj cluster_name with
  | Err e => Ret (Err e)
  | Ok user =>
      _ ←? kube (call (ApplyUser user_name user));
      client_secret ←? kube (call (GetSecret user_name));
      match client_secret with
      | None => not_yet "WaitingForBrokerCredentials"
                  ("waiting for KafkaUser '" +:+ user_name +:+ "' credentials") false
      | Some client_secret =>
          ca_secret ←? kube (call (GetSecret (cluster_ca_cert_name cluster_name)));
          match ca_secret with
          | Some ca_secret =>
              if negb (secret_has_keys client_secret ["user.crt"; "user.key"])
                 || negb (secret_has_keys ca_secret ["ca.crt"]) then
                not_yet "WaitingForBrokerCredentials" "broker client or CA credentials are not ready" false
              else
                Ret (Ok (Some {|
                  ri_cluster_name := cluster_name; ri_bootstrap := bootstrap;
                  ri_broker_server_name := broker_server_name;
                  ri_replication_factor := connector_replication_factor (and_then (k_status parent) kst_replicas);
                  ri_config_hash := secret_hash
                    [database_url; secret_value client_secret "user.crt";
                     secret_value client_secret "user.key"; secret_value ca_secret "ca.crt"] |}))
          | None => not_yet "WaitingForBrokerCredentials" "broker client or CA credentials are not ready" false
          end
      end
  end.

Definition resolve_inputs : pass (option ResolvedInputs) :=
  match label (cn_meta obj) "krabka.io/cluster" with
  | None => not_yet "MissingClusterLabel"
              ("metadata.labels[" +:+ quote +:+ "krabka.io/cluster" +:+ quote +:+ "] is required") true
  | Some cluster_name =>
      let ref := database_url (cn_spec obj) in
      database_secret ←? kube (call (GetSecret (csr_name ref)));
      match database_secret with
      | None => not_yet "DatabaseSecretNotFound" ("Secret '" +:+ csr_name ref +:+ "' not found") true
      | Some s =>
          match option_filter (λ v, negb (is_empty v)) (and_then (sec_data s) (λ d, d !! csr_key ref)) with
          | None => not_yet "DatabaseSecretInvalid"
                      ("Secret '" +:+ csr_name ref +:+ "' has no non-empty '" +:+ csr_key ref +:+ "' key") true
          | Some url =>
              parent ←? kube (call (GetKafka cluster_name));
              match parent with
              | None => not_yet "ParentNotFound" ("Kafka '" +:+ cluster_name +:+ "' not found") true
              | Some parent =>
                  match resolve_broker_endpoint parent namespace with
                  | None => not_yet "KafkaNotReady"
                      "referenced Kafka is not Ready or has no internal TLS listener with TLS authentication"
                      false
                  | Some (bootstrap, broker_server_name) =>
                      resolve_credentials cluster_name url parent bootstrap broker_server_name
                  end
              end
          end
      end
  end.

(** *** Pausing *)
Definition owned_by_connector (d : Deployment) : bool :=
  existsb (λ o, str_eqb (or_kind o) "KafkaConnector"
                && bool_decide (om_uid (cn_meta obj) = Some (or_uid o))) (om_owners (dep_meta d)).

Definition ready_of (live : option Deployment) : Z := default 0 (and_then live dep_status_ready).

Definition pause : pass (action Time) :=
  live ←? kube (call (GetDeployment name));
  let needs_scale_down :=
    is_some_and owned_by_connector live
    && negb (bool_decide (and_then (and_then live dep_spec) dep_replicas = Some 0)) in
  _ ←? (if needs_scale_down then kube (call (ScaleDeployment name 0)) else Ret (Ok tt));
  _ ←? patch_state "Paused" "connector is paused" false (Some 0) (Some (ready_of live)) true;
  Ret (Ok (Requeue (controller_drift_requeue cfg))).

Definition image : string :=
  default DEFAULT_IMAGE (or_else (cn_image (cn_spec obj)) (default_connector_image cfg)).

Definition run_worker (i : ResolvedInputs) : pass (action Time) :=
  match render_deployment obj (ri_cluster_name i) image (ri_bootstrap i) (ri_broker_server_name i)
          (ri_replication_factor i) (ri_config_hash i) with
  | Err e => Ret (Err e)
  | Ok d =>
      _ ←? kube (call (ApplyDeployment name d));
      live ←? kube (call (GetDeployment name));
      let ready := ready_of live in
      _ ←? (if 1 <=? ready
            then patch_state "Available" "connector worker is ready" false (Some 1) (Some ready) true
            else patch_state "Progressing" "waiting for connector worker readiness" false (Some 1)
                   (Some ready) true);
      Ret (Ok (Requeue (controller_drift_requeue cfg)))
  end.

Definition reconcile_inner : pass (action Time) :=
  match validate_spec (cn_spec obj) with
  | Err message =>
      _ ←? patch_state "InvalidSpec" message true None None false;
      Ret (Ok (Requeue (controller_invalid_requeue cfg)))
  | Ok _ =>
      if paused (cn_spec obj) then pause
      else
        inputs ←? resolve_inputs;
        match inputs with
        | None => Ret (Ok (Requeue (controller_dependency_requeue cfg)))
        | Some i => run_worker i
        end
  end.
End connector.
