(* ===== verification/ConnectorFacts.v ===== *)
(** * What the connector pass guarantees (src/controller/connector.rs)

    The worker that a pass runs or stops, the status it reports, and the rights of the
    user it makes for the worker, as the user controller expands them. *)

From S2P Require Import Prelude RustStd Effects Kube Workload CaBundle ClusterCa Toml Tuning.
From S2P Require Import Listeners BrokerKeystore ListenerObjects Advertised KafkaSpec DelegationToken UserTls UserAcl.
From S2P Require Import Connector.
Local Open Scope Z_scope.

Section safety.
Context {Time ByteSize Ratio F64 : Type}.
Context (url_scheme : string → result string string) (sha256_hex : string → string).
Context (cfg : connector_config (Time := Time)) (ts : string) (obj : KafkaConnector).
#[local] Notation cresp := (connector_resp (Time := Time) (ByteSize := ByteSize) (Ratio := Ratio) (F64 := F64)).
#[local] Notation log := (list (event cresp)).
#[local] Notation cev := (ev (resp := cresp)).
#[local] Notation Kafka := (Kafka Time ByteSize Ratio F64).
Let namespace : string := namespace_or_default (cn_meta obj).
Let name : string := name_any (cn_meta obj).
Implicit Types (h : log).

(** ** What a pass has established *)

(** The inputs of the worker are those of this pass: the database URL is there, the
    cluster is ready, the user is applied and its credentials and the CA are there. *)
Definition inputs_ok h (i : ResolvedInputs) : Prop :=
  ∃ db url (parent : Kafka) user client ca,
    let ref := database_url (cn_spec obj) in
    label (cn_meta obj) "krabka.io/cluster" = Some (ri_cluster_name i) ∧
    cev (GetSecret (csr_name ref)) (Ok (Some db)) ∈ h ∧
    and_then (sec_data db) (λ d, d !! csr_key ref) = Some url ∧ is_empty url = false ∧
    cev (GetKafka (ri_cluster_name i)) (Ok (Some parent)) ∈ h ∧
    resolve_broker_endpoint parent namespace = Some (ri_bootstrap i, ri_broker_server_name i) ∧
    child_kafka_user obj (ri_cluster_name i) = Ok user ∧
    cev (ApplyUser (broker_user_name name) user) (Ok tt) ∈ h ∧
    cev (GetSecret (broker_user_name name)) (Ok (Some client)) ∈ h ∧
    secret_has_keys client ["user.crt"; "user.key"] = true ∧
    cev (GetSecret (cluster_ca_cert_name (ri_cluster_name i))) (Ok (Some ca)) ∈ h ∧
    secret_has_keys ca ["ca.crt"] = true ∧
    ri_replication_factor i = connector_replication_factor (and_then (k_status parent) kst_replicas) ∧
    ri_config_hash i = secret_hash sha256_hex
      [url; secret_value client "user.crt"; secret_value client "user.key"; secret_value ca "ca.crt"].

(** The worker is rendered from them. *)
Definition worker_of h (d : Deployment) : Prop :=
  ∃ i, inputs_ok h i ∧
    render_deployment obj (ri_cluster_name i) (image cfg obj) (ri_bootstrap i) (ri_broker_server_name i)
      (ri_replication_factor i) (ri_config_hash i) = Ok d.

Definition running h : Prop :=
  ∃ d live, cev (ApplyDeployment name d) (Ok tt) ∈ h ∧ cev (GetDeployment name) (Ok live) ∈ h ∧
    1 ≤ ready_of live.

Definition may_run : Prop := validate_spec url_scheme (cn_spec obj) = Ok tt ∧ paused (cn_spec obj) = false.

Definition status_ok h (s : KafkaConnectorStatus) : Prop :=
  ∃ ready is_paused failed : KafkaCondition, cns_conditions s = [ready; is_paused; failed] ∧
    type_ ready = "Ready" ∧ type_ is_paused = "Paused" ∧ type_ failed = "Failed" ∧
    (status ready = "True" → may_run ∧ running h ∧ cns_replicas s = Some 1 ∧
       cns_observed_generation s = om_generation (cn_meta obj)) ∧
    (status is_paused = "True" → paused (cn_spec obj) = true ∧ cns_replicas s = Some 0) ∧
    (status failed = "True" → status ready = "False" ∧ status is_paused = "False").

Definition step_ok h (e : event cresp) : Prop :=
  match projT1 e with
  | ScaleDeployment n r =>
      paused (cn_spec obj) = true ∧ n = name ∧ r = 0 ∧
      ∃ d, cev (GetDeployment name) (Ok (Some d)) ∈ h ∧ owned_by_connector obj d = true
  | ApplyDeployment n d => may_run ∧ n = name ∧ worker_of h d
  | ApplyUser n u =>
      may_run ∧ n = broker_user_name name ∧
      ∃ cluster, label (cn_meta obj) "krabka.io/cluster" = Some cluster ∧ child_kafka_user obj cluster = Ok u
  | PatchConnectorStatus n s => n = name ∧ status_ok h s
  | _ => True
  end.
#[local] Notation ok h p Q := (safely step_ok h p Q).

(** ** The parts *)
Lemma connector_kube_ok {A} h (p : prog cresp (result A kube_error)) Q : ok h p (on_ok Q) → ok h (kube p) (on_ok Q).
Proof. intros Hp. eapply safely_bind; [exact Hp|]. intros h' [a|e] _ Ha; by apply safely_ret. Qed.

Ltac at_call :=
  match goal with |- safely _ _ (kube (perform ?c)) _ => apply connector_kube_ok; refine (safely_call _ _ c _ _ _) end.
Ltac logged_call := at_call; [try done | intros [?|?]; [|exact I]; apply elem_of_app; right; by left].

Lemma not_yet_ok h reason message failed (Q : log → option ResolvedInputs → Prop) :
  reason ≠ "Available" → reason ≠ "Paused" → (∀ h', Q h' None) →
  ok h (not_yet ts obj reason message failed) (on_ok Q).
Proof.
  intros Ha Hp HQ. eapply (safely_try _ _ _ _ (λ _ _, True)); [|intros; by apply safely_ret, HQ].
  unfold patch_unready, patch_state. at_call; [|by intros []]. intros x. split; [done|].
  unfold status_ok, connector_status. cbn.
  assert (str_eqb reason "Available" = false) as -> by (apply not_true_is_false; by rewrite str_eqb_eq).
  assert (str_eqb reason "Paused" = false) as -> by (apply not_true_is_false; by rewrite str_eqb_eq).
  rewrite andb_false_r. by eexists _, _, _.
Qed.

Lemma credentials_ok h cluster db url parent bootstrap server :
  may_run → label (cn_meta obj) "krabka.io/cluster" = Some cluster →
  cev (GetSecret (csr_name (database_url (cn_spec obj)))) (Ok (Some db)) ∈ h →
  and_then (sec_data db) (λ d, d !! csr_key (database_url (cn_spec obj))) = Some url →
  is_empty url = false → cev (GetKafka cluster) (Ok (Some parent)) ∈ h →
  resolve_broker_endpoint parent namespace = Some (bootstrap, server) →
  ok h (resolve_credentials sha256_hex ts obj cluster url parent bootstrap server)
    (on_ok (λ h' r, ∀ i, r = Some i → inputs_ok h' i)).
Proof.
  intros Hrun Hlab Hdb Hurl Hne Hpar Hend. unfold resolve_credentials.
  destruct (child_kafka_user obj cluster) as [user|e] eqn:Huser; [|by apply safely_ret].
  eapply (safely_try _ _ _ _ (λ h' _, cev (ApplyUser (broker_user_name name) user) (Ok tt) ∈ h')).
  { at_call; [by intros x; split_and!; [| |exists cluster]|].
    intros [[]|?]; [|exact I]. apply elem_of_app; right; by left. }
  intros h1 _ Hs1 Happ.
  eapply (safely_try _ _ _ _ (λ h' r, cev (GetSecret (broker_user_name name)) (Ok r) ∈ h')); [logged_call|].
  intros h2 [client|] Hs2 Hcl; [|by apply not_yet_ok].
  eapply (safely_try _ _ _ _ (λ h' r, cev (GetSecret (cluster_ca_cert_name cluster)) (Ok r) ∈ h')); [logged_call|].
  intros h3 [ca|] Hs3 Hca; [|by apply not_yet_ok].
  destruct (secret_has_keys client _) eqn:Hck, (secret_has_keys ca _) eqn:Hak; cbn [negb orb].
  2-4: by apply not_yet_ok.
  apply safely_ret. intros i [= <-]. assert (h ⊆ h3) as Hs by (etrans; [exact Hs1|by etrans]).
  exists db, url, parent, user, client, ca. cbn. split_and!; auto.
Qed.

Lemma inputs_resolved h : may_run →
  ok h (resolve_inputs sha256_hex ts obj) (on_ok (λ h' r, ∀ i, r = Some i → inputs_ok h' i)).
Proof.
  intros Hrun. unfold resolve_inputs.
  destruct (label _ _) as [cluster|] eqn:Hlab; [|by apply not_yet_ok].
  eapply (safely_try _ _ _ _ (λ h' r, cev (GetSecret _) (Ok r) ∈ h')); [logged_call|].
  intros h1 [db|] Hs1 Hdb; [|by apply not_yet_ok].
  destruct (and_then (sec_data db) _) as [url|] eqn:Hurl; cbn [option_filter]; [|by apply not_yet_ok].
  destruct (is_empty url) eqn:Hne; cbn [negb]; [by apply not_yet_ok|].
  eapply (safely_try _ _ _ _ (λ h' r, cev (GetKafka cluster) (Ok r) ∈ h')); [logged_call|].
  intros h2 [parent|] Hs2 Hpar; [|by apply not_yet_ok].
  destruct (resolve_broker_endpoint _ _) as [[bootstrap server]|] eqn:Hend; [|by apply not_yet_ok].
  eapply credentials_ok; eauto.
Qed.

Lemma inputs_mono h h' i : h ⊆ h' → inputs_ok h i → inputs_ok h' i.
Proof.
  intros Hs (db & url & parent & user & client & ca & H1 & H2 & H3 & H4 & H5 & H6 & H7 & H8 & H9 & H10 & H11 & H).
  exists db, url, parent, user, client, ca. split_and!; try done; auto; by apply H.
Qed.

Lemma state_ok h reason message failed replicas ready observed :
  reason ≠ "Available" → reason ≠ "Paused" →
  ok h (patch_state ts obj reason message failed replicas ready observed) (on_ok (λ _ _, True)).
Proof.
  intros Ha Hp. unfold patch_state. at_call; [|by intros []]. intros x. split; [done|].
  unfold status_ok, connector_status. cbn.
  assert (str_eqb reason "Available" = false) as -> by (apply not_true_is_false; by rewrite str_eqb_eq).
  assert (str_eqb reason "Paused" = false) as -> by (apply not_true_is_false; by rewrite str_eqb_eq).
  rewrite andb_false_r. by eexists _, _, _.
Qed.

Lemma run_ok h i : may_run → inputs_ok h i → ok h (run_worker cfg ts obj i) (on_ok (λ _ _, True)).
Proof.
  intros Hrun Hi. unfold run_worker.
  destruct (render_deployment _ _ _ _ _ _ _) as [d|e] eqn:Hd; [|by apply safely_ret].
  eapply (safely_try _ _ _ _ (λ h' _, cev (ApplyDeployment name d) (Ok tt) ∈ h')).
  { at_call; [intros x; split_and!; [done..|by exists i]|].
    intros [[]|?]; [|exact I]. apply elem_of_app; right; by left. }
  intros h1 _ Hs1 Happ.
  eapply (safely_try _ _ _ _ (λ h' r, cev (GetDeployment name) (Ok r) ∈ h')); [logged_call|].
  intros h2 live Hs2 Hlive. eapply (safely_try _ _ _ _ (λ _ _, True)); [|by intros; apply safely_ret].
  destruct (Z.leb_spec 1 (ready_of live)) as [Hr|_]; [|by apply state_ok].
  unfold patch_state. at_call; [|by intros []]. intros x. split; [done|].
  eexists _, _, _. split; [done|]. split_and!; try done.
  - intros _. split_and!; try done. exists d, live. split_and!; auto.
  - cbn. rewrite andb_false_r. done.
Qed.

Lemma pause_ok h : paused (cn_spec obj) = true → ok h (pause cfg ts obj) (on_ok (λ _ _, True)).
Proof.
  intros Hp. unfold pause.
  eapply (safely_try _ _ _ _ (λ h' r, cev (GetDeployment name) (Ok r) ∈ h')); [logged_call|].
  intros h1 live Hs1 Hlive. eapply (safely_try _ _ _ _ (λ _ _, True)).
  { destruct live as [d|]; cbn [is_some_and]; [|by apply safely_ret].
    destruct (owned_by_connector obj d) eqn:Ho; [|by apply safely_ret].
    destruct (negb _); cbn [andb]; [|by apply safely_ret]. at_call; [|by intros []].
    intros x. split_and!; [done..|by exists d]. }
  intros h2 _ Hs2 _. eapply (safely_try _ _ _ _ (λ _ _, True)); [|by intros; apply safely_ret].
  unfold patch_state. at_call; [|by intros []]. intros x. split; [done|].
  by eexists _, _, _.
Qed.

Lemma connector_inner_ok h : ok h (reconcile_inner url_scheme sha256_hex cfg ts obj) (on_ok (λ _ _, True)).
Proof.
  unfold reconcile_inner. destruct (validate_spec _ _) as [[]|e] eqn:Hval.
  2: { eapply (safely_try _ _ _ _ (λ _ _, True)); [by apply state_ok|by intros; apply safely_ret]. }
  destruct (paused (cn_spec obj)) eqn:Hp; [by apply pause_ok|].
  eapply safely_try; [by apply inputs_resolved|]. intros h1 [i|] Hs1 Hi; [|by apply safely_ret].
  by apply run_ok; [|apply Hi].
Qed.

#[local] Notation pass := (reconcile_inner (ByteSize := ByteSize) (Ratio := Ratio) (F64 := F64)
  url_scheme sha256_hex cfg ts obj).

Lemma connector_steps : all_runs pass (λ tr _, justified step_ok tr).
Proof. eapply always_mono; [|apply connector_inner_ok, justified_nil]. by intros h r [? _]. Qed.

(** ** The worker *)

(** What is rendered of a running connector: one worker at a time, owned by the
    connector, and restarted when a credential changes. *)
Lemma rendered_worker cluster image bootstrap server rf hash d :
  paused (cn_spec obj) = false → render_deployment obj cluster image bootstrap server rf hash = Ok d →
  ∃ spec uid, dep_spec d = Some spec ∧ dep_replicas spec = Some 1 ∧ dep_strategy spec = Some "Recreate" ∧
    om_uid (cn_meta obj) = Some uid ∧ om_name (dep_meta d) = Some name ∧
    owned_by_connector obj d = true ∧
    and_then (tpl_meta (dep_template spec)) (λ m, annotation m "krabka.io/config-hash") = Some hash ∧
    ∃ pod, tpl_spec (dep_template spec) = Some pod ∧ pod_wf [] pod ∧
      and_then (tpl_meta (dep_template spec)) om_labels = Some (dep_selector spec).
Proof.
  intros Hp. unfold render_deployment, owner, owner_ref. rewrite Hp.
  destruct (om_uid (cn_meta obj)) as [uid|] eqn:Hu; [|done]. cbn. intros [= <-].
  eexists _, uid. split; [done|]. split_and!; try done.
  - unfold owned_by_connector. cbn. rewrite bool_decide_eq_true_2 by done. done.
  - eexists. split; [done|]. split; [|done]. split.
    + by apply (bool_decide_unpack _); vm_compute.
    + intros c m Hc. apply list_elem_of_singleton in Hc as ->. cbn.
      intros Hm. log_mem Hm; subst m; in_log.
    + intros c Hc. apply list_elem_of_singleton in Hc as ->. by apply (bool_decide_unpack _); vm_compute.
    + intros c Hc. apply list_elem_of_singleton in Hc as ->. unfold worker_container, worker_env.
      cbn [c_env default map app env_name env_val env_ref].
      destruct (cn_runtime (cn_spec obj)) as [[[?|] [?|] [?|]]|];
        cbn [runtime_env from_option app map env_name env_val max_batch commit_interval_ms poll_backoff_ms];
        by apply (bool_decide_unpack _); vm_compute.
Qed.

(** C34. A pass runs the worker of a connector only when the spec is valid and not paused:
    the Deployment it applies has one replica, replaced and never doubled, is owned by
    the connector, and is rendered from what the pass read -- the database URL, the
    endpoint of a ready cluster, the client certificate of the connector's own user and
    the cluster CA, whose digest it carries.  A paused pass applies none: it scales the
    Deployment to zero, and only one that the connector owns. *)
Theorem connector_worker_safe :
  all_runs pass (λ tr _,
    (∀ pre n d x post, tr = pre ++ cev (ApplyDeployment n d) x :: post →
       may_run ∧ n = name ∧ worker_of pre d ∧ owned_by_connector obj d = true ∧
       ∃ spec, dep_spec d = Some spec ∧ dep_replicas spec = Some 1 ∧ dep_strategy spec = Some "Recreate") ∧
    ∀ pre n r x post, tr = pre ++ cev (ScaleDeployment n r) x :: post →
      paused (cn_spec obj) = true ∧ n = name ∧ r = 0 ∧
      ∃ d, cev (GetDeployment name) (Ok (Some d)) ∈ pre ∧ owned_by_connector obj d = true).
Proof.
  eapply all_runs_mono; [|exact connector_steps]. intros tr r Hj. split.
  - intros pre n d x post Heq. destruct (Hj _ _ _ Heq) as (Hrun & -> & i & Hi & Hd).
    split_and!; [done..|by exists i| |];
      destruct (rendered_worker _ _ _ _ _ _ _ (proj2 Hrun) Hd) as (spec & uid & ? & ? & ? & _ & _ & ? & _); [done|].
    by exists spec.
  - intros pre n r' x post Heq. exact (Hj _ _ _ Heq).
Qed.

(** Every status of a pass says what the pass knows: [Ready] is [True] only for the
    generation whose Deployment it applied and then saw with a ready worker, [Paused]
    only for a paused spec, and a [Failed] connector is neither. *)
Theorem connector_status_truthful :
  all_runs pass (λ tr _, ∀ pre n s x post,
    tr = pre ++ cev (PatchConnectorStatus n s) x :: post → n = name ∧ status_ok pre s).
Proof.
  eapply all_runs_mono; [|exact connector_steps]. intros tr r Hj pre n s x post Heq. exact (Hj _ _ _ Heq).
Qed.

(** ** A pass that gets its answers *)
Section available.
Context (answer : ∀ c, cresp c).
Context (cluster url : string) (db client ca : secret) (parent : Kafka) (live : Deployment).

Record served : Prop := {
  sv_valid : may_run;
  sv_cluster : label (cn_meta obj) "krabka.io/cluster" = Some cluster;
  sv_admitted : is_Some (om_uid (cn_meta obj));
  sv_db : answer (GetSecret (csr_name (database_url (cn_spec obj)))) = Ok (Some db);
  sv_url : and_then (sec_data db) (λ d, d !! csr_key (database_url (cn_spec obj))) = Some url;
  sv_url_set : is_empty url = false;
  sv_parent : answer (GetKafka cluster) = Ok (Some parent);
  sv_endpoint : is_Some (resolve_broker_endpoint parent namespace);
  sv_client : answer (GetSecret (broker_user_name name)) = Ok (Some client);
  sv_client_keys : secret_has_keys client ["user.crt"; "user.key"] = true;
  sv_ca : answer (GetSecret (cluster_ca_cert_name cluster)) = Ok (Some ca);
  sv_ca_keys : secret_has_keys ca ["ca.crt"] = true;
  sv_live : answer (GetDeployment name) = Ok (Some live);
  sv_ready : 1 ≤ default 0 (dep_status_ready live);
  sv_user_applied u : answer (ApplyUser (broker_user_name name) u) = Ok tt;
  sv_applied d : answer (ApplyDeployment name d) = Ok tt;
  sv_patched s : answer (PatchConnectorStatus name s) = Ok tt;
}.

Definition reported (s : KafkaConnectorStatus) : Prop :=
  ∃ c rest, cns_conditions s = c :: rest ∧ type_ c = "Ready" ∧ status c = "True" ∧
    cns_observed_generation s = om_generation (cn_meta obj).

Ltac run_call H :=
  unfold kube; cbn [exec mbind prog_bind perform]; rewrite H; cbn [exec mbind prog_bind map_err].

(** When the API serves the connector's inputs and a worker is ready, a pass applies
    the Deployment, reports the connector [Ready] for its generation as its last step and
    checks again after the drift interval. *)
Theorem connector_becomes_available : served →
  let '(_, tr, r) := exec (λ (_ : unit) c, (tt, answer c)) pass tt in
  r = Ok (Requeue (controller_drift_requeue cfg)) ∧
  ∃ pre s d, tr = pre ++ [cev (PatchConnectorStatus name s) (Ok tt)] ∧ reported s ∧
    cev (ApplyDeployment name d) (Ok tt) ∈ pre.
Proof.
  intros [[Hval Hp] Hlab [uid Hu] Hdb Hurl Hne Hpar [[bootstrap server] Hend] Hcl Hclk Hca Hcak Hlive Hr Hau Had Hps].
  unfold name, namespace in *. unfold reconcile_inner. rewrite Hval, Hp. unfold resolve_inputs. rewrite Hlab.
  run_call Hdb. rewrite Hurl. cbn [option_filter]. rewrite Hne. cbn [negb]. run_call Hpar.
  rewrite Hend. unfold resolve_credentials, child_kafka_user, owner, owner_ref. rewrite Hu.
  cbn [ok_or]. run_call Hau. run_call Hcl. run_call Hca. rewrite Hclk, Hcak. cbn [negb orb].
  unfold run_worker, render_deployment, owner, owner_ref. rewrite Hu. cbn [ok_or].
  run_call Had. run_call Hlive. unfold ready_of. cbn [and_then]. rewrite (proj2 (Z.leb_le 1 _) Hr).
  unfold patch_state. run_call Hps. split; [done|].
  eexists [_; _; _; _; _; _; _], _, _. split; [reflexivity|]. split; [by eexists _, _|in_log].
Qed.
End available.
End safety.

(** ** The rights of the worker

    The entries that the user controller makes of the rules, and what a broker lets
    them do: a literal entry is for one name, or for all with the name [*], a prefixed
    one for the names it begins; an entry is for one host, or for all with [*]; an
    operation is granted when an entry allows it and none denies it.  (That a broker
    infers Describe from Read or Write adds no resource to these.) *)
Definition covers (e : AclEntry) (resource : string) : bool :=
  match ae_pattern_type e with
  | PtLiteral => str_eqb (ae_resource_name e) "*" || str_eqb (ae_resource_name e) resource
  | PtPrefixed => starts_with (ae_resource_name e) resource
  | PtOther _ => false
  end.

Definition applies (e : AclEntry) (t : ResourceType) (op : AclOperation) (host resource : string) : Prop :=
  ae_resource_type e = t ∧ (ae_operation e = op ∨ ae_operation e = AoAll) ∧
  (ae_host e = "*" ∨ ae_host e = host) ∧ covers e resource = true.

Definition granted (entries : list AclEntry) (t : ResourceType) (op : AclOperation)
    (host resource : string) : Prop :=
  (∃ e, e ∈ entries ∧ ae_permission_type e = PermAllow ∧ applies e t op host resource) ∧
  ∀ e, e ∈ entries → ae_permission_type e = PermDeny → ¬ applies e t op host resource.

Definition dots (n : nat) : string := Nat.iter n (String ".") "".

Lemma trim_end_dots s : ∃ n, s = trim_end_matches "." s +:+ dots n.
Proof.
  unfold trim_end_matches. generalize (String.length s) as fuel. intros fuel. revert s.
  induction fuel as [|fuel IH]; intros s; cbn [strip_while]; [exists 0%nat; by rewrite str_app_nil_r|].
  destruct (strip_suffix (one ".") s) as [r|] eqn:E; [|exists 0%nat; by rewrite str_app_nil_r].
  apply strip_suffix_Some in E. destruct (IH r) as [n Hn]. exists (n + 1)%nat.
  rewrite E, Hn at 1. rewrite <- str_app_assoc. f_equal. clear. induction n as [|n IH]; [done|].
  change (String "." (dots n) +:+ one "." = String "." (dots (n + 1))). by rewrite str_app_cons, IH.
Qed.

Lemma prefix_covered p rest :
  starts_with (trim_end_matches "." p +:+ ".") (p +:+ "." +:+ rest) = true.
Proof.
  destruct (trim_end_dots p) as [n Hn]. unfold starts_with.
  assert (∃ r, p +:+ "." +:+ rest = (trim_end_matches "." p +:+ ".") +:+ r) as [r Hr].
  { destruct n as [|n].
    - exists rest. rewrite Hn at 1. cbn [dots Nat.iter]. by rewrite str_app_nil_r, str_app_assoc.
    - exists (dots n +:+ "." +:+ rest). rewrite Hn at 1. cbn [dots Nat.iter]. by rewrite <- !str_app_assoc. }
  apply strip_prefix_Some in Hr. by rewrite Hr.
Qed.

Section rights.
Context {Time F64 : Type} `{TimeOps Time}.
Context (millis_i64 : Time → Z) (time_eqb : Time → Time → bool) (is_finite : Time → bool)
        (human : Time → string).
Context (c : KafkaConnector).
#[local] Notation prefix := (default "db" (topic_prefix (cn_spec c))).

(** What the user controller makes of the rules. *)
Definition rights (user : UserAcl.KafkaUser Time F64) : list AclEntry :=
  expand_spec_acls (authorization (u_spec user))
    (principal_for (name_any (u_meta user)) (authentication (u_spec user))).

Lemma broker_user_not_reserved n cluster : validate_reserved_identity (broker_user_name n) cluster = Ok tt.
Proof.
  unfold validate_reserved_identity, broker_user_name.
  assert (∀ s, last_char s ≠ Some "r"%char → str_eqb (n +:+ "-broker") s = false) as Hne.
  { intros s Hs. apply not_true_is_false. rewrite str_eqb_eq. intros <-. by rewrite last_char_app in Hs. }
  assert (str_eqb (n +:+ "-broker") "krabka-operator" = false) as ->.
  { apply not_true_is_false. rewrite str_eqb_eq. intros Heq. symmetry in Heq.
    assert (ends_with "-broker" "krabka-operator" = true) as He by (apply ends_with_iff; eauto).
    by vm_compute in He. }
  rewrite (Hne OPERATOR_IDENTITY) by done.
  rewrite (Hne (cluster +:+ "-operator-admin")) by by rewrite last_char_app.
  rewrite (Hne (operator_secret_name cluster)) by (unfold operator_secret_name; by rewrite last_char_app).
  assert (ends_with "-operator-identity" (n +:+ "-broker") = false) as ->; [|done].
  apply not_true_is_false. rewrite ends_with_iff. intros [r Hr].
  apply (f_equal last_char) in Hr. by rewrite !last_char_app in Hr.
Qed.

(** The rights a worker needs, by the type of the resource. *)
Definition needed (t : ResourceType) (op : AclOperation) (resource : string) : Prop :=
  match t with
  | RtTopic =>
      starts_with (acl_prefix (cn_spec c) +:+ ".") resource = true ∧ op ∈ [AoWrite; AoDescribe] ∨
      resource = CHECKPOINT_TOPIC ∧ op ∈ [AoRead; AoWrite; AoDescribe]
  | RtGroup => resource = CHECKPOINT_READER_GROUP ∧ op = AoRead
  | RtCluster => resource = "kafka-cluster" ∧ op ∈ [AoCreate; AoIdempotentWrite]
  | RtTransactionalId | RtOther _ => False
  end.

(** What the rules expand to: each entry with its type, its name and its operation. *)
Lemma rights_of cluster user :
  child_kafka_user c cluster = Ok user →
  let principal := tls_principal (name_any (cn_meta c) +:+ "-broker") in
  rights user = concat (map (λ rule, map (expand_rule principal rule) (operations rule)) (connector_acls (cn_spec c))).
Proof.
  unfold child_kafka_user, owner, owner_ref. destruct (om_uid (cn_meta c)) as [uid|]; [|done].
  cbn [ok_or]. by intros [= <-].
Qed.

Lemma granted_needed cluster user t op host resource :
  child_kafka_user c cluster = Ok user →
  granted (rights user) t op host resource ↔ needed t op resource.
Proof.
  intros Hu. rewrite (rights_of _ _ Hu). set (principal := tls_principal _). unfold granted. split.
  - intros [(e & He & _ & Ht & Ho & _ & Hc) _].
    log_mem He; subst e; cbn in Ht, Ho, Hc; subst t; destruct Ho as [<-|?]; try discriminate; cbn [needed].
    1-2: left; split; [exact Hc|set_solver].
    1-3: right; apply str_eqb_eq in Hc; split; [done|set_solver].
    all: apply str_eqb_eq in Hc; split; [done|set_solver].
  - intros Hn. split.
    2:{ intros e He Hp. log_mem He; subst e; discriminate Hp. }
    assert (∀ rule o, rule ∈ connector_acls (cn_spec c) → o ∈ operations rule →
      permission rule = Allow → rule_host rule = "*" →
      resource_kind_to_admin (kind (UserAcl.resource rule)) = t → op_to_admin o = op →
      covers (expand_rule principal rule o) resource = true →
      ∃ e, e ∈ concat (map (λ rule, map (expand_rule principal rule) (operations rule)) (connector_acls (cn_spec c))) ∧
        ae_permission_type e = PermAllow ∧ applies e t op host resource) as Hex.
    { intros rule o Hr Ho Hp Hh Ht Hop Hc. exists (expand_rule principal rule o). split.
      - apply list_elem_of_In, in_concat. exists (map (expand_rule principal rule) (operations rule)).
        split; apply list_elem_of_In; [|by apply list_elem_of_fmap_2].
        exact (list_elem_of_fmap_2 (λ rule, map (expand_rule principal rule) (operations rule)) _ rule Hr).
      - split; [cbn; by rewrite Hp|]. by split_and!; [|left|left|]. }
    pose (r1 := acl Topic (acl_prefix (cn_spec c) +:+ ".") Prefixed [OpWrite; OpDescribe]).
    pose (r2 := acl Topic CHECKPOINT_TOPIC Literal [OpRead; OpWrite; OpDescribe]).
    pose (r3 := acl Group CHECKPOINT_READER_GROUP Literal [OpRead]).
    pose (r4 := acl Cluster "kafka-cluster" Literal [OpCreate; OpIdempotentWrite]).
    destruct t; cbn [needed] in Hn; [destruct Hn as [[Hc Ho]|[-> Ho]]|destruct Hn as [-> Ho]|destruct Hn as [-> Ho]|done..].
    + log_mem Ho; [apply (Hex r1 OpWrite)|apply (Hex r1 OpDescribe)]; try done; unfold connector_acls; in_log.
    + log_mem Ho; [apply (Hex r2 OpRead)|apply (Hex r2 OpWrite)|apply (Hex r2 OpDescribe)]; try done; unfold connector_acls; in_log.
    + apply (Hex r3 OpRead); try done; unfold connector_acls; in_log.
    + log_mem Ho; [apply (Hex r4 OpCreate)|apply (Hex r4 OpIdempotentWrite)]; try done; unfold connector_acls; in_log.
Qed.

(** C35. The user that a pass makes for the worker has exactly the rights it needs.
    The user controller accepts it: its rules are valid and its name is never reserved
    for the operator.  The entries it gets are for the worker's own principal, and what
    they grant, from any host, is exactly: to write and describe the topics that begin
    with the connector's prefix (without its trailing dots) and a dot, among them every
    topic of the worker; to read, write and describe the checkpoint topic; to read the
    group of the checkpoint reader; and, on the cluster, to create topics and to write
    idempotently.  No right on a transactional id or on another resource is granted. *)
Theorem connector_least_privilege cluster user :
  child_kafka_user c cluster = Ok user →
  UserAcl.validate_spec millis_i64 time_eqb is_finite human (u_spec user) = Ok tt ∧
  validate_reserved_identity (name_any (u_meta user)) cluster = Ok tt ∧
  (∀ e, e ∈ rights user → ae_principal e = tls_principal (name_any (cn_meta c) +:+ "-broker")) ∧
  (∀ t op host resource, granted (rights user) t op host resource ↔ needed t op resource) ∧
  (∀ op host rest, op ∈ [AoWrite; AoDescribe] →
     granted (rights user) RtTopic op host (prefix +:+ "." +:+ rest)).
Proof.
  intros Hu. assert (∀ t op host resource, granted (rights user) t op host resource ↔ needed t op resource) as Hg
    by (intros; by eapply granted_needed). pose proof (rights_of _ _ Hu) as Hr. cbn zeta in Hr.
  split_and!; [| | |exact Hg|].
  - clear Hg Hr. revert Hu. unfold child_kafka_user, owner, owner_ref. destruct (om_uid (cn_meta c)); [|done].
    cbn [ok_or]. intros [= <-]. unfold UserAcl.validate_spec, connector_acls. cbn -[is_empty].
    destruct (acl_prefix (cn_spec c)); done.
  - clear Hg Hr. revert Hu. unfold child_kafka_user, owner, owner_ref. destruct (om_uid (cn_meta c)); [|done].
    cbn [ok_or]. intros [= <-]. apply broker_user_not_reserved.
  - rewrite Hr. intros e He. log_mem He; by subst e.
  - intros op host rest Hop. apply Hg. left. split; [apply prefix_covered|done].
Qed.
End rights.

(** ** The name that the worker checks

    The server name of the worker's connections is in the certificate of every broker. *)
Lemma server_name_certified {Time ByteSize Ratio F64 IpAddr} (parent : Kafka Time ByteSize Ratio F64)
    namespace bootstrap server (localhost : IpAddr) node extra :
  resolve_broker_endpoint parent namespace = Some (bootstrap, server) →
  Dns server ∈ sans (cert_request localhost (name_any (k_meta parent)) namespace node extra).
Proof.
  unfold resolve_broker_endpoint. destruct (k_status parent) as [st|]; [|done]. cbn [and_then].
  destruct (negb _); [done|]. destruct (find_first tls_listener _) as [l|]; [|done]. cbn [and_then].
  destruct (find_first _ _) as [s|]; [|done]. cbn [and_then].
  destruct (is_empty _); [done|]. intros [= <- <-]. unfold cert_request. cbn [sans]. in_log.
Qed.

(** ** Another cluster

    The selector of the Deployment names the cluster.  The API server accepts no other
    selector for a Deployment that exists, so the worker of a connector that moves to
    another cluster cannot be applied over the old one. *)
Lemma relinked_selector_differs c cluster cluster' image b s rf hash d d' spec spec' :
  cluster ≠ cluster' →
  render_deployment c cluster image b s rf hash = Ok d → render_deployment c cluster' image b s rf hash = Ok d' →
  dep_spec d = Some spec → dep_spec d' = Some spec' → dep_selector spec ≠ dep_selector spec'.
Proof.
  intros Hne. unfold render_deployment. destruct (owner c); [|done]. intros [= <-] [= <-] [= <-] [= <-].
  cbn. intros Heq. apply (f_equal (lookup "krabka.io/cluster")) in Heq. unfold worker_labels in Heq.
  rewrite !lookup_insert_eq in Heq. congruence.
Qed.

(** ** An example *)
Module Orders.
Definition spec : KafkaConnectorSpec :=
  {| paused := false; cn_image := None; cn_resources := None;
     database_url := {| csr_name := "database"; csr_key := "url" |};
     schema_registry_url := "http://registry:8081"; slot := "orders"; publication := "orders";
     cn_schema := None; tables := ["orders"; "lines"]; topic_prefix := Some "shop."; cn_runtime := None |}.
Definition connector : KafkaConnector :=
  {| cn_meta := ObjectMeta (Some "orders") (Some "kafka") (Some "u7")
                  (Some {["krabka.io/cluster" := "prod"]}) None None (Some 3) false [];
     cn_spec := spec |}.
Definition tls : Listener Z :=
  {| l_name := "tls"; l_port := 9094; l_type := Internal; l_tls := true;
     l_authentication := Some AuthTls; l_configuration := None; l_network_policy_peers := None |}.
Definition parent : Kafka Z Z Z Z :=
  {| k_meta := ObjectMeta (Some "prod") (Some "kafka") (Some "u1") None None None None false [];
     k_spec := {| k_version := "4.0.0"; k_metadata_version := None; k_config := None; k_listeners := [tls];
                  k_inter_broker_listener_name := None; k_metrics_config := None;
                  k_network_policy := false; k_cluster_ca := None; k_clients_ca := None;
                  k_logging := None; k_delegation_token := None; k_authorization := None;
                  k_tiered_storage := None; k_inter_broker_kerberos := None;
                  k_krb5_conf_secret_ref := None; k_tracing := None; k_broker_tuning := None |};
     k_status := Some {| kst_conditions := [condition "t" "Ready" "True" "Available" ""];
       kst_replicas := Some 3; kst_ready_replicas := Some 3;
       kst_listeners := [{| ls_name := "tls"; ls_type := Internal; bootstrap_servers := "prod:9094";
                            ls_addresses := [] |}];
       kst_cluster_ca := None; kst_clients_ca := None; kst_kafka_version := None;
       kst_target_metadata_version := None; kst_metadata_version := None |} |}.
Definition secrets (n : string) : secret :=
  Secret empty_meta (Some {["url" := "postgres://db"; "user.crt" := "CRT"; "user.key" := "KEY"; "ca.crt" := "CA"]}).
Definition live : Deployment := {| dep_meta := empty_meta; dep_spec := None; dep_status_ready := Some 1 |}.
Definition answer (c : connector_call (Time := Z) (F64 := Z))
  : connector_resp (Time := Z) (ByteSize := Z) (Ratio := Z) (F64 := Z) c :=
  match c with
  | GetDeployment _ => Ok (Some live)
  | GetSecret n => Ok (Some (secrets n))
  | GetKafka _ => Ok (Some parent)
  | ScaleDeployment _ _ | ApplyDeployment _ _ | ApplyUser _ _ | PatchConnectorStatus _ _ => Ok tt
  end.
Definition scheme (url : string) : result string string :=
  if starts_with "http://" url then Ok "http" else Err "relative URL without a base".
Definition config : connector_config (Time := Z) :=
  {| controller_invalid_requeue := 60; controller_drift_requeue := 300;
     controller_dependency_requeue := 15; default_connector_image := None |}.

Lemma orders_served :
  served scheme connector answer "prod" "postgres://db" (secrets "database") (secrets "orders-broker")
    (secrets "prod-cluster-ca-cert") parent live.
Proof. by split; first [by eexists | split | cbn; lia | idtac]. Qed.
End Orders.

Lemma connector_becomes_available_witness :
  (exec (λ (_ : unit) c, (tt, Orders.answer c))
     (reconcile_inner Orders.scheme id Orders.config "t" Orders.connector) tt).2 = Ok (Requeue 300).
Proof.
  pose proof (connector_becomes_available Orders.scheme id Orders.config "t" Orders.connector Orders.answer
    "prod" "postgres://db" (Orders.secrets "database") (Orders.secrets "orders-broker")
    (Orders.secrets "prod-cluster-ca-cert") Orders.parent Orders.live Orders.orders_served) as Hrun.
  destruct (exec _ _ _) as [[u tr] r]. apply Hrun.
Defined.

Lemma connector_least_privilege_witness :
  ∃ user, child_kafka_user Orders.connector "prod" = Ok user ∧
    granted (rights (Time := Z) (F64 := Z) user) RtTopic AoWrite "10.0.0.7" "shop..public.orders".
Proof.
  eexists. split; [reflexivity|].
  apply (connector_least_privilege (λ t, t) Z.eqb (λ _, true) (λ _, "") Orders.connector "prod"); [reflexivity|].
  left.
Defined.
