(* ===== verification/SchemaRegistry.v ===== *)
(** * SchemaRegistry reconciler (src/controller/schema_registry.rs, src/crd/schema_registry.rs)

    The checks of the spec, the bootstrap address, the serving certificate, the two
    Services, the StatefulSet with its arguments, Secrets and probes, the removal of the
    Deployment of earlier builds, and the status.  The limits of krabka-client-core, the
    texts of refined_type's errors and the text of quantities are parameters. *)

From S2P Require Import Prelude RustStd Effects Kube Workload CaBundle ClusterCa Toml Tuning.
From S2P Require Import Listeners ListenerCheck NodePool ListenerObjects KafkaSpec.
Local Open Scope Z_scope.

Definition APP_NAME : string := "krabka-schema-registry".
Definition SR_PORT : Z := 8081.
Definition DEFAULT_STARTUP_PERIOD_SECONDS : Z := 5.
Definition DEFAULT_STARTUP_FAILURE_THRESHOLD : Z := 60.
Definition DEFAULT_IMAGE : string := "ghcr.io/krabka-io/krabka-schema-registry:0.4.3".

(** ** The resource *)
Record CertManagerIssuerRef : Type := {
  issuer_name : string;
  issuer_kind : option string;
  issuer_group : option string;
}.
Inductive TlsClientAuth : Type := ClientAuthDisabled | ClientAuthOptional | ClientAuthRequired.
Record SchemaRegistryTls : Type := {
  tls_secret_name : option string;
  tls_issuer_ref : option CertManagerIssuerRef;
  tls_client_auth : option TlsClientAuth;
  tls_client_ca_secret_name : option string;
}.
Record BasicAuthn : Type := { users_secret_name : string; users_secret_key : option string }.
Inductive BearerMode : Type := Unsecured | Jwks.
Record KafkaClientSasl : Type := { sasl_mechanism : string; sasl_secret_ref : string }.
Record KafkaClientTls : Type := { ca_secret_name : option string; server_name_override : option string }.
Record SchemaRegistryKafkaClient : Type := {
  security_protocol : option string;
  kc_sasl : option KafkaClientSasl;
  kc_tls : option KafkaClientTls;
}.
Record SchemaRegistryHealthChecks : Type := {
  startup_period_seconds : option Z;
  startup_failure_threshold : option Z;
  readiness_initial_delay_seconds : option Z;
  readiness_period_seconds : option Z;
  liveness_initial_delay_seconds : option Z;
  liveness_period_seconds : option Z;
}.
Record SchemaRegistryStatus : Type := {
  srs_conditions : list KafkaCondition;
  srs_observed_generation : option Z;
  srs_replicas : option Z;
  srs_ready_replicas : option Z;
  srs_url : option string;
}.

(** A cert-manager [Certificate]. *)
Record Certificate : Type := {
  crt_meta : object_meta;
  crt_secret_name : string;
  crt_issuer : string * string * string;   (* name, kind, group *)
  crt_dns_names : list string;
}.

Section registry.
Context {Time ByteSize Ratio F64 : Type} `{TimeOps Time} `{SizeOps ByteSize}.
Context (millis_i64 : Time → Z) (time_eqb : Time → Time → bool) (time_finite : Time → bool).
Context (human_time : Time → string) (human_size : ByteSize → string).
(** [GreaterI32<0>], [GreaterEqualI32<0>] and [NonEmptyString] of refined_type. *)
Context (greater_error greater_equal_error : Z → string) (empty_error : string).
(** [ConnectionDispatchQueueCapacity::new] and [ClientFrameMax::try_from]. *)
Context (queue_capacity : Z → result unit string) (frame_max : ByteSize → result unit string).
#[local] Notation Kafka := (Kafka Time ByteSize Ratio F64).

Definition DEFAULT_ELECTION_SESSION_TIMEOUT : Time := from_secs 10.
Definition DEFAULT_ELECTION_REBALANCE_TIMEOUT : Time := from_secs 30.
Definition DEFAULT_ELECTION_HEARTBEAT_INTERVAL : Time := from_secs 3.

Record BearerAuthn : Type := {
  mode : BearerMode;
  principal_claim : option string;
  jwks_endpoint_uri : option string;
  jwks_valid_issuer : option string;
  jwks_expected_audience : option string;
  jwks_tls_secret_name : option string;
  jwks_principal_claim : option string;
  jwks_refresh : option Time;
}.
Record SchemaRegistryAuthn : Type := {
  require_auth : bool;
  realm : option string;
  basic : option BasicAuthn;
  bearer : option BearerAuthn;
}.
Record SchemaRegistryAuthz : Type := {
  enabled : bool;
  super_users : list string;
  acl_refresh : option Time;
}.
Record SchemaRegistryRuntime : Type := {
  sr_client_dispatch_queue_capacity : option Z;
  sr_client_frame_max : option ByteSize;
  election_session_timeout : option Time;
  election_rebalance_timeout : option Time;
  election_heartbeat_interval : option Time;
  election_reconnect_backoff : option Time;
  store_reader_retry_backoff : option Time;
  store_reader_fetch_max_wait : option Time;
  store_reader_fetch_max : option ByteSize;
  schemas_topic_create_timeout : option Time;
  forward_max_body : option ByteSize;
  default_compatibility_level : option string;
  default_mode : option string;
}.
Record SchemaRegistrySpec : Type := {
  sr_replicas : Z;
  sr_image : option string;
  sr_bootstrap_servers : option string;
  schemas_topic : option string;
  schemas_topic_replication_factor : option Z;
  group_id : option string;
  sr_runtime : option SchemaRegistryRuntime;
  client_id : option string;
  health_checks : option SchemaRegistryHealthChecks;
  kafka_client : option SchemaRegistryKafkaClient;
  sr_tls : option SchemaRegistryTls;
  sr_authentication : option SchemaRegistryAuthn;
  sr_authorization : option SchemaRegistryAuthz;
  sr_resources : option ResourceRequirements;
}.
Record SchemaRegistry : Type := {
  sr_meta : object_meta;
  sr_spec : SchemaRegistrySpec;
  sr_status : option SchemaRegistryStatus;
}.

(** ** The checks of the spec *)
#[local] Notation check := (result unit string).

Definition validate_protocol_millis_i32 (value : option Time) (path : string) : check :=
  let e := Err (path +:+ ": must be a positive whole number of milliseconds within 1..=i32::MAX") in
  on_some value (λ v,
    let millis := millis_i64 v in
    if negb (time_finite v) || negb (time_eqb (from_millis millis) v) then e
    else if in_i32 millis then (if 0 <? millis then Ok tt else e) else e).

Definition validate_protocol_bytes_i32 (value : option ByteSize) (path : string) : check :=
  let e := Err (path +:+ ": must be a positive whole number of bytes within 1..=i32::MAX") in
  on_some value (λ v,
    let bytes := bytes_u64 v in
    if negb (size_finite v) || negb (size_eqb (from_bytes bytes) v) then e
    else if in_i32 bytes then (if 0 <? bytes then Ok tt else e) else e).

Definition greater_0 (value : option Z) (path : string) : check :=
  on_some value (λ v, if 0 <? v then Ok tt else Err (path +:+ ": " +:+ greater_error v)).
Definition greater_equal_0 (value : option Z) (path : string) : check :=
  on_some value (λ v, if 0 <=? v then Ok tt else Err (path +:+ ": " +:+ greater_equal_error v)).

Definition bad_time (v : Time) : bool := negb (time_finite v) || time_leb v (from_secs 0).
Definition bad_size (v : ByteSize) : bool := negb (size_finite v) || size_leb v (from_bytes 0).

Definition positive_time (value : option Time) (path : string) : check :=
  if is_some_and bad_time value then Err (path +:+ ": must be positive") else Ok tt.

Fixpoint positive_times (l : list (option Time * string)) : check :=
  match l with
  | [] => Ok tt
  | (v, path) :: l => if? positive_time v path in positive_times l
  end.

Definition session_timeout (r : SchemaRegistryRuntime) : Time :=
  default DEFAULT_ELECTION_SESSION_TIMEOUT (election_session_timeout r).
Definition rebalance_timeout (r : SchemaRegistryRuntime) : Time :=
  default DEFAULT_ELECTION_REBALANCE_TIMEOUT (election_rebalance_timeout r).
Definition heartbeat_interval (r : SchemaRegistryRuntime) : Time :=
  default DEFAULT_ELECTION_HEARTBEAT_INTERVAL (election_heartbeat_interval r).

Definition validate_election (r : SchemaRegistryRuntime) : check :=
  if time_leb (session_timeout r) (heartbeat_interval r) then
    Err "spec.runtime.electionHeartbeatInterval must be below electionSessionTimeout"
  else if time_ltb (rebalance_timeout r) (session_timeout r) then
    Err "spec.runtime.electionSessionTimeout must not exceed electionRebalanceTimeout"
  else Ok tt.

Definition validate_runtime (r : SchemaRegistryRuntime) : check :=
  if? on_some (sr_client_dispatch_queue_capacity r)
        (λ v, map_err (λ e, "spec.runtime.clientDispatchQueueCapacity: " +:+ e) (queue_capacity v)) in
  if? on_some (sr_client_frame_max r)
        (λ v, map_err (λ e, "spec.runtime.clientFrameMax: " +:+ e) (frame_max v)) in
  if? validate_protocol_millis_i32 (store_reader_fetch_max_wait r) "spec.runtime.storeReaderFetchMaxWait" in
  if? validate_protocol_bytes_i32 (store_reader_fetch_max r) "spec.runtime.storeReaderFetchMax" in
  if? validate_protocol_millis_i32 (schemas_topic_create_timeout r) "spec.runtime.schemasTopicCreateTimeout" in
  if? positive_times
        [(election_session_timeout r, "spec.runtime.electionSessionTimeout");
         (election_rebalance_timeout r, "spec.runtime.electionRebalanceTimeout");
         (election_heartbeat_interval r, "spec.runtime.electionHeartbeatInterval");
         (election_reconnect_backoff r, "spec.runtime.electionReconnectBackoff");
         (store_reader_retry_backoff r, "spec.runtime.storeReaderRetryBackoff")] in
  if? (if is_some_and bad_size (forward_max_body r)
       then Err "spec.runtime.forwardMaxBody: must be positive" else Ok tt) in
  if? validate_election r in
  if negb (one_of ["NONE"; "BACKWARD"; "BACKWARD_TRANSITIVE"; "FORWARD"; "FORWARD_TRANSITIVE"; "FULL";
                   "FULL_TRANSITIVE"] (default_compatibility_level r)) then
    Err "spec.runtime.defaultCompatibilityLevel is invalid"
  else if negb (one_of ["READWRITE"; "READONLY"; "IMPORT"] (default_mode r)) then
    Err "spec.runtime.defaultMode is invalid"
  else Ok tt.

Definition validate_health (h : SchemaRegistryHealthChecks) : check :=
  if? greater_0 (startup_period_seconds h) "spec.healthChecks.startupPeriodSeconds" in
  if? greater_0 (startup_failure_threshold h) "spec.healthChecks.startupFailureThreshold" in
  if? greater_equal_0 (readiness_initial_delay_seconds h) "spec.healthChecks.readinessInitialDelaySeconds" in
  if? greater_0 (readiness_period_seconds h) "spec.healthChecks.readinessPeriodSeconds" in
  if? greater_equal_0 (liveness_initial_delay_seconds h) "spec.healthChecks.livenessInitialDelaySeconds" in
  greater_0 (liveness_period_seconds h) "spec.healthChecks.livenessPeriodSeconds".

Definition validate_config (spec : SchemaRegistrySpec) : check :=
  if? greater_0 (schemas_topic_replication_factor spec) "spec.schemasTopicReplicationFactor" in
  if? on_some (client_id spec) (λ s, if is_empty s then Err ("spec.clientId: " +:+ empty_error) else Ok tt) in
  if? on_some (sr_runtime spec) validate_runtime in
  if? on_some (health_checks spec) validate_health in
  if? positive_time (and_then (and_then (sr_authentication spec) bearer) jwks_refresh)
        "spec.authentication.bearer.jwksRefresh" in
  positive_time (and_then (sr_authorization spec) acl_refresh) "spec.authorization.aclRefresh".

(** ** Names and labels *)
Definition statefulset_name (n : string) : string := n +:+ "-sr".
Definition service_name (n : string) : string := n +:+ "-sr".
Definition headless_name (n : string) : string := n +:+ "-sr-headless".

Definition selector_labels (obj : SchemaRegistry) : gmap string string :=
  <["app.kubernetes.io/component" := "schema-registry"]>
  (<["app.kubernetes.io/instance" := name_any (sr_meta obj)]> {["app.kubernetes.io/name" := APP_NAME]}).

Definition meta_labels (obj : SchemaRegistry) : gmap string string :=
  <["app.kubernetes.io/managed-by" := "krabka-operator"]>
  (<["app.kubernetes.io/version" := "0.1.1"]> (selector_labels obj)).

(** [metadata] of an object of the registry. *)
Definition registry_meta (obj : SchemaRegistry) (name : string) : result object_meta ReconcileError :=
  let? owner := owner_ref "SchemaRegistry" (sr_meta obj) in
  Ok {| om_name := Some name; om_namespace := om_namespace (sr_meta obj); om_uid := None;
        om_labels := Some (meta_labels obj); om_annotations := None; om_finalizers := None;
        om_generation := None; om_deleting := false; om_owners := [owner] |}.

(** ** Services *)
Definition render_headless_service (obj : SchemaRegistry) : result Service ReconcileError :=
  let? meta := registry_meta obj (headless_name (name_any (sr_meta obj))) in
  Ok {| svc_meta := meta;
        svc_spec := Some {| svc_type := None; svc_cluster_ip := Some "None";
          svc_publish_not_ready_addresses := Some true; svc_selector := selector_labels obj;
          svc_ports := Some [tcp_port "rest" SR_PORT None]; svc_load_balancer_ip := None |};
        svc_ingress := None |}.

Definition render_clusterip_service (obj : SchemaRegistry) : result Service ReconcileError :=
  let? meta := registry_meta obj (service_name (name_any (sr_meta obj))) in
  Ok {| svc_meta := meta;
        svc_spec := Some {| svc_type := Some "ClusterIP"; svc_cluster_ip := None;
          svc_publish_not_ready_addresses := None; svc_selector := selector_labels obj;
          svc_ports := Some [tcp_port "rest" SR_PORT None]; svc_load_balancer_ip := None |};
        svc_ingress := None |}.

(** ** Arguments, Secrets and variables of the container

    Each part of the spec adds some of each. *)
Record wiring : Type := {
  w_args : list string;
  w_volumes : list Volume;
  w_mounts : list VolumeMount;
  w_env : list EnvVar;
}.
Definition only_args (a : list string) : wiring :=
  {| w_args := a; w_volumes := []; w_mounts := []; w_env := [] |}.
Definition wire_app (a b : wiring) : wiring :=
  {| w_args := w_args a ++ w_args b; w_volumes := w_volumes a ++ w_volumes b;
     w_mounts := w_mounts a ++ w_mounts b; w_env := w_env a ++ w_env b |}.
Definition wire (l : list wiring) : wiring := foldr wire_app (only_args []) l.

(** A Secret mounted for some arguments. *)
Definition secret_wiring (args : list string) (name secret path : string)
    (items : option (list (string * string))) : wiring :=
  {| w_args := args;
     w_volumes := [{| vol_name := name; vol_source := SecretVolume secret items None |}];
     w_mounts := [{| vm_name := name; vm_path := path; vm_read_only := true |}];
     w_env := [] |}.

Definition opt_wiring {A} (v : option A) (f : A → wiring) : wiring := from_option f (only_args []) v.

Definition runtime_args (r : SchemaRegistryRuntime) : list string :=
  opt_arg "--election-session-timeout" human_time (election_session_timeout r)
  ++ opt_arg "--election-rebalance-timeout" human_time (election_rebalance_timeout r)
  ++ opt_arg "--election-heartbeat-interval" human_time (election_heartbeat_interval r)
  ++ opt_arg "--election-reconnect-backoff" human_time (election_reconnect_backoff r)
  ++ opt_arg "--store-reader-retry-backoff" human_time (store_reader_retry_backoff r)
  ++ opt_arg "--store-reader-fetch-max-wait" human_time (store_reader_fetch_max_wait r)
  ++ opt_arg "--store-reader-fetch-max" human_size (store_reader_fetch_max r)
  ++ opt_arg "--schemas-topic-create-timeout" human_time (schemas_topic_create_timeout r)
  ++ opt_arg "--forward-max-body" human_size (forward_max_body r)
  ++ opt_arg "--default-compatibility-level" id (default_compatibility_level r)
  ++ opt_arg "--default-mode" id (default_mode r)
  ++ opt_arg "--client-dispatch-queue-capacity" display_Z (sr_client_dispatch_queue_capacity r)
  ++ opt_arg "--client-frame-max" (λ v, display_Z (bytes_u64 v) +:+ "B") (sr_client_frame_max r).

Definition base_args (s : SchemaRegistrySpec) (bootstrap : string) : list string :=
  ["--bootstrap-servers=" +:+ bootstrap; "--listen-addr=0.0.0.0:" +:+ display_Z SR_PORT]
  ++ opt_arg "--schemas-topic" id (schemas_topic s)
  ++ opt_arg "--schemas-topic-rf" display_Z (schemas_topic_replication_factor s)
  ++ opt_arg "--group-id" id (group_id s)
  ++ from_option runtime_args [] (sr_runtime s)
  ++ opt_arg "--client-id" id (client_id s).

Definition client_auth_mode (m : option TlsClientAuth) : string :=
  match default ClientAuthDisabled m with
  | ClientAuthDisabled => "disabled"
  | ClientAuthOptional => "optional"
  | ClientAuthRequired => "required"
  end.

Definition tls_wiring (tls_secret : option string) (tls : SchemaRegistryTls) : wiring :=
  wire
    [opt_wiring tls_secret (λ sn, secret_wiring
       ["--tls-cert=/etc/sr/tls/tls.crt"; "--tls-key=/etc/sr/tls/tls.key"] "tls" sn "/etc/sr/tls" None);
     only_args ["--tls-client-auth=" +:+ client_auth_mode (tls_client_auth tls)];
     opt_wiring (tls_client_ca_secret_name tls) (λ ca, secret_wiring
       ["--tls-client-ca=/etc/sr/client-ca/ca.crt"] "client-ca" ca "/etc/sr/client-ca" None)].

Definition bearer_wiring (b : BearerAuthn) : wiring :=
  match mode b with
  | Unsecured =>
      only_args (["--bearer=unsecured"] ++ opt_arg "--bearer-principal-claim" id (principal_claim b))
  | Jwks =>
      wire
        [only_args (["--bearer=jwks"]
           ++ opt_arg "--bearer-jwks-endpoint-uri" id (jwks_endpoint_uri b)
           ++ opt_arg "--bearer-jwks-valid-issuer" id (jwks_valid_issuer b)
           ++ opt_arg "--bearer-jwks-expected-audience" id (jwks_expected_audience b)
           ++ opt_arg "--bearer-jwks-principal-claim" id (or_else (jwks_principal_claim b) (principal_claim b))
           ++ opt_arg "--bearer-jwks-refresh" human_time (jwks_refresh b));
         opt_wiring (jwks_tls_secret_name b) (λ ca, secret_wiring
           ["--bearer-jwks-ca=/etc/sr/jwks-ca/ca.crt"] "jwks-ca" ca "/etc/sr/jwks-ca" None)]
  end.

Definition authn_wiring (a : SchemaRegistryAuthn) : wiring :=
  wire
    [only_args ((if require_auth a then ["--require-auth"] else []) ++ opt_arg "--realm" id (realm a));
     opt_wiring (basic a) (λ b, secret_wiring ["--basic-auth-file=/etc/sr/basic/users"] "basic"
       (users_secret_name b) "/etc/sr/basic" (Some [(default "users" (users_secret_key b), "users")]));
     opt_wiring (bearer a) bearer_wiring].

Definition authz_args (a : SchemaRegistryAuthz) : list string :=
  (if enabled a then ["--authz"] else [])
  ++ map (λ u, "--super-user=" +:+ u) (super_users a)
  ++ opt_arg "--acl-refresh" human_time (acl_refresh a).

Definition sasl_wiring (s : KafkaClientSasl) : wiring :=
  {| w_args := ["--kafka-sasl-mechanism=" +:+ sasl_mechanism s]; w_volumes := []; w_mounts := [];
     w_env := [env_ref "SCHEMA_REGISTRY_KAFKA_SASL_USERNAME" (SecretRef (sasl_secret_ref s) "username");
               env_ref "SCHEMA_REGISTRY_KAFKA_SASL_PASSWORD" (SecretRef (sasl_secret_ref s) "password")] |}.

Definition client_tls_wiring (t : KafkaClientTls) : wiring :=
  wire
    [opt_wiring (ca_secret_name t) (λ ca, secret_wiring ["--kafka-tls-ca=/etc/sr/kafka-tls/ca.crt"]
       "kafka-tls" ca "/etc/sr/kafka-tls" None);
     only_args (opt_arg "--kafka-tls-server-name" id (server_name_override t))].

Definition client_wiring (c : SchemaRegistryKafkaClient) : wiring :=
  wire
    [only_args ["--kafka-security-protocol=" +:+ default "PLAINTEXT" (security_protocol c)];
     opt_wiring (kc_sasl c) sasl_wiring;
     opt_wiring (kc_tls c) client_tls_wiring].

Definition build_args_and_mounts (obj : SchemaRegistry) (bootstrap : string) (tls_secret : option string)
  : wiring :=
  let s := sr_spec obj in
  wire
    [only_args (base_args s bootstrap);
     opt_wiring (sr_tls s) (tls_wiring tls_secret);
     opt_wiring (sr_authentication s) authn_wiring;
     opt_wiring (sr_authorization s) (λ a, only_args (authz_args a));
     opt_wiring (kafka_client s) client_wiring].

(** ** The StatefulSet *)
Definition scheme (tls_secret : option string) : string := if opt_is_some tls_secret then "https" else "http".

Definition advertised_url (obj : SchemaRegistry) (tls_secret : option string) : string :=
  scheme tls_secret +:+ "://$(POD_NAME)." +:+ headless_name (name_any (sr_meta obj)) +:+ "."
  +:+ namespace_or_default (sr_meta obj) +:+ ".svc.cluster.local:" +:+ display_Z SR_PORT.

Definition tcp_probe (initial_delay period failure_threshold : option Z) : Probe :=
  {| pr_handler := TcpSocket SR_PORT; pr_initial_delay := initial_delay; pr_period := period;
     pr_failure_threshold := failure_threshold |}.

Definition registry_container (obj : SchemaRegistry) (image : string) (tls_secret : option string)
    (w : wiring) : Container :=
  let checks {A} (f : SchemaRegistryHealthChecks → option A) d := default d (and_then (health_checks (sr_spec obj)) f) in
  {| c_name := "schema-registry"; c_image := Some image; c_command := None; c_args := Some (w_args w);
     c_env := Some ([env_ref "POD_NAME" (FieldRef "metadata.name");
                     env_val "SCHEMA_REGISTRY_ADVERTISED_URL" (advertised_url obj tls_secret)] ++ w_env w);
     c_ports := Some [{| cp_port := SR_PORT; cp_name := Some "rest"; cp_protocol := Some "TCP" |}];
     c_mounts := Some (w_mounts w);
     c_startup := Some (tcp_probe None (Some (checks startup_period_seconds DEFAULT_STARTUP_PERIOD_SECONDS))
                          (Some (checks startup_failure_threshold DEFAULT_STARTUP_FAILURE_THRESHOLD)));
     c_readiness := Some (tcp_probe (Some (checks readiness_initial_delay_seconds 2))
                            (Some (checks readiness_period_seconds 5)) None);
     c_liveness := Some (tcp_probe (Some (checks liveness_initial_delay_seconds 5))
                           (Some (checks liveness_period_seconds 10)) None);
     c_resources := Some (default {| rr_requests := None; rr_limits := None; rr_claims := None |}
                            (sr_resources (sr_spec obj)));
     c_security := None |}.

Definition registry_pod (main : Container) (vols : list Volume) : PodSpec :=
  {| init_containers := None; containers := [main]; node_name := None; volumes := Some vols;
     security_context := Some {| psc_run_as_non_root := Some true; psc_run_as_user := Some 65532;
                                 psc_fs_group := Some 65532; psc_seccomp := None |};
     termination_grace_period := None; topology_spread := None; affinity := None; tolerations := None;
     node_selector := None |}.

Definition render_statefulset (obj : SchemaRegistry) (bootstrap image : string) (tls_secret : option string)
  : result StatefulSet ReconcileError :=
  let name := name_any (sr_meta obj) in
  let selector := selector_labels obj in
  let w := build_args_and_mounts obj bootstrap tls_secret in
  let? meta := registry_meta obj (statefulset_name name) in
  Ok {| ss_meta := meta;
        ss_spec := Some {|
          ss_service_name := headless_name name; ss_replicas := Some (sr_replicas (sr_spec obj));
          ss_pod_management_policy := Some "Parallel"; ss_update_strategy := Some "RollingUpdate";
          ss_selector := selector;
          ss_template := {| tpl_meta := Some (template_meta selector None);
            tpl_spec := Some (registry_pod (registry_container obj image tls_secret w) (w_volumes w)) |};
          ss_claims := None; ss_retention := None |};
        ss_status := None |}.

(** ** The pass *)
Inductive registry_call : Type :=
  | GetKafka (name : string)
  | ApplyCertificate (name : string) (c : Certificate)
  | GetSecret (name : string)
  | ApplyService (name : string) (s : Service)
  | ApplyStatefulSet (name : string) (s : StatefulSet)
  | GetDeployment (name : string)
  | DeleteDeployment (name : string)
  | GetStatefulSet (name : string)
  | PatchRegistryStatus (name : string) (s : SchemaRegistryStatus).

Definition registry_resp (c : registry_call) : Type :=
  match c with
  | GetKafka _ => result (option Kafka) kube_error
  | GetSecret _ => result (option secret) kube_error
  | GetDeployment _ => result (option Deployment) kube_error
  | GetStatefulSet _ => result (option StatefulSet) kube_error
  | ApplyCertificate _ _ | ApplyService _ _ | ApplyStatefulSet _ _ | DeleteDeployment _
  | PatchRegistryStatus _ _ => result unit kube_error
  end.

Record registry_config : Type := {
  controller_drift_requeue : Time;
  controller_dependency_requeue : Time;
  controller_certificate_requeue : Time;
  default_schema_registry_image : option string;
}.

#[local] Notation pass R := (prog registry_resp (result R ReconcileError)).
#[local] Notation call := (perform (resp := registry_resp)).
Definition kube {A} (p : prog registry_resp (result A kube_error)) : pass A := r ← p; Ret (map_err Kube r).

Context (cfg : registry_config) (ts : string) (obj : SchemaRegistry).
Let ns : string := namespace_or_default (sr_meta obj).
Let name : string := name_any (sr_meta obj).

Definition registry_status (reason message : string) (counts : option (option Z * option Z))
    (url : option string) : SchemaRegistryStatus :=
  let kafka_ok := negb (str_eqb reason "MissingClusterLabel" || str_eqb reason "KafkaNotReady") in
  let ready := if str_eqb reason "Available" then "True" else "False" in
  let '(replicas, ready_replicas) := default (None, None) counts in
  {| srs_conditions := [condition ts "KafkaReady" (if kafka_ok then "True" else "False") reason message;
                        condition ts "Ready" ready reason message];
     srs_observed_generation := if str_eqb ready "True" then om_generation (sr_meta obj)
                                else and_then (sr_status obj) srs_observed_generation;
     srs_replicas := replicas; srs_ready_replicas := ready_replicas; srs_url := url |}.

Definition set_status (reason message : string) (counts : option (option Z * option Z)) (url : option string)
  : pass unit :=
  kube (call (PatchRegistryStatus name (registry_status reason message counts url))).

(** The status, and the action that ends the pass. *)
Definition wait {A} (reason message : string) (delay : Time) : pass (action Time + A) :=
  _ ←? set_status reason message None None; Ret (Ok (inl (Requeue delay))).

(** *** The bootstrap address: the spec's, else that of the labelled cluster *)
Definition resolve_bootstrap : pass (action Time + string) :=
  let not_ready := wait "KafkaNotReady" "referenced Kafka is not Ready or has no internal listener"
                     (controller_dependency_requeue cfg) in
  match sr_bootstrap_servers (sr_spec obj) with
  | Some b => Ret (Ok (inr b))
  | None =>
      match label (sr_meta obj) "krabka.io/cluster" with
      | None => wait "MissingClusterLabel"
          ("set metadata.labels[" +:+ quote +:+ "krabka.io/cluster" +:+ quote +:+ "] or spec.bootstrapServers")
          (controller_drift_requeue cfg)
      | Some cluster =>
          kafka ←? kube (call (GetKafka cluster));
          match and_then kafka (λ k, internal_listener_bootstrap (kafka_view k)) with
          | Some b => Ret (Ok (inr b))
          | None => not_ready
          end
      end
  end.

(** *** The serving certificate *)
Definition certificate (cert_secret : string) (issuer : CertManagerIssuerRef) : result Certificate ReconcileError :=
  let? owner := owner_ref "SchemaRegistry" (sr_meta obj) in
  Ok {| crt_meta := {| om_name := Some (name +:+ "-sr"); om_namespace := Some ns; om_uid := None;
                       om_labels := None; om_annotations := None; om_finalizers := None;
                       om_generation := None; om_deleting := false; om_owners := [owner] |};
        crt_secret_name := cert_secret;
        crt_issuer := (issuer_name issuer, default "Issuer" (issuer_kind issuer),
                       default "cert-manager.io" (issuer_group issuer));
        crt_dns_names := ["*." +:+ headless_name name +:+ "." +:+ ns +:+ ".svc.cluster.local";
                          service_name name +:+ "." +:+ ns +:+ ".svc.cluster.local"] |}.

Definition apply_certificate_cr (cert_secret : string) (issuer : CertManagerIssuerRef) : pass unit :=
  match certificate cert_secret issuer with
  | Err e => Ret (Err e)
  | Ok c =>
      r ← call (ApplyCertificate (name +:+ "-sr") c);
      Ret (match r with
           | Ok _ => Ok tt
           | Err (KubeApi 404) => Err (Malformed "cert-manager Certificate CRD not installed")
           | Err e => Err (Kube e)
           end)
  end.

Definition resolve_tls : pass (action Time + option string) :=
  let invalid message := wait "InvalidSpec" message (controller_dependency_requeue cfg) in
  match sr_tls (sr_spec obj) with
  | None => Ret (Ok (inr None))
  | Some tls =>
      match tls_secret_name tls, tls_issuer_ref tls with
      | Some _, Some _ => invalid "spec.tls.secretName and spec.tls.issuerRef are mutually exclusive"
      | None, None => invalid "spec.tls must set either secretName or issuerRef"
      | Some sn, None => Ret (Ok (inr (Some sn)))
      | None, Some issuer =>
          let cert_secret := name +:+ "-sr-tls" in
          _ ←? apply_certificate_cr cert_secret issuer;
          s ←? kube (call (GetSecret cert_secret));
          match s with
          | None => wait "WaitingForCert"
              ("waiting for cert-manager to provision Secret " +:+ cert_secret)
              (controller_certificate_requeue cfg)
          | Some _ => Ret (Ok (inr (Some cert_secret)))
          end
      end
  end.

(** *** The children *)
Definition owns_deployment (d : Deployment) : bool :=
  is_some_and (λ uid, existsb (λ r, str_eqb (or_uid r) uid) (om_owners (dep_meta d))) (om_uid (sr_meta obj)).

Definition delete_owned_deployment (n : string) : pass unit :=
  d ←? kube (call (GetDeployment n));
  if is_some_and owns_deployment d then
    r ← call (DeleteDeployment n);
    Ret (match r with
         | Ok _ | Err (KubeApi 404) => Ok tt
         | Err e => Err (Kube e)
         end)
  else Ret (Ok tt).

Definition image : string :=
  default DEFAULT_IMAGE (or_else (sr_image (sr_spec obj)) (default_schema_registry_image cfg)).

Definition apply_children (bootstrap : string) (tls_secret : option string) : pass unit :=
  match render_headless_service obj with
  | Err e => Ret (Err e)
  | Ok headless =>
      _ ←? kube (call (ApplyService (headless_name name) headless));
      match render_clusterip_service obj with
      | Err e => Ret (Err e)
      | Ok clusterip =>
          _ ←? kube (call (ApplyService (service_name name) clusterip));
          match render_statefulset obj bootstrap image tls_secret with
          | Err e => Ret (Err e)
          | Ok sts =>
              _ ←? kube (call (ApplyStatefulSet (statefulset_name name) sts));
              delete_owned_deployment (statefulset_name name)
          end
      end
  end.

Definition service_url (tls_secret : option string) : string :=
  scheme tls_secret +:+ "://" +:+ service_name name +:+ "." +:+ ns +:+ ".svc.cluster.local:"
  +:+ display_Z SR_PORT.

Definition report (tls_secret : option string) : pass (action Time) :=
  live ←? kube (call (GetStatefulSet (statefulset_name name)));
  let '(replicas, ready) := match and_then live ss_status with
                            | Some s => (Some (sst_replicas s), sst_ready_replicas s)
                            | None => (None, None)
                            end in
  let desired := sr_replicas (sr_spec obj) in
  let url := service_url tls_secret in
  _ ←? (if desired <=? default 0 ready
        then set_status "Available" (display_Z desired +:+ " replica(s) ready")
               (Some (replicas, ready)) (Some url)
        else set_status "Progressing"
               (display_Z (default 0 ready) +:+ "/" +:+ display_Z desired +:+ " replica(s) ready")
               (Some (replicas, ready)) (Some url));
  Ret (Ok (Requeue (controller_drift_requeue cfg))).

Definition reconcile_inner : pass (action Time) :=
  match validate_config (sr_spec obj) with
  | Err why =>
      _ ←? set_status "SchemaRegistryConfigInvalid" why None None;
      Ret (Err (SchemaRegistryConfigInvalid why))
  | Ok _ =>
      bootstrap ←? resolve_bootstrap;
      match bootstrap with
      | inl act => Ret (Ok act)
      | inr bootstrap =>
          tls ←? resolve_tls;
          match tls with
          | inl act => Ret (Ok act)
          | inr tls_secret =>
              _ ←? apply_children bootstrap tls_secret;
              report tls_secret
          end
      end
  end.
End registry.
