(* ===== verification/RegistryFacts.v ===== *)
(** * What the schema registry pass guarantees (src/controller/schema_registry.rs)

    The order in which its objects appear, the status, the pods that the Services and
    the StatefulSet share, and the names in the certificate. *)

From S2P Require Import Prelude RustStd Effects Kube Workload CaBundle ClusterCa Toml Tuning.
From S2P Require Import Listeners ListenerCheck NodePool ListenerObjects KafkaSpec SchemaRegistry.
Local Open Scope Z_scope.

Section safety.
Context {Time ByteSize Ratio F64 : Type} `{TimeOps Time} `{SizeOps ByteSize}.
Context (millis_i64 : Time → Z) (time_eqb : Time → Time → bool) (time_finite : Time → bool).
Context (human_time : Time → string) (human_size : ByteSize → string).
Context (greater_error greater_equal_error : Z → string) (empty_error : string).
Context (queue_capacity : Z → result unit string) (frame_max : ByteSize → result unit string).
Context (cfg : registry_config (Time := Time)) (ts : string).
Context (obj : SchemaRegistry (Time := Time) (ByteSize := ByteSize)).
#[local] Notation rresp := (registry_resp (Time := Time) (ByteSize := ByteSize) (Ratio := Ratio) (F64 := F64)).
#[local] Notation log := (list (event rresp)).
#[local] Notation sev := (ev (resp := rresp)).
#[local] Notation Kafka := (Kafka Time ByteSize Ratio F64).
#[local] Notation validate := (validate_config millis_i64 time_eqb time_finite greater_error
  greater_equal_error empty_error queue_capacity frame_max).
Let ns : string := namespace_or_default (sr_meta obj).
Let name : string := name_any (sr_meta obj).
Implicit Types (h : log).

(** ** What a pass has established *)
Definition bootstrap_ok h (b : string) : Prop :=
  sr_bootstrap_servers (sr_spec obj) = Some b ∨
  ∃ cluster (k : Kafka), label (sr_meta obj) "krabka.io/cluster" = Some cluster ∧
    sev (GetKafka cluster) (Ok (Some k)) ∈ h ∧ internal_listener_bootstrap (kafka_view k) = Some b.

(** The Secret of the certificate: the one named, or the one that cert-manager made. *)
Definition tls_ok h (t : option string) : Prop :=
  match sr_tls (sr_spec obj) with
  | None => t = None
  | Some tls =>
      ∃ n, t = Some n ∧
        (tls_secret_name tls = Some n ∧ tls_issuer_ref tls = None ∨
         ∃ issuer crt s, tls_secret_name tls = None ∧ tls_issuer_ref tls = Some issuer ∧
           n = name +:+ "-sr-tls" ∧ certificate obj n issuer = Ok crt ∧
           sev (ApplyCertificate (name +:+ "-sr") crt) (Ok tt) ∈ h ∧ sev (GetSecret n) (Ok (Some s)) ∈ h)
  end.

Definition services_applied h : Prop :=
  ∃ headless clusterip, render_headless_service obj = Ok headless ∧ render_clusterip_service obj = Ok clusterip ∧
    sev (ApplyService (headless_name name) headless) (Ok tt) ∈ h ∧
    sev (ApplyService (service_name name) clusterip) (Ok tt) ∈ h.

Definition statefulset_ok h (s : StatefulSet) : Prop :=
  validate (sr_spec obj) = Ok tt ∧ services_applied h ∧
  ∃ b t, bootstrap_ok h b ∧ tls_ok h t ∧
    render_statefulset human_time human_size obj b (image cfg obj) t = Ok s.

Definition running h (t : option string) : Prop :=
  tls_ok h t ∧ (∃ s, statefulset_ok h s ∧ sev (ApplyStatefulSet (statefulset_name name) s) (Ok tt) ∈ h) ∧
  ∃ live, sev (GetStatefulSet (statefulset_name name)) (Ok live) ∈ h ∧
    sr_replicas (sr_spec obj) ≤ default 0 (and_then (and_then live ss_status) sst_ready_replicas).

Definition status_ok h (s : SchemaRegistryStatus) : Prop :=
  ∃ kafka ready, srs_conditions s = [kafka; ready] ∧ type_ kafka = "KafkaReady" ∧ type_ ready = "Ready" ∧
    (status ready = "True" → ∃ t, running h t ∧ srs_url s = Some (service_url obj t) ∧
       srs_observed_generation s = om_generation (sr_meta obj)) ∧
    (status ready ≠ "True" → srs_observed_generation s = and_then (sr_status obj) srs_observed_generation).

Definition step_ok h (e : event rresp) : Prop :=
  match projT1 e with
  | ApplyStatefulSet n s => n = statefulset_name name ∧ statefulset_ok h s
  | DeleteDeployment n =>
      n = statefulset_name name ∧
      (∃ s, sev (ApplyStatefulSet n s) (Ok tt) ∈ h) ∧
      ∃ d, sev (GetDeployment n) (Ok (Some d)) ∈ h ∧ owns_deployment obj d = true
  | PatchRegistryStatus n s => n = name ∧ status_ok h s
  | _ => True
  end.
#[local] Notation ok h p Q := (safely step_ok h p Q).

(** ** Facts that stay true as the log grows *)
Lemma tls_mono h h' t : h ⊆ h' → tls_ok h t → tls_ok h' t.
Proof.
  intros Hs. unfold tls_ok. destruct (sr_tls (sr_spec obj)) as [tls|]; [|done].
  intros (n & -> & [?|(issuer & crt & s & ? & ? & ? & ? & ? & ?)]); exists n; (split; [done|]); [by left|].
  right. exists issuer, crt, s. split_and!; auto.
Qed.

Lemma bootstrap_mono h h' b : h ⊆ h' → bootstrap_ok h b → bootstrap_ok h' b.
Proof. intros Hs [?|(cluster & k & ? & ? & ?)]; [by left|]. right. exists cluster, k. auto. Qed.

Lemma statefulset_mono h h' s : h ⊆ h' → statefulset_ok h s → statefulset_ok h' s.
Proof.
  intros Hs (? & (he & ci & ? & ? & ? & ?) & b & t & ? & ? & ?). split_and!; [done|exists he, ci; auto|].
  exists b, t. split_and!; [by eapply bootstrap_mono|by eapply tls_mono|done].
Qed.

(** ** The parts *)
Lemma registry_kube_ok {A} h (p : prog rresp (result A kube_error)) Q : ok h p (on_ok Q) → ok h (kube p) (on_ok Q).
Proof. intros Hp. eapply safely_bind; [exact Hp|]. intros h' [a|e] _ Ha; by apply safely_ret. Qed.

Ltac at_call :=
  match goal with
  | |- safely _ _ (kube (perform ?c)) _ => apply registry_kube_ok; refine (safely_call _ _ c _ _ _)
  | |- safely _ _ (perform ?c) _ => refine (safely_call _ _ c _ _ _)
  end.
Ltac logged_call := at_call; [try done | intros [?|?]; [|exact I]; apply elem_of_app; right; by left].

Lemma status_unready h reason message counts url :
  reason ≠ "Available" → ok h (set_status ts obj reason message counts url) (on_ok (λ _ _, True)).
Proof.
  intros Hr. unfold set_status. at_call; [|by intros []]. intros x. split; [done|].
  unfold status_ok, registry_status. destruct (default _ counts) as [a b]. cbn.
  assert (str_eqb reason "Available" = false) as -> by (apply not_true_is_false; by rewrite str_eqb_eq).
  by eexists _, _.
Qed.

Lemma wait_ok {A} h reason message delay (Q : log → action Time + A → Prop) :
  reason ≠ "Available" → (∀ h' act, Q h' (inl act)) →
  ok h (wait ts obj reason message delay) (on_ok Q).
Proof.
  intros Hr HQ. eapply (safely_try _ _ _ _ (λ _ _, True)); [by apply status_unready|].
  intros. apply safely_ret. apply HQ.
Qed.

Lemma bootstrap_resolved h :
  ok h (resolve_bootstrap cfg ts obj) (on_ok (λ h' r, match r with inr b => bootstrap_ok h' b | _ => True end)).
Proof.
  unfold resolve_bootstrap. destruct (sr_bootstrap_servers (sr_spec obj)) as [b|] eqn:Hb.
  { apply safely_ret. by left. }
  destruct (label _ _) as [cluster|] eqn:Hl; [|by apply wait_ok].
  eapply (safely_try _ _ _ _ (λ h' k, sev (GetKafka cluster) (Ok k) ∈ h')); [logged_call|].
  intros h1 [k|] Hs1 Hk; cbn [and_then]; [|by apply wait_ok].
  destruct (internal_listener_bootstrap _) as [b|] eqn:Hi; [|by apply wait_ok].
  apply safely_ret. right. by exists cluster, k.
Qed.

Lemma certificate_ok h n issuer :
  ok h (apply_certificate_cr obj n issuer) (on_ok (λ h' _, ∃ crt, certificate obj n issuer = Ok crt ∧
    sev (ApplyCertificate (name +:+ "-sr") crt) (Ok tt) ∈ h')).
Proof.
  unfold apply_certificate_cr. destruct (certificate obj n issuer) as [crt|e]; [|by apply safely_ret].
  eapply (safely_bind _ _ _ _ (λ h' r, sev (ApplyCertificate (name +:+ "-sr") crt) r ∈ h')).
  { at_call; [done|]. intros x. apply elem_of_app. right. by left. }
  intros h1 [[]|e] _ Hr; apply safely_ret; [by exists crt|]. destruct e as [code|?]; [|done].
  by repeat case_match.
Qed.

Lemma tls_resolved h :
  ok h (resolve_tls cfg ts obj) (on_ok (λ h' r, match r with inr t => tls_ok h' t | _ => True end)).
Proof.
  unfold resolve_tls, tls_ok. destruct (sr_tls (sr_spec obj)) as [tls|]; [|by apply safely_ret].
  destruct (tls_secret_name tls) as [sn|] eqn:Hsn, (tls_issuer_ref tls) as [issuer|] eqn:Hir.
  1, 4: by apply wait_ok.
  { apply safely_ret. exists sn. split; [done|by left]. }
  eapply safely_try; [apply certificate_ok|]. intros h1 _ Hs1 (crt & Hc & Hap).
  eapply (safely_try _ _ _ _ (λ h' r, sev (GetSecret (name +:+ "-sr-tls")) (Ok r) ∈ h')); [logged_call|].
  intros h2 [s|] Hs2 Hsec; [|by apply wait_ok]. apply safely_ret. eexists. split; [done|]. right.
  exists issuer, crt, s. split_and!; auto.
Qed.

Lemma delete_ok h s :
  sev (ApplyStatefulSet (statefulset_name name) s) (Ok tt) ∈ h →
  ok h (delete_owned_deployment obj (statefulset_name name)) (on_ok (λ _ _, True)).
Proof.
  intros Hs. unfold delete_owned_deployment.
  eapply (safely_try _ _ _ _ (λ h' d, sev (GetDeployment (statefulset_name name)) (Ok d) ∈ h')); [logged_call|].
  intros h1 [d|] Hs1 Hd; cbn [is_some_and]; [|by apply safely_ret].
  destruct (owns_deployment obj d) eqn:Ho; [|by apply safely_ret].
  eapply (safely_bind _ _ _ _ (λ _ _, True)).
  { at_call; [|done]. intros x. split; [done|]. split; [exists s; auto|by exists d]. }
  intros h2 r _ _. apply safely_ret. by repeat case_match.
Qed.

Lemma children_ok h b t :
  validate (sr_spec obj) = Ok tt → bootstrap_ok h b → tls_ok h t →
  ok h (apply_children human_time human_size cfg obj b t) (on_ok (λ h' _, ∃ s, statefulset_ok h' s ∧
    sev (ApplyStatefulSet (statefulset_name name) s) (Ok tt) ∈ h')).
Proof.
  intros Hval Hb Ht. unfold apply_children.
  destruct (render_headless_service obj) as [he|e] eqn:Hhe; [|by apply safely_ret].
  eapply (safely_try _ _ _ _ (λ h' _, sev (ApplyService (headless_name name) he) (Ok tt) ∈ h')).
  { at_call; [done|]. intros [[]|?]; [|exact I]. apply elem_of_app; right; by left. }
  intros h1 _ Hs1 Hahe. destruct (render_clusterip_service obj) as [ci|e] eqn:Hci; [|by apply safely_ret].
  eapply (safely_try _ _ _ _ (λ h' _, sev (ApplyService (service_name name) ci) (Ok tt) ∈ h')).
  { at_call; [done|]. intros [[]|?]; [|exact I]. apply elem_of_app; right; by left. }
  intros h2 _ Hs2 Haci. destruct (render_statefulset _ _ _ _ _ _) as [s|e] eqn:Hst; [|by apply safely_ret].
  assert (statefulset_ok h2 s) as Hok.
  { assert (h ⊆ h2) by by etrans. split_and!; [done|exists he, ci; split_and!; auto|].
    exists b, t. split_and!; [by eapply bootstrap_mono|by eapply tls_mono|done]. }
  eapply (safely_try _ _ _ _ (λ h' _, sev (ApplyStatefulSet (statefulset_name name) s) (Ok tt) ∈ h')).
  { at_call; [done|]. intros [[]|?]; [|exact I]. apply elem_of_app; right; by left. }
  intros h3 _ Hs3 Hap. eapply safely_mono; [eapply safely_grows, delete_ok; exact Hap|].
  intros h4 [u|e] [Hs4 _]; [|done]. exists s. split; [|by apply Hs4].
  eapply statefulset_mono; [|exact Hok]. by etrans.
Qed.

Lemma report_ok h t s :
  tls_ok h t → statefulset_ok h s → sev (ApplyStatefulSet (statefulset_name name) s) (Ok tt) ∈ h →
  ok h (report cfg ts obj t) (on_ok (λ _ _, True)).
Proof.
  intros Ht Hs Hap. unfold report.
  eapply (safely_try _ _ _ _ (λ h' d, sev (GetStatefulSet (statefulset_name name)) (Ok d) ∈ h')); [logged_call|].
  intros h1 live Hs1 Hlive.
  assert (∃ replicas ready, match and_then live ss_status with
            | Some s => (Some (sst_replicas s), sst_ready_replicas s) | None => (None, None) end = (replicas, ready) ∧
          ready = and_then (and_then live ss_status) sst_ready_replicas) as (replicas & ready & -> & Hready).
  { destruct (and_then live ss_status); by eexists _, _. }
  eapply (safely_try _ _ _ _ (λ _ _, True)); [|by intros; apply safely_ret].
  destruct (Z.leb_spec (sr_replicas (sr_spec obj)) (default 0 ready)) as [Hle|_]; [|by apply status_unready].
  unfold set_status. at_call; [|by intros []]. intros x. split; [done|].
  eexists _, _. split; [done|]. split_and!; try done. intros _. exists t. split_and!; try done.
  split_and!; [by eapply tls_mono|exists s; split; [by eapply statefulset_mono|auto]|].
  exists live. split; [done|]. by rewrite <- Hready.
Qed.

Lemma registry_inner_ok h :
  ok h (reconcile_inner millis_i64 time_eqb time_finite human_time human_size greater_error
          greater_equal_error empty_error queue_capacity frame_max cfg ts obj) (on_ok (λ _ _, True)).
Proof.
  unfold reconcile_inner. destruct (validate (sr_spec obj)) as [[]|why] eqn:Hval.
  2: { eapply (safely_try _ _ _ _ (λ _ _, True)); [by apply status_unready|by intros; apply safely_ret]. }
  eapply safely_try; [apply bootstrap_resolved|]. intros h1 [act|b] Hs1 Hb; [by apply safely_ret|].
  eapply safely_try; [apply tls_resolved|]. intros h2 [act|t] Hs2 Ht; [by apply safely_ret|].
  eapply safely_try; [by eapply children_ok; [|eapply bootstrap_mono|]|].
  intros h3 _ Hs3 (s & Hok & Hap). eapply report_ok; [by eapply tls_mono|done..].
Qed.

#[local] Notation pass := (reconcile_inner (Ratio := Ratio) (F64 := F64) millis_i64 time_eqb time_finite
  human_time human_size greater_error greater_equal_error empty_error queue_capacity frame_max cfg ts obj).

Lemma registry_steps : all_runs pass (λ tr _, justified step_ok tr).
Proof. eapply always_mono; [|apply registry_inner_ok, justified_nil]. by intros h r [? _]. Qed.

(** C36. A pass applies the registry's StatefulSet only for a valid spec, after both
    Services, with a bootstrap address from the spec or from a ready cluster, and with a
    serving certificate whose Secret exists when cert-manager issues it.  It deletes a
    Deployment of the same name only after that, and only one that the registry owns. *)
Theorem registry_applied_in_order :
  all_runs pass (λ tr _,
    (∀ pre n s x post, tr = pre ++ sev (ApplyStatefulSet n s) x :: post →
       n = statefulset_name name ∧ statefulset_ok pre s) ∧
    ∀ pre n x post, tr = pre ++ sev (DeleteDeployment n) x :: post →
      n = statefulset_name name ∧ (∃ s, sev (ApplyStatefulSet n s) (Ok tt) ∈ pre) ∧
      ∃ d, sev (GetDeployment n) (Ok (Some d)) ∈ pre ∧ owns_deployment obj d = true).
Proof.
  eapply all_runs_mono; [|exact registry_steps]. intros tr r Hj.
  split; [intros pre n s x post Heq|intros pre n x post Heq]; exact (Hj _ _ _ Heq).
Qed.

(** A registry is reported [Ready] only after its StatefulSet was applied in this pass
    and seen with all its replicas ready; the URL that is published has the scheme of the
    certificate that was resolved, and the observed generation moves only then. *)
Theorem registry_status_truthful :
  all_runs pass (λ tr _, ∀ pre n s x post,
    tr = pre ++ sev (PatchRegistryStatus n s) x :: post → n = name ∧ status_ok pre s).
Proof.
  eapply all_runs_mono; [|exact registry_steps]. intros tr r Hj pre n s x post Heq. exact (Hj _ _ _ Heq).
Qed.

(** A spec that is refused is reported with [KafkaReady] at [True], although the pass has
    not looked at a cluster. *)
Lemma invalid_says_kafka_ready why : validate (sr_spec obj) = Err why →
  all_runs pass (λ tr r, ∃ s x kafka rest, tr = [sev (PatchRegistryStatus name s) x] ∧
    srs_conditions s = kafka :: rest ∧ type_ kafka = "KafkaReady" ∧ status kafka = "True").
Proof.
  intros Hval. unfold all_runs, reconcile_inner. rewrite Hval. intros x.
  destruct x as [[]|e]; by eexists _, _, _, _.
Qed.

End safety.

(** ** The pods

    A part of the container's wiring uses some of its names, each mounted under
    [/etc/sr]. *)
Record wired (names envs : list string) (w : wiring) : Prop := {
  wd_names : map vol_name (w_volumes w) `sublist_of` names;
  wd_mounts : map vm_name (w_mounts w) = map vol_name (w_volumes w);
  wd_paths : map vm_path (w_mounts w) = map (λ n, "/etc/sr/" +:+ n) (map vol_name (w_volumes w));
  wd_env : map env_name (w_env w) `sublist_of` envs;
}.

Lemma wired_args names envs a : wired names envs (only_args a).
Proof. split; cbn; try done; apply sublist_nil_l. Qed.

Lemma wired_app n1 n2 e1 e2 a b : wired n1 e1 a → wired n2 e2 b → wired (n1 ++ n2) (e1 ++ e2) (wire_app a b).
Proof.
  intros [H1 H2 H3 H4] [G1 G2 G3 G4]. split; cbn; rewrite !map_app.
  - by apply sublist_app.
  - by rewrite H2, G2.
  - by rewrite H3, G3.
  - by apply sublist_app.
Qed.

Lemma wired_wire (l : list (list string * list string * wiring)) :
  Forall (λ '(names, envs, w), wired names envs w) l →
  wired (concat (map (λ x, x.1.1) l)) (concat (map (λ x, x.1.2) l)) (wire (map snd l)).
Proof.
  induction 1 as [|[[names envs] w] l Hw _ IH]; [apply wired_args|]. cbn. by apply wired_app.
Qed.

Lemma wired_opt {A} names envs (v : option A) f :
  (∀ a, wired names envs (f a)) → wired names envs (opt_wiring v f).
Proof. intros Hf. destruct v; [apply Hf|apply wired_args]. Qed.

Lemma wired_secret args name secret items envs :
  wired [name] envs (secret_wiring args name secret ("/etc/sr/" +:+ name) items).
Proof. split; cbn; try done; apply sublist_nil_l. Qed.

Section pods.
Context {Time ByteSize : Type} `{TimeOps Time} `{SizeOps ByteSize}.
Context (human_time : Time → string) (human_size : ByteSize → string).
Implicit Types (obj : SchemaRegistry (Time := Time) (ByteSize := ByteSize)).

Definition registry_volumes : list string := ["tls"; "client-ca"; "basic"; "jwks-ca"; "kafka-tls"].
Definition sasl_variables : list string :=
  ["SCHEMA_REGISTRY_KAFKA_SASL_USERNAME"; "SCHEMA_REGISTRY_KAFKA_SASL_PASSWORD"].

Ltac parts :=
  repeat first [apply Forall_nil_2 | apply Forall_cons_2]; try apply wired_args; try apply wired_opt.

Lemma build_wired obj b t :
  wired registry_volumes sasl_variables (build_args_and_mounts human_time human_size obj b t).
Proof.
  unfold build_args_and_mounts.
  apply (wired_wire [([], [], _); (["tls"; "client-ca"], [], _); (["basic"; "jwks-ca"], [], _); ([], [], _);
                     (["kafka-tls"], sasl_variables, _)]).
  parts.
  - intros tls. apply (wired_wire [(["tls"], [], _); ([], [], _); (["client-ca"], [], _)]).
    parts; intros sn; apply (wired_secret _ _ _ _ []).
  - intros a. apply (wired_wire [([], [], _); (["basic"], [], _); (["jwks-ca"], [], _)]).
    parts.
    + intros sn. apply (wired_secret _ "basic" _ _ []).
    + intros br. unfold bearer_wiring. destruct (mode br); [apply wired_args|].
      apply (wired_wire [([], [], _); (["jwks-ca"], [], _)]).
      parts. intros sn. apply (wired_secret _ "jwks-ca" _ _ []).
  - intros a. apply wired_args.
  - intros c. apply (wired_wire [([], [], _); ([], sasl_variables, _); (["kafka-tls"], [], _)]).
    parts.
    + by intros s.
    + intros tls. apply (wired_wire [(["kafka-tls"], [], _); ([], [], _)]).
      parts. intros sn. apply (wired_secret _ "kafka-tls" _ _ []).
Qed.

(** The pods of a registry are well formed: volumes, mount paths and variables have
    names of their own and every mount has its Secret.  They carry exactly the labels that
    the StatefulSet selects and both Services select them; the Service that names the
    StatefulSet's pods is the headless one, which also publishes pods that are not ready;
    and an edit of the spec never changes the selector. *)
Theorem registry_pods_served obj b image t s headless clusterip :
  render_statefulset human_time human_size obj b image t = Ok s →
  render_headless_service obj = Ok headless → render_clusterip_service obj = Ok clusterip →
  ∃ spec pod, ss_spec s = Some spec ∧ tpl_spec (ss_template spec) = Some pod ∧ pod_wf [] pod ∧
    and_then (tpl_meta (ss_template spec)) om_labels = Some (ss_selector spec) ∧
    (∀ svc, svc ∈ [headless; clusterip] → opt_map svc_selector (svc_spec svc) = Some (ss_selector spec)) ∧
    om_name (svc_meta headless) = Some (ss_service_name spec) ∧
    and_then (svc_spec headless) svc_publish_not_ready_addresses = Some true ∧
    ∀ obj' b' image' t' s', om_name (sr_meta obj') = om_name (sr_meta obj) →
      render_statefulset human_time human_size obj' b' image' t' = Ok s' →
      opt_map ss_selector (ss_spec s') = Some (ss_selector spec).
Proof.
  unfold render_statefulset, render_headless_service, render_clusterip_service, registry_meta, owner_ref.
  destruct (om_uid (sr_meta obj)) as [uid|]; [|done]. cbn [ok_or]. intros [= <-] [= <-] [= <-].
  eexists _, _. split; [done|]. split; [done|]. split_and!; try done.
  - pose proof (build_wired obj b t) as [Hn Hm Hp He].
    assert (NoDup registry_volumes) as Hnd by (by apply (bool_decide_unpack _); vm_compute).
    assert (NoDup ("POD_NAME" :: "SCHEMA_REGISTRY_ADVERTISED_URL" :: sasl_variables)) as Hne
      by (by apply (bool_decide_unpack _); vm_compute).
    split; unfold volume_names, registry_pod; cbn [volumes default all_containers init_containers containers app].
    + rewrite app_nil_r. eapply sublist_NoDup; [exact Hnd|exact Hn].
    + intros c m Hc Hin. apply list_elem_of_singleton in Hc as ->. rewrite app_nil_r.
      change (vm_name m ∈ map vol_name (w_volumes (build_args_and_mounts human_time human_size obj b t))).
      rewrite <- Hm. apply list_elem_of_fmap. exists m. split; [done|exact Hin].
    + intros c Hc. apply list_elem_of_singleton in Hc as ->. unfold mounts_of. cbn [c_mounts registry_container default].
      change (NoDup (map vm_path (w_mounts (build_args_and_mounts human_time human_size obj b t)))).
      rewrite Hp. apply (NoDup_fmap_2_strong (λ n, "/etc/sr/" +:+ n)); [by intros x y _ _ ?%str_app_inj_l|].
      eapply sublist_NoDup; [exact Hnd|exact Hn].
    + intros c Hc. apply list_elem_of_singleton in Hc as ->.
      eapply sublist_NoDup; [exact Hne|]. do 2 apply sublist_skip. exact He.
  - intros svc Hs. log_mem Hs; by subst svc.
  - intros obj' b' image' t' s' Hname. destruct (om_uid (sr_meta obj')); [|done]. cbn [ok_or]. intros [= <-].
    cbn. unfold selector_labels, name_any. by rewrite Hname.
Qed.
End pods.

(** ** The certificate

    A wildcard stands for one label. *)
Definition dns_matches (pattern host : string) : bool :=
  match strip_prefix "*." pattern with
  | Some domain =>
      is_some_and (λ '(l, rest), negb (is_empty l) && str_eqb rest domain) (split_once "." host)
  | None => str_eqb pattern host
  end.

Section names.
Context {Time ByteSize : Type} `{TimeOps Time} `{SizeOps ByteSize}.
Context (obj : SchemaRegistry (Time := Time) (ByteSize := ByteSize)).
Let ns : string := namespace_or_default (sr_meta obj).
Let name : string := name_any (sr_meta obj).

(** The DNS name that the headless Service gives a pod of the StatefulSet. *)
Definition pod_host (pod : string) : string :=
  pod +:+ "." +:+ headless_name name +:+ "." +:+ ns +:+ ".svc.cluster.local".

(** The certificate that cert-manager makes for a registry covers the names under
    which it is reached: the DNS name of each of its pods, which is what a pod advertises
    to the others, and the host of the URL in the status. *)
Theorem registry_names_certified n issuer crt pod :
  certificate obj n issuer = Ok crt → str_all (λ c, negb (Ascii.eqb "." c)) pod = true → pod ≠ "" →
  existsb (λ p, dns_matches p (pod_host pod)) (crt_dns_names crt) = true ∧
  advertised_url obj (Some n) = "https://" +:+ pod_host "$(POD_NAME)" +:+ ":8081" ∧
  ∃ host, host ∈ crt_dns_names crt ∧ service_url obj (Some n) = "https://" +:+ host +:+ ":8081".
Proof.
  unfold certificate, owner_ref. destruct (om_uid (sr_meta obj)) as [uid|]; [|done]. cbn [ok_or].
  intros [= <-] Hdot Hne. cbn [crt_dns_names]. split_and!.
  - cbn [existsb]. apply orb_true_iff. left. unfold dns_matches, pod_host. rewrite strip_prefix_app.
    change ("." +:+ headless_name name +:+ "." +:+ ns +:+ ".svc.cluster.local")
      with (String "." (headless_name name +:+ "." +:+ ns +:+ ".svc.cluster.local")).
    rewrite split_once_app by done. cbn [is_some_and]. rewrite str_eqb_refl, andb_true_r.
    by destruct pod.
  - unfold advertised_url, pod_host, scheme. cbn [opt_is_some]. fold name ns. by rewrite <- !str_app_assoc.
  - eexists. split; [apply list_elem_of_further, list_elem_of_here|].
    unfold service_url, scheme. cbn [opt_is_some]. by rewrite <- !str_app_assoc.
Qed.
End names.

(** ** The checked spec *)
Section bounds.
Context {Time ByteSize : Type} `{TimeOps Time} `{SizeOps ByteSize}.
Context (millis_i64 : Time → Z) (time_eqb : Time → Time → bool) (time_finite : Time → bool).
Context (greater_error greater_equal_error : Z → string) (empty_error : string).
Context (queue_capacity : Z → result unit string) (frame_max : ByteSize → result unit string).
#[local] Notation validate := (validate_config millis_i64 time_eqb time_finite greater_error
  greater_equal_error empty_error queue_capacity frame_max).

Lemma protocol_millis path t v :
  validate_protocol_millis_i32 millis_i64 time_eqb time_finite t path = Ok tt → t = Some v →
  1 ≤ millis_i64 v ≤ i32_max.
Proof.
  intros Hok ->. unfold validate_protocol_millis_i32 in Hok. cbn [on_some from_option] in Hok.
  destruct (_ || _); [done|]. destruct (in_i32 _) eqn:Hi; [|done].
  destruct (Z.ltb_spec 0 (millis_i64 v)); [|done]. unfold in_i32, in_range in Hi.
  apply andb_true_iff in Hi as [_ Hi%Z.leb_le]. lia.
Qed.

Lemma protocol_bytes path b v :
  validate_protocol_bytes_i32 b path = Ok tt → b = Some v → 1 ≤ bytes_u64 (ByteSize := ByteSize) v ≤ i32_max.
Proof.
  intros Hok ->. unfold validate_protocol_bytes_i32 in Hok. cbn [on_some from_option] in Hok.
  destruct (_ || _); [done|]. destruct (in_i32 _) eqn:Hi; [|done].
  destruct (Z.ltb_spec 0 (bytes_u64 v)); [|done]. unfold in_i32, in_range in Hi.
  apply andb_true_iff in Hi as [_ Hi%Z.leb_le]. lia.
Qed.

(** A runtime policy that is accepted elects soundly and fits the protocol: with the
    defaults for what it leaves out, the heartbeat interval is below the session timeout,
    which is not above the rebalance timeout, and the values that the registry sends as
    32-bit integers are positive and in range. *)
Theorem registry_config_bounds spec r :
  validate spec = Ok tt → sr_runtime spec = Some r →
  time_ltb (heartbeat_interval r) (session_timeout r) = true ∧
  time_leb (session_timeout r) (rebalance_timeout r) = true ∧
  (∀ v, Some v ∈ [store_reader_fetch_max_wait r; schemas_topic_create_timeout r] →
     1 ≤ millis_i64 v ≤ i32_max) ∧
  ∀ v, store_reader_fetch_max r = Some v → 1 ≤ bytes_u64 v ≤ i32_max.
Proof.
  unfold validate_config. intros Hok Hr. rewrite Hr in Hok. cbn [on_some from_option] in Hok.
  destruct (greater_0 _ _ _); [|done]. destruct (on_some _ _); [|done].
  destruct (validate_runtime _ _ _ _ _ r) as [[]|] eqn:Hv; [|done]. clear Hok. unfold validate_runtime in Hv.
  destruct (on_some _ _); [|done]. destruct (on_some _ _); [|done].
  destruct (validate_protocol_millis_i32 _ _ _ _ _) as [[]|] eqn:H1 in Hv; [|done].
  destruct (validate_protocol_bytes_i32 _ _) as [[]|] eqn:H2 in Hv; [|done].
  destruct (validate_protocol_millis_i32 _ _ _ _ _) as [[]|] eqn:H3 in Hv; [|done].
  destruct (positive_times _ _); [|done]. destruct (is_some_and _ _); [done|].
  unfold validate_election, time_ltb in Hv |- *.
  destruct (time_leb (session_timeout r) (heartbeat_interval r)); [done|].
  destruct (time_leb (session_timeout r) (rebalance_timeout r)); [|done]. split_and!; [done..| |].
  - intros v Hin. log_mem Hin; symmetry in Hin; (eapply protocol_millis; [|exact Hin]); eassumption.
  - intros v Hs. by eapply protocol_bytes; [|exact Hs].
Qed.
End bounds.

(** ** An example *)
#[local] Existing Instance TuningDemo.SizeOps_Z.

Module Registry.
Definition runtime : SchemaRegistryRuntime (Time := Z) (ByteSize := Z) :=
  {| sr_client_dispatch_queue_capacity := Some 16; sr_client_frame_max := None;
     election_session_timeout := Some 12000; election_rebalance_timeout := None;
     election_heartbeat_interval := None; election_reconnect_backoff := None;
     store_reader_retry_backoff := None; store_reader_fetch_max_wait := Some 500;
     store_reader_fetch_max := Some 1048576; schemas_topic_create_timeout := None;
     forward_max_body := None; default_compatibility_level := Some "FULL"; default_mode := None |}.
Definition spec : SchemaRegistrySpec (Time := Z) (ByteSize := Z) :=
  {| sr_replicas := 2; sr_image := None; sr_bootstrap_servers := None; schemas_topic := None;
     schemas_topic_replication_factor := Some 3; group_id := None; sr_runtime := Some runtime;
     client_id := None; health_checks := None;
     kafka_client := Some {| security_protocol := Some "SASL_SSL";
       kc_sasl := Some {| sasl_mechanism := "SCRAM-SHA-512"; sasl_secret_ref := "registry" |};
       kc_tls := Some {| ca_secret_name := Some "prod-cluster-ca-cert"; server_name_override := None |} |};
     sr_tls := Some {| tls_secret_name := None;
       tls_issuer_ref := Some {| issuer_name := "ca"; issuer_kind := None; issuer_group := None |};
       tls_client_auth := Some ClientAuthRequired; tls_client_ca_secret_name := Some "clients" |};
     sr_authentication := None; sr_authorization := None; sr_resources := None |}.
Definition registry : SchemaRegistry (Time := Z) (ByteSize := Z) :=
  {| sr_meta := ObjectMeta (Some "main") (Some "kafka") (Some "u9")
                  (Some {["krabka.io/cluster" := "prod"]}) None None (Some 1) false [];
     sr_spec := spec; sr_status := None |}.
Definition issuer : CertManagerIssuerRef :=
  {| issuer_name := "ca"; issuer_kind := None; issuer_group := None |}.
End Registry.

Lemma registry_pods_served_witness :
  ∃ s, render_statefulset (λ _, "") (λ _, "") Registry.registry "prod:9092" "image" (Some "main-sr-tls") = Ok s ∧
    ∃ spec, ss_spec s = Some spec ∧ ss_service_name spec = "main-sr-headless".
Proof.
  eexists. split; [reflexivity|].
  edestruct (registry_pods_served (λ _, "") (λ _, "") Registry.registry "prod:9092" "image" (Some "main-sr-tls"))
    as (spec & pod & Hspec & _ & _ & _ & _ & Hname & _); [reflexivity..|].
  exists spec. split; [exact Hspec|]. injection Hname as <-. reflexivity.
Defined.

Lemma registry_names_certified_witness :
  ∃ crt, certificate Registry.registry "main-sr-tls" Registry.issuer = Ok crt ∧
    existsb (λ p, dns_matches p "main-sr-0.main-sr-headless.kafka.svc.cluster.local") (crt_dns_names crt) = true.
Proof.
  eexists. split; [reflexivity|].
  by apply (registry_names_certified Registry.registry "main-sr-tls" Registry.issuer _ "main-sr-0").
Defined.

Lemma registry_config_bounds_witness :
  time_ltb (heartbeat_interval Registry.runtime) (session_timeout Registry.runtime) = true.
Proof.
  by apply (registry_config_bounds id Z.eqb (λ _, true) (λ _, "") (λ _, "") "" (λ _, Ok tt) (λ _, Ok tt)
              Registry.spec Registry.runtime).
Defined.
