(* ===== verification/Gateway.v ===== *)
(** * KafkaGrpcGateway: the resource, its checks and what is rendered of it
    (src/crd/grpc_gateway.rs, src/controller/grpc_gateway.rs)

    The spec with its validation, the arguments and the Deployment of the gateway, its
    Service, the documents that configure inbound and outbound webhooks with the list of
    allowed targets, and the broker user.  Parsers of URLs, JSONPath expressions and
    header names, the limits of krabka-client-core, the texts of refined_type's errors
    and of quantities, and the TOML writer are parameters. *)

From S2P Require Import Prelude RustStd Effects Kube Workload CaBundle ClusterCa Toml Tuning.
From S2P Require Import Listeners ListenerCheck NodePool ListenerObjects KafkaSpec DelegationToken UserTls UserAcl.
Local Open Scope Z_scope.

Definition GATEWAY_PORT : Z := 9500.
Definition DEFAULT_REPLICAS : Z := 1.
Definition DEFAULT_VALIDITY_DAYS : Z := 365.
Definition DEFAULT_GATEWAY_IMAGE : string := "ghcr.io/krabka-io/krabka-gateway:v0.5.0".
Definition SERVING_DIR : string := "/etc/krabka-gw/serving".
Definition BROKER_CLIENT_DIR : string := "/etc/krabka-gw/broker-client".
Definition CLUSTER_CA_DIR : string := "/etc/krabka-gw/cluster-ca".
Definition CLIENTS_CA_DIR : string := "/etc/krabka-gw/clients-ca".
Definition CONFIG_DIR : string := "/etc/krabka-gw/config".
Definition FIRST_AMBIGUOUS_F64_MILLIS : Z := 9007199254740992.

(** ** The resource *)
Record SecretKeyRef : Type := { skr_name : string; skr_key : string }.
Record AllowedTargetSpec : Type := { at_scheme : string; at_host : string }.
Record GatewayHealthChecks : Type := {
  gh_readiness_initial_delay : option Z;
  gh_readiness_period : option Z;
  gh_liveness_initial_delay : option Z;
  gh_liveness_period : option Z;
}.
Record KafkaGrpcGatewayStatus : Type := {
  gws_conditions : list KafkaCondition;
  gws_observed_generation : option Z;
  gws_ready_replicas : option Z;
}.

Section spec.
Context {Time ByteSize Ratio F64 : Type}.
Record DedupSpec : Type := {
  dd_topic : option string;
  dd_partitions : option Z;
  dd_window : option Time;
  dd_txn_id_prefix : option string;
  dd_ownership_group : option string;
}.
Record GatewayTuning : Type := {
  gt_client_dispatch_queue_capacity : option Z;
  gt_client_frame_max : option ByteSize;
  gt_internal_topic_replication_factor : option Z;
  gt_internal_topic_allow_replication_fallback : option bool;
  gt_internal_topic_create_timeout : option Time;
  gt_internal_topic_segment : option Time;
  gt_internal_topic_min_cleanable_dirty_ratio : option Ratio;
  gt_consumer_poll_timeout : option Time;
  gt_ownership_warmup_empty_polls : option Z;
  gt_readiness_poll_interval : option Time;
  gt_produce_max_body : option ByteSize;
  gt_forward_max_body : option ByteSize;
}.
Record GatewaySchemaRegistrySpec : Type := {
  gr_url : option string;
  gr_latest_cache_ttl : option Time;
  gr_frame_raw : option bool;
}.
Record GatewayTlsSpec : Type := {
  gtls_client_auth : option string;
  gtls_validity_days : option Z;
  gtls_reload_interval : option Time;
}.
Record GatewayBearerSpec : Type := {
  gb_mode : option string;
  gb_principal_claim : option string;
  gb_allowable_clock_skew : option Time;
}.
Record GatewayAuthzSpec : Type := {
  ga_mode : option string;
  ga_super_users : list string;
  ga_acl_refresh : option Time;
  ga_bearer : option GatewayBearerSpec;
}.
Record InboundWebhookSpec : Type := {
  wh_name : string;
  wh_target_topic : string;
  wh_principal : option string;
  wh_signature_mode : option string;
  wh_forward_headers : option (list string);
  wh_signature_header : option string;
  wh_signature_encoding : option string;
  wh_signature_prefix : option string;
  wh_timestamp_header : option string;
  wh_timestamp_tolerance : option Time;
  wh_idempotency_source : option string;
  wh_key_source : option string;
  wh_max_body : option ByteSize;
  wh_schema_subject : option string;
  wh_schema_format : option string;
  wh_secret_ref : option SecretKeyRef;
}.
Record OutboundSubscriptionSpec : Type := {
  ob_name : string;
  ob_source_topics : list string;
  ob_target_url : string;
  ob_dead_letter_topic : option string;
  ob_max_attempts : option Z;
  ob_base_backoff : option Time;
  ob_max_backoff : option Time;
  ob_request_timeout : option Time;
  ob_group_id : option string;
  ob_decode_to_json : option bool;
  ob_filter : option string;
  ob_headers : gmap string string;
  ob_signing_secret_ref : option SecretKeyRef;
}.
Record TelemetrySpec : Type := {
  te_otlp_endpoint : option string;
  te_otlp_protocol : option string;
  te_sample_ratio : option F64;
}.
Record KafkaGrpcGatewaySpec : Type := {
  gw_replicas : option Z;
  gw_image : option string;
  gw_resources : option ResourceRequirements;
  gw_dedup : option DedupSpec;
  gw_membership_topic : option string;
  gw_tuning : option GatewayTuning;
  gw_schema_registry : option GatewaySchemaRegistrySpec;
  gw_health_checks : option GatewayHealthChecks;
  gw_tls : option GatewayTlsSpec;
  gw_authz : option GatewayAuthzSpec;
  gw_webhooks : list InboundWebhookSpec;
  gw_outbound_subscriptions : list OutboundSubscriptionSpec;
  gw_allowed_targets : list AllowedTargetSpec;
  gw_telemetry : option TelemetrySpec;
}.
Record KafkaGrpcGateway : Type := {
  gw_meta : object_meta;
  gw_spec : KafkaGrpcGatewaySpec;
}.
End spec.
Arguments DedupSpec Time : clear implicits.
Arguments GatewayTuning Time ByteSize Ratio : clear implicits.
Arguments GatewaySchemaRegistrySpec Time : clear implicits.
Arguments GatewayTlsSpec Time : clear implicits.
Arguments GatewayBearerSpec Time : clear implicits.
Arguments GatewayAuthzSpec Time : clear implicits.
Arguments InboundWebhookSpec Time ByteSize : clear implicits.
Arguments OutboundSubscriptionSpec Time : clear implicits.
Arguments TelemetrySpec F64 : clear implicits.
Arguments KafkaGrpcGatewaySpec Time ByteSize Ratio F64 : clear implicits.
Arguments KafkaGrpcGateway Time ByteSize Ratio F64 : clear implicits.

(** ** Rules of refined_type on integers *)
Inductive refined_rule : Type :=
  | GreaterI16 (n : Z)
  | GreaterI32 (n : Z)
  | GreaterU32 (n : Z)
  | GreaterU64 (n : Z)
  | GreaterEqualI32 (n : Z)
  | GreaterEqualI64 (n : Z)
  | MinMaxU32 (lo hi : Z).

Definition rule_holds (r : refined_rule) (v : Z) : bool :=
  match r with
  | GreaterI16 n | GreaterI32 n | GreaterU32 n | GreaterU64 n => n <? v
  | GreaterEqualI32 n | GreaterEqualI64 n => n <=? v
  | MinMaxU32 lo hi => (lo <=? v) && (v <=? hi)
  end.

(** ** What the checks and the renderers take from other crates *)
Class GatewayExt (Time ByteSize Ratio F64 : Type) : Type := {
  millis_i64 : Time → Z;
  time_eqb : Time → Time → bool;
  time_finite : Time → bool;
  human_time : Time → string;
  human_size : ByteSize → string;
  human_ratio : Ratio → string;
  f64_in_unit : F64 → bool;                            (* finite, and in 0.0..=1.0 *)
  display_f64 : F64 → string;
  rule_error : refined_rule → Z → string;
  empty_error : string;                                (* of [NonEmptyString] *)
  queue_capacity : Z → result unit string;             (* [ConnectionDispatchQueueCapacity::new] *)
  frame_max : ByteSize → result unit string;           (* [ClientFrameMax::try_from] *)
  url_parse : string → result (string * option string) string;   (* scheme, host *)
  parse_json_path : string → result unit string;
  header_name : string → result string string;         (* [HeaderName::from_bytes] *)
  toml_to_string : json → result string string;
}.

Section gateway.
Context {Time ByteSize Ratio F64 : Type} `{TimeOps Time} `{SizeOps ByteSize} `{RatioOps Ratio}.
Context `{Ext : GatewayExt Time ByteSize Ratio F64}.
#[local] Notation Kafka := (Kafka Time ByteSize Ratio F64).
#[local] Notation KafkaUser := (UserAcl.KafkaUser Time F64).
#[local] Notation Spec := (KafkaGrpcGatewaySpec Time ByteSize Ratio F64).
#[local] Notation Gateway := (KafkaGrpcGateway Time ByteSize Ratio F64).
#[local] Notation Webhook := (InboundWebhookSpec Time ByteSize).
#[local] Notation Subscription := (OutboundSubscriptionSpec Time).
#[local] Notation check := (result unit string).

Definition DEFAULT_DEDUP_WINDOW : Time := from_secs (24 * 3600).
Definition DEFAULT_ACL_REFRESH : Time := from_secs 60.
Definition DEFAULT_BASE_BACKOFF : Time := from_millis 500.
Definition DEFAULT_MAX_BACKOFF : Time := from_secs 30.

(** ** Validation *)
Definition millis_u64 (t : Time) : Z := Z.max 0 (millis_i64 t).
Definition secs_u64 (t : Time) : Z := Z.max 0 (secs_i64 t).

Definition validate (value : option Z) (rule : refined_rule) (path : string) : check :=
  on_some value (λ v, if rule_holds rule v then Ok tt else Err (path +:+ ": " +:+ rule_error rule v)).

Definition nonempty (value : option string) (path : string) : check :=
  on_some value (λ v, if is_empty v then Err (path +:+ ": " +:+ empty_error) else Ok tt).

(** A text among some words. *)
Definition word (value : option string) (words : list string) (error : string) : check :=
  if one_of words value then Ok tt else Err error.

Definition validate_internal_topic_dirty_ratio (value : option Ratio) : check :=
  if is_some_and (λ v, negb (ratio_finite v) || negb (ratio_leb (fraction 0) v)
                       || negb (ratio_leb v (fraction 1))) value
  then Err "spec.tuning.internalTopicMinCleanableDirtyRatio: must be between 0% and 100%"
  else Ok tt.

Definition validate_protocol_millis_i32 (value : option Time) (path : string) : check :=
  let e := Err (path +:+ ": must be a positive whole number of milliseconds within 1..=i32::MAX") in
  on_some value (λ v,
    let millis := millis_i64 v in
    if negb (time_finite v) || negb (time_eqb (from_millis millis) v) then e
    else if in_i32 millis then (if 0 <? millis then Ok tt else e) else e).

Definition validate_protocol_millis_i64 (value : option Time) (path : string) : check :=
  let e := Err (path +:+ ": must be a positive whole number of milliseconds within 1..=i64::MAX") in
  on_some value (λ v,
    let millis := millis_i64 v in
    if FIRST_AMBIGUOUS_F64_MILLIS <=? millis then
      Err (path +:+ ": must be below " +:+ display_Z FIRST_AMBIGUOUS_F64_MILLIS
           +:+ "ms because UOM quantities use f64")
    else if negb (time_finite v) || negb (time_eqb (from_millis millis) v) then e
    else if 0 <? millis then Ok tt else e).

Definition validate_produce_max_body (value : option ByteSize) : check :=
  validate (opt_map bytes_u64 value) (GreaterU64 0) "spec.tuning.produceMaxBody".
Definition validate_forward_max_body (value : option ByteSize) : check :=
  validate (opt_map bytes_u64 value) (GreaterU64 0) "spec.tuning.forwardMaxBody".

Definition validate_health_checks (h : GatewayHealthChecks) : check :=
  check_all (λ '(value, path, permits_zero),
      validate value (if permits_zero : bool then GreaterEqualI32 0 else GreaterI32 0) path)
    [(gh_readiness_initial_delay h, "spec.healthChecks.readinessInitialDelaySeconds", true);
     (gh_readiness_period h, "spec.healthChecks.readinessPeriodSeconds", false);
     (gh_liveness_initial_delay h, "spec.healthChecks.livenessInitialDelaySeconds", true);
     (gh_liveness_period h, "spec.healthChecks.livenessPeriodSeconds", false)].

Definition validate_tuning (t : GatewayTuning Time ByteSize Ratio) : check :=
  if? on_some (gt_client_dispatch_queue_capacity t)
        (λ v, map_err (λ e, "spec.tuning.clientDispatchQueueCapacity: " +:+ e) (queue_capacity v)) in
  if? on_some (gt_client_frame_max t)
        (λ v, map_err (λ e, "spec.tuning.clientFrameMax: " +:+ e) (frame_max v)) in
  if? validate (gt_internal_topic_replication_factor t) (GreaterI16 0)
        "spec.tuning.internalTopicReplicationFactor" in
  if? validate_protocol_millis_i32 (gt_internal_topic_create_timeout t)
        "spec.tuning.internalTopicCreateTimeout" in
  if? validate_protocol_millis_i64 (gt_internal_topic_segment t) "spec.tuning.internalTopicSegment" in
  if? validate_internal_topic_dirty_ratio (gt_internal_topic_min_cleanable_dirty_ratio t) in
  if? validate (opt_map millis_u64 (gt_consumer_poll_timeout t)) (GreaterU64 0)
        "spec.tuning.consumerPollTimeout" in
  if? validate (gt_ownership_warmup_empty_polls t) (GreaterU32 0) "spec.tuning.ownershipWarmupEmptyPolls" in
  if? validate (opt_map millis_u64 (gt_readiness_poll_interval t)) (GreaterU64 0)
        "spec.tuning.readinessPollInterval" in
  if? validate_produce_max_body (gt_produce_max_body t) in
  validate_forward_max_body (gt_forward_max_body t).

Definition validate_registry (r : GatewaySchemaRegistrySpec Time) : check :=
  if? nonempty (gr_url r) "spec.schemaRegistry.url" in
  if? on_some (gr_url r) (λ url,
        match url_parse url with Ok _ => Ok tt | Err e => Err ("spec.schemaRegistry.url: " +:+ e) end) in
  validate (opt_map millis_u64 (gr_latest_cache_ttl r)) (GreaterU64 0) "spec.schemaRegistry.latestCacheTtl".

Definition validate_dedup (d : DedupSpec Time) : check :=
  if? nonempty (dd_topic d) "spec.dedup.topic" in
  if? validate (dd_partitions d) (MinMaxU32 1 2147483647) "spec.dedup.partitions" in
  if? validate_protocol_millis_i64 (dd_window d) "spec.dedup.window" in
  if? nonempty (dd_txn_id_prefix d) "spec.dedup.txnIdPrefix" in
  nonempty (dd_ownership_group d) "spec.dedup.ownershipGroup".

Definition validate_tls (t : GatewayTlsSpec Time) : check :=
  if? word (gtls_client_auth t) ["disabled"; "optional"; "required"]
        "spec.tls.clientAuth must be disabled, optional, or required" in
  if? validate (gtls_validity_days t) (GreaterU32 0) "spec.tls.validityDays" in
  validate (opt_map secs_u64 (gtls_reload_interval t)) (GreaterU64 0) "spec.tls.reloadInterval".

Definition validate_bearer (b : GatewayBearerSpec Time) : check :=
  if? word (gb_mode b) ["off"; "unsecured"] "spec.authz.bearer.mode must be off or unsecured" in
  if? nonempty (gb_principal_claim b) "spec.authz.bearer.principalClaim" in
  validate (opt_map millis_i64 (gb_allowable_clock_skew b)) (GreaterEqualI64 0)
    "spec.authz.bearer.allowableClockSkew".

Definition validate_authz (a : GatewayAuthzSpec Time) : check :=
  if? word (ga_mode a) ["off"; "simple"] "spec.authz.mode must be off or simple" in
  if? validate (opt_map secs_u64 (ga_acl_refresh a)) (GreaterU64 0) "spec.authz.aclRefresh" in
  if? check_all (λ u, nonempty (Some u) "spec.authz.superUsers") (ga_super_users a) in
  on_some (ga_bearer a) validate_bearer.

Definition validate_webhook_source (value path : string) : check :=
  if opt_is_some (strip_prefix "header:" value) then Ok tt
  else match strip_prefix "json:" value with
       | None => Err (path +:+ ": must start with 'header:' or 'json:'")
       | Some json_path =>
           map_err (λ e, path +:+ ": invalid JSONPath " +:+ debug_str json_path +:+ ": " +:+ e)
             (parse_json_path json_path)
       end.

(** *** How a webhook is authenticated *)
Definition validate_standard_webhooks (w : Webhook) : check :=
  if negb (opt_is_some (wh_secret_ref w)) then
    Err "spec.webhooks.secretRef is required for Standard Webhooks"
  else
    if? check_all (λ '(field, present),
          if present : bool
          then Err ("spec.webhooks." +:+ field +:+ " must be absent for Standard Webhooks") else Ok tt)
          [("signatureHeader", opt_is_some (wh_signature_header w));
           ("signatureEncoding", opt_is_some (wh_signature_encoding w));
           ("signaturePrefix", opt_is_some (wh_signature_prefix w));
           ("timestampHeader", opt_is_some (wh_timestamp_header w))] in
    if is_some_and (λ s, negb (str_eqb s "header:webhook-id")) (wh_idempotency_source w) then
      Err "spec.webhooks.idempotencySource must be header:webhook-id for Standard Webhooks"
    else Ok tt.

Definition reserved_headers : list string :=
  ["authorization"; "cookie"; "x-gitlab-token"; "webhook-signature"].

Definition validate_forward_header (w : Webhook) (name : string) : check :=
  let? header := map_err (λ e, "spec.webhooks.forwardHeaders: " +:+ e) (header_name name) in
  if existsb (str_eqb header) reserved_headers
     || is_some_and (λ s, eq_ignore_ascii_case s header) (wh_signature_header w)
  then Err ("spec.webhooks.forwardHeaders must not contain " +:+ name)
  else Ok tt.

Definition validate_webhook_auth (w : Webhook) : check :=
  if? match wh_signature_mode w with
      | Some mode =>
          if negb (str_eqb mode "standard_webhooks") then
            Err "spec.webhooks.signatureMode must be standard_webhooks"
          else validate_standard_webhooks w
      | None =>
          if xorb (opt_is_some (wh_secret_ref w)) (opt_is_some (wh_signature_header w)) then
            Err "spec.webhooks.secretRef and signatureHeader must be set together"
          else Ok tt
      end in
  check_all (validate_forward_header w) (default [] (wh_forward_headers w)).

Definition validate_webhook (w : Webhook) : check :=
  if? nonempty (Some (wh_name w)) "spec.webhooks.name" in
  if? nonempty (Some (wh_target_topic w)) "spec.webhooks.targetTopic" in
  if? word (wh_signature_encoding w) ["hex"; "base64"]
        "spec.webhooks.signatureEncoding must be hex or base64" in
  if? validate_webhook_auth w in
  if? on_some (wh_idempotency_source w) (λ v, validate_webhook_source v "spec.webhooks.idempotencySource") in
  if? on_some (wh_key_source w) (λ v, validate_webhook_source v "spec.webhooks.keySource") in
  if? validate (opt_map secs_i64 (wh_timestamp_tolerance w)) (GreaterEqualI64 0)
        "spec.webhooks.timestampTolerance" in
  if? validate (opt_map bytes_u64 (wh_max_body w)) (GreaterU64 0) "spec.webhooks.maxBody" in
  if? nonempty (wh_schema_subject w) "spec.webhooks.schemaSubject" in
  word (wh_schema_format w) ["avro"; "json"; "protobuf"]
    "spec.webhooks.schemaFormat must be avro, json, or protobuf".

(** *** Outbound subscriptions and targets *)
Definition validate_target_url (url : string) : check :=
  if? nonempty (Some url) "spec.outboundSubscriptions.targetUrl" in
  let? u := map_err (λ e, "spec.outboundSubscriptions.targetUrl: invalid URL: " +:+ e) (url_parse url) in
  match snd u with
  | None => Err "spec.outboundSubscriptions.targetUrl: URL has no host"
  | Some _ => Ok tt
  end.

Definition validate_filter (filter : string) : check :=
  match strip_prefix "json:" filter with
  | None => Err "spec.outboundSubscriptions.filter must start with 'json:'"
  | Some json_path =>
      map_err (λ e, "spec.outboundSubscriptions.filter: invalid JSONPath: " +:+ e) (parse_json_path json_path)
  end.

Definition validate_subscription (s : Subscription) : check :=
  if? nonempty (Some (ob_name s)) "spec.outboundSubscriptions.name" in
  if? validate_target_url (ob_target_url s) in
  if? check_all (λ t, nonempty (Some t) "spec.outboundSubscriptions.sourceTopics") (ob_source_topics s) in
  if? validate (ob_max_attempts s) (GreaterU32 0) "spec.outboundSubscriptions.maxAttempts" in
  if? validate (opt_map millis_u64 (ob_base_backoff s)) (GreaterU64 0)
        "spec.outboundSubscriptions.baseBackoff" in
  if? validate (opt_map millis_u64 (ob_max_backoff s)) (GreaterU64 0)
        "spec.outboundSubscriptions.maxBackoff" in
  if? validate (opt_map millis_u64 (ob_request_timeout s)) (GreaterU64 0)
        "spec.outboundSubscriptions.requestTimeout" in
  if? nonempty (ob_group_id s) "spec.outboundSubscriptions.groupId" in
  if? (if time_ltb (default DEFAULT_MAX_BACKOFF (ob_max_backoff s))
            (default DEFAULT_BASE_BACKOFF (ob_base_backoff s))
       then Err "spec.outboundSubscriptions.maxBackoff must be at least baseBackoff" else Ok tt) in
  on_some (ob_filter s) validate_filter.

Definition validate_target (t : AllowedTargetSpec) : check :=
  if? word (Some (at_scheme t)) ["http"; "https"] "spec.allowedTargets.scheme must be http or https" in
  nonempty (Some (at_host t)) "spec.allowedTargets.host".

Definition validate_outbound_config (spec : Spec) : check :=
  if? check_all validate_subscription (gw_outbound_subscriptions spec) in
  check_all validate_target (gw_allowed_targets spec).

Definition validate_telemetry (t : TelemetrySpec F64) : check :=
  if? nonempty (te_otlp_endpoint t) "spec.telemetry.otlpEndpoint" in
  if? word (te_otlp_protocol t) ["grpc"; "http"] "spec.telemetry.otlpProtocol must be grpc or http" in
  if is_some_and (λ r, negb (f64_in_unit r)) (te_sample_ratio t) then
    Err "spec.telemetry.sampleRatio must be finite and between 0 and 1"
  else Ok tt.

Definition validate_config (spec : Spec) : check :=
  if? validate (gw_replicas spec) (GreaterI32 0) "spec.replicas" in
  if? nonempty (gw_image spec) "spec.image" in
  if? nonempty (gw_membership_topic spec) "spec.membershipTopic" in
  if? on_some (gw_tuning spec) validate_tuning in
  if? on_some (gw_schema_registry spec) validate_registry in
  if? on_some (gw_health_checks spec) validate_health_checks in
  if? on_some (gw_dedup spec) validate_dedup in
  if? on_some (gw_tls spec) validate_tls in
  if? on_some (gw_authz spec) validate_authz in
  if? check_all validate_webhook (gw_webhooks spec) in
  if? validate_outbound_config spec in
  on_some (gw_telemetry spec) validate_telemetry.

(** ** Names and labels *)
Definition serving_secret_name (gw_name : string) : string := gw_name +:+ "-serving".
Definition broker_user_name (gw_name : string) : string := gw_name +:+ "-broker".
Definition config_secret_name (gw_name : string) : string := gw_name +:+ "-config".

Definition gateway_labels (parent_name gw_name : string) : gmap string string :=
  <["krabka.io/gateway" := gw_name]>
  (<["app.kubernetes.io/managed-by" := "krabka-operator"]>
  (<["app.kubernetes.io/instance" := parent_name]>
     {["app.kubernetes.io/name" := "krabka-grpc-gateway"]})).

(** [metadata] of an object of the gateway. *)
Definition gateway_object_meta (g : Gateway) (name : string) (namespace : option string)
    (labels : gmap string string) : result object_meta ReconcileError :=
  let? owner := owner_ref "KafkaGrpcGateway" (gw_meta g) in
  Ok {| om_name := Some name; om_namespace := namespace; om_uid := None; om_labels := Some labels;
        om_annotations := None; om_finalizers := None; om_generation := None; om_deleting := false;
        om_owners := [owner] |}.

(** ** Arguments *)
Definition arg (flag value : string) : string := flag +:+ "=" +:+ value.

Definition dedup_args (d : option (DedupSpec Time)) (gw_name : string) : list string :=
  [arg "--dedup-topic" (default (gw_name +:+ "-dedup") (and_then d dd_topic));
   arg "--dedup-partitions" (display_Z (default 8 (and_then d dd_partitions)));
   arg "--dedup-window" (human_time (default DEFAULT_DEDUP_WINDOW (and_then d dd_window)));
   arg "--dedup-txn-id-prefix" (default gw_name (and_then d dd_txn_id_prefix));
   arg "--dedup-ownership-group" (default (gw_name +:+ "-dedup-owners") (and_then d dd_ownership_group))].

Definition tls_args (t : option (GatewayTlsSpec Time)) (broker_sni : string) : list string :=
  [arg "--tls-cert" (SERVING_DIR +:+ "/tls.crt");
   arg "--tls-key" (SERVING_DIR +:+ "/tls.key");
   arg "--tls-client-ca" (CLIENTS_CA_DIR +:+ "/ca.crt");
   arg "--tls-trust-roots" (CLUSTER_CA_DIR +:+ "/ca.crt");
   arg "--tls-client-auth" (default "required" (and_then t gtls_client_auth));
   arg "--broker-tls-cert" (BROKER_CLIENT_DIR +:+ "/user.crt");
   arg "--broker-tls-key" (BROKER_CLIENT_DIR +:+ "/user.key");
   arg "--broker-tls-ca" (CLUSTER_CA_DIR +:+ "/ca.crt");
   arg "--broker-tls-server-name" broker_sni].

Definition authz_args (a : option (GatewayAuthzSpec Time)) : list string :=
  let bearer := and_then a ga_bearer in
  [arg "--authz" (default "simple" (and_then a ga_mode));
   arg "--authz-super-users" (from_option (λ a, join "," (ga_super_users a)) "" a);
   arg "--acl-refresh-interval" (human_time (default DEFAULT_ACL_REFRESH (and_then a ga_acl_refresh)));
   arg "--bearer" (default "off" (and_then bearer gb_mode));
   arg "--bearer-principal-claim" (default "sub" (and_then bearer gb_principal_claim))].

Definition tuning_args (t : GatewayTuning Time ByteSize Ratio) : list string :=
  opt_arg "--internal-topic-replication-factor" display_Z (gt_internal_topic_replication_factor t)
  ++ opt_arg "--internal-topic-allow-replication-fallback" display_bool
       (gt_internal_topic_allow_replication_fallback t)
  ++ opt_arg "--internal-topic-create-timeout" human_time (gt_internal_topic_create_timeout t)
  ++ opt_arg "--internal-topic-segment" human_time (gt_internal_topic_segment t)
  ++ opt_arg "--internal-topic-min-cleanable-dirty-ratio" human_ratio
       (gt_internal_topic_min_cleanable_dirty_ratio t)
  ++ opt_arg "--consumer-poll-timeout" human_time (gt_consumer_poll_timeout t)
  ++ opt_arg "--ownership-warmup-empty-polls" display_Z (gt_ownership_warmup_empty_polls t)
  ++ opt_arg "--readiness-poll-interval" human_time (gt_readiness_poll_interval t)
  ++ opt_arg "--produce-max-body" human_size (gt_produce_max_body t)
  ++ opt_arg "--forward-max-body" human_size (gt_forward_max_body t)
  ++ opt_arg "--client-dispatch-queue-capacity" display_Z (gt_client_dispatch_queue_capacity t)
  ++ opt_arg "--client-frame-max" (λ v, display_Z (bytes_u64 v) +:+ "B") (gt_client_frame_max t).

Definition registry_args (r : GatewaySchemaRegistrySpec Time) : list string :=
  opt_arg "--schema-registry-url" id (gr_url r)
  ++ opt_arg "--schema-registry-latest-cache-ttl" human_time (gr_latest_cache_ttl r)
  ++ opt_arg "--schema-registry-frame-raw" display_bool (gr_frame_raw r).

(** The arguments before they are sorted. *)
Definition unsorted_args (g : Gateway) (gw_name bootstrap broker_sni : string) : list string :=
  let spec := gw_spec g in
  [arg "--bootstrap-servers" bootstrap;
   arg "--listen-addr" ("0.0.0.0:" +:+ display_Z GATEWAY_PORT);
   arg "--advertised-addr" ("$(POD_IP):" +:+ display_Z GATEWAY_PORT)]
  ++ dedup_args (gw_dedup spec) gw_name
  ++ tls_args (gw_tls spec) broker_sni
  ++ authz_args (gw_authz spec)
  ++ [arg "--webhooks-config" (CONFIG_DIR +:+ "/webhooks.toml");
      arg "--outbound-webhooks-config" (CONFIG_DIR +:+ "/outbound.toml")]
  ++ opt_arg "--membership-topic" id (gw_membership_topic spec)
  ++ opt_arg "--tls-reload-interval" human_time (and_then (gw_tls spec) gtls_reload_interval)
  ++ opt_arg "--bearer-allowable-clock-skew" human_time
       (and_then (and_then (gw_authz spec) ga_bearer) gb_allowable_clock_skew)
  ++ from_option tuning_args [] (gw_tuning spec)
  ++ from_option registry_args [] (gw_schema_registry spec).

Definition gateway_args (g : Gateway) (gw_name bootstrap broker_sni : string) : list string :=
  sort_by str_leb (unsorted_args g gw_name bootstrap broker_sni).

(** ** The Deployment and the Service *)
Definition telemetry_env (t : TelemetrySpec F64) : list EnvVar :=
  from_option (λ ep, [env_val "KRABKA_OTLP_ENABLED" "true"; env_val "KRABKA_OTLP_ENDPOINT" ep]) []
    (te_otlp_endpoint t)
  ++ from_option (λ p, [env_val "KRABKA_OTLP_PROTOCOL" (if str_eqb p "http" then "http/protobuf" else "grpc")])
       [] (te_otlp_protocol t)
  ++ from_option (λ r, [env_val "KRABKA_OTLP_SAMPLE_RATIO" (display_f64 r)]) [] (te_sample_ratio t).

Definition gateway_env (g : Gateway) : list EnvVar :=
  [env_ref "POD_NAME" (FieldRef "metadata.name");
   env_ref "POD_IP" (FieldRef "status.podIP");
   env_ref "POD_NAMESPACE" (FieldRef "metadata.namespace");
   env_val "KRABKA_GATEWAY_CLIENT_ID" "$(POD_NAME)"]
  ++ from_option telemetry_env [] (gw_telemetry (gw_spec g)).

Definition gateway_volumes (parent_name gw_name : string) : list Volume :=
  let secret n s := {| vol_name := n; vol_source := SecretVolume s None (Some 256) |} in
  [secret "serving" (serving_secret_name gw_name);
   secret "broker-client" (broker_user_name gw_name);
   secret "cluster-ca" (cluster_ca_cert_name parent_name);
   secret "clients-ca" (parent_name +:+ "-clients-ca-cert");
   secret "config" (config_secret_name gw_name)].

Definition gateway_mounts : list VolumeMount :=
  let mount n p := {| vm_name := n; vm_path := p; vm_read_only := true |} in
  [mount "serving" SERVING_DIR; mount "broker-client" BROKER_CLIENT_DIR;
   mount "cluster-ca" CLUSTER_CA_DIR; mount "clients-ca" CLIENTS_CA_DIR; mount "config" CONFIG_DIR].

Definition default_gateway_resources : ResourceRequirements :=
  {| rr_requests := Some (cpu_memory "100m" "128Mi"); rr_limits := Some (cpu_memory "1000m" "512Mi");
     rr_claims := None |}.

Definition gateway_container (g : Gateway) (image : string) (args : list string) : Container :=
  let checks (f : GatewayHealthChecks → option Z) d :=
    default d (and_then (gw_health_checks (gw_spec g)) f) in
  let probe path delay period := {| pr_handler := HttpGet path GATEWAY_PORT; pr_initial_delay := Some delay;
                                    pr_period := Some period; pr_failure_threshold := None |} in
  {| c_name := "gateway"; c_image := Some image; c_command := None; c_args := Some args;
     c_env := Some (gateway_env g);
     c_ports := Some [{| cp_port := GATEWAY_PORT; cp_name := Some "grpc"; cp_protocol := Some "TCP" |}];
     c_mounts := Some gateway_mounts;
     c_readiness := Some (probe "/readyz" (checks gh_readiness_initial_delay 2) (checks gh_readiness_period 5));
     c_liveness := Some (probe "/healthz" (checks gh_liveness_initial_delay 10) (checks gh_liveness_period 10));
     c_startup := None; c_resources := Some (default default_gateway_resources (gw_resources (gw_spec g)));
     c_security := Some locked_down |}.

Definition gateway_pod (main : Container) (vols : list Volume) : PodSpec :=
  {| init_containers := None; containers := [main]; node_name := None; volumes := Some vols;
     security_context := Some {| psc_run_as_non_root := Some true; psc_run_as_user := Some 65532;
       psc_fs_group := Some 65532;
       psc_seccomp := Some {| profile_type := RuntimeDefault; localhost_profile := None |} |};
     termination_grace_period := None; topology_spread := None; affinity := None; tolerations := None;
     node_selector := None |}.

Definition desired_replicas (g : Gateway) : Z := default DEFAULT_REPLICAS (gw_replicas (gw_spec g)).

Definition deployment (g : Gateway) (parent_name image bootstrap broker_sni : string)
  : result Deployment ReconcileError :=
  let gw_name := name_any (gw_meta g) in
  let labels := gateway_labels parent_name gw_name in
  let? meta := gateway_object_meta g gw_name (Some (default "" (om_namespace (gw_meta g)))) labels in
  Ok {| dep_meta := meta;
        dep_spec := Some {|
          dep_replicas := Some (desired_replicas g); dep_strategy := None; dep_selector := labels;
          dep_template := {| tpl_meta := Some (template_meta labels None);
            tpl_spec := Some (gateway_pod
              (gateway_container g image (gateway_args g gw_name bootstrap broker_sni))
              (gateway_volumes parent_name gw_name)) |} |};
        dep_status_ready := None |}.

Definition service (g : Gateway) (parent_name : string) : result Service ReconcileError :=
  let gw_name := name_any (gw_meta g) in
  let labels := gateway_labels parent_name gw_name in
  let? meta := gateway_object_meta g gw_name (om_namespace (gw_meta g)) labels in
  Ok {| svc_meta := meta;
        svc_spec := Some {| svc_type := Some "ClusterIP"; svc_cluster_ip := None;
          svc_publish_not_ready_addresses := None; svc_selector := labels;
          svc_ports := Some [tcp_port "grpc" GATEWAY_PORT None]; svc_load_balancer_ip := None |};
        svc_ingress := None |}.

(** ** The webhook documents

    A [serde_json::Map] keeps its keys in order. *)
Definition object (fields : list (string * json)) : json :=
  JObject (sort_by (λ a b, str_leb a.1 b.1) fields).
Definition field {A} (key : string) (to_json : A → json) (v : option A) : list (string * json) :=
  from_option (λ v, [(key, to_json v)]) [] v.
Definition strings (l : list string) : json := JArray (map JString l).
Definition human_field (key : string) (v : option Time) : list (string * json) :=
  field key (λ v, JString (human_time v)) v.

Definition webhook_endpoint (resolved : gmap string string) (w : Webhook) : json :=
  object
    ([("name", JString (wh_name w)); ("target_topic", JString (wh_target_topic w))]
     ++ field "principal" JString (wh_principal w)
     ++ field "secret" JString (resolved !! wh_name w)
     ++ field "signature_mode" JString (wh_signature_mode w)
     ++ field "forward_headers" strings (wh_forward_headers w)
     ++ field "signature_header" JString (wh_signature_header w)
     ++ field "signature_encoding" JString (wh_signature_encoding w)
     ++ field "signature_prefix" JString (wh_signature_prefix w)
     ++ field "timestamp_header" JString (wh_timestamp_header w)
     ++ human_field "timestamp_tolerance" (wh_timestamp_tolerance w)
     ++ field "idempotency_source" JString (wh_idempotency_source w)
     ++ field "key_source" JString (wh_key_source w)
     ++ field "max_body" (λ v, JString (human_size v)) (wh_max_body w)
     ++ field "schema_subject" JString (wh_schema_subject w)
     ++ field "schema_format" JString (wh_schema_format w)).

Definition webhooks_doc (g : Gateway) (resolved : gmap string string) : json :=
  object [("endpoints", JArray (map (webhook_endpoint resolved) (gw_webhooks (gw_spec g))))].

Definition render_webhooks_toml (g : Gateway) (resolved : gmap string string) : result string ReconcileError :=
  map_err (λ e, Malformed ("webhooks.toml: " +:+ e)) (toml_to_string (webhooks_doc g resolved)).

Definition outbound_subscription (resolved : gmap string string) (s : Subscription) : json :=
  object
    ([("name", JString (ob_name s)); ("source_topics", strings (ob_source_topics s));
      ("target_url", JString (ob_target_url s))]
     ++ field "signing_secret" JString (resolved !! ob_name s)
     ++ field "dead_letter_topic" JString (ob_dead_letter_topic s)
     ++ field "max_attempts" (λ n, JNumber (Some n)) (ob_max_attempts s)
     ++ human_field "base_backoff" (ob_base_backoff s)
     ++ human_field "max_backoff" (ob_max_backoff s)
     ++ human_field "request_timeout" (ob_request_timeout s)
     ++ field "group_id" JString (ob_group_id s)
     ++ field "decode_to_json" JBool (ob_decode_to_json s)
     ++ field "filter" JString (ob_filter s)
     ++ (if bool_decide (ob_headers s = ∅) then []
         else [("headers", object (map (λ '(k, v), (k, JString v)) (map_to_list (ob_headers s))))])).

(** *** The targets that the gateway may call *)
Definition push_target (out : list (string * string)) (t : string * string) : list (string * string) :=
  if existsb (λ o, str_eqb o.1 t.1 && str_eqb o.2 t.2) out then out else out ++ [t].

Definition subscription_target (s : Subscription) : option (string * string) :=
  match url_parse (ob_target_url s) with
  | Ok (scheme, Some host) => Some (to_ascii_lowercase scheme, host)
  | _ => None
  end.

Definition allowed_targets (g : Gateway) : list (string * string) :=
  let derived := fold_left (λ out s, from_option (push_target out) out (subscription_target s))
                   (gw_outbound_subscriptions (gw_spec g)) [] in
  fold_left (λ out a, push_target out (at_scheme a, at_host a)) (gw_allowed_targets (gw_spec g)) derived.

Definition derive_allowed_targets (g : Gateway) : list json :=
  map (λ '(scheme, host), object [("scheme", JString scheme); ("host", JString host)]) (allowed_targets g).

Definition outbound_doc (g : Gateway) (resolved : gmap string string) : json :=
  object [("subscriptions",
            JArray (map (outbound_subscription resolved) (gw_outbound_subscriptions (gw_spec g))));
          ("allowed_targets", JArray (derive_allowed_targets g))].

Definition render_outbound_toml (g : Gateway) (resolved : gmap string string) : result string ReconcileError :=
  map_err (λ e, Malformed ("outbound.toml: " +:+ e)) (toml_to_string (outbound_doc g resolved)).

Definition config_secret (g : Gateway) (webhook_secrets outbound_secrets : gmap string string)
  : result secret ReconcileError :=
  let gw_name := name_any (gw_meta g) in
  let? webhooks_toml := render_webhooks_toml g webhook_secrets in
  let? outbound_toml := render_outbound_toml g outbound_secrets in
  let? meta := gateway_object_meta g (config_secret_name gw_name) (om_namespace (gw_meta g))
                 (gateway_labels (default gw_name (label (gw_meta g) "krabka.io/cluster")) gw_name) in
  Ok (Secret meta (Some (<["outbound.toml" := outbound_toml]> {["webhooks.toml" := webhooks_toml]}))).

(** ** The broker user, the version gate and the broker endpoint *)
Definition broad_acl (k : AclResourceKind) (name : string) : AclRule :=
  {| resource := {| kind := k; res_name := name; pattern_type := Literal |}; operations := [OpAll];
     rule_host := "*"; permission := Allow |}.

Definition child_kafkauser (g : Gateway) (parent_name : string) : result KafkaUser ReconcileError :=
  let gw_name := name_any (gw_meta g) in
  let acls := [broad_acl Topic "*"; broad_acl Group "*"; broad_acl TransactionalId "*";
               broad_acl Cluster "kafka-cluster"] in
  let? meta := gateway_object_meta g (broker_user_name gw_name) (om_namespace (gw_meta g))
                 (<["krabka.io/gateway" := gw_name]> {["krabka.io/cluster" := parent_name]}) in
  Ok {| u_meta := meta;
        u_spec := {| authentication := Tls {| auth_validity_days := None; auth_renewal_days := None |};
                     authorization := Some (UserAcl.Simple {| UserAcl.acls := acls |}); quotas := None |};
        u_status := None |}.

Definition version_gate (ts : string) (parent : Kafka) : option KafkaCondition :=
  match parent_version_gate (k_status parent) with
  | Cleared => None
  | VersionInvalid c =>
      Some (condition ts "Ready" "False" "KafkaVersionInvalid"
        ("refusing to deploy gateway: parent Kafka '" +:+ name_any (k_meta parent) +:+ "' KafkaVersionValid="
         +:+ status c +:+ " (" +:+ reason c +:+ "): " +:+ message c))
  | VersionWaiting =>
      Some (condition ts "Ready" "False" "WaitingForVersionValidation"
        ("waiting for parent Kafka '" +:+ name_any (k_meta parent)
         +:+ "' to publish a KafkaVersionValid verdict before deploying the gateway"))
  end.

Definition mtls_listener (l : Listener Time) : bool :=
  bool_decide (l_type l = Internal) && l_tls l
  && match l_authentication l with Some AuthTls => true | _ => false end.

Definition resolve_broker_endpoint (parent : Kafka) (namespace : string) : option (string * string) :=
  and_then (k_status parent) (λ st,
    and_then (find_first mtls_listener (k_listeners (k_spec parent))) (λ l,
      and_then (find_first (λ s, str_eqb (ls_name s) (l_name l)) (kst_listeners st)) (λ s,
        Some (bootstrap_servers s,
              name_any (k_meta parent) +:+ "-broker-headless." +:+ namespace +:+ ".svc.cluster.local")))).
End gateway.
