(* ===== verification/GatewayPass.v ===== *)
(** * The gateway pass (src/controller/grpc_gateway.rs)

    One pass of the KafkaGrpcGateway controller: validation, the parent cluster and its
    version verdict, the broker user, the serving certificate, the Secrets that webhooks
    refer to, the configuration Secret, the Deployment, the Service and the status. *)

From S2P Require Import Prelude RustStd Effects Kube Workload CaBundle ClusterCa Toml Tuning.
From S2P Require Import BrokerKeystore Listeners ListenerCheck NodePool ListenerObjects KafkaSpec.
From S2P Require Import DelegationToken UserTls UserAcl Gateway.
Local Open Scope Z_scope.

Section pass.
Context {Time ByteSize Ratio F64 IpAddr : Type} `{TimeOps Time} `{SizeOps ByteSize} `{RatioOps Ratio}.
Context `{Ext : !GatewayExt Time ByteSize Ratio F64} `{X509}.
#[local] Notation Kafka := (Kafka Time ByteSize Ratio F64).
#[local] Notation KafkaUser := (UserAcl.KafkaUser Time F64).
#[local] Notation Gateway := (KafkaGrpcGateway Time ByteSize Ratio F64).
#[local] Notation San := (SubjectAltName IpAddr).

Inductive gateway_call : Type :=
  | GetKafka (name : string)
  | ApplyUser (name : string) (u : KafkaUser)
  | GetSecret (name : string)
  | ApplySecret (name : string) (s : secret)
  | NowUtc
  | IssueBrokerCert (ca_cert ca_key cn : string) (base_sans extra_sans : list San) (validity_days : Z)
  | ApplyDeployment (name : string) (d : Deployment)
  | ApplyService (name : string) (s : Service)
  | GetDeployment (name : string)
  | PatchGatewayStatus (name : string) (s : KafkaGrpcGatewayStatus).

Definition gateway_resp (c : gateway_call) : Type :=
  match c with
  | GetKafka _ => result (option Kafka) kube_error
  | GetSecret _ => result (option secret) kube_error
  | GetDeployment _ => result (option Deployment) kube_error
  | NowUtc => Z
  | IssueBrokerCert _ _ _ _ _ _ => result (string * string) string   (* certificate, key *)
  | ApplyUser _ _ | ApplySecret _ _ | ApplyDeployment _ _ | ApplyService _ _ | PatchGatewayStatus _ _ =>
      result unit kube_error
  end.

Record gateway_config : Type := {
  controller_error_requeue : Time;
  controller_dependency_requeue : Time;
  default_gateway_image : option string;
}.

#[local] Notation pass R := (prog gateway_resp (result R ReconcileError)).
#[local] Notation call := (perform (resp := gateway_resp)).
Definition kube {A} (p : prog gateway_resp (result A kube_error)) : pass A := r ← p; Ret (map_err Kube r).

(** A value of pure code, in a pass. *)
Definition pure {A} (r : result A ReconcileError) : pass A := Ret r.

Context (cfg : gateway_config) (ts : string) (gw : Gateway).
Let ns : string := namespace_or_default (gw_meta gw).
Let name : string := name_any (gw_meta gw).

(** ** The serving certificate *)
Definition base_sans : list San :=
  [Dns (name +:+ "." +:+ ns +:+ ".svc"); Dns (name +:+ "." +:+ ns +:+ ".svc.cluster.local"); Dns name].

Definition serving_secret (parent_name cert_pem key_pem : string) : result secret ReconcileError :=
  let? meta := gateway_object_meta gw (serving_secret_name name) (Some ns) (gateway_labels parent_name name) in
  Ok (Secret meta (Some (<["tls.key" := key_pem]> {["tls.crt" := cert_pem]}))).

(** A certificate that cannot be read is as good as expired. *)
Definition is_current (existing : option secret) (now : Z) : bool :=
  is_some_and (λ s, is_some_and (λ pem,
      match renew_if_expiring pem (days 30 : Time) now with Ok due => negb due | Err _ => false end)
    (read_pem_key s "tls.crt")) existing.

Definition load_ca (parent_name : string) : pass (string * string) :=
  let key_name := cluster_ca_key_name parent_name in
  let cert_name := cluster_ca_cert_name parent_name in
  key_secret ←? kube (call (GetSecret key_name));
  match key_secret with
  | None => Ret (Err (CaSecretMissing key_name))
  | Some key_secret =>
      cert_secret ←? kube (call (GetSecret cert_name));
      match cert_secret with
      | None => Ret (Err (CaSecretMissing cert_name))
      | Some cert_secret =>
          Ret (let? key := ok_or (read_pem_key key_secret "ca.key")
                             (CertParse (key_name +:+ " ca.key unreadable")) in
               let? cert := ok_or (read_pem_key cert_secret "ca.crt")
                              (CertParse (cert_name +:+ " ca.crt unreadable")) in
               Ok (cert, key))
      end
  end.

Definition validity : Z := default DEFAULT_VALIDITY_DAYS (and_then (gw_tls (gw_spec gw)) gtls_validity_days).

Definition issue_serving_cert (parent_name : string) : pass unit :=
  ca ←? load_ca parent_name;
  leaf ← call (IssueBrokerCert (fst ca) (snd ca) name base_sans [] validity);
  match leaf with
  | Err e => Ret (Err (Ca e))
  | Ok (cert_pem, key_pem) =>
      s ←? pure (serving_secret parent_name cert_pem key_pem);
      kube (call (ApplySecret (serving_secret_name name) s))
  end.

Definition ensure_serving_cert (parent_name : string) : pass unit :=
  now ← call NowUtc;
  existing ←? kube (call (GetSecret (serving_secret_name name)));
  if is_current existing now then Ret (Ok tt) else issue_serving_cert parent_name.

(** ** The Secrets that webhooks refer to *)
Definition secret_ref_value (r : SecretKeyRef) (s : option secret) : result string ReconcileError :=
  let? s := ok_or s (Malformed ("secretRef Secret '" +:+ skr_name r +:+ "' not found")) in
  let? b := ok_or (and_then (sec_data s) (λ d, d !! skr_key r))
              (Malformed ("secretRef Secret '" +:+ skr_name r +:+ "' has no key '" +:+ skr_key r +:+ "'")) in
  map_err (λ e, Malformed ("secretRef Secret '" +:+ skr_name r +:+ "' key '" +:+ skr_key r +:+ "': " +:+ e))
    (from_utf8 b).

Definition resolve_secret_ref (r : SecretKeyRef) : pass string :=
  s ←? kube (call (GetSecret (skr_name r))); pure (secret_ref_value r s).

(** Names with their references, in order; the last one of a name stays. *)
Fixpoint resolve_refs (refs : list (string * option SecretKeyRef)) (acc : gmap string string)
  : pass (gmap string string) :=
  match refs with
  | [] => Ret (Ok acc)
  | (_, None) :: refs => resolve_refs refs acc
  | (n, Some r) :: refs => v ←? resolve_secret_ref r; resolve_refs refs (<[n := v]> acc)
  end.

Definition webhook_refs : list (string * option SecretKeyRef) :=
  map (λ w, (wh_name w, wh_secret_ref w)) (gw_webhooks (gw_spec gw)).
Definition outbound_refs : list (string * option SecretKeyRef) :=
  map (λ s, (ob_name s, ob_signing_secret_ref s)) (gw_outbound_subscriptions (gw_spec gw)).

Definition resolve_all_secret_refs : pass (gmap string string * gmap string string) :=
  webhook_secrets ←? resolve_refs webhook_refs ∅;
  outbound_secrets ←? resolve_refs outbound_refs ∅;
  Ret (Ok (webhook_secrets, outbound_secrets)).

(** ** Statuses *)
Definition patch_conditions (conditions : list KafkaCondition) : pass unit :=
  kube (call (PatchGatewayStatus name
    {| gws_conditions := conditions; gws_observed_generation := om_generation (gw_meta gw);
       gws_ready_replicas := None |})).

Definition stop_with (conditions : list KafkaCondition) (delay : Time) : pass (action Time) :=
  _ ←? patch_conditions conditions; Ret (Ok (Requeue delay)).

Definition ready_false (reason message : string) : KafkaCondition :=
  condition ts "Ready" "False" reason message.

(** ** The pass *)
Definition image : string :=
  default DEFAULT_GATEWAY_IMAGE (or_else (gw_image (gw_spec gw)) (default_gateway_image cfg)).

Definition final_status (ready_replicas : option Z) : KafkaGrpcGatewayStatus :=
  let desired := display_Z (desired_replicas gw) in
  let seen := default 0 ready_replicas in
  let '(value, reason, message) :=
    if seen =? desired_replicas gw
    then ("True", "Available", desired +:+ " gateway replica(s) ready")
    else ("False", "Progressing", display_Z seen +:+ "/" +:+ desired +:+ " gateway replica(s) ready") in
  {| gws_conditions := [condition ts "Ready" value reason message;
                        condition ts "CertReady" "True" "Issued" "serving + broker-client certs present"];
     gws_observed_generation := om_generation (gw_meta gw);
     gws_ready_replicas := ready_replicas |}.

Definition deploy (parent_name bootstrap broker_sni : string) : pass (action Time) :=
  dep ←? pure (deployment gw parent_name image bootstrap broker_sni);
  _ ←? kube (call (ApplyDeployment name dep));
  svc ←? pure (service gw parent_name);
  _ ←? kube (call (ApplyService name svc));
  live ←? kube (call (GetDeployment name));
  _ ←? kube (call (PatchGatewayStatus name (final_status (and_then live dep_status_ready))));
  Ret (Ok (Requeue (controller_dependency_requeue cfg))).

Definition configure (parent_name : string) (parent : Kafka) : pass (action Time) :=
  _ ←? ensure_serving_cert parent_name;
  secrets ←? resolve_all_secret_refs;
  config ←? pure (config_secret gw (fst secrets) (snd secrets));
  _ ←? kube (call (ApplySecret (config_secret_name name) config));
  match resolve_broker_endpoint parent ns with
  | None =>
      stop_with
        [ready_false "NoTlsListener"
           ("no internal TLS listener with authentication=tls found on Kafka '" +:+ parent_name
            +:+ "'; the gateway requires mTLS to the broker");
         condition ts "Degraded" "True" "NoTlsListener"
           ("Kafka '" +:+ parent_name +:+ "' exposes no internal TLS+mTLS listener for the gateway to dial")]
        (controller_dependency_requeue cfg)
  | Some (bootstrap, broker_sni) => deploy parent_name bootstrap broker_sni
  end.

Definition reconcile_parent (parent_name : string) (parent : Kafka) : pass (action Time) :=
  match version_gate ts parent with
  | Some c =>
      stop_with [c; condition ts "KafkaVersionValid" "False" (reason c) (message c)]
        (controller_dependency_requeue cfg)
  | None =>
      let user_name := broker_user_name name in
      user ←? pure (child_kafkauser gw parent_name);
      _ ←? kube (call (ApplyUser user_name user));
      client_cert ←? kube (call (GetSecret user_name));
      match client_cert with
      | None =>
          stop_with
            [ready_false "WaitingForBrokerCert" "waiting for the gateway's broker-mTLS client cert";
             condition ts "CertReady" "False" "WaitingForBrokerCert"
               ("child KafkaUser '" +:+ user_name
                +:+ "' has not yet been issued its broker-client cert Secret")]
            (controller_error_requeue cfg)
      | Some _ => configure parent_name parent
      end
  end.

Definition reconcile_inner : pass (action Time) :=
  match validate_config (gw_spec gw) with
  | Err why =>
      _ ←? patch_conditions [ready_false "GatewayConfigInvalid" why];
      Ret (Err (GatewayConfigInvalid why))
  | Ok _ =>
      match label (gw_meta gw) "krabka.io/cluster" with
      | None =>
          stop_with
            [ready_false "MissingClusterLabel"
               ("metadata.labels." +:+ quote +:+ "krabka.io/cluster" +:+ quote
                +:+ " is required to link a gateway to its parent Kafka")]
            (controller_dependency_requeue cfg)
      | Some parent_name =>
          parent ←? kube (call (GetKafka parent_name));
          match parent with
          | None =>
              stop_with
                [ready_false "ParentNotFound"
                   ("Kafka '" +:+ parent_name +:+ "' not found in namespace '" +:+ ns +:+ "'")]
                (controller_dependency_requeue cfg)
          | Some parent => reconcile_parent parent_name parent
          end
      end
  end.
End pass.
