(* ===== verification/GatewayFacts.v ===== *)
(** * What the gateway pass guarantees (src/controller/grpc_gateway.rs)

    The order in which its objects appear and what the status says; how webhooks are
    authenticated in the configuration that the gateway reads; the targets it may call;
    its pods, its user and the names in its certificate. *)

From S2P Require Import Prelude RustStd Effects Kube Workload CaBundle ClusterCa Toml Tuning.
From S2P Require Import RebalancerClient BrokerKeystore Listeners ListenerCheck NodePool ListenerObjects KafkaSpec.
From S2P Require Import DelegationToken UserTls UserAcl Connector ConnectorFacts Gateway GatewayPass.
Local Open Scope Z_scope.

(** ** References by name: the last one counts *)
Definition ref_of (n : string) (refs : list (string * option SecretKeyRef)) : option SecretKeyRef :=
  and_then (find_last (λ r, str_eqb r.1 n && opt_is_some r.2) refs) snd.

Section safety.
Context {Time ByteSize Ratio F64 IpAddr : Type} `{TimeOps Time} `{SizeOps ByteSize} `{RatioOps Ratio}.
Context `{Ext : !GatewayExt Time ByteSize Ratio F64} `{X509}.
Context (cfg : gateway_config (Time := Time)) (ts : string).
Context (gw : KafkaGrpcGateway Time ByteSize Ratio F64).
#[local] Notation gresp := (gateway_resp (Time := Time) (ByteSize := ByteSize) (Ratio := Ratio) (F64 := F64)
  (IpAddr := IpAddr)).
#[local] Notation log := (list (event gresp)).
#[local] Notation gev := (ev (resp := gresp)).
#[local] Notation Kafka := (Kafka Time ByteSize Ratio F64).
Let ns : string := namespace_or_default (gw_meta gw).
Let name : string := name_any (gw_meta gw).
Implicit Types (h : log).

(** ** What a pass has established *)

(** A serving certificate that is good for another thirty days was found, or one was
    issued for the names of the Service by the cluster CA of the parent and applied. *)
Definition serving_ok h (parent : string) : Prop :=
  (∃ s pem now, gev (GetSecret (serving_secret_name name)) (Ok (Some s)) ∈ h ∧ gev NowUtc now ∈ h ∧
     read_pem_key s "tls.crt" = Some pem ∧ renew_if_expiring pem (days 30 : Time) now = Ok false) ∨
  ∃ ks cs ca_key ca_cert cert key s,
    gev (GetSecret (cluster_ca_key_name parent)) (Ok (Some ks)) ∈ h ∧ read_pem_key ks "ca.key" = Some ca_key ∧
    gev (GetSecret (cluster_ca_cert_name parent)) (Ok (Some cs)) ∈ h ∧ read_pem_key cs "ca.crt" = Some ca_cert ∧
    gev (IssueBrokerCert ca_cert ca_key name (base_sans gw) [] (validity gw)) (Ok (cert, key)) ∈ h ∧
    serving_secret gw parent cert key = Ok s ∧
    gev (ApplySecret (serving_secret_name name) s) (Ok tt) ∈ h.

(** The value of a reference, as the Secret had it. *)
Definition ref_read h (r : SecretKeyRef) (v : string) : Prop :=
  ∃ s b, gev (GetSecret (skr_name r)) (Ok (Some s)) ∈ h ∧
    and_then (sec_data s) (λ d, d !! skr_key r) = Some b ∧ from_utf8 b = Ok v.

Definition refs_resolved h (refs : list (string * option SecretKeyRef)) (m : gmap string string) : Prop :=
  ∀ n, match m !! n with
       | Some v => ∃ r, ref_of n refs = Some r ∧ ref_read h r v
       | None => ref_of n refs = None
       end.

Definition config_ok h : Prop :=
  ∃ webhooks outbound s, refs_resolved h (webhook_refs gw) webhooks ∧ refs_resolved h (outbound_refs gw) outbound ∧
    config_secret gw webhooks outbound = Ok s ∧ gev (ApplySecret (config_secret_name name) s) (Ok tt) ∈ h.

(** The listener that the gateway dials lets it in by its certificate. *)
Definition endpoint_ok (parent : Kafka) (bootstrap sni : string) : Prop :=
  ∃ l st s, l ∈ k_listeners (k_spec parent) ∧ l_type l = Internal ∧ l_tls l = true ∧
    l_authentication l = Some AuthTls ∧ k_status parent = Some st ∧ s ∈ kst_listeners st ∧
    ls_name s = l_name l ∧ bootstrap = bootstrap_servers s ∧
    sni = name_any (k_meta parent) +:+ "-broker-headless." +:+ ns +:+ ".svc.cluster.local".

(** The parent's version is cleared, and the gateway's user has its certificate. *)
Definition admitted h (parent_name : string) (parent : Kafka) : Prop :=
  validate_config (gw_spec gw) = Ok tt ∧ label (gw_meta gw) "krabka.io/cluster" = Some parent_name ∧
  gev (GetKafka parent_name) (Ok (Some parent)) ∈ h ∧ parent_version_gate (k_status parent) = Cleared.

Definition user_ok h (parent_name : string) : Prop :=
  ∃ user s, child_kafkauser gw parent_name = Ok user ∧
    gev (ApplyUser (broker_user_name name) user) (Ok tt) ∈ h ∧
    gev (GetSecret (broker_user_name name)) (Ok (Some s)) ∈ h.

Definition deployment_ok h (d : Deployment) : Prop :=
  ∃ parent_name parent bootstrap sni, admitted h parent_name parent ∧ user_ok h parent_name ∧
    serving_ok h parent_name ∧ config_ok h ∧ endpoint_ok parent bootstrap sni ∧
    deployment gw parent_name (image cfg gw) bootstrap sni = Ok d.

Definition running h : Prop :=
  ∃ d parent_name svc live, deployment_ok h d ∧ gev (ApplyDeployment name d) (Ok tt) ∈ h ∧
    service gw parent_name = Ok svc ∧ gev (ApplyService name svc) (Ok tt) ∈ h ∧
    gev (GetDeployment name) (Ok live) ∈ h ∧
    default 0 (and_then live dep_status_ready) = desired_replicas gw.

(** The statuses of a pass: every condition that says [True] holds. *)
Definition condition_ok h (c : KafkaCondition) : Prop :=
  (type_ c = "Ready" → status c = "True" → running h) ∧
  (type_ c = "CertReady" → status c = "True" → ∃ parent, serving_ok h parent ∧ user_ok h parent) ∧
  (type_ c = "Degraded" → status c = "True" → ∃ parent_name parent, admitted h parent_name parent ∧
     resolve_broker_endpoint parent ns = None).

Definition step_ok h (e : event gresp) : Prop :=
  match projT1 e with
  | ApplyDeployment n d => n = name ∧ deployment_ok h d
  | PatchGatewayStatus n s => n = name ∧ ∀ c, c ∈ gws_conditions s → condition_ok h c
  | _ => True
  end.
#[local] Notation ok h p Q := (safely step_ok h p Q).

(** ** Facts that stay true as the log grows *)
Lemma serving_mono h h' p : h ⊆ h' → serving_ok h p → serving_ok h' p.
Proof.
  intros Hs [(s & pem & now & ? & ? & ? & ?)|(ks & cs & ck & cc & c & k & s & ? & ? & ? & ? & ? & ? & ?)].
  - left. exists s, pem, now. split_and!; auto.
  - right. exists ks, cs, ck, cc, c, k, s. split_and!; auto.
Qed.

Lemma ref_read_mono h h' r v : h ⊆ h' → ref_read h r v → ref_read h' r v.
Proof. intros Hs (s & b & ? & ? & ?). exists s, b. auto. Qed.

Lemma refs_mono h h' refs m : h ⊆ h' → refs_resolved h refs m → refs_resolved h' refs m.
Proof.
  intros Hs Hm n. specialize (Hm n). destruct (m !! n) as [v|]; [|done].
  destruct Hm as (r & ? & ?). exists r. split; [done|]. by eapply ref_read_mono.
Qed.

Lemma gateway_config_mono h h' : h ⊆ h' → config_ok h → config_ok h'.
Proof.
  intros Hs (ws & os & s & ? & ? & ? & ?). exists ws, os, s. split_and!; [by eapply refs_mono..|done|auto].
Qed.

Lemma gateway_admitted_mono h h' n p : h ⊆ h' → admitted h n p → admitted h' n p.
Proof. intros Hs (? & ? & ? & ?). split_and!; auto. Qed.

Lemma user_mono h h' n : h ⊆ h' → user_ok h n → user_ok h' n.
Proof. intros Hs (u & s & ? & ? & ?). exists u, s. auto. Qed.

Lemma deployment_mono h h' d : h ⊆ h' → deployment_ok h d → deployment_ok h' d.
Proof.
  intros Hs (n & p & b & sni & ? & ? & ? & ? & ? & ?). exists n, p, b, sni.
  split_and!; [by eapply gateway_admitted_mono|by eapply user_mono|by eapply serving_mono|by eapply gateway_config_mono|done..].
Qed.

(** ** The parts *)
Lemma gateway_kube_ok {A} h (p : prog gresp (result A kube_error)) Q : ok h p (on_ok Q) → ok h (kube p) (on_ok Q).
Proof. intros Hp. eapply safely_bind; [exact Hp|]. intros h' [a|e] _ Ha; by apply safely_ret. Qed.

Ltac at_call :=
  match goal with
  | |- safely _ _ (kube (perform ?c)) _ => apply gateway_kube_ok; refine (safely_call _ _ c _ _ _)
  | |- safely _ _ (perform ?c) _ => refine (safely_call _ _ c _ _ _)
  end.
Ltac logged_call := at_call; [try done | intros [?|?]; [|exact I]; apply elem_of_app; right; by left].
Ltac applied_call := at_call; [try done | intros [[]|?]; [|exact I]; apply elem_of_app; right; by left].

Lemma pure_ok {A} h (r : result A ReconcileError) :
  ok h (pure r) (on_ok (λ h' a, h' = h ∧ r = Ok a)).
Proof. apply safely_ret. by destruct r. Qed.

Lemma ca_loaded h parent :
  ok h (load_ca parent) (on_ok (λ h' ca, ∃ ks cs,
    gev (GetSecret (cluster_ca_key_name parent)) (Ok (Some ks)) ∈ h' ∧ read_pem_key ks "ca.key" = Some (snd ca) ∧
    gev (GetSecret (cluster_ca_cert_name parent)) (Ok (Some cs)) ∈ h' ∧ read_pem_key cs "ca.crt" = Some (fst ca))).
Proof.
  unfold load_ca.
  eapply (safely_try _ _ _ _ (λ h' r, gev (GetSecret _) (Ok r) ∈ h')); [logged_call|].
  intros h1 [ks|] Hs1 Hks; [|by apply safely_ret].
  eapply (safely_try _ _ _ _ (λ h' r, gev (GetSecret _) (Ok r) ∈ h')); [logged_call|].
  intros h2 [cs|] Hs2 Hcs; [|by apply safely_ret]. apply safely_ret.
  destruct (read_pem_key ks "ca.key") as [key|] eqn:Hk; cbn [ok_or]; [|done].
  destruct (read_pem_key cs "ca.crt") as [cert|] eqn:Hc; cbn [ok_or]; [|done].
  exists ks, cs. split_and!; auto.
Qed.

Lemma serving_issued h parent :
  ok h (issue_serving_cert gw parent) (on_ok (λ h' _, serving_ok h' parent)).
Proof.
  unfold issue_serving_cert. eapply safely_try; [apply ca_loaded|].
  intros h1 [cert key] Hs1 (ks & cs & Hks & Hk & Hcs & Hc). cbn [fst snd] in *.
  eapply (safely_bind _ _ _ _
    (λ h' x, gev (IssueBrokerCert cert key name (base_sans gw) [] (validity gw)) x ∈ h')).
  { at_call; [done|]. intros x. apply elem_of_app; right; by left. }
  intros h2 [[crt k]|e] Hs2 Hi; [|by apply safely_ret].
  eapply safely_try; [apply pure_ok|]. intros h3 s _ [-> Hsec].
  at_call; [done|]. intros [[]|e]; [|done]. right. exists ks, cs, key, cert, crt, k, s.
  assert (h1 ⊆ h2 ++ [gev (ApplySecret (serving_secret_name name) s) (Ok tt)]) as Hs by set_solver.
  split_and!; try done; auto; [apply elem_of_app; by left|apply elem_of_app; right; by left].
Qed.

Lemma serving_ensured h parent :
  ok h (ensure_serving_cert gw parent) (on_ok (λ h' _, serving_ok h' parent)).
Proof.
  unfold ensure_serving_cert. eapply (safely_bind _ _ _ _ (λ h' now, gev NowUtc now ∈ h')).
  { at_call; [done|]. intros x. apply elem_of_app; right; by left. }
  intros h1 now Hs1 Hnow.
  eapply (safely_try _ _ _ _ (λ h' r, gev (GetSecret _) (Ok r) ∈ h')); [logged_call|].
  intros h2 existing Hs2 Hex. destruct (is_current existing now) eqn:Hc; [|apply serving_issued].
  apply safely_ret. left. unfold is_current in Hc. destruct existing as [s|]; [|done]. cbn [is_some_and] in Hc.
  destruct (read_pem_key s "tls.crt") as [pem|] eqn:Hpem; [|done]. cbn [is_some_and] in Hc.
  destruct (renew_if_expiring pem _ now) as [[]|e] eqn:Hr; try done.
  exists s, pem, now. split_and!; auto.
Qed.

(** *** References *)
Lemma ref_of_snoc refs n k r :
  ref_of n (refs ++ [(k, r)]) =
  if str_eqb k n && opt_is_some r then r else ref_of n refs.
Proof.
  unfold ref_of, find_last. rewrite reverse_snoc. cbn [find_first fst snd].
  by destruct (str_eqb k n && opt_is_some r).
Qed.

Lemma ref_resolved h r : ok h (resolve_secret_ref r) (on_ok (λ h' v, ref_read h' r v)).
Proof.
  unfold resolve_secret_ref.
  eapply (safely_try _ _ _ _ (λ h' x, gev (GetSecret _) (Ok x) ∈ h')); [logged_call|].
  intros h1 [s|] Hs1 Hs; [|by apply safely_ret]. apply safely_ret. unfold secret_ref_value. cbn [ok_or].
  destruct (and_then (sec_data s) _) as [b|] eqn:Hb; cbn [ok_or]; [|done].
  destruct (from_utf8 b) as [v|e] eqn:Hv; cbn; [|done]. exists s, b. auto.
Qed.

Lemma refs_step h done_ acc n r v : refs_resolved h done_ acc → ref_read h r v →
  refs_resolved h (done_ ++ [(n, Some r)]) (<[n := v]> acc).
Proof.
  intros Hm Hr k. rewrite ref_of_snoc. cbn [opt_is_some]. rewrite andb_true_r.
  destruct (str_eqb n k) eqn:E; [apply str_eqb_eq in E as ->; rewrite lookup_insert_eq; by exists r|].
  rewrite lookup_insert_ne; [apply Hm|]. intros ->. by rewrite str_eqb_refl in E.
Qed.

Lemma refs_ok refs done_ h acc : refs_resolved h done_ acc →
  ok h (resolve_refs refs acc) (on_ok (λ h' m, refs_resolved h' (done_ ++ refs) m)).
Proof.
  revert done_ h acc. induction refs as [|[n [r|]] refs IH]; intros done_ h acc Hm; cbn [resolve_refs].
  - apply safely_ret. by rewrite app_nil_r.
  - eapply safely_try; [apply ref_resolved|]. intros h1 v Hs1 Hv.
    replace (done_ ++ (n, Some r) :: refs) with ((done_ ++ [(n, Some r)]) ++ refs) by by rewrite <- app_assoc.
    apply IH, refs_step; [by eapply refs_mono|done].
  - replace (done_ ++ (n, None) :: refs) with ((done_ ++ [(n, None)]) ++ refs) by by rewrite <- app_assoc.
    apply IH. intros k. rewrite ref_of_snoc, andb_false_r. apply Hm.
Qed.

Lemma all_refs_ok h :
  ok h (resolve_all_secret_refs gw) (on_ok (λ h' m,
    refs_resolved h' (webhook_refs gw) (fst m) ∧ refs_resolved h' (outbound_refs gw) (snd m))).
Proof.
  unfold resolve_all_secret_refs.
  eapply safely_try; [apply (refs_ok _ []); intros n; by rewrite lookup_empty|]. intros h1 ws Hs1 Hw.
  eapply safely_try; [apply (refs_ok _ []); intros n; by rewrite lookup_empty|]. intros h2 os Hs2 Ho.
  apply safely_ret. split; [by eapply refs_mono|done].
Qed.

(** *** The Deployment and the status *)
Lemma endpoint_resolved (parent : Kafka) b sni : resolve_broker_endpoint parent ns = Some (b, sni) → endpoint_ok parent b sni.
Proof.
  unfold resolve_broker_endpoint. destruct (k_status parent) as [st|] eqn:Hst; [|done]. cbn [and_then].
  destruct (find_first mtls_listener _) as [l|] eqn:Hl; [|done]. cbn [and_then].
  destruct (find_first _ (kst_listeners st)) as [s|] eqn:Hs; [|done]. cbn [and_then]. intros [= <- <-].
  apply find_first_Some in Hl as [Hin Hm]. apply find_first_Some in Hs as [Hs Hn]. apply str_eqb_eq in Hn.
  unfold mtls_listener in Hm. apply andb_true_iff in Hm as [[Hint Htls]%andb_true_iff Ha].
  apply bool_decide_eq_true in Hint. exists l, st, s. split_and!; try done.
  by destruct (l_authentication l) as [[]|].
Qed.

Lemma version_cleared_by_gate (parent : Kafka) : version_gate ts parent = None → parent_version_gate (k_status parent) = Cleared.
Proof. unfold version_gate. by destruct (parent_version_gate _). Qed.

Lemma gateway_patch_ok h conditions :
  (∀ c, c ∈ conditions → condition_ok h c) →
  ok h (patch_conditions gw conditions) (on_ok (λ _ _, True)).
Proof. intros Hc. unfold patch_conditions. at_call; [|by intros []]. intros x. by split. Qed.

Lemma gateway_stop_ok h conditions delay :
  (∀ c, c ∈ conditions → condition_ok h c) →
  ok h (stop_with gw conditions delay) (on_ok (λ _ _, True)).
Proof.
  intros Hc. unfold stop_with. eapply (safely_try _ _ _ _ (λ _ _, True)); [by apply gateway_patch_ok|].
  by intros; apply safely_ret.
Qed.

(** A condition that does not say [True] needs no reason. *)
Lemma false_ok h t r m : condition_ok h (condition ts t "False" r m).
Proof. by split_and!. Qed.
Lemma falses_ok h l : Forall (λ c, status c = "False") l → ∀ c, c ∈ l → condition_ok h c.
Proof. rewrite Forall_forall. intros Hl c Hc%Hl. unfold condition_ok. rewrite Hc. by split_and!. Qed.

Lemma deploy_ok h parent_name parent bootstrap sni :
  admitted h parent_name parent → user_ok h parent_name → serving_ok h parent_name → config_ok h →
  endpoint_ok parent bootstrap sni →
  ok h (deploy cfg ts gw parent_name bootstrap sni) (on_ok (λ _ _, True)).
Proof.
  intros Ha Hu Hs Hc He. unfold deploy. eapply safely_try; [apply pure_ok|]. intros h0 d _ [-> Hd].
  assert (deployment_ok h d) as Hok by (exists parent_name, parent, bootstrap, sni; by split_and!).
  eapply (safely_try _ _ _ _ (λ h' _, gev (ApplyDeployment name d) (Ok tt) ∈ h')); [applied_call|].
  intros h1 _ Hs1 Hd1. eapply safely_try; [apply pure_ok|]. intros h2 svc _ [-> Hsvc].
  eapply (safely_try _ _ _ _ (λ h' _, gev (ApplyService name svc) (Ok tt) ∈ h')); [applied_call|].
  intros h3 _ Hs3 Hv3.
  eapply (safely_try _ _ _ _ (λ h' r, gev (GetDeployment name) (Ok r) ∈ h')); [logged_call|].
  intros h4 live Hs4 Hl. eapply (safely_try _ _ _ _ (λ _ _, True)); [|by intros; apply safely_ret].
  at_call; [|by intros []]. intros x. split; [done|]. unfold final_status.
  assert (h ⊆ h4) as Hsub by set_solver.
  destruct (Z.eqb_spec (default 0 (and_then live dep_status_ready)) (desired_replicas gw)) as [Hr|_];
    cbn [gws_conditions]; intros c [->|[->|Hc']%elem_of_cons]%elem_of_cons; try (by inversion Hc').
  - split_and!; try done. intros _ _. exists d, parent_name, svc, live.
    split_and!; auto. by eapply deployment_mono.
  - split_and!; try done. intros _ _. exists parent_name. split; [by eapply serving_mono|by eapply user_mono].
  - apply false_ok.
  - split_and!; try done. intros _ _. exists parent_name. split; [by eapply serving_mono|by eapply user_mono].
Qed.

Lemma configure_ok h parent_name parent : admitted h parent_name parent → user_ok h parent_name →
  ok h (configure cfg ts gw parent_name parent) (on_ok (λ _ _, True)).
Proof.
  intros Ha Hu. unfold configure. eapply safely_try; [apply serving_ensured|]. intros h1 [] Hs1 Hserv.
  eapply safely_try; [apply all_refs_ok|]. intros h2 [ws os] Hs2 [Hw Ho]. cbn [fst snd] in *.
  eapply safely_try; [apply pure_ok|]. intros h3 s _ [-> Hsec].
  eapply (safely_try _ _ _ _ (λ h' _, gev (ApplySecret (config_secret_name name) s) (Ok tt) ∈ h')); [applied_call|].
  intros h4 _ Hs4 Happ. assert (h ⊆ h4) as Hsub by set_solver.
  assert (config_ok h4) as Hcfg by (exists ws, os, s; split_and!; [by apply (refs_mono _ _ _ _ Hs4)..|done|done]).
  destruct (resolve_broker_endpoint parent _) as [[b sni]|] eqn:He.
  - eapply deploy_ok; [by eapply gateway_admitted_mono|by eapply user_mono| |done|by apply endpoint_resolved].
    eapply serving_mono; [|exact Hserv]. set_solver.
  - apply gateway_stop_ok. intros c [->|[->|Hc]%elem_of_cons]%elem_of_cons; [apply false_ok| |by inversion Hc].
    split_and!; try done. intros _ _. exists parent_name, parent. split; [by eapply gateway_admitted_mono|done].
Qed.

Lemma gateway_inner_ok h : ok h (reconcile_inner cfg ts gw) (on_ok (λ _ _, True)).
Proof.
  unfold reconcile_inner. destruct (validate_config (gw_spec gw)) as [[]|why] eqn:Hval.
  2: { eapply (safely_try _ _ _ _ (λ _ _, True)); [|by intros; apply safely_ret].
       apply gateway_patch_ok, falses_ok. by repeat constructor. }
  destruct (label _ _) as [parent_name|] eqn:Hlab; [|apply gateway_stop_ok, falses_ok; by repeat constructor].
  eapply (safely_try _ _ _ _ (λ h' r, gev (GetKafka parent_name) (Ok r) ∈ h')); [logged_call|].
  intros h1 [parent|] Hs1 Hpar; [|apply gateway_stop_ok, falses_ok; by repeat constructor].
  unfold reconcile_parent. destruct (version_gate ts parent) as [c|] eqn:Hgate.
  { apply gateway_stop_ok, falses_ok. unfold version_gate in Hgate.
    destruct (parent_version_gate _); simplify_eq; by repeat constructor. }
  apply version_cleared_by_gate in Hgate.
  assert (admitted h1 parent_name parent) as Ha by done.
  eapply safely_try; [apply pure_ok|]. intros h2 user _ [-> Huser].
  eapply (safely_try _ _ _ _ (λ h' _, gev (ApplyUser (broker_user_name name) user) (Ok tt) ∈ h')); [applied_call|].
  intros h3 _ Hs3 Happ.
  eapply (safely_try _ _ _ _ (λ h' r, gev (GetSecret (broker_user_name name)) (Ok r) ∈ h')); [logged_call|].
  intros h4 [s|] Hs4 Hsec; [|apply gateway_stop_ok, falses_ok; by repeat constructor].
  apply configure_ok; [eapply gateway_admitted_mono; [|exact Ha]; set_solver|]. exists user, s. split_and!; auto.
Qed.

#[local] Notation pass := (reconcile_inner (IpAddr := IpAddr) cfg ts gw).

Lemma gateway_steps : all_runs pass (λ tr _, justified step_ok tr).
Proof. eapply always_mono; [|apply gateway_inner_ok, justified_nil]. by intros h r [? _]. Qed.

(** C37. A pass applies the gateway's Deployment only for a valid spec whose parent has a
    cleared version, after it applied the gateway's user and saw its certificate, after a
    serving certificate that holds for thirty days was found or issued by the parent's
    cluster CA for the names of the Service, and after the configuration with the secrets
    that this pass read was applied.  The gateway dials an internal TLS listener of the
    parent that authenticates clients by their certificates, never another one.  [Ready]
    says [True] only after the Deployment and the Service were applied and as many
    replicas as asked for were seen, and [CertReady] only when both certificates are
    there. *)
Theorem gateway_applied_in_order :
  all_runs pass (λ tr _,
    (∀ pre n d x post, tr = pre ++ gev (ApplyDeployment n d) x :: post → n = name ∧ deployment_ok pre d) ∧
    ∀ pre n s x post, tr = pre ++ gev (PatchGatewayStatus n s) x :: post →
      n = name ∧ ∀ c, c ∈ gws_conditions s → condition_ok pre c).
Proof.
  eapply all_runs_mono; [|exact gateway_steps]. intros tr r Hj.
  split; intros pre n d x post Heq; exact (Hj _ _ _ Heq).
Qed.
End safety.

(** ** Documents: a field of an object is read back *)
Lemma jget_object fields k v : NoDup (map fst fields) →
  jget k (object fields) = Some v ↔ (k, v) ∈ fields.
Proof.
  intros Hnd. unfold object. cbn [jget].
  assert (∀ x, x ∈ sort_by (λ a b : string * json, str_leb a.1 b.1) fields ↔ x ∈ fields) as Hin
    by (intros x; apply elem_of_sort_by).
  destruct (find_first _ _) as [[k' v']|] eqn:E; cbn [opt_map snd].
  - apply find_first_Some in E as [Hx Hk]. cbn [fst] in Hk. apply str_eqb_eq in Hk as ->. rewrite Hin in Hx.
    split; [by intros [= <-]|]. intros Hv.
    by assert ((k, v) = (k, v')) as [= ->] by (by eapply (NoDup_fmap_eq fst)).
  - split; [done|]. intros Hv. rewrite find_first_None in E. rewrite <- Hin in Hv.
    apply E in Hv. cbn [fst] in Hv. by rewrite str_eqb_refl in Hv.
Qed.

Lemma elem_of_field {A} k k' (f : A → json) o v :
  (k, v) ∈ field k' f o ↔ k = k' ∧ ∃ x, o = Some x ∧ v = f x.
Proof.
  destruct o as [x|]; cbn; [rewrite list_elem_of_singleton|rewrite elem_of_nil]; naive_solver.
Qed.

Lemma field_keys {A} k (f : A → json) o : map fst (field k f o) `sublist_of` [k].
Proof. destruct o; cbn; [done|apply sublist_nil_l]. Qed.

(** The keys of optional fields, one after the other, are among the keys listed. *)
Ltac keys_sublist :=
  unfold human_field; repeat (rewrite map_app; apply (sublist_app _ [_]); [apply field_keys|]); apply field_keys.

Lemma strings_inj l l' : strings l = strings l' → l = l'.
Proof.
  unfold strings. intros [= Heq]. revert l' Heq. induction l as [|x l IH]; intros [|y l']; cbn; try done.
  intros [= -> Heq]. by rewrite (IH _ Heq).
Qed.

(** What a chain of checks has passed. *)
Ltac passed H :=
  repeat match type of H with
         | match ?r with Ok _ => _ | Err _ => _ end = _ =>
             destruct r as [[]|] eqn:?; [|discriminate H]
         end.

Lemma lower_idem s : to_ascii_lowercase (to_ascii_lowercase s) = to_ascii_lowercase s.
Proof.
  unfold to_ascii_lowercase. induction s as [|c s IH]; [done|]. cbn [str_map]. rewrite IH. f_equal.
  destruct c as [[] [] [] [] [] [] [] []]; reflexivity.
Qed.

(** ** How webhooks are authenticated *)
Lemma ref_of_unique refs n r : NoDup (map fst refs) → (n, r) ∈ refs → ref_of n refs = r.
Proof.
  intros Hnd Hin. unfold ref_of. destruct (find_last _ refs) as [[k q]|] eqn:E; cbn [and_then snd].
  - apply find_last_Some in E as [Hq Hk]. apply andb_true_iff in Hk as [Hk _]. cbn [fst] in Hk.
    apply str_eqb_eq in Hk as ->. by assert ((n, r) = (n, q)) as [= ->] by (by eapply (NoDup_fmap_eq fst)).
  - destruct r as [r|]; [|done]. unfold find_last in E. rewrite find_first_None in E.
    specialize (E (n, Some r)). cbn [fst snd opt_is_some] in E. rewrite str_eqb_refl in E.
    discriminate E. by apply elem_of_reverse.
Qed.

Section webhooks.
Context {Time ByteSize Ratio F64 IpAddr : Type} `{TimeOps Time} `{SizeOps ByteSize} `{RatioOps Ratio}.
Context `{Ext : !GatewayExt Time ByteSize Ratio F64}.
#[local] Notation gresp := (gateway_resp (Time := Time) (ByteSize := ByteSize) (Ratio := Ratio) (F64 := F64)
  (IpAddr := IpAddr)).
#[local] Notation Webhook := (InboundWebhookSpec Time ByteSize).

Lemma webhook_keys resolved (w : Webhook) : ∃ fields, webhook_endpoint resolved w = object fields ∧
  NoDup (map fst fields) ∧
  (∀ v, ("secret", v) ∈ fields ↔ ∃ x, resolved !! wh_name w = Some x ∧ v = JString x) ∧
  (∀ v, ("signature_mode", v) ∈ fields ↔ ∃ x, wh_signature_mode w = Some x ∧ v = JString x) ∧
  (∀ v, ("signature_header", v) ∈ fields ↔ ∃ x, wh_signature_header w = Some x ∧ v = JString x) ∧
  (∀ v, ("forward_headers", v) ∈ fields ↔ ∃ x, wh_forward_headers w = Some x ∧ v = strings x).
Proof.
  eexists. split; [reflexivity|]. split.
  - apply (sublist_NoDup _ ["name"; "target_topic"; "principal"; "secret"; "signature_mode"; "forward_headers";
      "signature_header"; "signature_encoding"; "signature_prefix"; "timestamp_header"; "timestamp_tolerance";
      "idempotency_source"; "key_source"; "max_body"; "schema_subject"; "schema_format"]).
    1: by apply (bool_decide_unpack _); vm_compute.
    cbn [map app fst]. do 2 apply sublist_skip. keys_sublist.
  - unfold human_field. split_and!; intros v; cbn [app];
      rewrite !elem_of_cons, !elem_of_app, !elem_of_field; naive_solver.
Qed.

(** A valid spec has passed every check. *)
Lemma webhook_valid (spec : KafkaGrpcGatewaySpec Time ByteSize Ratio F64) w :
  validate_config spec = Ok tt → w ∈ gw_webhooks spec → validate_webhook_auth w = Ok tt.
Proof.
  unfold validate_config. intros Hv Hw. passed Hv.
  match goal with Hc : check_all validate_webhook _ = _ |- _ => rename Hc into Hall end.
  rewrite check_all_Ok in Hall. specialize (Hall w Hw). unfold validate_webhook in Hall. by passed Hall.
Qed.

(** A secret goes with a way to check a signature. *)
Lemma webhook_signed (w : Webhook) : validate_webhook_auth w = Ok tt →
  is_Some (wh_secret_ref w) ↔
  wh_signature_mode w = Some "standard_webhooks" ∨ is_Some (wh_signature_header w).
Proof.
  unfold validate_webhook_auth. destruct (wh_signature_mode w) as [mode|] eqn:Hmode.
  - destruct (str_eqb mode "standard_webhooks") eqn:Hm; cbn [negb]; [|done]. apply str_eqb_eq in Hm as ->.
    unfold validate_standard_webhooks. destruct (wh_secret_ref w) as [r|]; cbn [opt_is_some negb]; [|done].
    intros _. split; [by left|by eexists].
  - destruct (wh_secret_ref w), (wh_signature_header w); cbn; intros; naive_solver.
Qed.

Lemma forwarded_valid (w : Webhook) n :
  (∀ n h, header_name n = Ok h → h = to_ascii_lowercase n) →
  validate_webhook_auth w = Ok tt → n ∈ default [] (wh_forward_headers w) →
  to_ascii_lowercase n ∉ reserved_headers ∧
  ∀ s, wh_signature_header w = Some s → to_ascii_lowercase s ≠ to_ascii_lowercase n.
Proof.
  intros Hlow Hv Hn. unfold validate_webhook_auth in Hv. passed Hv.
  rewrite check_all_Ok in Hv. specialize (Hv n Hn). unfold validate_forward_header in Hv.
  destruct (header_name n) as [hd|] eqn:Hh; [|done]. apply Hlow in Hh as ->. cbn [map_err] in Hv.
  destruct (existsb _ _) eqn:Hres; [done|]. cbn [orb] in Hv. split.
  - intros Hin. apply not_true_iff_false in Hres. apply Hres, existsb_exists.
    exists (to_ascii_lowercase n). split; [by apply list_elem_of_In|apply str_eqb_refl].
  - intros s Hs. rewrite Hs in Hv. cbn [is_some_and] in Hv. unfold eq_ignore_ascii_case in Hv.
    intros Heq. rewrite Heq, lower_idem, str_eqb_refl in Hv. done.
Qed.

(** C38. Webhooks are authenticated as declared.  In a valid spec whose webhooks have names
    of their own, the endpoint that the gateway reads for a webhook has a secret exactly
    when the webhook refers to one, and it is the value that the pass read from that
    Secret; an endpoint has a secret exactly when it has a way to check a signature with
    it, so that none is taken for signed and left open; and it never forwards one of the
    reserved headers (authorization, cookie, x-gitlab-token, webhook-signature) or its own
    signature header into the topic, however the header is spelt. *)
Theorem webhooks_authenticated (gw : KafkaGrpcGateway Time ByteSize Ratio F64) (h : list (event gresp)) resolved w :
  (∀ n h, header_name n = Ok h → h = to_ascii_lowercase n) →
  validate_config (gw_spec gw) = Ok tt → NoDup (map wh_name (gw_webhooks (gw_spec gw))) →
  refs_resolved h (webhook_refs gw) resolved → w ∈ gw_webhooks (gw_spec gw) →
  ∃ l e, jget "endpoints" (webhooks_doc gw resolved) = Some (JArray l) ∧ e ∈ l ∧
    e = webhook_endpoint resolved w ∧
    (∀ j, jget "secret" e = Some j → ∃ r v, wh_secret_ref w = Some r ∧ ref_read h r v ∧ j = JString v) ∧
    (is_Some (jget "secret" e) ↔ is_Some (wh_secret_ref w)) ∧
    (is_Some (jget "secret" e) ↔
       jget "signature_mode" e = Some (JString "standard_webhooks") ∨ is_Some (jget "signature_header" e)) ∧
    (∀ names, jget "forward_headers" e = Some (strings names) →
       ∀ n, n ∈ names → to_ascii_lowercase n ∉ reserved_headers ∧
         ∀ s, jget "signature_header" e = Some (JString s) → to_ascii_lowercase s ≠ to_ascii_lowercase n).
Proof.
  intros Hlow Hv Hnd Hres Hw. assert (validate_webhook_auth w = Ok tt) as Ha by by eapply webhook_valid.
  exists (map (webhook_endpoint resolved) (gw_webhooks (gw_spec gw))), (webhook_endpoint resolved w).
  split; [done|]. split; [by apply list_elem_of_fmap_2|]. split; [done|].
  destruct (webhook_keys resolved w) as (fields & -> & Hnk & Hsec & Hmode & Hhead & Hfwd).
  assert (∀ k v, jget k (object fields) = Some v ↔ (k, v) ∈ fields) as Hget by (intros; by apply jget_object).
  assert (match resolved !! wh_name w with
          | Some v => ∃ r, wh_secret_ref w = Some r ∧ ref_read h r v
          | None => wh_secret_ref w = None end) as Hr.
  { specialize (Hres (wh_name w)). rewrite (ref_of_unique _ _ (wh_secret_ref w)) in Hres; [done| |].
    - unfold webhook_refs. by rewrite map_map.
    - unfold webhook_refs. apply list_elem_of_fmap. by exists w. }
  assert (is_Some (jget "secret" (object fields)) ↔ is_Some (wh_secret_ref w)) as Hiff.
  { unfold is_Some at 1. setoid_rewrite Hget. setoid_rewrite Hsec.
    destruct (resolved !! wh_name w) as [v|]; [destruct Hr as (r & -> & _)|rewrite Hr]; naive_solver. }
  split_and!; [|done| |].
  - intros j Hj. apply Hget, Hsec in Hj as (v & Hvl & ->). rewrite Hvl in Hr. naive_solver.
  - rewrite Hiff, (webhook_signed w Ha), Hget, Hmode. unfold is_Some at 2. setoid_rewrite Hget.
    setoid_rewrite Hhead. unfold is_Some. naive_solver.
  - intros names Hn n Hin. apply Hget, Hfwd in Hn as (l & Hl & Heq).
    apply strings_inj in Heq as ->.
    destruct (forwarded_valid w n) as [? Hne]; [done|done|by rewrite Hl|]. split; [done|].
    intros s Hs. apply Hget, Hhead in Hs as (x & Hx & [= ->]). by apply Hne.
Qed.
End webhooks.

(** ** The targets that the gateway may call *)
Lemma elem_of_push out t x : x ∈ push_target out t ↔ x ∈ out ∨ x = t.
Proof.
  unfold push_target. destruct (existsb _ out) eqn:E; [|set_solver]. apply existsb_exists in E as ([s h] & Hin & He).
  apply andb_true_iff in He as [Hs Hh]. apply str_eqb_eq in Hs, Hh. destruct t as [s' h']. cbn in Hs, Hh. subst.
  apply list_elem_of_In in Hin. set_solver.
Qed.

Lemma NoDup_push out t : NoDup out → NoDup (push_target out t).
Proof.
  intros Hnd. unfold push_target. destruct (existsb _ out) eqn:E; [done|]. apply NoDup_snoc. split; [done|].
  intros Hin. apply not_true_iff_false in E. apply E, existsb_exists. exists t.
  split; [by apply list_elem_of_In|]. by rewrite !str_eqb_refl.
Qed.

(** Pushing the targets of a list one after the other. *)
Lemma pushed_all {A} (f : A → option (string * string)) l out :
  let all := fold_left (λ out a, from_option (push_target out) out (f a)) l out in
  (∀ x, x ∈ all ↔ x ∈ out ∨ ∃ a, a ∈ l ∧ f a = Some x) ∧ (NoDup out → NoDup all).
Proof.
  cbn zeta. revert out. induction l as [|a l IH]; intros out; cbn [fold_left]; [split; [set_solver|done]|].
  destruct (IH (from_option (push_target out) out (f a))) as [Hin Hnd].
  destruct (f a) as [t|] eqn:Ha; cbn [from_option] in *.
  - split; [|intros; by apply Hnd, NoDup_push]. intros x. rewrite Hin, elem_of_push. set_solver.
  - split; [|done]. intros x. rewrite Hin. set_solver.
Qed.

Section targets.
Context {Time ByteSize Ratio F64 : Type} `{TimeOps Time} `{SizeOps ByteSize} `{RatioOps Ratio}.
Context `{Ext : !GatewayExt Time ByteSize Ratio F64}.
Context (gw : KafkaGrpcGateway Time ByteSize Ratio F64).
#[local] Notation subscriptions := (gw_outbound_subscriptions (gw_spec gw)).

(** A target is declared by the URL of a subscription, or listed. *)
Definition declared_target (scheme host : string) : Prop :=
  (∃ s sc, s ∈ subscriptions ∧ url_parse (ob_target_url s) = Ok (sc, Some host) ∧
     scheme = to_ascii_lowercase sc) ∨
  ∃ a, a ∈ gw_allowed_targets (gw_spec gw) ∧ at_scheme a = scheme ∧ at_host a = host.

Lemma subscription_target_Some (s : OutboundSubscriptionSpec Time) scheme host :
  subscription_target s = Some (scheme, host) ↔
  ∃ sc, url_parse (ob_target_url s) = Ok (sc, Some host) ∧ scheme = to_ascii_lowercase sc.
Proof. unfold subscription_target. destruct (url_parse _) as [[sc [x|]]|]; naive_solver. Qed.

Lemma allowed_declared scheme host : (scheme, host) ∈ allowed_targets gw ↔ declared_target scheme host.
Proof.
  unfold allowed_targets, declared_target.
  destruct (pushed_all (λ a, Some (at_scheme a, at_host a)) (gw_allowed_targets (gw_spec gw))
    (fold_left (λ out s, from_option (push_target out) out (subscription_target s)) subscriptions [])) as [Hall _].
  cbn [from_option] in Hall. rewrite Hall. destruct (pushed_all subscription_target subscriptions []) as [Hd _].
  rewrite Hd. setoid_rewrite subscription_target_Some. set_solver.
Qed.

Lemma allowed_NoDup : NoDup (allowed_targets gw).
Proof.
  unfold allowed_targets.
  destruct (pushed_all (λ a, Some (at_scheme a, at_host a)) (gw_allowed_targets (gw_spec gw))
    (fold_left (λ out s, from_option (push_target out) out (subscription_target s)) subscriptions [])) as [_ Hall].
  apply Hall. apply (pushed_all subscription_target subscriptions []). constructor.
Qed.

Lemma subscription_valid s : validate_config (gw_spec gw) = Ok tt → s ∈ subscriptions →
  ∃ sc host, url_parse (ob_target_url s) = Ok (sc, Some host).
Proof.
  unfold validate_config. intros Hv Hs. passed Hv.
  match goal with Hc : validate_outbound_config _ = _ |- _ => rename Hc into Hout end.
  unfold validate_outbound_config in Hout. passed Hout.
  match goal with Hc : check_all validate_subscription _ = _ |- _ => rename Hc into Hall end.
  rewrite check_all_Ok in Hall. specialize (Hall s Hs). unfold validate_subscription in Hall. passed Hall.
  match goal with Hc : validate_target_url _ = _ |- _ => rename Hc into Hurl end.
  unfold validate_target_url in Hurl. destruct (nonempty _ _) in Hurl; [|done].
  destruct (url_parse (ob_target_url s)) as [[sc [host|]]|]; [eauto|done..].
Qed.

Lemma target_entry scheme host sc x :
  let e := object [("scheme", JString scheme); ("host", JString host)] in
  jget "scheme" e = Some (JString sc) ∧ jget "host" e = Some (JString x) ↔ sc = scheme ∧ x = host.
Proof.
  cbn zeta. rewrite !jget_object by (by apply (bool_decide_unpack _); vm_compute).
  rewrite !elem_of_cons, !elem_of_nil. naive_solver.
Qed.

(** The list of targets that the gateway may call is exact.  The entries that the
    gateway reads are the scheme and host of each subscription's URL and the targets that
    the spec lists, each once, and nothing else; and in a valid spec the target of every
    subscription is among them, so that none of its deliveries is blocked. *)
Theorem allowed_targets_exact resolved :
  ∃ l, jget "allowed_targets" (outbound_doc gw resolved) = Some (JArray l) ∧ NoDup l ∧
    (∀ scheme host, (∃ e, e ∈ l ∧ jget "scheme" e = Some (JString scheme) ∧ jget "host" e = Some (JString host))
                    ↔ declared_target scheme host) ∧
    (validate_config (gw_spec gw) = Ok tt → ∀ s, s ∈ subscriptions →
       ∃ sc host e, url_parse (ob_target_url s) = Ok (sc, Some host) ∧ e ∈ l ∧
         jget "scheme" e = Some (JString (to_ascii_lowercase sc)) ∧ jget "host" e = Some (JString host)).
Proof.
  exists (derive_allowed_targets gw).
  assert (∀ scheme host, (∃ e, e ∈ derive_allowed_targets gw ∧
      jget "scheme" e = Some (JString scheme) ∧ jget "host" e = Some (JString host))
      ↔ declared_target scheme host) as Hiff.
  { intros scheme host. rewrite <- allowed_declared. unfold derive_allowed_targets. split.
    - intros (e & He & Hj). apply list_elem_of_fmap in He as ([s x] & -> & Hin).
      by apply target_entry in Hj as [-> ->].
    - intros Hin. eexists. split; [apply list_elem_of_fmap; by exists (scheme, host)|]. by apply target_entry. }
  split_and!; [done| |done|].
  - apply NoDup_fmap_2_strong; [|apply allowed_NoDup]. intros [s x] [s' x'] _ _ Heq.
    destruct (target_entry s' x' s x) as [Hl _]. rewrite <- Heq in Hl.
    by destruct Hl as [-> ->]; [apply target_entry|].
  - intros Hv s Hs. destruct (subscription_valid s Hv Hs) as (sc & host & Hurl).
    destruct (proj2 (Hiff (to_ascii_lowercase sc) host)) as (e & ? & ? & ?); [left; eauto|].
    by exists sc, host, e.
Qed.
End targets.

(** ** The pods of the gateway *)

(** The flag of an argument [flag=value]. *)
Definition flag (s : string) : string := from_option fst s (split_once "=" s).
Definition plain (s : string) : Prop := str_all (λ c, negb (Ascii.eqb "=" c)) s = true.

Lemma flag_arg f v : plain f → flag (arg f v) = f.
Proof. intros Hf. unfold flag, arg. change ("=" +:+ v) with (String "=" v). by rewrite split_once_app. Qed.

Lemma sublist_arg f v l fl : plain f → map flag l `sublist_of` fl → map flag (arg f v :: l) `sublist_of` f :: fl.
Proof. intros Hf Hl. cbn [map]. rewrite flag_arg by done. by apply sublist_skip. Qed.

Lemma sublist_opt_arg {A} f (show : A → string) o l fl : plain f → map flag l `sublist_of` fl →
  map flag (opt_arg f show o ++ l) `sublist_of` f :: fl.
Proof.
  intros Hf Hl. destruct o as [a|]; cbn [opt_arg from_option app]; [by apply sublist_arg|by apply sublist_cons].
Qed.

Lemma sublist_last_arg {A} f (show : A → string) o : plain f → map flag (opt_arg f show o) `sublist_of` [f].
Proof. intros Hf. rewrite <- (app_nil_r (opt_arg f show o)). by apply sublist_opt_arg. Qed.

Lemma sublist_section {A} (args : A → list string) o fl l fl' :
  (∀ a, map flag (args a) `sublist_of` fl) → map flag l `sublist_of` fl' →
  map flag (from_option args [] o ++ l) `sublist_of` fl ++ fl'.
Proof.
  intros Ha Hl. rewrite map_app. apply sublist_app; [|done]. destruct o; [apply Ha|apply sublist_nil_l].
Qed.

Ltac flags_sublist :=
  repeat first [ apply sublist_arg; [reflexivity|] | apply sublist_opt_arg; [reflexivity|]
               | apply sublist_last_arg; reflexivity ].

Section pods.
Context {Time ByteSize Ratio F64 : Type} `{TimeOps Time} `{SizeOps ByteSize} `{RatioOps Ratio}.
Context `{Ext : !GatewayExt Time ByteSize Ratio F64}.
#[local] Notation Gateway := (KafkaGrpcGateway Time ByteSize Ratio F64).

Definition tuning_flags : list string :=
  ["--internal-topic-replication-factor"; "--internal-topic-allow-replication-fallback";
   "--internal-topic-create-timeout"; "--internal-topic-segment";
   "--internal-topic-min-cleanable-dirty-ratio"; "--consumer-poll-timeout";
   "--ownership-warmup-empty-polls"; "--readiness-poll-interval"; "--produce-max-body";
   "--forward-max-body"; "--client-dispatch-queue-capacity"; "--client-frame-max"].
Definition registry_flags : list string :=
  ["--schema-registry-url"; "--schema-registry-latest-cache-ttl"; "--schema-registry-frame-raw"].
Definition fixed_flags : list string :=
  ["--bootstrap-servers"; "--listen-addr"; "--advertised-addr"; "--dedup-topic"; "--dedup-partitions";
   "--dedup-window"; "--dedup-txn-id-prefix"; "--dedup-ownership-group"; "--tls-cert"; "--tls-key";
   "--tls-client-ca"; "--tls-trust-roots"; "--tls-client-auth"; "--broker-tls-cert"; "--broker-tls-key";
   "--broker-tls-ca"; "--broker-tls-server-name"; "--authz"; "--authz-super-users";
   "--acl-refresh-interval"; "--bearer"; "--bearer-principal-claim"; "--webhooks-config";
   "--outbound-webhooks-config"].
Definition optional_flags : list string :=
  ["--membership-topic"; "--tls-reload-interval"; "--bearer-allowable-clock-skew"].

Lemma tuning_flags_ok (t : GatewayTuning Time ByteSize Ratio) : map flag (tuning_args t) `sublist_of` tuning_flags.
Proof. unfold tuning_args, tuning_flags. flags_sublist. Qed.
Lemma registry_flags_ok (r : GatewaySchemaRegistrySpec Time) : map flag (registry_args r) `sublist_of` registry_flags.
Proof. unfold registry_args, registry_flags. flags_sublist. Qed.

Lemma args_flags (g : Gateway) n b sni :
  map flag (unsorted_args g n b sni) `sublist_of`
    fixed_flags ++ optional_flags ++ tuning_flags ++ registry_flags ++ [].
Proof.
  unfold unsorted_args, dedup_args, tls_args, authz_args, fixed_flags, optional_flags.
  rewrite <- (app_nil_r (from_option registry_args [] _)). cbn [app]. flags_sublist.
  apply sublist_section; [apply tuning_flags_ok|]. apply sublist_section; [apply registry_flags_ok|done].
Qed.

Lemma args_once (g : Gateway) n b sni : NoDup (map flag (gateway_args g n b sni)).
Proof.
  assert (NoDup (map flag (unsorted_args g n b sni))) as Hnd.
  { eapply sublist_NoDup; [|apply args_flags]. by apply (bool_decide_unpack _); vm_compute. }
  eapply NoDup_Permutation_proper; [apply Permutation_map, sort_by_perm|exact Hnd].
Qed.

Lemma gateway_env_names (g : Gateway) : NoDup (map env_name (gateway_env g)).
Proof.
  unfold gateway_env, telemetry_env.
  destruct (gw_telemetry (gw_spec g)) as [[[?|] [?|] [?|]]|];
    cbn [from_option te_otlp_endpoint te_otlp_protocol te_sample_ratio app map env_name env_ref env_val];
    by apply (bool_decide_unpack _); vm_compute.
Qed.

Lemma gateway_pod_wf (g : Gateway) image args parent n :
  pod_wf [] (gateway_pod (gateway_container g image args) (gateway_volumes parent n)).
Proof.
  split.
  - by apply (bool_decide_unpack _); vm_compute.
  - intros c m Hc. apply list_elem_of_singleton in Hc as ->. cbn. intros Hm. log_mem Hm; subst m; in_log.
  - intros c Hc. apply list_elem_of_singleton in Hc as ->. by apply (bool_decide_unpack _); vm_compute.
  - intros c Hc. apply list_elem_of_singleton in Hc as ->. apply gateway_env_names.
Qed.

(** The Secret that a container finds under a directory. *)
Definition mounted (p : PodSpec) (c : Container) (dir : string) : option string :=
  and_then (find_first (λ m, str_eqb (vm_path m) dir) (mounts_of c)) (λ m,
    and_then (find_first (λ v, str_eqb (vol_name v) (vm_name m)) (default [] (volumes p))) (λ v,
      match vol_source v with SecretVolume s None _ => Some s | _ => None end)).

(** The files that the gateway is told to read. *)
Definition files (parent n : string) : list (string * string * string * string) :=
  [("--tls-cert", SERVING_DIR, "tls.crt", serving_secret_name n);
   ("--tls-key", SERVING_DIR, "tls.key", serving_secret_name n);
   ("--broker-tls-cert", BROKER_CLIENT_DIR, "user.crt", broker_user_name n);
   ("--broker-tls-key", BROKER_CLIENT_DIR, "user.key", broker_user_name n);
   ("--broker-tls-ca", CLUSTER_CA_DIR, "ca.crt", cluster_ca_cert_name parent);
   ("--tls-trust-roots", CLUSTER_CA_DIR, "ca.crt", cluster_ca_cert_name parent);
   ("--tls-client-ca", CLIENTS_CA_DIR, "ca.crt", clients_ca_cert_name parent);
   ("--webhooks-config", CONFIG_DIR, "webhooks.toml", config_secret_name n);
   ("--outbound-webhooks-config", CONFIG_DIR, "outbound.toml", config_secret_name n)].

Lemma file_args (g : Gateway) parent n b sni f dir file s :
  (f, dir, file, s) ∈ files parent n → arg f (dir +:+ "/" +:+ file) ∈ unsorted_args g n b sni.
Proof.
  unfold files, unsorted_args, tls_args. intros Hf.
  log_mem Hf; simplify_eq; rewrite !elem_of_app;
    first [right; right; left; by in_log | right; right; right; right; left; by in_log].
Qed.

(** The pods of a gateway are well formed and can read what they are told to.  Each flag
    is given once, in an order that does not depend on the spec; every file that the
    arguments name lies in a directory where the Secret with that file is mounted: the
    broker's CA and the trust roots from the cluster CA, the CA of clients from the
    clients CA, never the other way round.  The pods carry the labels that the Deployment
    and the Service select. *)
Theorem gateway_pods_served (g : Gateway) parent image b sni d svc :
  deployment g parent image b sni = Ok d → service g parent = Ok svc →
  ∃ spec pod c args, dep_spec d = Some spec ∧ tpl_spec (dep_template spec) = Some pod ∧ pod_wf [] pod ∧
    containers pod = [c] ∧ c_args c = Some args ∧ NoDup (map flag args) ∧
    StronglySorted (λ a b, str_leb a b = true) args ∧
    (∀ f dir file s, (f, dir, file, s) ∈ files parent (name_any (gw_meta g)) →
       arg f (dir +:+ "/" +:+ file) ∈ args ∧ mounted pod c dir = Some s) ∧
    and_then (tpl_meta (dep_template spec)) om_labels = Some (dep_selector spec) ∧
    opt_map svc_selector (svc_spec svc) = Some (dep_selector spec).
Proof.
  unfold deployment, service, gateway_object_meta, owner_ref. destruct (om_uid (gw_meta g)) as [uid|]; [|done].
  cbn [ok_or]. intros [= <-] [= <-]. cbn [dep_spec]. eexists _, _, _, _. split; [done|].
  cbn [dep_template tpl_spec tpl_meta dep_selector]. split; [done|]. split; [apply gateway_pod_wf|].
  split; [done|]. split; [done|]. split; [apply args_once|].
  split; [apply sort_by_sorted; [exact str_leb_total|exact str_leb_trans]|]. split_and!; [|done..].
  intros f dir file s Hf. unfold gateway_args. rewrite elem_of_sort_by.
  split; [by eapply file_args|]. unfold files in Hf. log_mem Hf; simplify_eq; reflexivity.
Qed.
End pods.

(** ** Bounds *)
Section bounds.
Context {Time ByteSize Ratio F64 : Type} `{TimeOps Time} `{SizeOps ByteSize} `{RatioOps Ratio}.
Context `{Ext : !GatewayExt Time ByteSize Ratio F64}.
#[local] Notation Gateway := (KafkaGrpcGateway Time ByteSize Ratio F64).

Lemma millis_i32_valid v path : validate_protocol_millis_i32 (Some v) path = Ok tt → 1 ≤ millis_i64 v ≤ i32_max.
Proof.
  cbn. destruct (_ || _); [done|]. destruct (in_i32 _) eqn:Hi; [|done].
  destruct (Z.ltb_spec 0 (millis_i64 v)); [|done]. unfold in_i32 in Hi. apply andb_true_iff in Hi as [_ Hi%Z.leb_le]. lia.
Qed.

Lemma millis_i64_valid v path : validate_protocol_millis_i64 (Some v) path = Ok tt →
  1 ≤ millis_i64 v < FIRST_AMBIGUOUS_F64_MILLIS.
Proof.
  cbn [validate_protocol_millis_i64 on_some from_option]. destruct (Z.leb_spec FIRST_AMBIGUOUS_F64_MILLIS (millis_i64 v)); [done|].
  destruct (_ || _); [done|]. destruct (Z.ltb_spec 0 (millis_i64 v)); [lia|done].
Qed.

Lemma positive_millis v path :
  validate (opt_map millis_u64 (Some v)) (GreaterU64 0) path = Ok tt → 1 ≤ millis_i64 v.
Proof. cbn. unfold millis_u64. destruct (Z.ltb_spec 0 (Z.max 0 (millis_i64 v))); [lia|done]. Qed.

(** A spec that is accepted is in bounds: at least one replica; a number of deduplication
    partitions that Kafka can have; times that the protocol can carry and that a 64-bit
    float still tells apart; and a subscription whose backoff grows from the base to the
    maximum, with the gateway's defaults for what is left out. *)
Theorem gateway_config_bounds (spec : KafkaGrpcGatewaySpec Time ByteSize Ratio F64) :
  validate_config spec = Ok tt →
  (∀ n, gw_replicas spec = Some n → 1 ≤ n) ∧
  (∀ d, gw_dedup spec = Some d →
     (∀ n, dd_partitions d = Some n → 1 ≤ n ≤ i32_max) ∧
     ∀ w, dd_window d = Some w → 1 ≤ millis_i64 w < FIRST_AMBIGUOUS_F64_MILLIS) ∧
  (∀ t, gw_tuning spec = Some t →
     (∀ v, gt_internal_topic_create_timeout t = Some v → 1 ≤ millis_i64 v ≤ i32_max) ∧
     ∀ v, gt_internal_topic_segment t = Some v → 1 ≤ millis_i64 v < FIRST_AMBIGUOUS_F64_MILLIS) ∧
  ∀ s, s ∈ gw_outbound_subscriptions spec →
    time_leb (default DEFAULT_BASE_BACKOFF (ob_base_backoff s))
      (default DEFAULT_MAX_BACKOFF (ob_max_backoff s)) = true ∧
    ∀ v, Some v ∈ [ob_base_backoff s; ob_max_backoff s; ob_request_timeout s] → 1 ≤ millis_i64 v.
Proof.
  unfold validate_config. intros Hv. passed Hv. split_and!.
  - intros n Hn. rewrite Hn in *. cbn in *. match goal with Hr : (if 0 <? n then _ else _) = _ |- _ => revert Hr end.
    destruct (Z.ltb_spec 0 n); [lia|done].
  - intros d Hd. rewrite Hd in *. cbn [on_some from_option] in *.
    match goal with Hr : validate_dedup _ = _ |- _ => unfold validate_dedup in Hr; passed Hr end. split.
    + intros n Hn. rewrite Hn in *.
      match goal with Hr : validate (Some n) _ _ = _ |- _ => revert Hr end. cbn.
      destruct (Z.leb_spec 1 n), (Z.leb_spec n 2147483647); cbn [andb]; done.
    + intros w Hw. rewrite Hw in *. by eapply millis_i64_valid.
  - intros t Ht. rewrite Ht in *. cbn [on_some from_option] in *.
    match goal with Hr : validate_tuning _ = _ |- _ => unfold validate_tuning in Hr; passed Hr end.
    split; intros v Hvv; rewrite Hvv in *; [by eapply millis_i32_valid|by eapply millis_i64_valid].
  - intros s Hs. match goal with Hr : validate_outbound_config _ = _ |- _ => unfold validate_outbound_config in Hr; passed Hr end.
    match goal with Hc : check_all validate_subscription _ = _ |- _ => rewrite check_all_Ok in Hc; specialize (Hc s Hs);
      unfold validate_subscription in Hc; passed Hc end.
    destruct (time_ltb _ _) eqn:Hlt; [done|]. split.
    + unfold time_ltb in Hlt. by destruct (time_leb _ _).
    + intros v Hin. log_mem Hin; rewrite <- Hin in *; by eapply positive_millis.
Qed.
End bounds.

(** ** The user and the names of the gateway *)
Section names.
Context {Time ByteSize Ratio F64 IpAddr : Type} `{TimeOps Time} `{SizeOps ByteSize} `{RatioOps Ratio}.
Context `{Ext : !GatewayExt Time ByteSize Ratio F64}.
Context (g : KafkaGrpcGateway Time ByteSize Ratio F64).
Let ns : string := namespace_or_default (gw_meta g).
Let name : string := name_any (gw_meta g).

(** The user controller accepts the gateway's user, whose entries are for its own
    principal: every operation on every topic, group, transactional id and the cluster. *)
Lemma gateway_user_accepted parent user (is_finite : Time → bool) human :
  child_kafkauser g parent = Ok user →
  UserAcl.validate_spec millis_i64 time_eqb is_finite human (u_spec user) = Ok tt ∧
  validate_reserved_identity (name_any (u_meta user)) parent = Ok tt ∧
  map (λ e, (ae_principal e, ae_resource_type e, ae_resource_name e, ae_operation e)) (rights user) =
    map (λ '(t, n), (tls_principal (name +:+ "-broker"), t, n, AoAll))
      [(RtTopic, "*"); (RtGroup, "*"); (RtTransactionalId, "*"); (RtCluster, "kafka-cluster")].
Proof.
  unfold child_kafkauser, gateway_object_meta, owner_ref. destruct (om_uid (gw_meta g)) as [uid|]; [|done].
  cbn [ok_or]. intros [= <-]. split_and!; [done|apply broker_user_not_reserved|done].
Qed.

(** A peer is dialled at its pod's address, which no certificate of the gateway names. *)
Lemma advertised_address_not_certified b sni :
  arg "--advertised-addr" "$(POD_IP):9500" ∈ gateway_args g name b sni ∧
  ∀ ip : IpAddr, Ip ip ∉ base_sans g.
Proof.
  split.
  - unfold gateway_args. rewrite elem_of_sort_by. right. right. left.
  - intros ip Hin. unfold base_sans in Hin. log_mem Hin; discriminate.
Qed.

(** The selector of the Deployment names the parent, and the API server accepts no other
    selector for a Deployment that exists: a gateway that moves to another cluster cannot
    be applied over the old one. *)
Lemma relinked_gateway_differs parent parent' image b sni d d' spec spec' : parent ≠ parent' →
  deployment g parent image b sni = Ok d → deployment g parent' image b sni = Ok d' →
  dep_spec d = Some spec → dep_spec d' = Some spec' → dep_selector spec ≠ dep_selector spec'.
Proof.
  intros Hne. unfold deployment, gateway_object_meta. destruct (owner_ref _ _); [|done].
  intros [= <-] [= <-] [= <-] [= <-]. cbn [dep_selector]. intros Heq.
  apply (f_equal (lookup "app.kubernetes.io/instance")) in Heq. unfold gateway_labels in Heq.
  rewrite !(lookup_insert_ne _ "krabka.io/gateway"), !(lookup_insert_ne _ "app.kubernetes.io/managed-by"),
    !lookup_insert_eq in Heq by done.
  congruence.
Qed.
End names.

(** ** An example *)
#[local] Existing Instance TuningDemo.SizeOps_Z.
#[local] Existing Instance TuningDemo.RatioOps_Z.

Module Hooks.
Definition ext : GatewayExt Z Z Z Z := {|
  millis_i64 := id; time_eqb := Z.eqb; time_finite := λ _, true;
  human_time := display_Z; human_size := display_Z; human_ratio := display_Z;
  f64_in_unit := λ r, (0 <=? r) && (r <=? 1); display_f64 := display_Z;
  rule_error := λ _ _, "out of range"; empty_error := "empty";
  queue_capacity := λ _, Ok tt; frame_max := λ _, Ok tt;
  url_parse := λ u, match split_once_str "://" u with
                    | Some (scheme, host) => Ok (scheme, Some host)
                    | None => Err "relative URL without a base"
                    end;
  parse_json_path := λ _, Ok tt; header_name := λ n, Ok (to_ascii_lowercase n);
  toml_to_string := λ _, Ok "toml" |}.

Definition hook (n : string) (header : option string) (ref : option SecretKeyRef)
  : InboundWebhookSpec Z Z :=
  {| wh_name := n; wh_target_topic := "events"; wh_principal := None; wh_signature_mode := None;
     wh_forward_headers := Some ["X-Event-Type"]; wh_signature_header := header;
     wh_signature_encoding := None; wh_signature_prefix := None; wh_timestamp_header := None;
     wh_timestamp_tolerance := None; wh_idempotency_source := None; wh_key_source := None;
     wh_max_body := None; wh_schema_subject := None; wh_schema_format := None; wh_secret_ref := ref |}.
Definition sub (url : string) : OutboundSubscriptionSpec Z :=
  {| ob_name := "out"; ob_source_topics := ["events"]; ob_target_url := url; ob_dead_letter_topic := None;
     ob_max_attempts := None; ob_base_backoff := None; ob_max_backoff := None; ob_request_timeout := None;
     ob_group_id := None; ob_decode_to_json := None; ob_filter := None; ob_headers := ∅;
     ob_signing_secret_ref := None |}.
Definition gateway (hooks : list (InboundWebhookSpec Z Z)) (subs : list (OutboundSubscriptionSpec Z))
  : KafkaGrpcGateway Z Z Z Z :=
  {| gw_meta := ObjectMeta (Some "edge") (Some "kafka") (Some "u9")
                  (Some {["krabka.io/cluster" := "prod"]}) None None (Some 1) false [];
     gw_spec := {| gw_replicas := Some 2; gw_image := None; gw_resources := None; gw_dedup := None;
       gw_membership_topic := None; gw_tuning := None; gw_schema_registry := None; gw_health_checks := None;
       gw_tls := None; gw_authz := None; gw_webhooks := hooks; gw_outbound_subscriptions := subs;
       gw_allowed_targets := []; gw_telemetry := None |} |}.
Definition signing : SecretKeyRef := {| skr_name := "hmac"; skr_key := "key" |}.
Definition signed : InboundWebhookSpec Z Z := hook "orders" (Some "X-Hub-Signature-256") (Some signing).
Definition open : InboundWebhookSpec Z Z := hook "public" None None.
Definition edge : KafkaGrpcGateway Z Z Z Z := gateway [signed; open] [sub "https://example.com"].
Definition hmac : secret := Secret empty_meta (Some {["key" := "s3cret"]}).
#[local] Notation hresp := (gateway_resp (Time := Z) (ByteSize := Z) (Ratio := Z) (F64 := Z) (IpAddr := string)).
Definition log : list (event hresp) := [ev (resp := hresp) (GetSecret "hmac") (Ok (Some hmac))].

Lemma hooks_resolved : refs_resolved log (webhook_refs edge) {["orders" := "s3cret"]}.
Proof.
  intros n. destruct (str_eqb "orders" n) eqn:E.
  - apply str_eqb_eq in E as <-. rewrite lookup_singleton_eq. exists signing. split; [done|].
    exists hmac, "s3cret". split_and!; [by left|done..].
  - rewrite lookup_singleton_ne by (intros <-; by rewrite str_eqb_refl in E).
    unfold ref_of, find_last. cbn. by rewrite E, andb_false_r.
Qed.
End Hooks.
#[local] Existing Instance Hooks.ext.

Lemma webhooks_authenticated_witness :
  jget "secret" (webhook_endpoint {["orders" := "s3cret"]} Hooks.signed)
    = Some (JString "s3cret") ∧
  is_Some (jget "secret" (webhook_endpoint {["orders" := "s3cret"]} Hooks.signed)).
Proof.
  split; [reflexivity|].
  destruct (webhooks_authenticated Hooks.edge Hooks.log {["orders" := "s3cret"]} Hooks.signed)
    as (l & e & _ & _ & -> & _ & Hiff & _).
  - by intros n h [= <-].
  - reflexivity.
  - by apply (bool_decide_unpack _); vm_compute.
  - apply Hooks.hooks_resolved.
  - by left.
  - apply Hiff. by eexists.
Defined.

(** Two webhooks of one name share the secret: a valid spec, in which an endpoint that
    declares no secret is given that of another. *)
Lemma duplicate_webhook_shares_secret :
  let twice := Hooks.gateway [Hooks.signed; Hooks.hook "orders" None None] [] in
  validate_config (gw_spec twice) = Ok tt ∧
  wh_secret_ref (Hooks.hook "orders" None None) = None ∧
  jget "secret" (webhook_endpoint {["orders" := "s3cret"]} (Hooks.hook "orders" None None))
    = Some (JString "s3cret").
Proof. split_and!; reflexivity. Qed.

(** A listed target must be http or https; the URL of a subscription may have any scheme,
    which is then allowed. *)
Lemma subscription_scheme_unchecked :
  let g := Hooks.gateway [] [Hooks.sub "ftp://example.com"] in
  validate_config (gw_spec g) = Ok tt ∧ allowed_targets g = [("ftp", "example.com")].
Proof. split; reflexivity. Qed.
