(* ===== verification/Leadership.v ===== *)
(** * Replicas of the operator over time (src/leader_election.rs)

    The guard that [acquire] returns, with its [wait] and [release], and the replicas of a
    deployment in real time: when a replica whose lease was taken over passes its last check
    of the renewal deadline, and that it goes on leading until the check after it. *)

From S2P Require Import Prelude RustStd Effects Kube LeaderElection.
Local Open Scope Z_scope.

(** ** The guard *)
Section guard.
Context `{TimeOps Time}.

(** [tokio::time::timeout]: each call of [p] may be answered, or the limit passes while it
    is in flight ([None]); such a call may still take effect. *)
Inductive guard_call : Type :=
  | AbortRenewer
  | JoinRenewer
  | ReadClock
  | Timed (c : lease_call Time).
Inductive ReleaseError : Type := ReleaseApi (e : kube_error) | ReleaseTimedOut.

Definition guard_resp (c : guard_call) : Type :=
  match c with
  | AbortRenewer | JoinRenewer => unit
  | ReadClock => Z
  | Timed c => option (lease_resp c)
  end.

Fixpoint timeout {R} (p : prog lease_resp R) : prog guard_resp (option R) :=
  match p with
  | Ret r => Ret (Some r)
  | Do c k => Do (Timed c) (λ x : guard_resp (Timed c), match x with Some x => timeout (k x) | None => Ret None end)
  end.

(** [Leadership::release]; dropping the guard is [AbortRenewer] alone. *)
Definition release (identity : string) : prog guard_resp (result Release ReleaseError) :=
  _ ← perform (resp := guard_resp) AbortRenewer;
  _ ← perform (resp := guard_resp) JoinRenewer;
  now ← perform (resp := guard_resp) ReadClock;
  r ← timeout (release_lease identity now);
  Ret match r with
      | None => Err ReleaseTimedOut
      | Some (Ok r) => Ok r
      | Some (Err e) => Err (ReleaseApi e)
      end.

(** [Leadership::wait]: how the renewal task ended. *)
Definition wait (display_end : renew_end → string) (o : result renew_end string) : result unit string :=
  match o with
  | Ok e => Err (display_end e)
  | Err join_error => Err ("leader-election renewal task failed: " +:+ join_error)
  end.

(** The task: it starts its clock, and renews. *)
Definition renewer (fuel : nat) (identity : string) (lease_duration retry_interval : Time) (duration_i32 : Z)
  : prog lease_resp (result Z renew_end) :=
  last_success ← perform (resp := lease_resp) InstantNow;
  renew_loop fuel identity lease_duration retry_interval duration_i32 last_success.
End guard.

(** ** What a replica writes, and when it may *)
Section replicas.
Context `{TimeOps Time} (d : Time) (d32 : Z).
#[local] Notation lev := (ev (resp := lease_resp (Time := Time))).
Implicit Types (tr pre : list (event (lease_resp (Time := Time)))) (l : Lease).

(** A lease of [i] with the renewal time [n]. *)
Definition stamped (i : string) (n : Z) (l : Lease) : Prop :=
  ∃ spec, lease_spec l = Some spec ∧ holder_identity spec = Some i ∧
    lease_duration_seconds spec = Some d32 ∧ renew_time spec = Some n.

(** A call to write a lease follows a clock reading that it stamps; a replacement is of a
    lease that was read, and that was its own, vacant, or expired at a clock reading. *)
Definition write_ok (i : string) pre (e : event (lease_resp (Time := Time))) : Prop :=
  match e with
  | existT (CreateLease l') _ => ∃ pre' n, pre = pre' ++ [lev Now n] ∧ stamped i n l'
  | existT (ReplaceLease l') _ =>
      ∃ l, lev GetLease (Ok (Some l)) ∈ pre ∧ resource_version l' = resource_version l ∧
        ((∃ pre' n, pre = pre' ++ [lev Now n] ∧ stamped i n l' ∧
            (held_by_us l i = true ∨ is_vacant l = true ∨
             ∃ c, lev Now c ∈ pre ∧ is_expired l d c = true)) ∨
         (held_by_us l i = true ∧ and_then (lease_spec l') holder_identity = None))
  | _ => True
  end.

Lemma write_ok_later i tr pre e : write_ok i pre e → write_ok i (tr ++ pre) e.
Proof.
  destruct e as [[| l'|l' | | |] x]; cbn; try done.
  - intros (pre' & n & -> & Hs). exists (tr ++ pre'), n. by rewrite app_assoc.
  - intros (l & Hl & Hv & Hc). exists l. split; [set_solver|]. split; [done|].
    destruct Hc as [(pre' & n & -> & Hs & Hc)|Hc]; [left|by right].
    exists (tr ++ pre'), n. rewrite app_assoc. split; [done|]. split; [done|].
    destruct Hc as [?|[?|(c & Hin & Hx)]]; [auto..|]. right; right. exists c. set_solver.
Qed.

Definition writes_ok (i : string) tr : Prop := justified (write_ok i) tr.

Lemma writes_ok_app i tr tr' : writes_ok i tr → writes_ok i tr' → writes_ok i (tr ++ tr').
Proof.
  intros Ht Ht'. apply justified_app; [done|]. eapply justified_mono; [|exact Ht']. intros. by apply write_ok_later.
Qed.

Lemma writes_ok_nil i : writes_ok i [].
Proof. apply justified_nil. Qed.

Lemma held_holder l i : held_by_us l i = true ↔ and_then (lease_spec l) holder_identity = Some i.
Proof. apply bool_decide_eq_true. Qed.

Lemma stamped_renewed l i n : held_by_us l i = true → stamped i n (renewed l d32 n).
Proof.
  intros Hh%held_holder. eexists. split; [done|]. cbn. destruct (lease_spec l); [|done]. by cbn in *.
Qed.

Ltac written :=
  unfold writes_ok; rewrite ?justified_snoc; split_and?; try apply justified_nil; try exact I; cbn [write_ok app ev].

Lemma claim_write_ok l i x0 x1 x : is_claimable l d x0 = true →
  write_ok i [lev GetLease (Ok (Some l)); lev Now x0; lev Now x1] (lev (ReplaceLease (claim l i d32 x1)) x).
Proof.
  intros Hc. exists l. split; [in_log|]. split; [done|]. left. eexists [_; _], _. split; [done|].
  split; [by eexists|]. right. apply orb_true_iff in Hc as [Hc|Hc]; [by left|right].
  exists x0. split; [in_log|done].
Qed.

Lemma acquire_iter_writes name i q :
  all_runs (acquire_iter name i d q d32) (λ tr _, writes_ok i tr).
Proof.
  unfold all_runs, acquire_iter. run_cases; written; try by apply claim_write_ok.
  all: eexists [_; _], _; split; [done|]; by eexists.
Qed.

Lemma acquire_writes fuel name i q : lease_duration_i32 d = Some d32 →
  all_runs (acquire fuel name i d q) (λ tr _, writes_ok i tr).
Proof.
  unfold acquire. intros ->. induction fuel as [|fuel IH]; cbn [acquire_loop]; [apply writes_ok_nil|].
  apply all_runs_bind_app; [apply writes_ok_app|apply acquire_iter_writes|].
  intros [o|]; [apply writes_ok_nil|exact IH].
Qed.

Lemma renew_iter_writes i q last :
  all_runs (renew_iter i d q d32 last) (λ tr _, writes_ok i tr).
Proof.
  unfold all_runs, renew_iter, renew_once. run_cases; written.
  all: match goal with Hh : negb (held_by_us ?l _) = false |- _ =>
         apply negb_false_iff in Hh; exists l; split; [in_log|]; split; [done|]; left;
         eexists [_; _], _; split; [done|]; split; [by apply stamped_renewed|by left] end.
Qed.

Lemma renew_loop_writes fuel i q last :
  all_runs (renew_loop fuel i d q d32 last) (λ tr _, writes_ok i tr).
Proof.
  revert last. induction fuel as [|fuel IH]; intros last; cbn [renew_loop]; [apply writes_ok_nil|].
  apply all_runs_bind_app; [apply writes_ok_app|apply renew_iter_writes|].
  intros [t'|e]; [apply IH|apply writes_ok_nil].
Qed.

Lemma release_lease_writes i now :
  all_runs (release_lease (Time := Time) i now) (λ tr _, writes_ok i tr).
Proof.
  unfold all_runs, release_lease. run_cases; written.
  all: match goal with Hr : released ?l ?i _ = Some _ |- _ =>
         exists l; split; [in_log|]; split; [by eapply resource_version_released|]; right;
         unfold released in Hr; destruct (held_by_us l i); cbn in Hr; [|done]; by simplify_eq end.
Qed.

(** What the replica [i] of a deployment calls: runs of its programs, one after the other,
    each cut at any point. *)
Inductive operator_log (i : string) : list (event (lease_resp (Time := Time))) → Prop :=
  | ol_nil : operator_log i []
  | ol_acquire tr tr' fuel name q r :
      operator_log i tr → runs (acquire fuel name i d q) tr' r → operator_log i (tr ++ tr')
  | ol_renew tr tr' fuel q r :
      operator_log i tr → runs (renewer fuel i d q d32) tr' r → operator_log i (tr ++ tr')
  | ol_release tr tr' now r :
      operator_log i tr → runs (release_lease i now) tr' r → operator_log i (tr ++ tr')
  | ol_cut tr tr' : operator_log i (tr ++ tr') → operator_log i tr.

Lemma renewer_writes fuel i q : all_runs (renewer fuel i d q d32) (λ tr _, writes_ok i tr).
Proof.
  apply all_runs_bind_app; [apply writes_ok_app| |intros last; apply renew_loop_writes].
  intros x. apply (justified_snoc _ []). split; [apply justified_nil|exact I].
Qed.

Lemma operator_log_writes i tr : lease_duration_i32 d = Some d32 → operator_log i tr → writes_ok i tr.
Proof.
  intros Hd. induction 1 as [|tr tr' fuel name q r _ IH Hr|tr tr' fuel q r _ IH Hr|tr tr' now r _ IH Hr|tr tr' _ IH];
    [apply writes_ok_nil|apply writes_ok_app; [done|]..|].
  - exact (runs_elim _ _ _ (λ tr _, writes_ok i tr) Hr (acquire_writes _ _ _ _ Hd)).
  - exact (runs_elim _ _ _ (λ tr _, writes_ok i tr) Hr (renewer_writes _ _ _)).
  - exact (runs_elim _ _ _ (λ tr _, writes_ok i tr) Hr (release_lease_writes _ _)).
  - intros pre e post ->. apply (IH pre e (post ++ tr')). by rewrite <- app_assoc.
Qed.

(** ** Replicas in real time

    A log with the time of each call, in nanoseconds.  The wall clocks of the replicas are
    within [skew] of it, and the monotonic clock of each runs with it. *)
Context (skew : Z) (boot : string → Z).
#[local] Notation tlog := (list (Z * (string * event (lease_resp (Time := Time))))).
Implicit Types (g log : tlog).

Definition untimed log : list (string * event (lease_resp (Time := Time))) := map snd log.
Definition own (i : string) log : list (event (lease_resp (Time := Time))) := of_replica i (untimed log).

Definition clock_ok (x : Z * (string * event (lease_resp (Time := Time)))) : Prop :=
  match x.2.2 with
  | existT Now n => Z.abs (n - x.1) ≤ skew
  | existT InstantNow m => m = x.1 + boot x.2.1
  | _ => True
  end.

Record deployment log : Prop := {
  dp_sorted : StronglySorted (λ x y, x.1 ≤ y.1) log;
  dp_clocks : Forall clock_ok log;
  dp_operator : ∀ i, operator_log i (own i log);
}.

Lemma dp_order log g1 x g2 y g3 : deployment log → log = g1 ++ x :: g2 ++ y :: g3 → x.1 ≤ y.1.
Proof.
  intros [Hs _ _] ->. induction g1 as [|z g1 IH]; cbn in Hs; inversion Hs as [|? ? Hs' Hall]; subst; [|by apply IH].
  rewrite Forall_forall in Hall. apply Hall. set_solver.
Qed.

Lemma dp_wall log t i n : deployment log → (t, (i, lev Now n)) ∈ log → Z.abs (n - t) ≤ skew.
Proof. intros [_ Hc _] Hin. rewrite Forall_forall in Hc. exact (Hc _ Hin). Qed.

Lemma dp_monotonic log t i m : deployment log → (t, (i, lev InstantNow m)) ∈ log → m = t + boot i.
Proof. intros [_ Hc _] Hin. rewrite Forall_forall in Hc. exact (Hc _ Hin). Qed.

Lemma own_app i g1 g2 : own i (g1 ++ g2) = own i g1 ++ own i g2.
Proof. unfold own, untimed, of_replica. by rewrite map_app, filter_app, map_app. Qed.

Lemma own_cons_eq i t e g : own i ((t, (i, e)) :: g) = e :: own i g.
Proof. unfold own, untimed, of_replica. cbn. by rewrite decide_True. Qed.

Lemma own_cons_ne i j t e g : j ≠ i → own i ((t, (j, e)) :: g) = own i g.
Proof. intros Hj. unfold own, untimed, of_replica. cbn. by rewrite decide_False. Qed.

(** An event of a replica has its place in the log. *)
Lemma own_elem i e g : e ∈ own i g → ∃ t, (t, (i, e)) ∈ g.
Proof.
  intros He%elem_of_of_replica. unfold untimed in He. apply list_elem_of_fmap in He as ([t x] & Hx & Hin).
  cbn in Hx. subst x. by exists t.
Qed.

(** The last event of a replica, if it has one. *)
Lemma own_last i g pre e : own i g = pre ++ [e] →
  ∃ g1 t g2, g = g1 ++ (t, (i, e)) :: g2 ∧ own i g1 = pre ∧ own i g2 = [].
Proof.
  revert pre. induction g as [|[t [j e']] g IH] using rev_ind; intros pre; [by destruct pre|].
  rewrite own_app. destruct (decide (j = i)) as [->|Hj].
  - rewrite own_cons_eq. intros [<- [= <-]]%app_inj_tail. by exists g, t, [].
  - rewrite own_cons_ne, app_nil_r by done. intros Hown.
    destruct (IH pre Hown) as (g1 & t' & g2 & -> & H1 & H2). exists g1, t', (g2 ++ [(t, (j, e'))]).
    rewrite <- app_assoc. split; [done|]. split; [done|]. rewrite own_app, H2. by rewrite own_cons_ne.
Qed.

(** What each call of a replica has behind it. *)
Lemma deployed_write log g1 t i e g2 : lease_duration_i32 d = Some d32 → deployment log →
  log = g1 ++ (t, (i, e)) :: g2 → write_ok i (own i g1) e.
Proof.
  intros Hd Hlog ->. pose proof (operator_log_writes i _ Hd (dp_operator _ Hlog i)) as Hw.
  rewrite own_app, own_cons_eq in Hw. by apply (Hw (own i g1) e (own i g2)).
Qed.

Lemma serve_write s (e : event (lease_resp (Time := Time))) s' : s' ∈ serve s e →
  s' = s ∨ ∃ l, s' = store s l ∧ ((∃ r, e = lev (CreateLease l) r) ∨
    (∃ r, e = lev (ReplaceLease l) r) ∧ version_matches s l = true).
Proof.
  intros Hs. destruct e as [[| l|l | | |] x]; cbn in Hs; try (left; by apply list_elem_of_singleton in Hs).
  - left. destruct x; [case_bool_decide|]; set_solver.
  - apply elem_of_write_results in Hs as [?|[_ ->]]; [by left|]. right. exists l. split; [done|]. left. by exists x.
  - apply elem_of_write_results in Hs as [?|[Hv ->]]; [by left|]. right. exists l. split; [done|].
    right. split; [by exists x|done].
Qed.

(** If the stored lease is held by [i], it was renewed at [from] or later. *)
Definition renewed_since (i : string) (from : Z) (s : server) : Prop :=
  ∀ l, sv_lease s = Some l → held_by_us l i = true →
    ∃ spec n, lease_spec l = Some spec ∧ lease_duration_seconds spec = Some d32 ∧
      renew_time spec = Some n ∧ from ≤ n.

Lemma store_stamped s i n l : stamped i n l → renewed_since i n (store s l).
Proof. intros (spec & Hspec & _ & Hdur & Hn) l' [= <-] _. exists spec, n. split_and!; try done. Qed.

Lemma store_other s i k n from l : k ≠ i → stamped k n l → renewed_since i from (store s l).
Proof.
  intros Hk (spec & Hspec & Hh & _) l' [= <-] Hheld. exfalso. rewrite held_by_us_stamp in Hheld.
  apply held_holder in Hheld. rewrite Hspec in Hheld. cbn in Hheld. congruence.
Qed.

Lemma store_vacant s i from l : and_then (lease_spec l) holder_identity = None → renewed_since i from (store s l).
Proof.
  intros Hnone l' [= <-] Hheld. exfalso. rewrite held_by_us_stamp in Hheld. apply held_holder in Hheld. congruence.
Qed.

Lemma renewed_since_mono i from from' s : from' ≤ from → renewed_since i from s → renewed_since i from' s.
Proof. intros Hle Hs l Hl Hh. destruct (Hs l Hl Hh) as (spec & n & ? & ? & ? & ?). exists spec, n. split_and!; try done. lia. Qed.

(** What a write of the replica [k] leaves, if its clock reading was not before [from]. *)
Lemma written_since i k from pre e s s' :
  write_ok k pre e → s' ∈ serve s e → renewed_since i from s →
  (∀ pre' n, k = i → pre = pre' ++ [lev Now n] → from ≤ n) → renewed_since i from s'.
Proof.
  intros Hw Hs' Hs Hfrom. destruct (serve_write _ _ _ Hs') as [->|(l & -> & Hcase)]; [done|].
  assert (∀ pre' n, pre = pre' ++ [lev Now n] → stamped k n l → renewed_since i from (store s l)) as Hst.
  { intros pre' n Hpre Hst. destruct (decide (k = i)) as [->|Hk]; [|by eapply store_other].
    eapply renewed_since_mono; [by eapply Hfrom|by apply store_stamped]. }
  destruct Hcase as [[r ->]|[[r ->] _]]; cbn in Hw.
  - destruct Hw as (pre' & n & Hpre & Hl). by eapply Hst.
  - destruct Hw as (l0 & _ & _ & [(pre' & n & Hpre & Hl & _)|[_ Hnone]]); [by eapply Hst|by apply store_vacant].
Qed.

Lemma now_inj n m : lev Now n = lev Now m → n = m.
Proof.
  intros Heq. by apply (f_equal (λ e, match e with existT Now x => Some x | _ => None end)) in Heq as [=].
Qed.

(** Past an acknowledged renewal of [i], whose clock was read at [tn]. *)
Lemma since_renewal log g0 tn n g1 tw lw g2 g3 i s0 s :
  lease_duration_i32 d = Some d32 → deployment log → own i g1 = [] →
  log = (g0 ++ (tn, (i, lev Now n)) :: g1 ++ (tw, (i, lev (ReplaceLease lw) (Ok tt))) :: g2) ++ g3 →
  s ∈ replay (untimed (g0 ++ (tn, (i, lev Now n)) :: g1 ++ (tw, (i, lev (ReplaceLease lw) (Ok tt))) :: g2)) s0 →
  renewed_since i (tn - skew) s.
Proof.
  intros Hd Hdep Hown. revert g3 s. induction g2 as [|[t [k e]] g2 IH] using rev_ind; intros g3 s Hlog Hs.
  - set (h := g0 ++ (tn, (i, lev Now n)) :: g1) in *.
    assert (g0 ++ (tn, (i, lev Now n)) :: g1 ++ [(tw, (i, lev (ReplaceLease lw) (Ok tt)))] =
      h ++ [(tw, (i, lev (ReplaceLease lw) (Ok tt)))]) as Hh by (subst h; by rewrite <- app_assoc).
    rewrite Hh in Hlog, Hs. unfold untimed in Hs. rewrite map_app in Hs. cbn [map snd] in Hs.
    apply elem_of_replay_snoc in Hs as (s1 & _ & Hs). cbn in Hs.
    destruct (version_matches s1 lw); [apply list_elem_of_singleton in Hs as ->|by apply elem_of_nil in Hs].
    assert (tn - skew ≤ n) as Hn.
    { assert (Z.abs (n - tn) ≤ skew); [|lia]. apply (dp_wall _ tn i n Hdep). rewrite Hlog. subst h. set_solver. }
    rewrite <- app_assoc in Hlog. pose proof (deployed_write _ _ _ _ _ _ Hd Hdep Hlog) as Hw. cbn in Hw.
    destruct Hw as (l0 & _ & _ & [(pre' & m & Hpre & Hst & _)|[_ Hnone]]); [|by apply store_vacant].
    subst h. rewrite own_app, own_cons_eq, Hown in Hpre. apply app_inj_tail in Hpre as [_ ->%now_inj].
    eapply renewed_since_mono; [exact Hn|by apply store_stamped].
  - set (h := g0 ++ (tn, (i, lev Now n)) :: g1 ++ (tw, (i, lev (ReplaceLease lw) (Ok tt))) :: g2) in *.
    assert (g0 ++ (tn, (i, lev Now n)) :: g1 ++ (tw, (i, lev (ReplaceLease lw) (Ok tt))) :: g2 ++ [(t, (k, e))] =
      h ++ [(t, (k, e))]) as Hh by (subst h; by rewrite <- !app_assoc, !app_comm_cons, <- !app_assoc).
    rewrite Hh in Hlog, Hs. rewrite <- app_assoc in Hlog. unfold untimed in Hs. rewrite map_app in Hs.
    apply elem_of_replay_snoc in Hs as (s1 & Hs1 & Hs).
    eapply written_since; [by eapply deployed_write|exact Hs|by eapply IH|].
    intros pre' m -> Hpre. assert (∃ pre2, own i g2 = pre2 ++ [lev Now m]) as [pre2 Hpre2].
    { subst h. rewrite own_app, own_cons_eq, own_app, own_cons_eq in Hpre.
      destruct (own i g2) as [|e2 l2 _] using rev_ind.
      - rewrite Hown in Hpre. apply (f_equal last) in Hpre. rewrite last_snoc in Hpre.
        rewrite last_app in Hpre. cbn in Hpre. by injection Hpre.
      - exists l2. apply (f_equal last) in Hpre. rewrite last_snoc in Hpre.
        rewrite !app_comm_cons, !app_assoc, last_snoc in Hpre. by injection Hpre as ->. }
    apply own_last in Hpre2 as (h1 & t' & h2 & -> & _ & _).
    assert (tn ≤ t') as Ht.
    { apply (dp_order _ g0 (tn, (i, lev Now n)) (g1 ++ (tw, (i, lev (ReplaceLease lw) (Ok tt))) :: h1)
        (t', (i, lev Now m)) (h2 ++ [(t, (i, e))] ++ g3) Hdep). rewrite Hlog. subst h. clear. by list_simplifier. }
    assert (Z.abs (m - t') ≤ skew); [|lia]. apply (dp_wall _ t' i m Hdep). rewrite Hlog. subst h. set_solver.
Qed.

Lemma expired_after l spec n c : 0 ≤ d32 → (∀ a b, time_ltb (from_secs a) (from_secs b) = (a <? b)) →
  lease_spec l = Some spec → lease_duration_seconds spec = Some d32 → renew_time spec = Some n →
  is_expired l d c = true → n + d32 * 1000000000 < c.
Proof.
  intros Hpos Hsecs Hspec Hdur Hn. unfold is_expired. rewrite Hspec, Hn, Hdur, Hsecs. intros Hlt%Z.ltb_lt.
  unfold as_second in Hlt. pose proof (Z.quot_rem' n 1000000000). pose proof (Z.quot_rem' c 1000000000).
  pose proof (Z.rem_bound_abs n 1000000000 ltac:(lia)). pose proof (Z.rem_bound_abs c 1000000000 ltac:(lia)).
  pose proof (Z.rem_nonneg n 1000000000 ltac:(lia)). pose proof (Z.rem_nonpos n 1000000000 ltac:(lia)).
  pose proof (Z.rem_nonneg c 1000000000 ltac:(lia)). pose proof (Z.rem_nonpos c 1000000000 ltac:(lia)).
  generalize dependent (Z.rem n 1000000000). generalize dependent (Z.rem c 1000000000).
  generalize dependent (Z.quot n 1000000000). generalize dependent (Z.quot c 1000000000). intros. lia.
Qed.

(** A replacement that takes effect is of the stored lease, so what its replica found of
    the lease it had read holds of the stored one. *)
Lemma replaced_lease log g1 t j lj r g2 s0 s s' l :
  lease_duration_i32 d = Some d32 → deployment log → versioned s0 →
  log = g1 ++ (t, (j, lev (ReplaceLease lj) r)) :: g2 → s ∈ replay (untimed g1) s0 → sv_lease s = Some l →
  s' ∈ serve s (lev (ReplaceLease lj) r) → s' ≠ s →
  held_by_us l j = true ∨ is_vacant l = true ∨
  ∃ t c, (t, (j, lev Now c)) ∈ g1 ∧ is_expired l d c = true.
Proof.
  intros Hd Hdep Hv Hlog Hs Hl Hs' Hne.
  destruct (serve_write _ _ _ Hs') as [?|(l' & -> & [[x Hx]|[[x Hx] Hm]])]; [done|by injection Hx|].
  injection Hx as <- _. pose proof (deployed_write _ _ _ _ _ _ Hd Hdep Hlog) as (l0 & Hread & Hver & Hw).
  apply elem_of_of_replica in Hread. destruct (replay_invariant _ _ _ Hv Hs) as [_ Hfresh].
  destruct (Hfresh j l0 Hread) as (v & Hv0 & _ & Hcur).
  unfold version_matches in Hm. rewrite Hl, Hver, Hv0 in Hm. cbn in Hm. apply bool_decide_eq_true in Hm.
  rewrite (Hcur l Hl (eq_sym Hm)).
  destruct Hw as [(pre' & n & _ & _ & [?|[?|(c & Hc & Hx)]])|[? _]]; [by left|by right; left| |by left].
  right; right. apply own_elem in Hc as [tc Hc]. by exists tc, c.
Qed.

Lemma watch_none tr : fold_left (watch d) tr None = None.
Proof. by induction tr. Qed.

(** The checks of a loop that goes on, past its last acknowledged renewal. *)
Lemma watch_checks tr m k st : fold_left (watch d) tr (Some (false, m)) = Some st →
  (∀ l, lev (ReplaceLease l) (Ok tt) ∉ tr) → lev InstantNow k ∈ tr → k - m < to_std_nanos d.
Proof.
  induction tr as [|e tr IH]; intros Hf Hno Hk; [by apply elem_of_nil in Hk|].
  assert (∀ l, lev (ReplaceLease l) (Ok tt) ∉ tr) as Hno' by set_solver.
  destruct e as [c x]. destruct c as [| l|l | | |]; cbn [fold_left watch] in Hf;
    try (apply elem_of_cons in Hk as [Hk|Hk]; [by injection Hk|by apply IH]).
  - destruct x as [[]|]; [by destruct (Hno l); left|].
    apply elem_of_cons in Hk as [Hk|Hk]; [by injection Hk|by apply IH].
  - destruct (Z.ltb_spec (x - m) (to_std_nanos d)); [|by rewrite watch_none in Hf].
    apply elem_of_cons in Hk as [Hk|Hk]; [|by apply IH].
    apply (f_equal (λ e, match e with existT InstantNow x => Some x | _ => None end)) in Hk. by injection Hk as ->.
Qed.

(** The same, of the renewal task. *)
Lemma renewer_checks fuel i q tr last a lw m b k :
  runs (renewer fuel i d q d32) tr (Ok last) →
  tr = a ++ lev (ReplaceLease lw) (Ok tt) :: lev InstantNow m :: b →
  (∀ l, lev (ReplaceLease l) (Ok tt) ∉ b) → lev InstantNow k ∈ b → k - m < to_std_nanos d.
Proof.
  intros Hr -> Hno Hk.
  assert (all_runs (renewer fuel i d q d32) (λ tr r, ∃ m0 tr', tr = lev InstantNow m0 :: tr' ∧ deadline_kept i d m0 tr' r))
    as Hall.
  { intros x. cbn. eapply always_use; [apply renew_loop_deadline|]. intros tr r Hr'. by exists x, tr. }
  destruct (runs_elim _ _ _ _ Hr Hall) as (m0 & tr' & Htr & Hf). cbn in Hf.
  destruct a as [|e a]; [by injection Htr|]. injection Htr as _ <-.
  rewrite fold_left_app in Hf. destruct (fold_left (watch d) a _) as [[sgn last0]|]; [|by rewrite watch_none in Hf].
  cbn [fold_left] in Hf. eapply watch_checks; [|exact Hno|exact Hk].
  destruct sgn; cbn in Hf; exact Hf.
Qed.

(** C8. A bound on the last deadline check a replica passes after its lease was taken
    over.  The replicas run the operator's programs, interleaved in any way, against an
    API server with optimistic versions; their wall clocks are off by [skew] at most.
    Replica [i] read its clock at [tn], renewed the lease, noted the success at [tl], and
    has passed every check of its deadline since, one of them at [tk].  If another replica
    [j] takes the lease over from [i], then [j] had found it expired at a clock reading at
    [t] with [tk - t < (tl - tn) + 2 * skew]: no check that [i] passes comes later after
    that reading than its own renewal call took, plus twice the skew.  This does not bound
    how long [i] leads: it stops only at the first check it does not pass, which comes when
    its next renewal returns ([leads_past_expiry]). *)
Theorem takeover_last_check_bounded log g0 tn n g1 tw lw h1 tl ml h2 tc j lj r g3 i s0 s s' l fuel q a last tk mk :
  0 ≤ d32 → (∀ a b, time_ltb (from_secs a) (from_secs b) = (a <? b)) →
  lease_duration_i32 d = Some d32 → to_std_nanos d = d32 * 1000000000 →
  deployment log → versioned s0 → i ≠ "" → j ≠ i →
  let renewal := g0 ++ (tn, (i, lev Now n)) :: g1 ++ (tw, (i, lev (ReplaceLease lw) (Ok tt))) ::
                 h1 ++ (tl, (i, lev InstantNow ml)) :: h2 in
  let after := (tc, (j, lev (ReplaceLease lj) r)) :: g3 in
  log = renewal ++ after → own i g1 = [] →
  runs (renewer fuel i d q d32) (a ++ lev (ReplaceLease lw) (Ok tt) :: lev InstantNow ml :: own i (h2 ++ after)) (Ok last) →
  (∀ l', lev (ReplaceLease l') (Ok tt) ∉ own i (h2 ++ after)) →
  (tk, (i, lev InstantNow mk)) ∈ h2 ++ after →
  s ∈ replay (untimed renewal) s0 → sv_lease s = Some l → held_by_us l i = true →
  s' ∈ serve s (lev (ReplaceLease lj) r) → s' ≠ s →
  ∃ t c, (t, (j, lev Now c)) ∈ renewal ∧ is_expired l d c = true ∧ tk - t < (tl - tn) + 2 * skew.
Proof.
  intros Hpos Hsecs Hd Hwhole Hdep Hv Hi Hj renewal after Hlog Hg1 Hrun Hno Hk Hs Hl Hheld Hs' Hne.
  destruct (replaced_lease log renewal tc j lj r g3 s0 s s' l) as [Hx|[Hx|(t & c & Hc & Hx)]]; try done.
  - apply held_holder in Hx, Hheld. congruence.
  - unfold is_vacant in Hx. apply held_holder in Hheld. rewrite Hheld in Hx. by destruct i.
  - exists t, c. split; [done|]. split; [done|].
    destruct (since_renewal log g0 tn n g1 tw lw (h1 ++ (tl, (i, lev InstantNow ml)) :: h2) after i s0 s Hd Hdep Hg1 Hlog Hs
      l Hl Hheld) as (spec & n' & Hspec & Hdur & Hn' & Hle).
    pose proof (expired_after l spec n' c Hpos Hsecs Hspec Hdur Hn' Hx) as Hexp.
    assert (Z.abs (c - t) ≤ skew) as Hsk by (apply (dp_wall _ t j c Hdep); rewrite Hlog; set_solver).
    assert (mk - ml < to_std_nanos d) as Hcheck.
    { eapply renewer_checks; [exact Hrun|reflexivity|done|]. apply elem_of_of_replica. unfold untimed.
      apply list_elem_of_fmap. by exists (tk, (i, lev InstantNow mk)). }
    assert (mk = tk + boot i) as -> by (apply (dp_monotonic _ tk i _ Hdep); rewrite Hlog; set_solver).
    assert (ml = tl + boot i) as -> by (apply (dp_monotonic _ tl i _ Hdep); rewrite Hlog; subst renewal; set_solver).
    lia.
Qed.
End replicas.

(** ** A takeover *)
Section example.
#[local] Notation zev := (ev (resp := lease_resp (Time := Z))).
#[local] Notation sec := 1000000000.

Definition held (version renewed_at : Z) : Lease := {|
  lease_name := "krabka-operator"; resource_version := Some version;
  lease_spec := Some {| holder_identity := Some "A"; lease_duration_seconds := Some 15;
    acquire_time := Some 0; renew_time := Some renewed_at; lease_transitions := Some 1 |} |}.

(** A renews at 2 s and fails to at 17 s, before its deadline; B finds the lease expired at
    18 s and takes it. *)
Definition renewal_log : list (Z * (string * event (lease_resp (Time := Z)))) :=
  [(0, ("A", zev InstantNow 0)); (2 * sec, ("A", zev (Sleep 2000) tt));
   (2 * sec, ("A", zev GetLease (Ok (Some (held 7 0)))))].
Definition standing_log : list (Z * (string * event (lease_resp (Time := Z)))) :=
  [(17 * sec, ("A", zev (Sleep 2000) tt));
   (17 * sec, ("A", zev GetLease (Err (KubeOther "timed out"))));
   (17100000000, ("A", zev InstantNow 17100000000));
   (18 * sec, ("B", zev GetLease (Ok (Some (held 8 (2 * sec))))));
   (18 * sec, ("B", zev Now (18 * sec))); (18 * sec, ("B", zev Now (18 * sec)))].
Definition takeover_log : list (Z * (string * event (lease_resp (Time := Z)))) :=
  renewal_log ++ (2 * sec, ("A", zev Now (2 * sec))) ::
  [] ++ (2100000000, ("A", zev (ReplaceLease (renewed (held 7 0) 15 (2 * sec))) (Ok tt))) ::
  [] ++ (2200000000, ("A", zev InstantNow 2200000000)) :: standing_log.
Definition taken : Lease := claim (held 8 (2 * sec)) "B" 15 (18 * sec).
Definition before_takeover : server := {| sv_lease := Some (held 7 0); sv_next := 8 |}.

#[local] Notation whole_log :=
  (takeover_log ++ [(18100000000, ("B", zev (ReplaceLease taken) (Ok tt)))]).

Lemma takeover_log_deployed : deployment (15000 : Z) 15 0 (λ _, 0) whole_log.
Proof.
  split.
  - unfold takeover_log, renewal_log, standing_log. cbn [app].
    repeat (apply SSorted_cons; [|repeat (apply List.Forall_cons; [cbn; lia|]); apply List.Forall_nil]).
    apply SSorted_nil.
  - repeat (apply List.Forall_cons; [cbn; lia || done|]). apply List.Forall_nil.
  - intros i. destruct (decide (i = "A")) as [->|HA]; [|destruct (decide (i = "B")) as [->|HB]].
    + vm_compute own. apply (ol_renew 15000 15 "A" [] _ 2 2000 (Ok (2200000000 : Z))); [constructor|].
      repeat (apply runs_do || apply runs_ret).
    + vm_compute own. apply (ol_acquire 15000 15 "B" [] _ 1 "krabka-operator" 2000 (Some Acquired)); [constructor|].
      repeat (apply runs_do || apply runs_ret).
    + assert (own i whole_log = []) as ->; [|constructor].
      unfold own, untimed, of_replica. cbn. by rewrite !decide_False by done.
Qed.

Lemma takeover_last_check_bounded_witness :
  ∃ t c, (t, ("B", zev Now c)) ∈ takeover_log ∧ is_expired (held 8 (2 * sec)) (15000 : Z) c = true ∧
    17100000000 - t < (2200000000 - 2 * sec) + 2 * 0.
Proof.
  apply (takeover_last_check_bounded (15000 : Z) 15 0 (λ _, 0) whole_log renewal_log (2 * sec) (2 * sec) [] 2100000000
    (renewed (held 7 0) 15 (2 * sec)) [] 2200000000 2200000000 standing_log 18100000000 "B" taken (Ok tt) [] "A"
    before_takeover {| sv_lease := Some (held 8 (2 * sec)); sv_next := 9 |}
    {| sv_lease := Some (stamp taken 9); sv_next := 10 |} (held 8 (2 * sec)) 2 2000
    [zev InstantNow 0; zev (Sleep 2000) tt; zev GetLease (Ok (Some (held 7 0))); zev Now (2 * sec)]
    2200000000 17100000000 17100000000).
  - lia.
  - intros a b. cbn. unfold time_ltb. cbn. destruct (Z.leb_spec (b * 1000) (a * 1000)), (Z.ltb_spec a b); cbn; done || lia.
  - reflexivity.
  - reflexivity.
  - exact takeover_log_deployed.
  - intros cur [= <-]. exists 7. split; [reflexivity|]. cbn. lia.
  - discriminate.
  - discriminate.
  - reflexivity.
  - reflexivity.
  - match goal with |- runs _ ?tr _ => let v := eval vm_compute in tr in change tr with v end.
    repeat (apply runs_do || apply runs_ret).
  - intros l' Hin. vm_compute in Hin.
    repeat (apply elem_of_cons in Hin as [Hin|Hin]; [discriminate Hin|]). by apply elem_of_nil in Hin.
  - vm_compute. in_log.
  - vm_compute. by left.
  - reflexivity.
  - reflexivity.
  - vm_compute. by left.
  - discriminate.
Defined.

(** *** What the bound does not exclude *)

(** A server that does not answer the renewals; the clock shows [t] when one fails. *)
Definition silent_server (t : Z) (c : lease_call Z) : Z * lease_resp c :=
  (t, match c return lease_resp c with
      | GetLease | CreateLease _ | ReplaceLease _ => Err (KubeOther "timed out")
      | Now | InstantNow => t
      | Sleep _ => tt
      end).

(** With the default times (a lease of 15 s, a retry each 2 s): a replica that renewed at
    0 s, and whose renewal fails at 14.9 s, goes on leading; its next renewal ends 2 s
    later at the earliest, and only then it stops.  From 16 s on another replica may claim
    the lease.  The deadline equals the duration of the lease, and it is checked only when
    a renewal returns, so for a while both lead. *)
Lemma leads_past_expiry :
  let lease := {| lease_name := "operator"; resource_version := Some 1;
                  lease_spec := Some {| holder_identity := Some "a"; lease_duration_seconds := Some 15;
                    acquire_time := Some 0; renew_time := Some 0; lease_transitions := Some 1 |} |} in
  let turn t := (exec silent_server (renew_iter "a" 15000 2000 15 0) t).2 in
  turn 14900000000 = Ok 0 ∧
  is_claimable lease 15000 16000000000 = true ∧
  turn 16900000000 = Err (MissedDeadline (KubeOther "timed out")).
Proof. by vm_compute. Qed.

(** A replica that finds its own name on the lease, such as a container that was restarted,
    leads without renewing it, also if it has expired: another replica may claim it at
    once, and the first renewal comes a retry interval later. *)
Lemma reconfirms_expired_lease :
  exec (λ t (c : lease_call Z), (t, match c return lease_resp c with
          | GetLease => Ok (Some (held 7 0)) | CreateLease _ | ReplaceLease _ => Ok tt
          | Now | InstantNow => t | Sleep _ => tt end))
    (acquire 1 "krabka-operator" "A" 15000 2000) (60 * sec) =
  (60 * sec, [zev GetLease (Ok (Some (held 7 0)))], Some Acquired) ∧
  is_claimable (held 7 0) (15000 : Z) (60 * sec) = true.
Proof. by vm_compute. Qed.
End example.

(** ** Giving the lease back *)
Section release_facts.
Context `{TimeOps Time}.
#[local] Notation gev := (ev (resp := guard_resp (Time := Time))).

(** A call on the lease comes after the renewals have ended. *)
Definition after_renewals (pre : list (event (guard_resp (Time := Time)))) (e : event (guard_resp (Time := Time))) : Prop :=
  match projT1 e with Timed _ => gev JoinRenewer tt ∈ pre | _ => True end.

Lemma after_renewals_snoc h e : justified after_renewals h → gev JoinRenewer tt ∈ h →
  justified after_renewals (h ++ [e]).
Proof. intros Hj Hin. apply justified_snoc. split; [done|]. unfold after_renewals. by destruct (projT1 e). Qed.

(** The renewals have ended before the lease is touched, so that none of them races the
    release; and the lease is given back only if it was found to be this replica's. *)
Lemma release_after_renewals (i : string) :
  all_runs (release i) (λ tr r, justified after_renewals tr ∧
    (r = Ok Released → ∃ l l' now, gev ReadClock now ∈ tr ∧ gev (Timed GetLease) (Some (Ok (Some l))) ∈ tr ∧
       released l i now = Some l' ∧ gev (Timed (ReplaceLease l')) (Some (Ok tt)) ∈ tr)).
Proof.
  intros [] [] now. cbn. set (h := [gev AbortRenewer tt; gev JoinRenewer tt; gev ReadClock now]).
  assert (justified after_renewals h) as Hh.
  { apply (after_renewals_snoc [gev AbortRenewer tt; gev JoinRenewer tt]); [|in_log].
    apply (justified_snoc _ [gev AbortRenewer tt]). split; [|done].
    apply (justified_snoc _ []). split; [apply justified_nil|done]. }
  assert (∀ e, justified after_renewals (h ++ [e])) as Hread by (intros e; apply after_renewals_snoc; [done|in_log]).
  intros [[[l|]|e]|]; cbn; try (split; [apply Hread|done]).
  destruct (released l i now) as [l'|] eqn:Hr; cbn; [|split; [apply Hread|done]].
  intros x. assert (justified after_renewals ((h ++ [gev (Timed GetLease) (Some (Ok (Some l)))]) ++
    [gev (Timed (ReplaceLease l')) x])) as Hj by (apply after_renewals_snoc; [apply Hread|in_log]).
  destruct x as [[[]|e]|]; cbn; [|destruct (is_conflict e)|]; (split; [exact Hj|]); try done.
  intros _. exists l, l', now. split_and!; [in_log|in_log|done|in_log].
Qed.
End release_facts.
