(* ===== verification/Process.v ===== *)
(** * The operator process (src/run.rs, src/health.rs, src/config.rs, src/telemetry.rs)

    The configuration and its checks, the phases that the health server reports, [run],
    and the turns of a controller with their metrics.  [run] acquires the lease, starts
    the controllers, waits for the first thing to end, and stops.  Logging is not
    modelled. *)

From S2P Require Import Prelude RustStd Effects Kube Tuning LeaderElection Leadership.
Local Open Scope Z_scope.

(** ** Phases *)
Inductive Phase : Type := Starting | Standby | Leading | Stopping.

#[global] Instance Phase_eq_dec : EqDecision Phase.
Proof. solve_decision. Defined.

Definition to_raw (p : Phase) : Z :=
  match p with Starting => 0 | Standby => 1 | Leading => 2 | Stopping => 3 end.
Definition from_raw (raw : Z) : Phase :=
  if raw =? 0 then Starting else if raw =? 1 then Standby else if raw =? 2 then Leading else Stopping.
Definition is_ready (p : Phase) : bool := match p with Standby | Leading => true | _ => false end.
Definition is_leader (p : Phase) : bool := match p with Leading => true | _ => false end.
Definition phase_name (p : Phase) : string :=
  match p with
  | Starting => "starting" | Standby => "standby" | Leading => "leading" | Stopping => "stopping"
  end.

(** [phase] is an atomic byte; [leader] is the gauge, written when it is scraped. *)
Record HealthState : Type := { hs_phase : Z; hs_leader : Z }.
Definition new : HealthState := {| hs_phase := to_raw Starting; hs_leader := 0 |}.
Definition phase (s : HealthState) : Phase := from_raw (hs_phase s).
(** [fetch_max] *)
Definition advance (s : HealthState) (next : Phase) : HealthState :=
  {| hs_phase := Z.max (hs_phase s) (to_raw next); hs_leader := hs_leader s |}.

Definition healthz : Z * string := (200, "ok").
Definition readyz (s : HealthState) : Z * string :=
  let p := phase s in
  if is_ready p then (200, "ready: " +:+ phase_name p) else (503, "not ready: " +:+ phase_name p).
(** The text of the registry is the encoder's; it shows the gauge. *)
Definition metrics (encode : Z → result string string) (s : HealthState) : HealthState * (Z * string) :=
  let leader := if is_leader (phase s) then 1 else 0 in
  ({| hs_phase := hs_phase s; hs_leader := leader |},
   match encode leader with Ok text => (200, text) | Err e => (500, "encode: " +:+ e) end).

(** ** The configuration *)
Inductive GresCheckpointStoreKind : Type := CheckpointS3 | CheckpointGcs.

(** [GreaterU64<0>] with the text of its error. *)
Definition PositiveU64_try_from (rule_error : Z → string) (v : Z) : result Z string :=
  if 0 <? v then Ok v else Err (rule_error v).
Definition PositiveU64_from_str (parse_error rule_error : string → string) (s : string) : result Z string :=
  let? v := ok_or (parse_u64 s) (parse_error s) in PositiveU64_try_from (λ _, rule_error s) v.

Section config.
Context {Time ByteSize : Type} `{TimeOps Time}.
Record OperatorConfig : Type := {
  watch_namespaces : list string;
  operator_namespace : string;
  oc_lease_name : string;
  pod_name : string;
  health_addr : string;
  oc_client_dispatch_queue_capacity : Z;
  oc_client_frame_max : ByteSize;
  log_filter : string;
  oc_default_broker_image : option string;
  oc_default_shell_image : option string;
  oc_default_gateway_image : option string;
  oc_default_connector_image : option string;
  oc_default_schema_registry_image : option string;
  default_gres_image : option string;
  default_pgdog_image : option string;
  default_gres_activator_image : option string;
  pgdog_reload_attempts : Z;
  pgdog_reload_backoff : Time;
  pgdog_reload_requeue : Time;
  pgdog_admin_timeout : Time;
  pgdog_transition_poll : Time;
  oc_controller_error_requeue : Time;
  oc_controller_dependency_requeue : Time;
  oc_controller_drift_requeue : Time;
  oc_controller_invalid_requeue : Time;
  oc_controller_certificate_requeue : Time;
  oc_user_tls_drift_requeue : Time;
  leader_lease_duration : Time;
  leader_retry_interval : Time;
  oc_topic_mutation_timeout : Time;
  rebalancer_request_timeout : Time;
  rebalancer_poll_interval : Time;
  rebalancer_idle_interval : Time;
  oc_delegation_token_invalid_requeue : Time;
  oc_delegation_token_transient_backoff : Time;
  oc_delegation_token_min_requeue : Time;
  oc_delegation_token_max_requeue : Time;
  gres_checkpoint_store : option GresCheckpointStoreKind;
  gres_checkpoint_bucket : option string;
  gres_checkpoint_region : option string;
  gres_checkpoint_endpoint : option string;
  gres_checkpoint_allow_http : bool;
  gres_checkpoint_access_key_id : option string;
  gres_checkpoint_secret_access_key : option string;
  gres_checkpoint_gcs_service_account_path : option string;
  gres_checkpoint_gcs_application_credentials_path : option string;
}.

(** The limits of krabka-client-core, and whether an extent is a finite number of whole
    seconds ([fract() == 0.0]). *)
Context (queue_capacity : Z → result unit string) (frame_max : ByteSize → result unit string)
        (whole_secs : Time → bool).

Definition watched (c : OperatorConfig) : option (list string) :=
  if bool_decide (watch_namespaces c = []) then None else Some (watch_namespaces c).

Definition parse_client_dispatch_queue_capacity (parse_error : string → string) (s : string) : result Z string :=
  let? v := ok_or (parse_u64 s) (parse_error s) in
  if? queue_capacity v in Ok v.
Definition parse_client_frame_max (positive_byte_size : string → result ByteSize string) (s : string)
  : result ByteSize string :=
  let? v := positive_byte_size s in
  if? frame_max v in Ok v.

Definition validate (c : OperatorConfig) : result unit string :=
  if? queue_capacity (oc_client_dispatch_queue_capacity c) in
  if? frame_max (oc_client_frame_max c) in
  if negb (whole_secs (leader_lease_duration c)) then
    Err "leader lease duration must be a whole number of seconds"
  else if negb (in_i32 (secs_i64 (leader_lease_duration c))) then
    Err "leader lease duration exceeds Kubernetes i32 seconds"
  else if time_leb (leader_lease_duration c) (from_secs 0) then
    Err "leader lease duration must be positive"
  else if time_leb (leader_retry_interval c) (from_secs 0) then
    Err "leader retry interval must be positive"
  else if time_leb (leader_lease_duration c) (leader_retry_interval c) then
    Err "leader retry interval must be shorter than lease duration"
  else if time_ltb (rebalancer_idle_interval c) (rebalancer_poll_interval c) then
    Err "rebalancer poll interval exceeds idle interval"
  else if time_ltb (oc_delegation_token_max_requeue c) (oc_delegation_token_min_requeue c) then
    Err "delegation-token minimum requeue exceeds maximum requeue"
  else Ok tt.

(** ** The controllers *)
Inductive join_outcome : Type :=
  | Returned (r : result unit string)
  | Panicked
  | Cancelled.

Record ControllerExit : Type := { ce_controller : string; ce_error : option string }.

(** [Controllers::first_exit], of the task that ended. *)
Definition controller_exit (names : gmap Z string) (id : Z) (o : join_outcome) : ControllerExit :=
  {| ce_controller := default "unknown" (names !! id);
     ce_error := match o with
                 | Returned (Ok _) => None
                 | Returned (Err e) => Some e
                 | Panicked => Some "the task panicked"
                 | Cancelled => Some "the task was cancelled"
                 end |}.

Definition controllers : list string :=
  ["Kafka"; "KafkaNodePool"; "KafkaTopic"; "KafkaUser"; "KafkaRebalance"; "KafkaGrpcGateway";
   "KafkaConnector"; "SchemaRegistry"].

(** ** The run *)
(** The arm of [select!] that fired. *)
Inductive select_arm : Type :=
  | LeadershipEnded (r : result unit string)
  | HealthServerEnded
  | ControllerEnded (id : Z) (o : join_outcome)
  | ShutdownSignal.

(** [AbortControllers] and [DropLeadership] are what the destructors do. *)
Inductive run_call : Type :=
  | InitTracing (filter : string)
  | SpawnHealth (addr : string)
  | BuildClient
  | Advance (next : Phase)
  | AcquireLease (namespace name identity : string) (lease_duration retry_interval : Time)
  | SpawnController (name : string)
  | Select
  | LogExit (e : ControllerExit)
  | AbortControllers
  | DropLeadership
  | StopControllers
  | ReleaseLease (limit : Time).

Definition run_resp (c : run_call) : Type :=
  match c with
  | BuildClient | AcquireLease _ _ _ _ _ => result unit string
  | SpawnController _ => Z   (* the id of the task *)
  | Select => select_arm
  | ReleaseLease _ => result Release ReleaseError
  | _ => unit
  end.

#[local] Notation call := (perform (resp := run_resp)).

(** [Controllers::spawn], once per controller. *)
Fixpoint spawn_all (l : list string) (names : gmap Z string) : prog run_resp (gmap Z string) :=
  match l with
  | [] => Ret names
  | n :: l => id ← call (SpawnController n); spawn_all l (<[id := n]> names)
  end.

(** After the first arm but that of the lease. *)
Definition shut_down (c : OperatorConfig) : prog run_resp (result unit string) :=
  _ ← call (Advance Stopping);
  _ ← call StopControllers;
  _ ← call (ReleaseLease (leader_lease_duration c));
  Ret (Ok tt).

Definition supervise (c : OperatorConfig) (names : gmap Z string) : prog run_resp (result unit string) :=
  arm ← call Select;
  match arm with
  | LeadershipEnded r =>
      _ ← call (Advance Stopping);
      _ ← call AbortControllers;
      _ ← call DropLeadership;
      Ret (Err (match r with Err e => e | Ok _ => "leader-election renewal stopped" end))
  | HealthServerEnded | ShutdownSignal => shut_down c
  | ControllerEnded id o => _ ← call (LogExit (controller_exit names id o)); shut_down c
  end.

Definition lead (c : OperatorConfig) : prog run_resp (result unit string) :=
  _ ← call (Advance Leading);
  names ← spawn_all controllers ∅;
  supervise c names.

Definition run (c : OperatorConfig) : prog run_resp (result unit string) :=
  match validate c with
  | Err e => Ret (Err e)
  | Ok _ =>
      _ ← call (InitTracing (log_filter c));
      _ ← call (SpawnHealth (health_addr c));
      client ← call BuildClient;
      match client with
      | Err e => Ret (Err e)
      | Ok _ =>
          _ ← call (Advance Standby);
          lease ← call (AcquireLease (operator_namespace c) (oc_lease_name c) (pod_name c)
                          (leader_lease_duration c) (leader_retry_interval c));
          match lease with
          | Err e => Ret (Err e)
          | Ok _ => lead c
          end
      end
  end.
End config.

(** ** Phases only move forward *)
Lemma from_to_raw p : from_raw (to_raw p) = p.
Proof. by destruct p. Qed.

Lemma phase_advance s next : 0 ≤ hs_phase s ≤ 3 →
  to_raw (phase (advance s next)) = Z.max (to_raw (phase s)) (to_raw next).
Proof.
  unfold phase, advance. cbn [hs_phase]. intros Hs.
  assert (∀ r, 0 ≤ r ≤ 3 → to_raw (from_raw r) = r) as Hraw.
  { intros r Hr. assert (r = 0 ∨ r = 1 ∨ r = 2 ∨ r = 3) as [->|[->|[->| ->]]] by lia; done. }
  assert (0 ≤ to_raw next ≤ 3) by (destruct next; cbn; lia). rewrite !Hraw by lia. done.
Qed.

(** A process that stops is never ready again, whatever still advances its phase. *)
Lemma stopping_stays s (l : list Phase) : phase s = Stopping → 0 ≤ hs_phase s ≤ 3 →
  fst (readyz (foldl advance s l)) = 503.
Proof.
  intros Hp Hs. assert (hs_phase s = 3) as Hr.
  { unfold phase, from_raw in Hp. repeat case_match; try done; lia. }
  assert (∀ l s, hs_phase s = 3 → hs_phase (foldl advance s l) = 3) as Hfold.
  { clear. induction l as [|p l IH]; intros s Hs; [done|]. cbn [foldl]. apply IH. cbn [advance hs_phase].
    rewrite Hs. by destruct p. }
  unfold readyz, phase. by rewrite (Hfold l s Hr).
Qed.

Section run.
Context {Time ByteSize : Type} `{TimeOps Time}.
Context (queue_capacity : Z → result unit string) (frame_max : ByteSize → result unit string)
        (whole_secs : Time → bool).
Context (c : OperatorConfig (Time := Time) (ByteSize := ByteSize)).
#[local] Notation rresp := (run_resp (Time := Time)).
#[local] Notation log := (list (event rresp)).
#[local] Notation rev := (ev (resp := rresp)).
#[local] Notation valid := (validate queue_capacity frame_max whole_secs c = Ok tt).
Implicit Types (h : log).

(** The state of the health server after a log. *)
Definition health_after h : HealthState :=
  foldl (λ s e, match projT1 e with Advance p => advance s p | _ => s end) new h.

Definition lease_held h : Prop :=
  rev (AcquireLease (operator_namespace c) (oc_lease_name c) (pod_name c)
         (leader_lease_duration c) (leader_retry_interval c)) (Ok tt) ∈ h.
Definition started h : Prop := ∃ n id, rev (SpawnController n) id ∈ h.
Definition stopped h : Prop := rev StopControllers tt ∈ h.
Definition aborted h : Prop := rev AbortControllers tt ∈ h.
Definition lost_event (e : event rresp) : bool :=
  match e with existT Select (LeadershipEnded _) => true | _ => false end.
Definition lease_lost h : Prop := ∃ e, e ∈ h ∧ lost_event e = true.
Definition gave_back h : Prop := ∃ limit x, rev (ReleaseLease limit) x ∈ h.

Definition step_ok h (e : event rresp) : Prop :=
  match projT1 e with
  | AcquireLease _ _ _ _ _ => valid ∧ fst (readyz (health_after h)) = 200 ∧ ¬ started h
  | SpawnController n =>
      n ∈ controllers ∧ valid ∧ lease_held h ∧ phase (health_after h) = Leading ∧
      ¬ stopped h ∧ ¬ aborted h ∧ ¬ lease_lost h
  | StopControllers | AbortControllers => phase (health_after h) = Stopping
  | ReleaseLease _ => lease_held h ∧ stopped h ∧ ¬ lease_lost h ∧ phase (health_after h) = Stopping
  | _ => True
  end.

(** At the end of a run that started controllers. *)
Definition ended h : Prop :=
  started h → fst (readyz (health_after h)) = 503 ∧ (stopped h ∨ aborted h ∧ lease_lost h) ∧
    (∀ n, n ∈ controllers → ∃ id, rev (SpawnController n) id ∈ h) ∧
    (gave_back h → ¬ lease_lost h).

(** The lease is held, and nothing has ended yet. *)
Definition leading h : Prop :=
  valid ∧ lease_held h ∧ phase (health_after h) = Leading ∧ ¬ stopped h ∧ ¬ aborted h ∧ ¬ lease_lost h ∧
  ¬ gave_back h.

Lemma health_after_snoc h e :
  health_after (h ++ [e]) =
  match projT1 e with Advance p => advance (health_after h) p | _ => health_after h end.
Proof. unfold health_after. by rewrite foldl_app. Qed.

Lemma lost_snoc h e : lease_lost (h ++ [e]) ↔ lease_lost h ∨ lost_event e = true.
Proof. unfold lease_lost. set_solver. Qed.

(** Membership in a log that has grown by some calls. *)
Ltac grown :=
  unfold lease_held, stopped, aborted, gave_back, started in *; rewrite ?elem_of_app; cbn [app];
  match goal with
  | |- ¬ lease_lost _ => rewrite ?lost_snoc; unfold ev; cbn [lost_event];
                         solve [tauto | intros [? [Hin _]]; by inversion Hin]
  | |- ¬ _ => intros Hin; repeat (let y := fresh in destruct Hin as [y Hin]); rewrite ?elem_of_app in Hin;
              destruct_or? Hin; solve [by log_mem Hin | eauto]
  | |- _ => set_solver
  end.
Ltac call_named :=
  repeat match goal with |- context [projT1 (ev ?c ?x)] => change (projT1 (ev c x)) with c end; cbv beta iota.
Ltac next :=
  match goal with |- safely _ _ (mbind ?f (perform ?c)) _ =>
    refine (safely_step _ _ c f _ _ _); [intros ?; unfold step_ok; call_named|intros ?] end.

Lemma leading_spawn h n id : leading h → leading (h ++ [rev (SpawnController n) id]).
Proof.
  intros (Hv & Hl & Hp & Hs & Ha & Hlost & Hg). split_and!; [done|grown|by rewrite health_after_snoc|grown..].
Qed.

Lemma spawn_all_ok l names h : leading h → l ⊆ controllers →
  safely step_ok h (spawn_all l names) (λ h' _, leading h' ∧ ∀ n, n ∈ l → ∃ id, rev (SpawnController n) id ∈ h').
Proof.
  revert names h. induction l as [|n l IH]; intros names h Hlead Hsub; cbn [spawn_all].
  { apply safely_ret. split; [done|]. set_solver. }
  next; [destruct Hlead as (? & ? & ? & ? & ? & ? & ?); split_and!; try done; set_solver|].
  eapply safely_mono; [apply safely_grows, IH; [by apply leading_spawn|set_solver]|].
  intros h' r (Hg & Hl & Hall). split; [done|]. intros m [->|Hm]%elem_of_cons; [|by apply Hall].
  exists x. apply Hg. set_solver.
Qed.

Definition all_started h : Prop := ∀ n, n ∈ controllers → ∃ id, rev (SpawnController n) id ∈ h.

Lemma all_started_mono h h' : h ⊆ h' → all_started h → all_started h'.
Proof. intros Hs Hall n Hn. destruct (Hall n Hn) as [id Hid]. exists id. by apply Hs. Qed.

(** Once the phase is stopping, the health server answers so. *)
Lemma stopping_after h : 0 ≤ hs_phase (health_after h) ≤ 3 →
  phase (advance (health_after h) Stopping) = Stopping ∧
  fst (readyz (advance (health_after h) Stopping)) = 503.
Proof.
  intros Hr. unfold readyz, phase. cbn [advance hs_phase].
  by replace (Z.max (hs_phase (health_after h)) (to_raw Stopping)) with 3 by (cbn; lia).
Qed.

Lemma health_after_range h : 0 ≤ hs_phase (health_after h) ≤ 3.
Proof.
  induction h as [|e h IH] using rev_ind; [done|]. rewrite health_after_snoc.
  destruct (projT1 e) as [| | |[]| | | | | | | |]; cbn [advance hs_phase to_raw]; lia.
Qed.

Lemma shut_down_ok h : lease_held h → ¬ lease_lost h → all_started h →
  safely step_ok h (shut_down c) (λ h' _, ended h').
Proof.
  intros Hl Hlost Hall. unfold shut_down. destruct (stopping_after h (health_after_range h)) as [Hs Hr].
  next; [done|]. next; [rewrite health_after_snoc; call_named; done|].
  destruct x0. next; [split_and!; [grown|grown|grown|rewrite !health_after_snoc; call_named; done]|].
  apply safely_ret. intros _. rewrite !health_after_snoc. call_named.
  split_and!; [done|left; grown|eapply all_started_mono; [|exact Hall]; set_solver|grown].
Qed.

Lemma supervise_ok h names : leading h → all_started h →
  safely step_ok h (supervise c names) (λ h' _, ended h').
Proof.
  intros (Hv & Hl & Hp & Hs & Ha & Hlost & Hg) Hall. unfold supervise. next; [done|].
  destruct x as [r| |id o|].
  - destruct (stopping_after h (health_after_range h)) as [Hph Hr]. call_named.
    next; [done|]. next; [rewrite !health_after_snoc; call_named; done|]. next; [done|].
    destruct x0. apply safely_ret. intros _. rewrite !health_after_snoc. call_named. split_and!; [done| | |].
    + right. split; [grown|]. rewrite !lost_snoc. auto.
    + eapply all_started_mono; [|exact Hall]; set_solver.
    + intros (limit & y & Hin). exfalso. apply Hg. exists limit, y. set_solver.
  - apply shut_down_ok; [grown|grown|eapply all_started_mono; [|exact Hall]; set_solver].
  - next; [done|]. apply shut_down_ok; [grown|grown|eapply all_started_mono; [|exact Hall]; set_solver].
  - apply shut_down_ok; [grown|grown|eapply all_started_mono; [|exact Hall]; set_solver].
Qed.

Lemma process_run_ok : safely step_ok [] (run queue_capacity frame_max whole_secs c) (λ h _, ended h).
Proof.
  assert (∀ h, ¬ started h → ended h) as Hno by (intros h Hns Hs; by destruct Hns).
  unfold run. destruct (validate _ _ _ c) as [[]|e] eqn:Hv; [|apply safely_ret, Hno; grown].
  next; [done|]. next; [done|]. next; [done|].
  destruct x1 as [[]|e]; [|apply safely_ret, Hno; grown].
  next; [done|]. next; [split_and!; [done|done|grown]|].
  destruct x2 as [[]|e]; [|apply safely_ret, Hno; grown].
  unfold lead. next; [done|]. eapply safely_bind; [apply spawn_all_ok; [|done]|].
  - split_and!; [done|grown|done|grown..].
  - intros h names _ [Hlead Hall]. by apply supervise_ok.
Qed.

(** A configuration that passed the checks has a lease duration that the lease object can
    hold, so leader election does not end for its range. *)
Lemma validated_lease_duration fuel name identity : valid →
  all_runs (acquire fuel name identity (leader_lease_duration c) (leader_retry_interval c))
    (λ _ r, r ≠ Some DurationOutOfRange).
Proof.
  unfold validate, in_i32. intros Hv. unfold acquire, lease_duration_i32, checked.
  repeat case_match; simplify_eq; try congruence; try by rewrite ?negb_true_iff, ?negb_false_iff in *; congruence.
  induction fuel as [|fuel IH]; cbn [acquire_loop]; [done|].
  apply all_runs_bind. unfold all_runs, acquire_iter. run_cases; try done.
  all: by eapply all_runs_mono; [|apply IH].
Qed.

(** C40. The process starts and stops around its lease in a safe order, whatever ends it.
    It asks for the lease only with a configuration that passed the checks, while it
    reports ready and before any controller runs; each controller starts with the lease
    held and the phase at leading; nothing stops before the phase is stopping; the lease
    is given back only after every controller stopped, and never once it was lost.  When
    a run that started a controller ends, all the controllers were started and have been
    stopped (or aborted, when the lease was lost), and the process is no longer ready. *)
Theorem run_stops_before_release :
  all_runs (run queue_capacity frame_max whole_secs c) (λ tr _, justified step_ok tr ∧ ended tr).
Proof. apply process_run_ok, justified_nil. Qed.
End run.

(** ** Turns of a controller (src/telemetry.rs, controller/common.rs)

    The runtime calls [reconcile] of a controller and, on an error, [error_policy]. *)
Inductive ReconcileResult : Type := ResultOk | ResultError | ResultRequeue.
Definition result_as_str (r : ReconcileResult) : string :=
  match r with ResultOk => "ok" | ResultError => "error" | ResultRequeue => "requeue" end.

Section turns.
Context {Time : Type}.

(** The counters by kind and result, the durations observed by kind, and the gauge. *)
Record ControllerMetrics : Type := {
  reconciliations : gmap (string * string) Z;
  reconcile_duration : gmap string (list Time);
  managed_resources : gmap string Z;
}.

Definition record_metric (kind : string) (r : ReconcileResult) (duration : Time) (m : ControllerMetrics)
  : ControllerMetrics :=
  {| reconciliations :=
       partial_alter (λ o, Some (default 0 o + 1)) (kind, result_as_str r) (reconciliations m);
     reconcile_duration :=
       partial_alter (λ o, Some (default [] o ++ [duration])) kind (reconcile_duration m);
     managed_resources := managed_resources m |}.

Definition set_managed_resources (kind : string) (count : Z) (m : ControllerMetrics) : ControllerMetrics :=
  {| reconciliations := reconciliations m; reconcile_duration := reconcile_duration m;
     managed_resources := <[kind := count]> (managed_resources m) |}.

(** [record_reconcile] of a pass that took [elapsed] and gave [r]. *)
Definition record_reconcile {A E} (kind : string) (r : result A E) (elapsed : Time) (m : ControllerMetrics)
  : ControllerMetrics * result A E :=
  (record_metric kind (match r with Ok _ => ResultOk | Err _ => ResultError end) elapsed m, r).

Definition error_requeue (controller_error_requeue : Time) : action Time := Requeue controller_error_requeue.
(** [error_policy], which is the same for each controller. *)
Definition error_policy {E} (controller_error_requeue : Time) (_ : E) : action Time :=
  error_requeue controller_error_requeue.

(** What the runtime does next after a pass of a controller. *)
Definition turn {E} (kind : string) (controller_error_requeue : Time) (r : result (action Time) E) (elapsed : Time)
    (m : ControllerMetrics) : ControllerMetrics * action Time :=
  let '(m, r) := record_reconcile kind r elapsed m in
  (m, match r with Ok a => a | Err e => error_policy controller_error_requeue e end).

(** The passes of [kind] that were counted. *)
Definition counted (kind : string) (m : ControllerMetrics) : Z :=
  default 0 (reconciliations m !! (kind, "ok")) + default 0 (reconciliations m !! (kind, "error")).

Lemma counted_record {A E} kind kind' (r : result A E) elapsed m :
  counted kind' (record_reconcile kind r elapsed m).1 =
  counted kind' m + (if str_eqb kind' kind then 1 else 0).
Proof.
  unfold counted, record_reconcile, record_metric. cbn [fst reconciliations].
  destruct (str_eqb kind' kind) eqn:Hk.
  - apply str_eqb_eq in Hk as ->. destruct r; cbn [result_as_str].
    + rewrite lookup_partial_alter_eq, lookup_partial_alter_ne by done. cbn. lia.
    + rewrite lookup_partial_alter_ne, lookup_partial_alter_eq by done. cbn. lia.
  - rewrite !lookup_partial_alter_ne; [lia|..]; intros [= -> _]; by rewrite str_eqb_refl in Hk.
Qed.

(** Each pass of a controller is counted once, as ok or as an error. *)
Lemma turns_counted {E} kind requeue (l : list (result (action Time) E * Time)) m :
  counted kind (foldl (λ m x, (turn kind requeue x.1 x.2 m).1) m l) = counted kind m + Z.of_nat (length l).
Proof.
  revert m. induction l as [|[r d] l IH]; intros m; cbn [foldl length]; [lia|]. rewrite IH.
  unfold turn. cbn [fst snd]. pose proof (counted_record kind kind r d m) as Hc. revert Hc.
  destruct (record_reconcile kind r d m) as [m' r']. cbn [fst]. rewrite str_eqb_refl. lia.
Qed.
End turns.
