(* ===== verification/Clients.v ===== *)
(** * The clients of the operator (src/context.rs, src/rebalancer_client.rs)

    The requests of the rebalancer client, and the two caches of the shared context: the
    admin clients, one per cluster, namespace, bootstrap address and version of the
    operator's identity, and the rebalancer clients, one per endpoint.  The caches are
    behind a mutex, so a pass that holds it is one step on them; [cache_reach] is what
    any number of passes can make of the admin cache. *)

From S2P Require Import Prelude RustStd Effects Kube UserTls RebalancerClient Connector.
Local Open Scope Z_scope.

(** ** Requests of the rebalancer *)
Definition SERVICE_PATH : string := "krabka.rebalancer.v1.Rebalancer".

Record HttpRequest : Type := {
  http_url : string;
  http_body : json;
  http_bearer : option string;
}.

(** The answer of [send] and [text]: a status and a body, or the text of the error. *)
Inductive http_call : Type := Post (r : HttpRequest).
Definition http_resp (c : http_call) : Type := result (Z * string) string.

Record ConnectRebalancerClient : Type := { base_url : string }.
(** The timeout is the HTTP client's. *)
Definition ConnectRebalancerClient_new (url : string) : ConnectRebalancerClient :=
  {| base_url := trim_end_matches "/" url |}.

Section rebalancer.
Context {ByteRate : Type} (bytes_per_sec_i64 : ByteRate → Z).
(** [serde_json::from_str] *)
Context (parse_json : string → result json string).

Definition execute_body (id : string) (throttle : option ByteRate) : json :=
  JObject (("id", JString id) ::
    match throttle with
    | Some t => [("throttleBytesPerSec", JString (display_Z (bytes_per_sec_i64 t)))]
    | None => []
    end).

Definition is_success (status : Z) : bool := (200 <=? status) && (status <? 300).

Definition rpc (c : ConnectRebalancerClient) (method : string) (body : json) (bearer_token : option string)
  : prog http_resp (result json RebalancerError) :=
  r ← perform (resp := http_resp)
        (Post {| http_url := base_url c +:+ "/" +:+ SERVICE_PATH +:+ "/" +:+ method;
                 http_body := body; http_bearer := bearer_token |});
  Ret match r with
      | Err e => Err (RebalancerClient.Transport e)
      | Ok (status, text) =>
          if is_success status then
            match parse_json text with Ok v => Ok v | Err e => Err (Decode e) end
          else Err (connect_error text (result_ok (parse_json text)) status)
      end.

#[local] Notation decoded p :=
  (v ← p; Ret match v with Ok v => Ok (proposal_from_json v) | Err e => Err e end).

Definition create_proposal c mode brokers goals bearer_token : prog http_resp (result RebalancerProposal RebalancerError) :=
  decoded (rpc c "CreateProposal" (create_proposal_body mode brokers goals) bearer_token).
Definition get_proposal c (id : string) : prog http_resp (result RebalancerProposal RebalancerError) :=
  decoded (rpc c "GetProposal" (JObject [("id", JString id)]) None).
Definition execute_proposal c id throttle bearer_token : prog http_resp (result RebalancerProposal RebalancerError) :=
  decoded (rpc c "ExecuteProposal" (execute_body id throttle) bearer_token).
Definition cancel_execution c (id : string) : prog http_resp (result RebalancerProposal RebalancerError) :=
  decoded (rpc c "CancelExecution" (JObject [("id", JString id)]) None).
End rebalancer.

(** ** The rebalancer cache *)
Definition rebalancer_cache : Type := gmap string ConnectRebalancerClient.

Definition rebalancer_client_for (m : rebalancer_cache) (endpoint : string)
  : rebalancer_cache * ConnectRebalancerClient :=
  match m !! endpoint with
  | Some client => (m, client)
  | None => let client := ConnectRebalancerClient_new endpoint in (<[endpoint := client]> m, client)
  end.
Definition drop_rebalancer_client (m : rebalancer_cache) (endpoint : string) : rebalancer_cache :=
  delete endpoint m.

(** ** The admin cache *)
Definition nul : string := String Ascii.zero "".

(** The handle: the connection and the directory that holds its identity. *)
Record AdminClientHandle (Conn : Type) : Type := Handle { h_inner : Conn; h_material : option string }.
Arguments Handle {_}.
Arguments h_inner {_}.
Arguments h_material {_}.
Notation admin_cache Conn := (gmap string (AdminClientHandle Conn)).

Section admin.
Context {ByteSize Conn : Type}.

Record TlsConnectorConfig : Type := {
  trust_store : string;       (* a PEM file *)
  tls_server_name : string;
  certificate_chain : string;
  private_key : string;
}.
(** The protocol is [Ssl], without SASL. *)
Record ConnectionOptions : Type := {
  dispatch_queue_capacity : Z;
  frame_max : ByteSize;
  security : TlsConnectorConfig;
}.

Inductive cache_call : Type :=
  | LockCache
  | GetIdentity (namespace name : string)
  | MakeTempDir
  | WriteFile (path bytes : string)
  | ConnectAdmin (bootstrap : list string) (o : ConnectionOptions)
  | StoreCache (m : admin_cache Conn).   (* as the lock is released *)

Definition cache_resp (c : cache_call) : Type :=
  match c with
  | LockCache => admin_cache Conn
  | GetIdentity _ _ => result (option string * secret) kube_error   (* with its resourceVersion *)
  | MakeTempDir => result string string
  | WriteFile _ _ => result unit string
  | ConnectAdmin _ _ => result Conn AdminError
  | StoreCache _ => unit
  end.

(** [Path::join] of a file name. *)
Definition path_join (dir file : string) : string := dir +:+ "/" +:+ file.

Definition admin_tls_config (cluster namespace material : string) : TlsConnectorConfig := {|
  trust_store := path_join material "ca.crt";
  tls_server_name := cluster +:+ "-broker-headless." +:+ namespace +:+ ".svc.cluster.local";
  certificate_chain := path_join material "user.crt";
  private_key := path_join material "user.key" |}.

Definition cache_prefix (cluster namespace bootstrap : string) : string :=
  cluster +:+ nul +:+ namespace +:+ nul +:+ bootstrap +:+ nul.

Context (display_kube : kube_error → string).
(** The limits of krabka-client-core, and the settings of the operator. *)
Context (queue_capacity : Z → result unit string) (client_frame_max : ByteSize → result unit string)
        (cfg_capacity : Z) (cfg_frame_max : ByteSize).

#[local] Notation cprog := (prog cache_resp).
#[local] Notation call := (perform (resp := cache_resp)).

Fixpoint write_all (files : list (string * string)) : cprog (result unit AdminError) :=
  match files with
  | [] => Ret (Ok tt)
  | (path, bytes) :: rest =>
      r ← call (WriteFile path bytes);
      match r with
      | Ok _ => write_all rest
      | Err e => Ret (Err (Protocol ("write operator identity " +:+ path +:+ ": " +:+ e)))
      end
  end.

Definition connection_options (cluster namespace material : string) : result ConnectionOptions AdminError :=
  if? map_err Protocol (queue_capacity cfg_capacity) in
  if? map_err Protocol (client_frame_max cfg_frame_max) in
  Ok {| dispatch_queue_capacity := cfg_capacity; frame_max := cfg_frame_max;
        security := admin_tls_config cluster namespace material |}.

(** What of the identity goes to which file of [dir]. *)
Definition identity_files (data : gmap string string) (missing : string → AdminError) (dir : string)
  : result (list (string * string)) AdminError :=
  let value name := ok_or (data !! name) (missing name) in
  let? ca := value "ca.crt" in
  let? crt := value "user.crt" in
  let? key := value "user.key" in
  Ok [(path_join dir "ca.crt", ca); (path_join dir "user.crt", crt); (path_join dir "user.key", key)].

(** From the identity on, with the cache locked: [map] is what the lock gave. *)
Definition connect_and_store (namespace cluster bootstrap : string) (version : option string) (s : secret)
    (map : admin_cache Conn) : cprog (result (AdminClientHandle Conn) AdminError) :=
  let secret_name := operator_secret_name cluster in
  let prefix := cache_prefix cluster namespace bootstrap in
  let key := prefix +:+ default "unknown" version in
  match or_else (map !! key) (map !! cluster) with
  | Some client => Ret (Ok client)
  | None =>
      match sec_data s with
      | None => Ret (Err (Protocol ("operator identity Secret " +:+ namespace +:+ "/" +:+ secret_name +:+
                                    " has no data")))
      | Some data =>
          material ← call MakeTempDir;
          match material with
          | Err e => Ret (Err (Protocol ("operator identity tempdir: " +:+ e)))
          | Ok dir =>
              match identity_files data (λ name, Protocol ("operator identity Secret " +:+ namespace +:+ "/" +:+
                                                  secret_name +:+ " has no " +:+ name)) dir with
              | Err e => Ret (Err e)
              | Ok files =>
                  written ← write_all files;
                  match written with
                  | Err e => Ret (Err e)
                  | Ok _ =>
                      match connection_options cluster namespace dir with
                      | Err e => Ret (Err e)
                      | Ok options =>
                          admin ← call (ConnectAdmin [bootstrap] options);
                          match admin with
                          | Err e => Ret (Err e)
                          | Ok admin =>
                              let entry := {| h_inner := admin; h_material := Some dir |} in
                              let kept := filter (λ kv, starts_with prefix kv.1 = false) map in
                              _ ← call (StoreCache (<[key := entry]> kept));
                              Ret (Ok entry)
                          end
                      end
                  end
              end
          end
      end
  end.

Definition admin_client_for (namespace cluster bootstrap : string)
  : cprog (result (AdminClientHandle Conn) AdminError) :=
  cached ← call LockCache;
  match cached !! cluster with
  | Some client => Ret (Ok client)
  | None =>
      let secret_name := operator_secret_name cluster in
      got ← call (GetIdentity namespace secret_name);
      match got with
      | Err e => Ret (Err (Protocol ("operator identity Secret " +:+ namespace +:+ "/" +:+ secret_name +:+
                                     ": " +:+ display_kube e)))
      | Ok (version, s) =>
          map ← call LockCache;
          connect_and_store namespace cluster bootstrap version s map
      end
  end.

Definition drop_admin_client (cluster : string) (m : admin_cache Conn) : admin_cache Conn :=
  filter (λ kv, negb (str_eqb kv.1 cluster) && negb (starts_with (cluster +:+ nul) kv.1) = true) m.
End admin.

(** ** What the caches promise *)

(** No name that Kubernetes accepts, and no address, has a NUL. *)
Definition no_nul (s : string) : bool := str_all (λ c, negb (Ascii.eqb c Ascii.zero)) s.

(** [no_nul] names before a NUL are unambiguous. *)
Lemma nul_inj a b x y : no_nul a = true → no_nul b = true →
  a +:+ nul +:+ x = b +:+ nul +:+ y → a = b ∧ x = y.
Proof.
  revert b. induction a as [|c a IH]; intros [|d b] Ha Hb; unfold no_nul in *; cbn in *.
  - intros [=]. auto.
  - intros [= <- _]. done.
  - intros [= -> _]. done.
  - apply andb_true_iff in Ha as [_ Ha], Hb as [_ Hb]. intros [= -> Hrest].
    destruct (IH b Ha Hb Hrest). by subst.
Qed.

Lemma prefix_inj cl ns b v cl' ns' b' v' :
  no_nul cl = true → no_nul ns = true → no_nul b = true →
  no_nul cl' = true → no_nul ns' = true → no_nul b' = true →
  cache_prefix cl ns b +:+ v = cache_prefix cl' ns' b' +:+ v' →
  cl = cl' ∧ ns = ns' ∧ b = b' ∧ v = v'.
Proof.
  unfold cache_prefix. intros ?????? Heq. rewrite <- !str_app_assoc in Heq.
  apply nul_inj in Heq as [-> Heq]; [|done..]. apply nul_inj in Heq as [-> Heq]; [|done..].
  by apply nul_inj in Heq as [-> ->].
Qed.

Lemma no_nul_app a b : no_nul (a +:+ b) = no_nul a && no_nul b.
Proof. apply str_all_app. Qed.

Lemma starts_with_iff p s : starts_with p s = true ↔ ∃ r, s = p +:+ r.
Proof.
  unfold starts_with. destruct (strip_prefix p s) as [r|] eqn:E; cbn.
  - apply strip_prefix_Some in E. split; [by exists r|done].
  - split; [done|]. intros [r ->]. by rewrite strip_prefix_app in E.
Qed.

Section reach.
Context {ByteSize Conn : Type} (display_kube : kube_error → string).
Context (queue_capacity : Z → result unit string) (client_frame_max : ByteSize → result unit string)
        (cfg_capacity : Z) (cfg_frame_max : ByteSize).
#[local] Notation cresp := (cache_resp (ByteSize := ByteSize) (Conn := Conn)).
#[local] Notation log := (list (event cresp)).
#[local] Notation cev := (ev (resp := cresp)).
#[local] Notation options := (connection_options queue_capacity client_frame_max cfg_capacity cfg_frame_max).
#[local] Notation for_client := (admin_client_for (Conn := Conn) display_kube queue_capacity client_frame_max cfg_capacity cfg_frame_max).
#[local] Notation locked_part := (connect_and_store (Conn := Conn) queue_capacity client_frame_max cfg_capacity cfg_frame_max).
Implicit Types (H tr : log) (m : admin_cache Conn).

(** In [H] the handle was connected to [b], under the name of the cluster's brokers and
    with the three files of the identity of [cl] in [ns] at version [ver]. *)
Definition serves H (cl ns b ver : string) (h : AdminClientHandle Conn) : Prop :=
  ∃ version s data ca crt key dir o,
    cev (GetIdentity ns (operator_secret_name cl)) (Ok (version, s)) ∈ H ∧
    ver = default "unknown" version ∧ sec_data s = Some data ∧
    data !! "ca.crt" = Some ca ∧ data !! "user.crt" = Some crt ∧ data !! "user.key" = Some key ∧
    options cl ns dir = Ok o ∧
    cev (WriteFile (trust_store (security o)) ca) (Ok tt) ∈ H ∧
    cev (WriteFile (certificate_chain (security o)) crt) (Ok tt) ∈ H ∧
    cev (WriteFile (private_key (security o)) key) (Ok tt) ∈ H ∧
    cev (ConnectAdmin [b] o) (Ok (h_inner h)) ∈ H ∧ h_material h = Some dir.

(** Every entry serves what its key says, and a cluster at an address has one entry. *)
Definition cache_ok H m : Prop :=
  (∀ k h, m !! k = Some h → ∃ cl ns b ver,
     no_nul cl = true ∧ no_nul ns = true ∧ no_nul b = true ∧
     k = cache_prefix cl ns b +:+ ver ∧ serves H cl ns b ver h) ∧
  (∀ cl ns b v v', no_nul cl = true → no_nul ns = true → no_nul b = true →
     is_Some (m !! (cache_prefix cl ns b +:+ v)) →
     is_Some (m !! (cache_prefix cl ns b +:+ v')) → v = v').

(** What a pass leaves in the cache. *)
Definition stored m tr : admin_cache Conn :=
  foldl (λ m e, match projT1 e with StoreCache m' => m' | _ => m end) m tr.

(** The caches that passes can leave, with the calls made so far.  [cr_call] is any call
    outside the lock, or of a pass that is dropped while it holds it. *)
Inductive cache_reach : log → admin_cache Conn → Prop :=
  | cr_new : cache_reach [] ∅
  | cr_pass H m ns cl b version s tr r :
      cache_reach H m → no_nul cl = true → no_nul ns = true → no_nul b = true →
      cev (GetIdentity ns (operator_secret_name cl)) (Ok (version, s)) ∈ H →
      runs (locked_part ns cl b version s m) tr r → cache_reach (H ++ tr) (stored m tr)
  | cr_drop H m cl : cache_reach H m → cache_reach H (drop_admin_client cl m)
  | cr_call H m e : cache_reach H m → (∀ m', projT1 e ≠ StoreCache m') → cache_reach (H ++ [e]) m.

Lemma serves_mono H H' cl ns b ver h : H ⊆ H' → serves H cl ns b ver h → serves H' cl ns b ver h.
Proof. intros Hsub (v & s & d & ca & crt & key & dir & o & ?). exists v, s, d, ca, crt, key, dir, o. set_solver. Qed.

Lemma options_security cl ns dir o : options cl ns dir = Ok o → security o = admin_tls_config cl ns dir.
Proof. unfold connection_options. repeat case_match; by intros [= <-]. Qed.

(** The part under the lock gives the entry of the cache, or stores a new one. *)
Definition locked_outcome H ns cl b ver m tr (r : result (AdminClientHandle Conn) AdminError) : Prop :=
  let key := cache_prefix cl ns b +:+ ver in
  (stored m tr = m ∧ ∀ h, r = Ok h → m !! key = Some h ∨ m !! cl = Some h) ∨
  ∃ h, r = Ok h ∧ serves (H ++ tr) cl ns b ver h ∧
    stored m tr = <[key := h]> (filter (λ kv, starts_with (cache_prefix cl ns b) kv.1 = false) m).

Lemma locked_part_outcome H ns cl b version s m :
  cev (GetIdentity ns (operator_secret_name cl)) (Ok (version, s)) ∈ H →
  all_runs (locked_part ns cl b version s m) (locked_outcome H ns cl b (default "unknown" version) m).
Proof.
  intros Hid. unfold connect_and_store.
  destruct (or_else _ _) as [h|] eqn:Hfound.
  { left. split; [done|]. intros h' [= <-]. destruct (m !! _) eqn:E; cbn in Hfound; simplify_eq; auto. }
  destruct (sec_data s) as [data|] eqn:Hdata; [|by left].
  intros [dir|e]; [|by left]. cbn.
  destruct (identity_files data _ dir) as [files|e] eqn:Hfiles; [|by left].
  unfold identity_files, ok_or in Hfiles.
  destruct (data !! "ca.crt") as [ca|] eqn:Hca; [|done]. destruct (data !! "user.crt") as [crt|] eqn:Hcrt; [|done].
  destruct (data !! "user.key") as [key|] eqn:Hkey; [|done]. injection Hfiles as <-.
  cbn. intros [[]|e]; [|by left]. intros [[]|e]; [|by left]. intros [[]|e]; [|by left]. cbn.
  destruct (options cl ns dir) as [o|e] eqn:Ho; [|by left].
  intros [admin|e]; [|by left]. intros []. right. eexists. split; [done|]. split; [|done].
  eexists version, s, data, _, _, _, dir, o. rewrite (options_security _ _ _ _ Ho). cbn.
  split_and!; solve [done | logged].
Qed.

Lemma cache_ok_mono H H' m : H ⊆ H' → cache_ok H m → cache_ok H' m.
Proof.
  intros Hsub [Hk Hu]. split; [|done]. intros k h Hm. destruct (Hk k h Hm) as (cl & ns & b & v & ? & ? & ? & ? & ?).
  exists cl, ns, b, v. eauto 10 using serves_mono.
Qed.

(** Fewer entries are as good. *)
Lemma cache_ok_sub H m m' : m' ⊆ m → cache_ok H m → cache_ok H m'.
Proof.
  intros Hsub [Hk Hu]. split.
  - intros k h Hm. apply Hk. by eapply lookup_weaken.
  - intros cl ns b v v' ??? [h Hh] [h' Hh']. apply (Hu cl ns b); try done; eexists; by eapply lookup_weaken.
Qed.

(** A new entry takes the place of the entries with its prefix. *)
Lemma cache_ok_insert H m cl ns b ver h :
  no_nul cl = true → no_nul ns = true → no_nul b = true → cache_ok H m → serves H cl ns b ver h →
  cache_ok H (<[cache_prefix cl ns b +:+ ver := h]>
                (filter (λ kv, starts_with (cache_prefix cl ns b) kv.1 = false) m)).
Proof.
  intros Hcl Hns Hb [Hk Hu] Hs. split.
  - intros k h' [[<- <-]|[_ Hm]]%lookup_insert_Some; [by exists cl, ns, b, ver|].
    apply map_lookup_filter_Some in Hm as [Hm _]. by apply Hk.
  - assert (∀ cl' ns' b' v v' h', no_nul cl' = true → no_nul ns' = true → no_nul b' = true →
      m !! (cache_prefix cl' ns' b' +:+ v') = Some h' →
      starts_with (cache_prefix cl ns b) (cache_prefix cl' ns' b' +:+ v') = false →
      cache_prefix cl ns b +:+ ver = cache_prefix cl' ns' b' +:+ v → False) as Hclash.
    { intros cl' ns' b' v v' h' Hcl' Hns' Hb' Hm Hpre Heq.
      apply prefix_inj in Heq as (<- & <- & <- & _); [|done..].
      apply not_true_iff_false in Hpre. apply Hpre, starts_with_iff. by eexists. }
    intros cl' ns' b' v v' Hcl' Hns' Hb' [h1 Hv] [h2 Hv'].
    apply lookup_insert_Some in Hv as [[Heq1 _]|[_ [Hm1 Hp1]%map_lookup_filter_Some]];
      apply lookup_insert_Some in Hv' as [[Heq2 _]|[_ [Hm2 Hp2]%map_lookup_filter_Some]].
    + rewrite Heq1 in Heq2. by apply str_app_inj_l in Heq2.
    + by destruct (Hclash cl' ns' b' v v' h2).
    + by destruct (Hclash cl' ns' b' v' v h1).
    + by apply (Hu cl' ns' b'); try eexists.
Qed.

Lemma cache_reach_ok H m : cache_reach H m → cache_ok H m.
Proof.
  induction 1 as [|H m ns cl b version s tr r _ IH Hcl Hns Hb Hid Hruns|H m cl _ IH|H m e _ IH _].
  - split; [|intros ????? _ _ _ [h Hh]]; by intros.
  - pose proof (runs_elim _ _ _ _ Hruns (locked_part_outcome H ns cl b version s m Hid)) as Hout.
    assert (cache_ok (H ++ tr) m) as Hok by (eapply cache_ok_mono; [|done]; set_solver).
    destruct Hout as [[-> _]|(h & _ & Hs & ->)]; [done|]. by apply cache_ok_insert.
  - eapply cache_ok_sub; [|done]. apply map_filter_subseteq.
  - eapply cache_ok_mono; [|done]. set_solver.
Qed.

(** Only keys with a NUL are in the cache: the one of a bare cluster is not. *)
Lemma cache_ok_bare H m cl : cache_ok H m → no_nul cl = true → m !! cl = None.
Proof.
  intros [Hk _] Hcl. apply eq_None_not_Some. intros [h Hh].
  destruct (Hk _ _ Hh) as (cl' & ns & b & v & _ & _ & _ & -> & _). revert Hcl.
  unfold cache_prefix. rewrite !no_nul_app, !andb_true_iff. by intros [[_ [H' _]] _].
Qed.

(** A drop takes the entries of its cluster, at every address, and no other. *)
Lemma drop_admin_exact m cl cl' ns b v :
  no_nul cl = true → no_nul cl' = true →
  drop_admin_client cl m !! (cache_prefix cl' ns b +:+ v) =
  if str_eqb cl' cl then None else m !! (cache_prefix cl' ns b +:+ v).
Proof.
  intros Hcl Hcl'. unfold drop_admin_client. rewrite map_lookup_filter.
  assert (str_eqb (cache_prefix cl' ns b +:+ v) cl = false) as Hne.
  { apply not_true_iff_false. intros <-%str_eqb_eq. revert Hcl.
    unfold cache_prefix. rewrite !no_nul_app, !andb_true_iff. by intros [[_ [H' _]] _]. }
  assert (starts_with (cl +:+ nul) (cache_prefix cl' ns b +:+ v) = str_eqb cl' cl) as Hsw.
  { apply eq_true_iff_eq. rewrite starts_with_iff, str_eqb_eq. unfold cache_prefix. split.
    - intros [r Hr]. rewrite <- !str_app_assoc in Hr. by apply nul_inj in Hr as [? _].
    - intros ->. exists (ns +:+ nul +:+ b +:+ nul +:+ v). by rewrite <- !str_app_assoc. }
  destruct (m !! _); cbn -[str_eqb]; [|by destruct (str_eqb cl' cl)].
  rewrite Hne, Hsw. by destruct (str_eqb cl' cl).
Qed.

(** C39. An admin client never serves a request that is not its own.  Whatever passes have
    made of the cache before, and whatever runs between the two locks of this pass, the
    client that it gets was connected to this bootstrap address, verifies the name of this
    cluster's brokers in this namespace, and uses the certificate, key and CA of the
    identity Secret of this cluster at the version that this pass read: a renewed identity
    is never served by the client of the old one. *)
Theorem admin_client_serves H ns cl b :
  no_nul cl = true → no_nul ns = true → no_nul b = true →
  all_runs (for_client ns cl b) (λ tr r,
    (∀ m, cev LockCache m ∈ tr → ∃ H', H' ⊆ H ∧ cache_reach H' m) →
    ∀ h, r = Ok h → ∃ version s,
      cev (GetIdentity ns (operator_secret_name cl)) (Ok (version, s)) ∈ tr ∧
      serves (H ++ tr) cl ns b (default "unknown" version) h).
Proof.
  intros Hcl Hns Hb m0. change (admin_cache Conn) in m0. cbn -[connect_and_store]. destruct (m0 !! cl) as [h0|] eqn:Hm0.
  { intros Hlocks. destruct (Hlocks m0) as (H' & _ & Hr); [logged|].
    by rewrite (cache_ok_bare _ _ _ (cache_reach_ok _ _ Hr) Hcl) in Hm0. }
  intros [[version s]|e]; [|done]. intros m. change (admin_cache Conn) in m. set (pre := _ ++ _). assert (cev (GetIdentity ns (operator_secret_name cl)) (Ok (version, s)) ∈ H ++ pre)
    as Hid by (subst pre; logged).
  pose proof (locked_part_outcome (H ++ pre) ns cl b version s m Hid) as Hpart.
  apply (always_shift _ [] pre) in Hpart. rewrite app_nil_r in Hpart.
  eapply always_mono; [|exact Hpart]. intros ? r (tr & -> & Hout) Hlocks h ->. exists version, s. split; [subst pre; logged|]. rewrite app_assoc.
  destruct Hout as [[_ Hh]|(h' & [= ->] & Hs & _)]; [|done].
  destruct (Hlocks m) as (H' & Hsub & Hr); [subst pre; logged|]. apply cache_reach_ok in Hr.
  destruct (Hh h eq_refl) as [Hm|Hm]; [|by rewrite (cache_ok_bare _ _ _ Hr Hcl) in Hm].
  destruct Hr as [Hk _]. destruct (Hk _ _ Hm) as (cl' & ns' & b' & v' & ? & ? & ? & Heq & Hs).
  apply prefix_inj in Heq as (<- & <- & <- & <-); [|done..]. eapply serves_mono; [|exact Hs]. set_solver.
Qed.
End reach.

(** ** The rebalancer client *)
Section rebalancer_facts.

(** The throttle reaches the rebalancer as the rate of the resource. *)
Lemma execute_throttle_exact {ByteRate} (bytes : ByteRate → Z) id t :
  0 ≤ bytes t ≤ i64_max →
  ∃ s, jget "throttleBytesPerSec" (execute_body bytes id (Some t)) = Some (JString s) ∧
       parse_i64 s = Some (bytes t).
Proof. intros Ht. eexists. split; [done|]. by apply parse_signed_display. Qed.

Lemma strip_slashes n s : (String.length s ≤ n)%nat → strip_suffix "/" (strip_while (strip_suffix "/") n s) = None.
Proof.
  revert s. induction n as [|n IH]; intros s Hn; cbn [strip_while].
  - by destruct s; [|cbn in Hn; lia].
  - destruct (strip_suffix "/" s) as [s'|] eqn:E; [|done]. apply IH.
    apply strip_suffix_Some in E as ->. rewrite str_length_app in Hn. cbn in Hn. lia.
Qed.

(** A base URL with slashes at its end gives the same requests. *)
Lemma base_url_trimmed url : ends_with "/" (base_url (ConnectRebalancerClient_new url)) = false.
Proof.
  apply not_true_iff_false. intros [r Hr]%ends_with_iff.
  pose proof (strip_slashes (String.length url) url (le_n _)) as Hs. cbn [ConnectRebalancerClient_new base_url] in Hr.
  unfold trim_end_matches in Hr. change (one "/"%char) with "/"%string in Hr. rewrite Hr, strip_suffix_app in Hs. done.
Qed.

Definition rebalancer_cache_ok (m : rebalancer_cache) : Prop :=
  map_Forall (λ endpoint c, c = ConnectRebalancerClient_new endpoint) m.

(** The client of an endpoint talks to that endpoint, also after others were dropped. *)
Lemma rebalancer_client_exact m endpoint : rebalancer_cache_ok m →
  (rebalancer_client_for m endpoint).2 = ConnectRebalancerClient_new endpoint ∧
  rebalancer_cache_ok (rebalancer_client_for m endpoint).1 ∧
  rebalancer_cache_ok (drop_rebalancer_client m endpoint).
Proof.
  intros Hm. unfold rebalancer_client_for. split_and!; [| |by apply map_Forall_delete].
  - destruct (m !! endpoint) eqn:E; [by apply Hm in E|done].
  - destruct (m !! endpoint) eqn:E; [done|]. by apply map_Forall_insert_2.
Qed.
End rebalancer_facts.

(** ** A pass on an empty cache *)
Section example.
#[local] Notation eresp := (cache_resp (ByteSize := Z) (Conn := nat)).

Definition demo_identity : secret :=
  Secret empty_meta (Some (list_to_map [("ca.crt", "CA"); ("user.crt", "CERT"); ("user.key", "KEY")])).

Definition demo_step (u : unit) (c : cache_call) : unit * eresp c :=
  (u, match c return eresp c with
      | LockCache => ∅
      | GetIdentity _ _ => Ok (Some "7", demo_identity)
      | MakeTempDir => Ok "/tmp/identity"
      | WriteFile _ _ => Ok tt
      | ConnectAdmin _ _ => Ok 1%nat
      | StoreCache _ => tt
      end).

Definition locked_cache (e : event eresp) : option (admin_cache nat) :=
  match e with existT LockCache m => Some m | _ => None end.

#[local] Notation demo_pass :=
  (exec demo_step (admin_client_for (λ _, "") (λ _, Ok tt) (λ _, Ok tt) 16 1024 "prod" "orders" "orders:9093") tt).

Lemma admin_client_serves_witness :
  ∃ h version s, demo_pass.2 = Ok h ∧
    ev (resp := eresp) (GetIdentity "prod" (operator_secret_name "orders")) (Ok (version, s)) ∈ demo_pass.1.2 ∧
    serves (λ _, Ok tt) (λ _, Ok tt) 16 1024 ([] ++ demo_pass.1.2) "orders" "prod" "orders:9093"
      (default "unknown" version) h.
Proof.
  assert (∀ m, ev (resp := eresp) LockCache m ∈ demo_pass.1.2 → m = ∅) as Hlocks.
  { intros m Hin. assert (Some m ∈ map locked_cache demo_pass.1.2) as Hm by (apply list_elem_of_fmap; by exists (ev LockCache m)).
    revert Hm. set (l := map _ _). vm_compute in l. subst l. intros Hm.
    repeat (apply elem_of_cons in Hm as [Hm|Hm]; [try discriminate Hm; by injection Hm|]). by apply elem_of_nil in Hm. }
  pose proof (all_runs_exec demo_step _ tt _
    (admin_client_serves (λ _, "") (λ _, Ok tt) (λ _, Ok tt) 16 1024 [] "prod" "orders" "orders:9093"
       eq_refl eq_refl eq_refl)) as Hrun.
  destruct (Hrun (λ m Hin, ex_intro _ [] (conj (λ _ Hx, Hx)
    (eq_rect_r (cache_reach _ _ _ _ []) (cr_new _ _ _ _) (Hlocks m Hin))))
    {| h_inner := 1%nat; h_material := Some "/tmp/identity" |}) as (v & s & Hin & Hs); [by vm_compute|].
  eexists _, v, s. split; [|split; [exact Hin|exact Hs]]. by vm_compute.
Defined.
End example.
