(* ===== verification/Controllers.v ===== *)
(** * What wakes a controller (the [run] of each controller under src/controller/)

    The watches that each controller sets up, the resources that an event on an object
    wakes, and whether a pass that waits for a change will be woken by it: a pass that asks
    for no later turn is woken only by the watches of its controller. *)

From S2P Require Import Prelude RustStd Effects Kube Workload Version Toml Tuning Quantity CaBundle.
From S2P Require Import ClusterCa BrokerKeystore RebalancerClient Rebalance Listeners ListenerCheck NodePool.
From S2P Require Import ListenerObjects Quorum NetworkPolicy KafkaSpec StorageChange Rollout PodRender PodFacts.
From S2P Require Import Drain PoolPass PoolSafety UserTls UserAcl DelegationToken User Topic Connector ConnectorFacts.
From S2P Require Import SchemaRegistry RegistryFacts Gateway GatewayPass GatewayFacts KafkaPass.
Local Open Scope Z_scope.

(** ** Watches *)
Record watched_object : Type := { wo_kind : string; wo_meta : object_meta }.
(** An [ObjectRef] of the kind of the controller: namespace and name. *)
Definition object_ref : Type := option string * string.

Inductive source : Type :=
  | Owns (kind : string)
  | Watches (kind : string) (mapper : object_meta → list object_ref).

(** The mapper of the Kafka controller for node pools. *)
Definition parent_of_pool (pool : object_meta) : list object_ref :=
  match label pool "krabka.io/cluster", om_namespace pool with
  | Some name, Some ns => [(Some ns, name)]
  | _, _ => []
  end.

Record controller : Type := { ct_kind : string; ct_sources : list source }.

Definition kafka_controller : controller :=
  {| ct_kind := "Kafka";
     ct_sources := [Watches "KafkaNodePool" parent_of_pool; Watches "Node" (λ _, [])] |}.
Definition pool_controller : controller :=
  {| ct_kind := "KafkaNodePool"; ct_sources := [Owns "StatefulSet"; Owns "PodDisruptionBudget"] |}.
Definition topic_controller : controller :=
  {| ct_kind := "KafkaTopic"; ct_sources := [Watches "Kafka" (λ _, [])] |}.
Definition user_controller : controller :=
  {| ct_kind := "KafkaUser"; ct_sources := [Watches "Kafka" (λ _, [])] |}.
Definition rebalance_controller : controller := {| ct_kind := "KafkaRebalance"; ct_sources := [] |}.
Definition gateway_controller : controller :=
  {| ct_kind := "KafkaGrpcGateway";
     ct_sources := [Owns "Deployment"; Owns "Service"; Owns "Secret"; Owns "KafkaUser"; Watches "Kafka" (λ _, [])] |}.
Definition connector_controller : controller :=
  {| ct_kind := "KafkaConnector"; ct_sources := [Owns "Deployment"; Owns "KafkaUser"] |}.
Definition registry_controller : controller :=
  {| ct_kind := "SchemaRegistry"; ct_sources := [Watches "Kafka" (λ _, [])] |}.

(** The runtime (kube) turns an event on an object into the resources to reconcile: the
    object itself if it is of the kind of the controller, its owners of that kind if the
    controller owns its kind, and what the mappers of its kind give. *)
Definition wakes (kind : string) (s : source) (o : watched_object) (r : object_ref) : Prop :=
  match s with
  | Owns k =>
      wo_kind o = k ∧ ∃ w, w ∈ om_owners (wo_meta o) ∧ or_kind w = kind ∧ r = (om_namespace (wo_meta o), or_name w)
  | Watches k mapper => wo_kind o = k ∧ r ∈ mapper (wo_meta o)
  end.

Class ControllerRuntime : Type := {
  triggers : controller → watched_object → list object_ref;
  triggers_iff c o r :
    r ∈ triggers c o ↔
    (wo_kind o = ct_kind c ∧ r = (om_namespace (wo_meta o), name_any (wo_meta o))) ∨
    ∃ s, s ∈ ct_sources c ∧ wakes (ct_kind c) s o r;
}.

(** The resource that is woken, alone. *)
Definition wakes_only `{ControllerRuntime} (c : controller) (kind : string) (m : object_meta) (r : object_ref) : Prop :=
  ∀ r', r' ∈ triggers c {| wo_kind := kind; wo_meta := m |} ↔ r' = r.

(** Such a runtime. *)
Definition woken_by (kind : string) (o : watched_object) (s : source) : list object_ref :=
  match s with
  | Owns k =>
      if bool_decide (wo_kind o = k)
      then map (λ w, (om_namespace (wo_meta o), or_name w)) (filter (λ w, or_kind w = kind) (om_owners (wo_meta o)))
      else []
  | Watches k mapper => if bool_decide (wo_kind o = k) then mapper (wo_meta o) else []
  end.
Definition woken (c : controller) (o : watched_object) : list object_ref :=
  (if bool_decide (wo_kind o = ct_kind c) then [(om_namespace (wo_meta o), name_any (wo_meta o))] else [])
  ++ concat (map (woken_by (ct_kind c) o) (ct_sources c)).

Lemma woken_by_wakes kind o s r : r ∈ woken_by kind o s ↔ wakes kind s o r.
Proof.
  destruct s as [k|k mapper]; cbn; case_bool_decide; [|set_solver..].
  rewrite list_elem_of_fmap. setoid_rewrite list_elem_of_filter. naive_solver.
Qed.

Lemma woken_iff c o r :
  r ∈ woken c o ↔
  (wo_kind o = ct_kind c ∧ r = (om_namespace (wo_meta o), name_any (wo_meta o))) ∨
  ∃ s, s ∈ ct_sources c ∧ wakes (ct_kind c) s o r.
Proof.
  unfold woken. rewrite elem_of_app, elem_of_concat_map.
  setoid_rewrite <- woken_by_wakes. case_bool_decide; rewrite ?list_elem_of_singleton; naive_solver set_solver.
Qed.
#[local] Instance woken_runtime : ControllerRuntime := {| triggers := woken; triggers_iff := woken_iff |}.

(** ** Passes that wait *)
Definition waits {Time E} (r : result (action Time) E) : Prop := r = Ok AwaitChange.

(** The controllers that never wait: each pass ends in an error, which comes back, or asks
    for its next turn.  What they watch for other kinds is empty, so they rely on it. *)
Section never_wait.
Context {Time ByteSize Ratio F64 ByteRate : Type} `{TimeOps Time} `{SizeOps ByteSize}.
#[local] Notation no_wait := (λ r, ¬ waits r).

Lemma rebalance_never_waits cfg ts obj :
  results no_wait (Rebalance.reconcile_inner (Time := Time) (ByteRate := ByteRate) cfg ts obj).
Proof.
  unfold Rebalance.reconcile_inner, finish_with, waits. settle; try by intros [=].
  all: by unfold waits; intros [=].
Qed.

Lemma connector_never_waits url_scheme sha256_hex cfg ts obj :
  results no_wait (Connector.reconcile_inner (Time := Time) (ByteSize := ByteSize) (Ratio := Ratio) (F64 := F64)
    url_scheme sha256_hex cfg ts obj).
Proof.
  unfold Connector.reconcile_inner, pause, run_worker, waits. settle; by intros [=].
Qed.
End never_wait.

(** An action inside the result of a part of a pass. *)
Definition part_waits {Time A E} (get : A → option (action Time)) (r : result A E) : Prop :=
  match r with Ok a => get a = Some AwaitChange | Err _ => False end.

(** A part that may end the pass, and the rest of it. *)
Lemma results_part {call} {resp : call → Type} {Time A B E} (get : A → option (action Time))
    (p : prog resp (result A E)) (f : A → prog resp (result B E)) (Q : result B E → Prop) :
  results (λ r, ¬ part_waits get r) p → (∀ e, Q (Err e)) → (∀ a, get a ≠ Some AwaitChange → results Q (f a)) →
  results Q (p ≫= λ r, match r with Ok x => f x | Err e => Ret (Err e) end).
Proof.
  intros Hp He Hf. apply results_bind. eapply results_mono; [|exact Hp]. intros [a|e] Ha; [by apply Hf|apply He].
Qed.

Definition left_action {Time A} (x : action Time + A) : option (action Time) :=
  match x with inl a => Some a | inr _ => None end.
Definition done_action {Time A} (x : KafkaPass.phase Time A) : option (action Time) :=
  match x with Done a => Some a | Ready _ => None end.

(** The results of a program without a wait in it: [no_wait] when its parts return no
    action, [no_wait_through] when they do. *)
Ltac refuted := unfold waits, part_waits; cbn; try done; first [by intros [=] | by intros [] | by intros ? [=]].
Ltac no_wait := settle; refuted.
Ltac no_wait_through :=
  repeat lazymatch goal with
    | |- results _ (Ret _) => cbn [results]; cbv beta iota
    | |- results _ (perform _) => intros ?; cbv beta iota
    | |- results _ (Do _ _) => intros ?; cbv beta iota
    | |- results _ (_ ≫= _) => apply results_bind
    | |- results _ (match ?x with _ => _ end) => destruct x
    end; refuted.

Section registry_waits.
Context {Time ByteSize Ratio F64 : Type} `{TimeOps Time} `{SizeOps ByteSize}.
Context (millis_i64 : Time → Z) (time_eqb : Time → Time → bool) (time_finite : Time → bool).
Context (human_time : Time → string) (human_size : ByteSize → string).
Context (greater_error greater_equal_error : Z → string) (empty_error : string).
Context (queue_capacity : Z → result unit string) (frame_max : ByteSize → result unit string).

Lemma registry_never_waits cfg ts obj :
  results (λ r, ¬ waits r)
    (SchemaRegistry.reconcile_inner (Time := Time) (ByteSize := ByteSize) (Ratio := Ratio) (F64 := F64)
       millis_i64 time_eqb time_finite human_time human_size greater_error greater_equal_error empty_error
       queue_capacity frame_max cfg ts obj).
Proof.
  unfold SchemaRegistry.reconcile_inner, waits. destruct (SchemaRegistry.validate_config _ _); [|settle; by intros [=]].
  apply (results_part left_action); [|by intros ? [=]|].
  { unfold resolve_bootstrap, SchemaRegistry.wait. no_wait. }
  intros [act|b] Hact; [intros [= ->]; by apply Hact|].
  apply (results_part left_action); [|by intros ? [=]|].
  { unfold resolve_tls, SchemaRegistry.wait. no_wait. }
  intros [act|s] Hact'; [intros [= ->]; by apply Hact'|]. unfold report. settle; by intros [=].
Qed.
End registry_waits.

Section kafka_waits.
Context {Time ByteSize Ratio F64 Uuid IpAddr : Type}.
Context `{TimeOps Time} `{SizeOps ByteSize} `{RatioOps Ratio} `{X509} `{UserX509}.
Context `{MetadataVersions} `{UuidOps Uuid} `{EqDecision IpAddr}.
Context `{Libraries Time ByteSize Ratio F64 IpAddr}.
Context (cfg : kafka_config (Time := Time)) (ts : string).

Lemma one_ca_never_waits k name w renew replace converged now :
  results (λ r, ¬ part_waits done_action r) (reconcile_one_ca (Time := Time) (ByteSize := ByteSize) (Ratio := Ratio) (F64 := F64) (Uuid := Uuid) (IpAddr := IpAddr) cfg ts k name w renew replace converged now).
Proof. unfold reconcile_one_ca. no_wait. Qed.

Lemma cas_never_wait k name converged pin filter :
  results (λ r, ¬ part_waits done_action r) (reconcile_cas (Time := Time) (ByteSize := ByteSize) (Ratio := Ratio) (F64 := F64) (Uuid := Uuid) (IpAddr := IpAddr) cfg ts k name converged pin filter).
Proof.
  unfold reconcile_cas. apply results_then. intros now.
  apply (results_part done_action); [apply one_ca_never_waits|by intros ? []|].
  intros [o|act] Ho; [|done]. apply (results_part done_action); [apply one_ca_never_waits|by intros ? []|].
  intros [o'|act] Ho'; [|done]. no_wait.
Qed.

Lemma reported_never_waits {A} name reports (p : prog ca_resp (result A ReconcileError)) :
  results (λ r, ¬ part_waits id r)
    (reported (Time := Time) (Uuid := Uuid) (IpAddr := IpAddr)
       cfg ts name reports p).
Proof. unfold reported, KafkaPass.ready_false. no_wait. Qed.

Lemma listeners_never_wait i validation :
  results (λ r, ¬ part_waits done_action r)
    (reconcile_listener_resources (Time := Time) (ByteSize := ByteSize) (Ratio := Ratio) (F64 := F64) (Uuid := Uuid)
       (IpAddr := IpAddr) cfg ts i validation).
Proof.
  unfold reconcile_listener_resources. destruct validation; [|no_wait].
  apply (results_part id); [|by intros ? []|].
  - unfold validate_listener_dependencies.
    do 3 (apply (results_part id); [apply reported_never_waits|by intros ? []|]; intros [act|] ?; [done|]).
    no_wait.
  - intros [act|] Hact; [done|]. no_wait.
Qed.

Lemma kafka_never_waits k :
  results (λ r, ¬ waits r)
    (KafkaPass.reconcile_inner (Time := Time) (ByteSize := ByteSize) (Ratio := Ratio) (F64 := F64) (Uuid := Uuid)
       (IpAddr := IpAddr) cfg ts k).
Proof.
  unfold KafkaPass.reconcile_inner.
  repeat first
    [ apply (results_part done_action);
        [first [apply cas_never_wait|apply listeners_never_wait]|by intros ? [=]|intros [?|?] ?; [|by intros [= ->]]]
    | lazymatch goal with
      | |- results _ (_ ≫= _) => apply results_then; intros ?
      | |- results _ (match ?x with _ => _ end) => destruct x
      | |- results _ (Ret _) => cbn [results]
      end ].
  all: try by intros [=].
  all: unfold finalize_kafka; settle; unfold waits; repeat case_match; by intros [=].
Qed.
End kafka_waits.

Section gateway_waits.
Context {Time ByteSize Ratio F64 IpAddr : Type} `{TimeOps Time} `{SizeOps ByteSize} `{RatioOps Ratio}.
Context `{Ext : !GatewayExt Time ByteSize Ratio F64} `{X509}.

Lemma gateway_never_waits cfg ts gw :
  results (λ r, ¬ waits r)
    (GatewayPass.reconcile_inner (Time := Time) (ByteSize := ByteSize) (Ratio := Ratio) (F64 := F64) (IpAddr := IpAddr)
       cfg ts gw).
Proof.
  unfold GatewayPass.reconcile_inner, reconcile_parent, configure, deploy, GatewayPass.stop_with. no_wait.
Qed.
End gateway_waits.

(** ** Passes that wait, and why *)

(** A part without a wait in it owes nothing. *)
Lemma always_no_wait {call} {resp : call → Type} {R} (p : prog resp R) h (P : R → Prop) (W : list (event resp) → R → Prop) :
  results (λ r, ¬ P r) p → always p h (λ h r, P r → W h r).
Proof. intros Hp. eapply always_mono; [|by apply always_results]. cbn. tauto. Qed.

Section topic_waits.
Context `{TimeOps Time} {Config : Type} (dynamic_overrides : Config → string → gmap string string).
Context (cfg : topic_config (Time := Time)) (ts : string) (obj : KafkaTopic).
#[local] Notation resp := (topic_resp (Time := Time) (Config := Config)).

Definition topic_action (p : TopicPreparation (Time := Time)) : option (action Time) :=
  match p with Topic.Done a => Some a | _ => None end.

Lemma topic_report_never_waits c id advance delay :
  results (λ r, ¬ part_waits topic_action r)
    (Topic.done (Topic.report (Config := Config) ts obj c id advance delay)).
Proof. unfold Topic.done, Topic.report, Topic.patch_status. no_wait_through. Qed.

Definition topic_gone (h : list (event resp)) : Prop :=
  om_deleting (kt_meta obj) = true ∧ ev (resp := resp) (Topic.PatchFinalizers []) (Ok tt) ∈ h.

Lemma prepare_topic_waits :
  always (Topic.prepare_topic (Config := Config) cfg ts obj) [] (λ h r, part_waits topic_action r → topic_gone h).
Proof.
  unfold Topic.prepare_topic, topic_gone.
  repeat lazymatch goal with
    | |- always (Topic.done _) _ _ => apply always_no_wait, topic_report_never_waits
    | |- always (match om_deleting _ with _ => _ end) _ _ => destruct (om_deleting (kt_meta obj)) eqn:Hdel
    | |- always (match ?x with _ => _ end) _ _ => destruct x
    | |- always (Topic.remove_finalizer ≫= _) _ _ => fail
    | |- always (_ ≫= _) _ _ => apply always_then; intros ? ? _
    | |- always (Ret _) _ _ => cbn; done || by intros [=]
    end.
  unfold Topic.remove_finalizer. apply (always_call (resp := resp) (Topic.PatchFinalizers [])). intros [[]|e]; [|by intros []].
  cbn. intros _. split; [done|set_solver].
Qed.

(** A topic waits only when it goes away. *)
Lemma topic_waits_when_gone :
  all_runs (Topic.reconcile_inner (Config := Config) dynamic_overrides cfg ts obj) (λ tr r, waits r → topic_gone tr).
Proof.
  unfold all_runs, Topic.reconcile_inner. eapply always_seq; [apply prepare_topic_waits|].
  intros h [[c b t|a]|e] _ Hw; cbn [always].
  - apply always_no_wait. unfold Topic.create_topic, update_topic, grow_partitions, reconcile_replication_factor,
      reconcile_configs, admin_failed, Topic.report, Topic.patch_status. no_wait_through.
  - intros [= ->]. by apply Hw.
  - by intros [=].
Qed.
End topic_waits.

(** *** Users *)
Section token_waits.
Context `{TimeOps Time} (principal_str : KafkaPrincipal → string) (parse_principal : string → result KafkaPrincipal string).
Context (base64 : string → string) (display_admin : AdminError → string) (display_kube : kube_error → string).
Context (ts : string) (obj : DelegationToken.KafkaUser) (cfg : token_config (Time := Time)).

Definition outcome_action (o : ReconcileOutcome (Time := Time)) : option (action Time) := Some (ro_action o).
Definition driven_action (d : driven (Time := Time)) : option (action Time) :=
  match d with Finished o => Some (ro_action o) | Live _ _ _ => None end.

Lemma admin_error_never_waits e op prior live :
  results (λ r, ¬ part_waits outcome_action r) (on_admin_error display_admin ts obj cfg e op prior live).
Proof. unfold on_admin_error. destruct (classify_admin_error _ _ _ _) as [[reason message] delay]. no_wait. Qed.

Lemma finish_never_waits p :
  results (λ r, ¬ part_waits outcome_action r) p → results (λ r, ¬ part_waits driven_action r) (DelegationToken.finish p).
Proof. intros Hp. unfold DelegationToken.finish. apply results_bind. eapply results_mono; [|exact Hp]. by intros []. Qed.

Lemma issue_never_waits auth now_ms pending :
  results (λ r, ¬ part_waits driven_action r) (issue parse_principal display_admin ts obj auth now_ms cfg pending).
Proof. unfold issue. apply results_then. intros [t|e]; [no_wait|apply finish_never_waits, admin_error_never_waits]. Qed.

Lemma drive_never_waits auth now_ms existing :
  results (λ r, ¬ part_waits driven_action r) (drive principal_str parse_principal display_admin ts obj auth now_ms cfg existing).
Proof.
  unfold drive, drive_create, drive_renew, drive_cycle.
  repeat first
    [ apply issue_never_waits | apply finish_never_waits, admin_error_never_waits
    | lazymatch goal with
      | |- results _ (_ ≫= _) => apply results_then; intros ?
      | |- results _ (match ?x with _ => _ end) => destruct x
      | |- results _ (Ret _) => cbn [results]; refuted
      end ].
Qed.

Lemma token_never_waits auth now_ms :
  results (λ r, ¬ part_waits outcome_action r)
    (DelegationToken.reconcile principal_str parse_principal base64 display_admin display_kube ts obj auth now_ms cfg).
Proof.
  unfold DelegationToken.reconcile. apply results_then. intros [existing|e]; [|apply admin_error_never_waits].
  apply (results_part driven_action); [apply drive_never_waits|by intros ? []|].
  intros [t delay pending|o] Ho; [|exact Ho]. unfold persist. no_wait.
Qed.
End token_waits.

Section user_waits.
Context `{TimeOps Time} `{X509} `{UserX509} {F64 : Type}.
Context (f64_from : Z → F64) (millis_i64 : Time → Z) (time_eqb : Time → Time → bool)
        (is_finite : Time → bool) (human : Time → string).
Context (principal_str : KafkaPrincipal → string) (parse_principal : string → result KafkaPrincipal string)
        (base64 base64_url : string → string)
        (display_admin : AdminError → string) (display_kube : kube_error → string).
Context (acl_leb : AclEntry → AclEntry → bool)
        (diff_user_quotas : gmap string F64 → gmap string F64 → list (QuotaOp F64))
        (DEFAULT_SCRAM_ITERATIONS : Z).
Context (cfg : user_config (Time := Time)) (ts : string) (obj : UserAcl.KafkaUser Time F64).
#[local] Notation resp := (user_resp (Time := Time) (F64 := F64)).

Definition flow_action {A} (f : flow (Time := Time) A) : option (action Time) :=
  match f with Stop a => Some a | Go _ => None end.

(** A part of the pass that may end it, in the middle of another. *)
Lemma results_flow {A B} (p : prog resp (result (flow (Time := Time) A) (option ReconcileError)))
    (f : A → prog resp (result (flow (Time := Time) B) (option ReconcileError))) :
  results (λ r, ¬ part_waits flow_action r) p → (∀ a, results (λ r, ¬ part_waits flow_action r) (f a)) →
  results (λ r, ¬ part_waits flow_action r)
    (p ≫= λ r, match r with Ok (Go x) => f x | Ok (Stop act) => Ret (Ok (Stop act)) | Err e => Ret (Err e) end).
Proof.
  intros Hp Hf. apply results_bind. eapply results_mono; [|exact Hp]. intros [[a|act]|e] Ha; [apply Hf|exact Ha|by intros []].
Qed.

Lemma stop_never_waits {A} (p : prog resp (result (action Time) (option ReconcileError))) :
  results (λ r, ¬ waits r) p → results (λ r, ¬ part_waits flow_action r) (User.stop (A := A) p).
Proof.
  intros Hp. unfold User.stop. apply results_bind. eapply results_mono; [|exact Hp].
  intros [a|e] Ha; [|by intros []]. intros [= ->]. by apply Ha.
Qed.

Lemma refuse_never_waits {A} reason message delay :
  results (λ r, ¬ part_waits flow_action r) (User.refuse (A := A) ts obj reason message delay).
Proof. unfold User.refuse. no_wait. Qed.

Lemma access_error_never_waits e op token :
  results (λ r, ¬ waits r) (user_access_broker_error display_admin cfg ts obj e op token).
Proof. unfold user_access_broker_error, user_broker_error. no_wait. Qed.

Lemma read_failed_never_waits e op token :
  results (λ r, ¬ waits r) (read_failed display_admin cfg ts obj e op token).
Proof. unfold read_failed. destruct token; [apply access_error_never_waits|no_wait]. Qed.

Lemma or_report_never_waits cluster op token change :
  results (λ r, ¬ part_waits flow_action r) (or_report display_admin cfg ts obj cluster op token change).
Proof.
  unfold or_report. apply results_then. intros [[]|e]; [no_wait|]. apply results_then. intros [].
  apply stop_never_waits, access_error_never_waits.
Qed.

Lemma sync_acls_never_waits cluster token :
  results (λ r, ¬ part_waits flow_action r) (sync_acls display_admin acl_leb cfg ts obj cluster token).
Proof.
  unfold sync_acls. destruct (authorization _) as [auth|]; [|no_wait]. apply results_then. intros [current|e].
  - destruct (diff_acls _ _) as [additions deletions]. apply results_then. intros [token'|e]; [|no_wait].
    apply results_flow; [case_bool_decide; [no_wait|apply or_report_never_waits]|]. intros token2.
    case_bool_decide; [no_wait|apply or_report_never_waits].
  - apply results_then. intros []. apply stop_never_waits, read_failed_never_waits.
Qed.

Lemma sync_quotas_never_waits cluster token :
  results (λ r, ¬ part_waits flow_action r) (sync_quotas f64_from display_admin diff_user_quotas cfg ts obj cluster token).
Proof.
  unfold sync_quotas. destruct (quotas _) as [q|]; [|no_wait]. apply results_then. intros [current|e].
  - apply results_then. intros [token'|e]; [|no_wait].
    apply results_flow; [case_bool_decide; [no_wait|apply or_report_never_waits]|]. intros token2. no_wait.
  - apply results_then. intros []. apply stop_never_waits, read_failed_never_waits.
Qed.

Lemma access_never_waits cluster bootstrap tls token :
  results (λ r, ¬ waits r)
    (reconcile_access f64_from display_admin acl_leb diff_user_quotas cfg ts obj cluster bootstrap tls token).
Proof.
  unfold reconcile_access. apply results_then. intros [[]|e]; [|apply read_failed_never_waits].
  apply (results_part flow_action); [|by intros ? [=]|].
  - apply results_flow; [apply sync_acls_never_waits|apply sync_quotas_never_waits].
  - intros [[token' synced]|act] Hact; [|intros [= ->]; by destruct Hact]. unfold finish_access. settle; repeat case_match; refuted.
Qed.

Lemma or_retry_never_waits {A B} (p : prog resp (result A (option ReconcileError)))
    (k : A → prog resp (result (flow (Time := Time) B) (option ReconcileError))) :
  (∀ a, results (λ r, ¬ part_waits flow_action r) (k a)) → results (λ r, ¬ part_waits flow_action r) (or_retry cfg p k).
Proof. intros Hk. unfold or_retry, requeue_error. apply results_then. intros [a|[e|]]; [apply Hk|no_wait..]. Qed.

Lemma scram_never_waits cluster bootstrap auth sha512 :
  results (λ r, ¬ part_waits flow_action r)
    (scram_credential (F64 := F64) base64_url DEFAULT_SCRAM_ITERATIONS cfg ts obj cluster bootstrap auth sha512).
Proof.
  unfold scram_credential, requeue_error. apply or_retry_never_waits. intros password. apply results_then. intros [[]|e]; [|no_wait].
  apply results_then. intros [outcomes|e]; [|no_wait]. destruct (head _); [apply refuse_never_waits|no_wait].
Qed.

Lemma token_credential_never_waits cluster bootstrap auth :
  results (λ r, ¬ part_waits flow_action r)
    (token_credential principal_str parse_principal base64 display_admin display_kube cfg ts obj cluster bootstrap auth).
Proof.
  unfold token_credential. apply results_then. intros [[]|e].
  - apply results_then. intros now_ms. apply (results_part outcome_action); [|by intros ? []|].
    + apply results_lift, token_never_waits.
    + intros o Ho. cbn. by destruct (ro_conditions o), (ro_token_requeue o).
  - apply (results_part outcome_action); [|by intros ? []|by intros o Ho].
    apply results_lift, admin_error_never_waits.
Qed.

Lemma provision_never_waits cluster bootstrap kafka :
  results (λ r, ¬ part_waits flow_action r)
    (provision principal_str parse_principal base64 base64_url display_admin display_kube DEFAULT_SCRAM_ITERATIONS
       cfg ts obj cluster bootstrap kafka).
Proof.
  unfold provision. destruct (authentication _);
    first [ apply results_flow; [first [apply scram_never_waits|apply token_credential_never_waits]|intros ?; no_wait]
          | apply or_retry_never_waits; intros ?; no_wait | no_wait ].
Qed.

(** A user waits only when it goes away: it is deleted, and its finalizer was removed. *)
Definition user_gone (h : list (event resp)) : Prop :=
  om_deleting (u_meta obj) = true ∧ ev (resp := resp) (User.PatchFinalizers (name_any (u_meta obj)) []) (Ok tt) ∈ h.

Lemma lifecycle_waits cluster bootstrap h :
  always (handle_user_lifecycle parse_principal obj cluster bootstrap) h (λ h r, part_waits flow_action r → user_gone h).
Proof.
  unfold handle_user_lifecycle, user_gone. destruct (om_deleting (u_meta obj)) eqn:Hdel.
  - do 2 (apply always_then; intros ? ? _).
    apply (always_call (resp := resp) (User.PatchFinalizers _ [])). intros [[]|e]; [|by intros []].
    cbn. intros _. split; [done|set_solver].
  - apply always_no_wait. no_wait.
Qed.

Lemma user_waits_when_gone :
  all_runs (User.reconcile_inner f64_from millis_i64 time_eqb is_finite human principal_str parse_principal base64 base64_url
    display_admin display_kube acl_leb diff_user_quotas DEFAULT_SCRAM_ITERATIONS cfg ts obj) (λ tr r, waits r → user_gone tr).
Proof.
  unfold all_runs, User.reconcile_inner.
  apply (always_seq _ _ _ (λ _ r, ¬ part_waits flow_action r)).
  { apply always_results. unfold prepare_user.
    repeat first [ apply refuse_never_waits | lazymatch goal with
      | |- results _ (_ ≫= _) => apply results_then; intros ?
      | |- results _ (match ?x with _ => _ end) => destruct x
      | |- results _ (Ret _) => cbn [results]; refuted end ]. }
  intros h [[[[cluster bootstrap] kafka]|act]|e] _ Hp; [|intros [= ->]; by destruct Hp|by intros [=]].
  apply (always_seq _ _ _ (λ h r, part_waits flow_action r → user_gone h)).
  - eapply always_seq; [apply lifecycle_waits|]. intros h1 [[[]|act]|e] _ Hl; [|exact Hl|by intros []].
    apply always_no_wait, provision_never_waits.
  - intros h1 [[[tls token]|act]|e] _ Hl; [|intros [= ->]; by apply Hl|by intros [=]].
    apply always_no_wait, access_never_waits.
Qed.
End user_waits.

(** *** Node pools *)
Section drain_waits.
Context `{TimeOps Time} {ByteRate Uuid : Type} (parse_uuid : string → result Uuid string) (uuid_str : Uuid → string).
Context (ts : string) (pcfg : pool_config (Time := Time)) (pool : KafkaNodePool) (ns cluster name : string).
#[local] Notation dresp := (pool_resp (ByteRate := ByteRate) (Uuid := Uuid)).

Lemma drain_never_waits observed desired start :
  results (λ r, ¬ part_waits id r)
    (reconcile_broker_drain (Uuid := Uuid) (ByteRate := ByteRate) ts pool ns cluster name observed desired start).
Proof.
  unfold reconcile_broker_drain, follow_proposal, verify_drained, unregister_next, patch_broker_drain_condition. no_wait.
Qed.

Lemma scale_down_never_waits siblings observed :
  results (λ r, ¬ part_waits id r)
    (reconcile_controller_scale_down (ByteRate := ByteRate) parse_uuid uuid_str ts pcfg pool ns cluster name siblings observed).
Proof.
  unfold reconcile_controller_scale_down. destruct (and_then _ _); [|no_wait]. destruct (_ <=? _); [no_wait|].
  apply (results_part id); [|by intros ? []|].
  - destruct (has_role _ _); [apply drain_never_waits|no_wait].
  - intros [act|] Hact; [done|]. unfold remove_scaled_voter. no_wait.
Qed.

(** A deleted pool waits once its finalizer is gone. *)
Definition finalizer_gone (h : list (event dresp)) : Prop :=
  Drain.has_finalizer pool = false ∨ ev (resp := dresp) (Drain.PatchFinalizers (Drain.finalizers_with pool false)) (Ok tt) ∈ h.

Lemma release_pool_waits sts pods roles h :
  always (release_pool (ByteRate := ByteRate) (Uuid := Uuid) pcfg pool cluster name sts pods roles) h
    (λ h r, waits r → finalizer_gone h).
Proof.
  unfold release_pool. apply always_then. intros h1 [[]|e] _; [|by intros [=]].
  destruct pods; [|by intros [=]]. apply always_then. intros h2 [[]|e] _; [|by intros [=]].
  unfold Drain.set_finalizer. apply (always_call (resp := dresp) (Drain.PatchFinalizers (Drain.finalizers_with pool false))).
  intros [[]|e]; [|by intros [=]]. cbn. intros _. right. set_solver.
Qed.

Lemma deletion_waits parent_deleting :
  all_runs (reconcile_deletion (ByteRate := ByteRate) parse_uuid uuid_str ts pcfg pool ns cluster name parent_deleting)
    (λ tr r, waits r → finalizer_gone tr).
Proof.
  unfold all_runs, reconcile_deletion. destruct (Drain.has_finalizer pool) eqn:Hf; [|intros _; by left].
  apply always_then. intros h1 [sts|e] _; [|by intros [=]]. apply always_then. intros h2 [pods|e] _; [|by intros [=]].
  destruct (is_none_or id parent_deleting); [apply release_pool_waits|].
  apply (always_seq _ _ _ (λ _ r, ¬ part_waits id r)).
  { apply always_results. destruct (_ && _); [apply drain_never_waits|no_wait]. }
  intros h3 [[act|]|e] _ Hact; [intros [= ->]; by destruct Hact| |by intros [=]].
  apply (always_seq _ _ _ (λ _ r, ¬ part_waits id r)).
  { apply always_results. destruct (has_role _ _); [|no_wait]. unfold remove_deleted_voter. no_wait. }
  intros h4 [[act|]|e] _ Hact'; [intros [= ->]; by destruct Hact'|apply release_pool_waits|by intros [=]].
Qed.
End drain_waits.

Section pool_waits.
Context {Time ByteSize Ratio F64 ByteRate Uuid : Type}.
Context `{TimeOps Time} `{MetadataVersions} `{UuidOps Uuid} `{EqDecision Uuid}.
Context (human_time : Time → string) (display_f64 : F64 → string).
Context (queue_capacity frame_max : Z → result Z string) (max_metadata_version : string).
Context (display_error : ReconcileError → string) (display_admin : AdminError → string).
Context (parse_i32_error : string → string).
Context (ts : string) (cfg : node_config (Time := Time)) (pool : KafkaNodePool).
#[local] Notation nresp := (node_resp (Time := Time) (ByteSize := ByteSize) (Ratio := Ratio) (F64 := F64)
  (ByteRate := ByteRate) (Uuid := Uuid)).
#[local] Notation nev := (ev (resp := nresp)).
Implicit Types (h : list (event nresp)).

(** What a waiting pass saw of the pool itself: an invalid spec, no link to a cluster, a
    storage change against its own StatefulSet, or its deletion, all done. *)
Definition own_reason h : Prop :=
  (∃ e, NodePool.validate pool = Err e) ∨ label (kp_meta pool) "krabka.io/cluster" = None ∨
  (∃ sts observed e, nev (OnDrain (Drain.GetStatefulSet sts)) (Ok observed) ∈ h ∧
     validate_storage_change (storage (kp_spec pool))
       (opt_map (λ s, default [] (and_then (ss_spec s) ss_claims)) observed) = Err e) ∨
  (om_deleting (kp_meta pool) = true ∧ (Drain.has_finalizer pool = false ∨
     nev (OnDrain (Drain.PatchFinalizers (Drain.finalizers_with pool false))) (Ok tt) ∈ h)).

(** What it saw of all pools of the cluster together. *)
Definition topology_reason h : Prop :=
  ∃ cluster siblings statefulsets pods e, label (kp_meta pool) "krabka.io/cluster" = Some cluster ∧
    nev (PoolPass.ListSiblings cluster) (Ok siblings) ∈ h ∧ nev (PoolPass.ListStatefulSets cluster) (Ok statefulsets) ∈ h ∧
    nev (PoolPass.ListTopologyPods cluster) (Ok pods) ∈ h ∧ validate_topology siblings statefulsets pods = Err e.

#[local] Notation explained := (λ h r, waits r → own_reason h ∨ topology_reason h).

Lemma stop_with_explained h c act : (act = AwaitChange → ∀ h', h ⊆ h' → own_reason h' ∨ topology_reason h') →
  always (PoolPass.stop_with c act : prog nresp _) h explained.
Proof.
  intros Hact. unfold PoolPass.stop_with. apply always_then. intros h' [[]|e] Hs; [|by intros [=]].
  intros [= ->]. by apply Hact.
Qed.

Lemma nodes_explained h parent cluster siblings pods :
  always (reconcile_nodes (ByteRate := ByteRate) human_time display_f64 queue_capacity frame_max max_metadata_version
    display_error display_admin parse_i32_error ts cfg pool parent cluster siblings pods : prog nresp _) h explained.
Proof.
  unfold reconcile_nodes. destruct (select_quorum_bootstrap siblings) as [[node_id candidate]|]; [|by intros [=]].
  apply always_then. intros h1 [bootstrap|e] _; [|by intros [=]].
  apply always_then. intros h2 [ids|e] _; [|by intros [=]].
  apply (always_call (resp := nresp) (OnDrain (Drain.GetStatefulSet _))). intros [observed|e]; [|by intros [=]].
  cbn [map_err]. destruct (validate_storage_change _ _) as [[]|e] eqn:Hsc.
  2: { apply stop_with_explained. intros _ h' Hs. left. right; right; left. exists (cluster +:+ "-" +:+ pool_name pool), observed, e.
       split; [apply Hs; logged|exact Hsc]. }
  apply (always_seq _ _ _ (λ _ r, ¬ part_waits id r)).
  { apply always_results, results_lift, scale_down_never_waits. }
  intros h3 [[act|]|e] _ Hact; [intros [= ->]; by destruct Hact| |by intros [=]].
  apply always_no_wait. unfold apply_pool, PoolPass.finish. no_wait.
Qed.

Lemma linked_explained h parent cluster : label (kp_meta pool) "krabka.io/cluster" = Some cluster →
  always (reconcile_linked (ByteRate := ByteRate) human_time display_f64 queue_capacity frame_max max_metadata_version
    display_error display_admin parse_i32_error ts cfg pool parent cluster : prog nresp _) h explained.
Proof.
  intros Hlab. unfold reconcile_linked. destruct (Drain.has_finalizer pool).
  2: { apply always_then. intros h1 [[]|e] _; by intros [=]. }
  cbn [negb]. destruct (PoolPass.version_gate _ _ _); [by apply stop_with_explained|].
  apply (always_call (resp := nresp) (PoolPass.ListSiblings cluster)). intros [siblings|e]; [|by intros [=]].
  apply (always_call (resp := nresp) (PoolPass.ListStatefulSets cluster)). intros [statefulsets|e]; [|by intros [=]].
  apply (always_call (resp := nresp) (PoolPass.ListTopologyPods cluster)). intros [pods|e]; [|by intros [=]].
  cbn [map_err]. destruct (validate_topology siblings statefulsets pods) as [[]|e] eqn:Ht.
  2: { apply stop_with_explained. intros _ h' Hs. right. exists cluster, siblings, statefulsets, pods, e.
       split_and!; [done|apply Hs; logged..|done]. }
  destruct (waits_for_controllers _ _); [by apply stop_with_explained|apply nodes_explained].
Qed.

(** A pool that waits has a reason of its own, which a change of the pool or of its
    StatefulSet ends, or the topology of the cluster was refused. *)
Lemma pool_waits_explained :
  all_runs (PoolPass.reconcile_inner (ByteRate := ByteRate) human_time display_f64 queue_capacity frame_max
    max_metadata_version display_error display_admin parse_i32_error ts cfg pool : prog nresp _) explained.
Proof.
  unfold all_runs, PoolPass.reconcile_inner. destruct (NodePool.validate pool) as [[]|e] eqn:Hval.
  2: { apply stop_with_explained. intros _ h' _. left. left. by exists e. }
  destruct (label (kp_meta pool) "krabka.io/cluster") as [cluster|] eqn:Hlab.
  2: { apply stop_with_explained. intros _ h' _. left. by right; left. }
  apply always_then. intros h1 [parent|e] _; [|by intros [=]].
  destruct (om_deleting (kp_meta pool)) eqn:Hdel.
  - unfold on_drain. eapply always_lift; [apply deletion_waits|]. intros tr1 tr r Htr Hr Hw. left. right; right; right.
    split; [done|]. destruct (Hr Hw) as [?|Hin]; [by left|right]. apply elem_of_app. right.
    destruct (lifted_elem _ _ _ _ _ Htr Hin) as (e2 & He2 & c & x & Heq & ->).
    apply (f_equal (λ e, nev (OnDrain (projT1 e)) (projT2 e))) in Heq.
    exact (eq_ind_r (λ e, e ∈ tr) He2 Heq).
  - destruct parent as [parent|]; [by apply linked_explained|by apply stop_with_explained].
Qed.
(** *** What wakes a pool *)
Lemma rendered_meta parent image shell s :
  render_statefulset_with_shell (ByteSize := ByteSize) (Ratio := Ratio) human_time display_f64 queue_capacity frame_max max_metadata_version parent pool image shell
    = Ok s →
  om_namespace (ss_meta s) = Some (default "" (om_namespace (kp_meta pool))) ∧
  (∃ owner, owner_ref "KafkaNodePool" (kp_meta pool) = Ok owner ∧ om_owners (ss_meta s) = [owner]) ∧
  ∃ spec, ss_spec s = Some spec.
Proof.
  unfold render_statefulset_with_shell. destruct (client_resource_policy _); [|done]. cbn [map_err].
  destruct (check_delete_claims _ _); [|done]. destruct (render_storage _ _ _ _ _ _ _ _ _ _).
  destruct (owner_ref _ _) as [owner|]; [|done]. intros [= <-]. cbn. eauto 6.
Qed.

Section wakes.
Context `{ControllerRuntime}.

Ltac by_sources :=
  rewrite triggers_iff; cbn; setoid_rewrite elem_of_cons; setoid_rewrite elem_of_cons; setoid_rewrite elem_of_nil.

Lemma owned_wakes_pool kind m owner : kind ∈ ["StatefulSet"; "PodDisruptionBudget"] →
  owner_ref "KafkaNodePool" (kp_meta pool) = Ok owner → om_owners m = [owner] →
  wakes_only pool_controller kind m (om_namespace m, pool_name pool).
Proof.
  intros Hk. unfold owner_ref. destruct (om_uid (kp_meta pool)) as [uid|]; [|done]. intros [= <-] Ho r'.
  by_sources. rewrite elem_of_cons, list_elem_of_singleton in Hk. split.
  - intros [[-> _]|(s & [->|[->|[]]] & Hw)]; [by destruct Hk| |];
      destruct Hw as (_ & w & Hw & _ & ->); cbn in Hw; rewrite Ho, list_elem_of_singleton in Hw; by subst w.
  - intros ->. right. exists (Owns kind). split; [naive_solver|]. split; [done|].
    cbn. rewrite Ho. eexists. by rewrite list_elem_of_singleton.
Qed.

Lemma applied_wakes_pool h n s ns : om_namespace (kp_meta pool) = Some ns →
  apply_ok (ByteRate := ByteRate) human_time display_f64 queue_capacity frame_max max_metadata_version
    parse_i32_error cfg pool h n s →
  wakes_only pool_controller "StatefulSet" (ss_meta s) (Some ns, pool_name pool).
Proof.
  intros Hns (parent & cl & sib & pods & boot & ids & observed & rendered & _ & _ & _ & _ & _ & _ & _ & Hr & ->).
  destruct (rendered_meta _ _ _ _ Hr) as (Hrn & (owner & Ho & Hos) & spec & Hspec).
  destruct (applied_over_reads rendered observed spec Hspec) as [-> _]. rewrite Hns in Hrn. cbn in Hrn. rewrite <- Hrn.
  by apply (owned_wakes_pool _ _ owner); [set_solver|..].
Qed.

(** A pool wakes itself, and the cluster that its label names. *)
Lemma pool_wakes m :
  wakes_only pool_controller "KafkaNodePool" m (om_namespace m, name_any m) ∧
  ∀ ns cluster, om_namespace m = Some ns → label m "krabka.io/cluster" = Some cluster →
    wakes_only kafka_controller "KafkaNodePool" m (Some ns, cluster).
Proof.
  split.
  - intros r'. by_sources. naive_solver.
  - intros ns cluster Hns Hl r'. by_sources. split.
    + intros [[Hk _]|(s & [->|[->|[]]] & Hw)]; [done| |by destruct Hw].
      cbn in Hw. unfold parent_of_pool in Hw. rewrite Hns, Hl in Hw. set_solver.
    + intros ->. right. eexists. split; [by left|]. cbn. unfold parent_of_pool. rewrite Hns, Hl. set_solver.
Qed.

(** What the check of the topology reads of others wakes no pool: neither another pool,
    nor its StatefulSet, nor a Pod. *)
Lemma sibling_change_unseen (other : KafkaNodePool) (m : object_meta) ns owner :
  pool_name other ≠ pool_name pool → owner_ref "KafkaNodePool" (kp_meta other) = Ok owner → om_owners m = [owner] →
  (ns, pool_name pool) ∉ triggers pool_controller {| wo_kind := "KafkaNodePool"; wo_meta := kp_meta other |} ∧
  (ns, pool_name pool) ∉ triggers pool_controller {| wo_kind := "StatefulSet"; wo_meta := m |} ∧
  ∀ m' r, r ∉ triggers pool_controller {| wo_kind := "Pod"; wo_meta := m' |}.
Proof.
  intros Hne. unfold owner_ref. destruct (om_uid (kp_meta other)) as [uid|]; [|done]. intros [= <-] Hm.
  split_and!; [| |intros m' r]; by_sources; [naive_solver|..|naive_solver].
  intros [[? _]|(s & [->|[->|[]]] & Hw)]; [done| |by destruct Hw].
  destruct Hw as (_ & w & Hw & _ & [= _ Hn]). cbn in Hw. rewrite Hm, list_elem_of_singleton in Hw. subst w. by destruct Hne.
Qed.

(** C31. A pass over a node pool that ends without asking for another turn does so only
    when its own spec is invalid, it names no cluster, its storage contradicts the claim
    templates of its own StatefulSet, it is deleted and its finalizer gone, or the check of
    the topology, over all pools, StatefulSets and Pods of its cluster, failed.  The
    controller is then woken, for exactly this pool, by a change of the pool and by a change
    of any StatefulSet that a pass applied or budget that it rendered for the pool. *)
Theorem pool_wait_ends :
  all_runs (PoolPass.reconcile_inner (ByteRate := ByteRate) human_time display_f64 queue_capacity frame_max
    max_metadata_version display_error display_admin parse_i32_error ts cfg pool : prog nresp _) (λ tr r,
    (waits r → own_reason tr ∨ topology_reason tr) ∧
    ∀ ns, om_namespace (kp_meta pool) = Some ns →
      wakes_only pool_controller "KafkaNodePool" (kp_meta pool) (Some ns, pool_name pool) ∧
      (∀ n s x, nev (PoolPass.ApplyStatefulSet n s) x ∈ tr →
         wakes_only pool_controller "StatefulSet" (ss_meta s) (Some ns, pool_name pool)) ∧
      (∀ cluster b, render_pod_disruption_budget pool ns cluster = Ok b →
         wakes_only pool_controller "PodDisruptionBudget" (pdb_meta b) (Some ns, pool_name pool))).
Proof.
  eapply all_runs_mono; [|apply always_and; [apply pool_waits_explained|apply pool_steps]].
  intros tr r [Hw Hj]. split; [done|]. intros ns Hns. split; [|split].
  - rewrite <- Hns. apply pool_wakes.
  - intros n s x (pre & post & Heq)%list_elem_of_split. eapply applied_wakes_pool; [done|]. exact (Hj _ _ _ Heq).
  - intros cl b. unfold render_pod_disruption_budget.
    destruct (owner_ref _ _) as [owner|] eqn:Ho; [|done]. intros [= <-].
    match goal with |- wakes_only _ _ ?m _ => by apply (owned_wakes_pool _ m owner); [set_solver|..] end.
Qed.
End wakes.
End pool_waits.

(** *** A pool that waits: its cluster has no controllers yet *)
Section example.
#[local] Existing Instance QuorumDemo.uuid_nat.

Definition lone_pool : KafkaNodePool :=
  {| kp_meta := ObjectMeta (Some "pool") (Some "kafka") (Some "u2") (Some {["krabka.io/cluster" := "prod"]}) None
                  (Some [Drain.FINALIZER]) None false [];
     kp_spec := kp_spec (rendered_pool demo_single [NodePool.Broker] None);
     kp_status := None |}.
Definition cleared_parent : Kafka Z Z Z Z :=
  {| k_meta := k_meta (demo_parent None); k_spec := k_spec (demo_parent None);
     k_status := Some {| kst_conditions := []; kst_replicas := None; kst_ready_replicas := None; kst_listeners := [];
                         kst_cluster_ca := None; kst_clients_ca := None; kst_kafka_version := None;
                         kst_target_metadata_version := None; kst_metadata_version := Some "4.0" |} |}.
Definition lone_config : node_config (Time := Z) :=
  {| nc_pool := {| Drain.controller_error_requeue := 30; Drain.controller_dependency_requeue := 10 |};
     nc_default_broker_image := None; nc_default_shell_image := None |}.
#[local] Notation zev := (ev (resp := node_resp (Time := Z) (ByteSize := Z) (Ratio := Z) (F64 := Z) (ByteRate := Z) (Uuid := nat))).
Definition lone_log :=
  [zev (PoolPass.GetParent "prod") (Ok (Some cleared_parent)); zev (PoolPass.ListSiblings "prod") (Ok [lone_pool]);
   zev (PoolPass.ListStatefulSets "prod") (Ok []); zev (PoolPass.ListTopologyPods "prod") (Ok []);
   zev (OnDrain (Drain.PatchPoolStatus (condition_for_validation_error "now" NoControllerNodes))) (Ok tt)].

(** One call of a run, with the program evaluated up to it. *)
Ltac head_step :=
  lazymatch goal with |- runs ?p ?tr ?r => let q := eval lazy head in p in change (runs q tr r); constructor end.

Lemma pool_wait_ends_witness :
  (own_reason lone_pool lone_log ∨ topology_reason lone_pool lone_log) ∧
  wakes_only pool_controller "KafkaNodePool" (kp_meta lone_pool) (Some "kafka", "pool").
Proof.
  assert (runs (PoolPass.reconcile_inner (H0 := sample_levels) (ByteRate := Z) (Uuid := nat) display_Z display_Z Ok Ok "4.0"
    (λ _, "") (λ _, "") id "now" lone_config lone_pool) lone_log (Ok AwaitChange)) as Hrun.
  { unfold lone_log. do 5 head_step. constructor. }
  destruct (runs_elim _ _ _ _ Hrun (pool_wait_ends (H0 := sample_levels) display_Z display_Z Ok Ok "4.0"
    (λ _, "") (λ _, "") id "now" lone_config lone_pool)) as [Hw Hwake].
  split; [by apply Hw|]. by apply (Hwake "kafka").
Defined.
End example.
